(* ===== verification/_CoqProject ===== *)
-Q . S2P
Prelude.v
GoStrings.v
GoErrors.v
Delivery.v
Utf8.v
Json.v
JsonFacts.v
JsonDecode.v
GoHttp.v
Sha256.v
GoTime.v
Config.v
Database.v
DatabaseFacts.v
RedisServer.v
World.v
Migrations.v
Simulation.v
WorldFacts.v
RedisFacts.v
Operations.v
Ingestion.v
Samples.v
IngestionSpec.v
Interleaving.v
Linearizable.v
Progress.v
Outbox.v
RowLocks.v
Publishers.v
Redrives.v
RedisStream.v
AiTriage.v
HttpApi.v
OperationalHandlers.v
HttpFacts.v
GoTimeParse.v
Replay.v
ReplayFacts.v
EventExplain.v
MockDestination.v
Worker.v
WorkerFacts.v
System.v
Receipts.v
Server.v
Process.v
ProcessFacts.v
TestUtil.v
