(* ===== verification/Prelude.v ===== *)
(** * EventRail: a verification development

    EventRail (the Go program under [src/]) accepts events over HTTP, stores each
    with an outbox row in one PostgreSQL transaction, publishes outbox rows to a
    Redis stream, delivers stream messages to webhook destinations with retries,
    and dead-letters what cannot be delivered; an operator reads states,
    redrives dead letters, replays stored events, and asks an AI service to
    explain what happened.  This library models that pipeline with its HTTP
    server, and proves that it does not lose, double-store or silently drop
    events, whatever the servers answer.

    ** Parts of the program and files of the library

    Language and library of Go:
    - [Prelude]: notations, tactics, the state-and-error monad [GoM], lemmas on
      lists and maps, 64-bit wrap-around.
    - [GoStrings], [Utf8], [GoTime], [GoTimeParse]: [strings], [strconv],
      [unicode/utf8], the RFC 3339 texts of [time] and [time.Parse] of them, with
      their round trip.  [GoErrors]: error chains, [errors.Is]/[errors.As].
    - [Json], [JsonFacts], [JsonDecode]: the scanner and printer of
      [encoding/json], their round trip, and decoding into structs (field names,
      types, nulls, duplicates).  [Sha256]: [crypto/sha256] with [encoding/hex].
    - [GoHttp]: requests and response writers of [net/http], [http.Error],
      [http.MaxBytesReader].

    The servers:
    - [Database]: the tables of [migrations/*.sql] and every SQL statement of the
      store packages as a function on them; [DatabaseFacts]: the schema invariant
      and what the searching statements return.
    - [RedisServer]: Redis as an interface (commands and laws).
    - [World], [WorldFacts]: the state all components share (committed tables, open
      transaction, Redis, clock, HTTP destinations) and the schedule of faults.
    - [Simulation], [Samples]: executable servers that satisfy the interfaces, and
      the states the witnesses run on.

    The components:
    - [Delivery]: [internal/delivery/failure.go].
    - [Config]: [internal/config/config.go].
    - [Migrations]: [migrations/migrate.go], on a world of its own (the schema and
      the table of applied files).
    - [Operations]: [internal/operations/store.go] (recorder, reads, redrive).
    - [Ingestion]: [internal/ingestion/{store,request_hash}.go]; [IngestionSpec]:
      the abstract idempotent store it refines.  [Interleaving]: the same code as a
      program of database calls, and a server that executes the calls of many such
      programs in any order; [Linearizable] and [Progress]: what that comes to.
    - [Outbox]: [internal/outbox/{publisher,runner}.go].
    - [RowLocks]: programs that lock a row, hand its event to the broker and record
      the outcome, a server that executes the calls of many of them in any order, a
      logic for such programs and the machine of the rows that they refine.
      [Publishers]: the publication round of [publisher.go] as such a program;
      [Redrives]: [RedriveDLQ].
    - [RedisStream]: [internal/broker/redisstream/publisher.go].
    - [Worker], [WorkerFacts]: [internal/deliveryworker/worker.go].
    - [HttpApi], [OperationalHandlers]: [internal/httpapi/{json,cors,event_handler,
      operations,operational_handlers}.go]; [AiTriage] and [EventExplain]:
      [ai_triage.go] and [event_explain.go] of the same package; [HttpFacts]: what
      their answers tell a client.
    - [Replay], [ReplayFacts]: [cmd/api/replay_handler.go], the text of the query it
      builds and PostgreSQL's reading of that text.
    - [MockDestination]: [cmd/mock-destination/main.go].
    - [System]: ingestion, publisher, worker, pump and redrive on one database and
      one Redis, as [cmd/api/main.go] starts them.
    - [Receipts]: the worker's deliveries arriving at the mock destination.
    - [Server]: [cmd/api/main.go]: startup, routes, the handlers it defines.
    - [Process]: the rest of [main] and [Worker.Run]: the goroutines, accepted
      requests, the signal, the shutdown, and any number of such processes;
      [ProcessFacts]: what they keep together.
    - [TestUtil]: [internal/testutil/postgres.go], on a world of its own (schemas,
      sessions, files).

    A definition has the name of the Go function or type it translates; a type
    whose name is also a function's has an underscore appended.  A Go function
    with effects is a function in [GoM]: it takes the world and returns a value
    or an error together with the new world.  [defer tx.Rollback] is
    [deferred_rollback]; a nil pointer is [None]; a panic is an error value that
    only the caller that Go would unwind to sees.

    ** Interfaces

    - [Postgres] (text forms of [uuid] and [jsonb], generated ids, scan order),
      [RedisCmds] with [RedisLaws], [NetClients] (validity of a URL, texts of
      errors of the HTTP client), [Strconv] (shortest decimal of a float),
      [LocalZone] (the zone times are printed in), [MapRange] (the order of
      [range] over a map), [AIService] (an exchange with the AI service),
      [Server.UrlText] (the text of a redirect).  They stand for code that is not
      in the repository or is not specified; [Simulation] and the files of their
      clients give instances.
    - [Outbox.Broker]: what a publish function promises the publisher;
      [RedisStream] discharges it.  [Operations.RedriveSender]: the same for a
      redrive.  [WorkerFacts.RecorderSpec]: what a recorder promises the worker;
      the operational store and the no-op recorder are instances.
    - [RowLocks.Table] and [RowLocks.Lifecycle]: the table whose rows are locked and
      what may become of a row; the outbox and the dead letters are instances.
    - [ProcessFacts.Kept]: what an invariant of the servers has to promise so that
      whole processes keep it; well-formed tables and "no event is lost" are
      instances.

    ** Faults, time and concurrency

    Every call to PostgreSQL or Redis consumes one [reply] of the schedule: it
    works, fails without effect, or takes effect and reports an error; and it may
    take any time.  A theorem over all worlds therefore covers every pattern of
    failures, lost replies and crashes inside an operation.

    Concurrency is modelled at four levels.  In [System] a step is one call of one
    component, in any order.  In [Process] a step is a round of a loop, a request, or
    a move of [main], of any of the processes; a round may see the context cancelled
    at any instant within it, and a process may be killed at any time.  In
    [Interleaving] the steps are the single statements of overlapping ingestion
    requests, each with a transaction of its own (READ COMMITTED, insertions wait for
    uncommitted rows they collide with); the order they are equivalent to is what
    justifies taking a request as one step elsewhere.  In [RowLocks] the steps are the
    single calls of overlapping publishers, or of overlapping redrives, with row
    locks ([FOR UPDATE], [SKIP LOCKED]), faults at every call and killed processes;
    the other components appear as changes of rows that nobody has locked.  In a
    round that is taken as one step, the rows that others have locked are
    [w_locked].

    ** Theorems

    - The pipeline: [System.no_event_lost]; starting it: [startup]; whole
      deployments: [deployment_loses_nothing], [deployment_well_formed].  With the
      receipt service at the other end an event is receipted at most once
      ([receipted_at_most_once]).
    - A process: the order of its shutdown ([shutdown_in_order]) and its end
      ([shutdown_terminates]).
    - Ingestion: a request is atomic ([persist_atomic]), accepted when servers
      answer ([persist_creates]), and idempotent ([persist_idempotent]); a sequence
      of requests refines the abstract store ([ingestion_refines]), overlapping
      requests are linearizable ([concurrent_linearizable], about the program of
      [persist_prog_alone]) and never wait for each other in a circle
      ([requests_finish]); the status of
      an answer tells what was stored ([create_event_http]), and a created event
      can be read back ([create_then_get]).
    - Outbox: the outcomes of a round ([publish_next_outcome]), at-least-once
      ([publish_next_at_least_once]), progress of the runner ([runner_drains]),
      the backoff ([outboxBackoff_exponential]).  Publishers that overlap refine the
      machine of the rows ([publishers_refine], about the program of
      [publish_prog_alone]), publish a row once ([published_once]), hand an event
      over no more often than is accounted for ([hand_overs_bounded]) and never wait
      for each other ([publishers_wait_free]).
    - Worker: acknowledgement only after a durable outcome
      ([ack_only_when_settled]), bounded retries ([retries_bounded]), consistent
      dead letters ([dead_letter_consistent]), the retry set
      ([pump_keeps_retries], [retry_roundtrip]), requests and classification of
      responses ([webhook_delivery], [http_failure_classification]), the retry
      delay and where its cap fails ([backoffDelay_exponential],
      [backoffDelay_overflow]).
      The retry pump returns once it is cancelled ([retryPump_terminates]).
    - Operations: [redrive_safe], [event_status_current], [list_dlq_page],
      [metrics_consistent]; over HTTP [dlq_endpoint].  Redrives that overlap
      ([redrive_prog_alone], [redrives_refine]) send an event once
      ([redriven_once]) and do not deadlock ([redrives_progress]).
    - Replay: one page ([replay_page]); following the cursors is one ordered scan
      ([replay_session_exact]), which ends ([replay_session_terminates]); moving a
      group's cursor ([set_cursor_http]).
    - The server: only POST changes anything ([server_only_post]).
    - The AI service: what it is told ([explain_snapshot],
      [boundExplainHistory_spec]) and what is believed of its answers
      ([explain_outcome]).
    - Migrations run exactly once and in order ([migrations_exactly_once],
      [migrations_complete]); the configuration ([load_outcome],
      [load_interval_overflow]); the mock destination ([mock_exactly_once],
      [mock_accounting]).
    - Integration tests do not touch each other's schemas
      ([test_database_isolated]), find the migrations of their checkout
      ([findMigrationsDir_nearest]), and may keep a lock longer than they mean to
      ([unlock_needs_its_session]).

    ** Fuel and bounds

    The JSON scanner takes fuel from the length of the input, which each nested
    call shortens.  [Outbox.Run], [Worker.runStreamWorker] and [Worker.retryPump]
    take a number of rounds; their result tells whether they returned within it.
    [runner_drains] and [retryPump_terminates] state how many are enough.  The
    stream loop is also executed round by round in [Process], without fuel, and
    stops in the first round after the cancellation.  The search for the migrations
    takes the length of the working directory as fuel, which
    [findMigrationsDir_nearest] shows to be enough.  [int] and [time.Duration] are [Z] wrapped to 64 bits
    where the code computes with them; INTEGER columns are checked to 32 bits.

    ** Not modelled

    Log lines (except those of [TestUtil]); the duration of an HTTP exchange with a
    destination; sockets, the HTTP wire format and the timeouts of the server;
    cancellation of a request's context; interleaving inside the recorder's
    transactions (appended rows, and a dead letter written under its row lock); texts that are not valid in the encoding of the
    database, which PostgreSQL refuses; the SQL of the migration files as text (its
    effect is a parameter of [Migrations], the tables it creates are those of
    [Database]); the Python service, the dashboard and the scripts, which are other
    programs. *)

From stdpp Require Export base strings list gmap sorting pretty.
From Stdlib Require Export ZArith Lia Ascii.
From Hammer Require Export Tactics.

(** ** Scope and base settings *)

Declare Scope rail_scope.
Delimit Scope rail_scope with rail.
#[global] Open Scope rail_scope.
#[global] Open Scope string_scope.
#[global] Open Scope list_scope.
#[global] Open Scope Z_scope.

(** ** Go's machine integers

    [int], [int64] and [time.Duration] are 64-bit two's complement on the
    platforms the Dockerfile builds for.  Values are [Z]; every arithmetic
    operation that can overflow is written with [wrap64]. *)

Definition int64_min : Z := - 2 ^ 63.
Definition int64_max : Z := 2 ^ 63 - 1.

Definition in_int64 (z : Z) : bool := (int64_min <=? z) && (z <=? int64_max).

Definition wrap64 (z : Z) : Z := (z + 2 ^ 63) mod 2 ^ 64 - 2 ^ 63.

(** [x << n] on [int]: a negative count panics ([None]), a count of 64 or more
    gives 0. *)
Definition shl64 (x n : Z) : option Z :=
  if n <? 0 then None else if 64 <=? n then Some 0 else Some (wrap64 (Z.shiftl x n)).

(** ** Results of fallible Go calls

    A Go function with result [(A, error)] is a computation with result
    [res E A]; [Err e] is a non-nil error. *)

Inductive res (E A : Type) : Type :=
| Ok (a : A)
| Err (e : E).
Arguments Ok {E A} a.
Arguments Err {E A} e.

#[global] Instance res_eq_dec {E A} `{EqDecision E, EqDecision A} : EqDecision (res E A).
Proof. solve_decision. Defined.

Definition res_bind {E A B} (r : res E A) (k : A -> res E B) : res E B :=
  match r with Ok a => k a | Err e => Err e end.

Definition res_map_err {E A} (f : E -> E) (r : res E A) : res E A :=
  match r with Ok a => Ok a | Err e => Err (f e) end.

Definition is_ok {E A} (r : res E A) : bool := match r with Ok _ => true | Err _ => false end.

(** ** The effect monad

    Effectful Go code is state passing over a world type [S] with early return
    on error: [let! x := m in k] is [x, err := m; if err != nil { return err };
    k].  [catch m] exposes the error as a value, for code that inspects it. *)

Definition GoM (E S A : Type) : Type := S -> res E A * S.

Definition gret {E S A} (a : A) : GoM E S A := fun s => (Ok a, s).
Definition gerr {E S A} (e : E) : GoM E S A := fun s => (Err e, s).
Definition gbind {E S A B} (m : GoM E S A) (k : A -> GoM E S B) : GoM E S B :=
  fun s => match m s with
           | (Ok a, s') => k a s'
           | (Err e, s') => (Err e, s')
           end.
Definition catch {E S A} (m : GoM E S A) : GoM E S (res E A) :=
  fun s => let '(r, s') := m s in (Ok r, s').
Definition wrap_err {E S A} (f : E -> E) (m : GoM E S A) : GoM E S A :=
  fun s => let '(r, s') := m s in (res_map_err f r, s').
Definition lift_res {E S A} (r : res E A) : GoM E S A := fun s => (r, s).
(** [defer cleanup()] around a body: the cleanup runs after the body on every
    path and its own result is discarded. *)
Definition defer {E S A} (cleanup : GoM E S unit) (body : GoM E S A) : GoM E S A :=
  fun s => let '(r, s') := body s in let '(_, s'') := cleanup s' in (r, s'').

Notation "'let!' x := m 'in' k" := (gbind m (fun x => k))
  (at level 10, x pattern, m at level 99, k at level 200,
   format "'[v' 'let!'  x  :=  m  'in' '/' k ']'") : rail_scope.

(** ** Automation *)

Create HintDb rail.
Create Rewrite HintDb rail.

(** Case analysis on every [match] scrutinee of the goal or hypotheses, with
    contradictory and trivial branches closed. *)
Ltac rail_split :=
  repeat (case_match; simplify_eq/=; try done).

(** Turn boolean tests in hypotheses and goal into propositions for [lia]. *)
Ltac rail_bool :=
  repeat match goal with
    | H : (_ && _)%bool = true |- _ => apply andb_true_iff in H; destruct H
    | H : (_ || _)%bool = false |- _ => apply orb_false_iff in H; destruct H
    | H : negb _ = true |- _ => apply negb_true_iff in H
    | H : negb _ = false |- _ => apply negb_false_iff in H
    | H : (_ =? _)%Z = true |- _ => apply Z.eqb_eq in H
    | H : (_ =? _)%Z = false |- _ => apply Z.eqb_neq in H
    | H : (_ <=? _)%Z = true |- _ => apply Z.leb_le in H
    | H : (_ <=? _)%Z = false |- _ => apply Z.leb_gt in H
    | H : (_ <? _)%Z = true |- _ => apply Z.ltb_lt in H
    | H : (_ <? _)%Z = false |- _ => apply Z.ltb_ge in H
    | H : bool_decide _ = true |- _ => apply bool_decide_eq_true in H
    | H : bool_decide _ = false |- _ => apply bool_decide_eq_false in H
    | H : String.eqb _ _ = true |- _ => apply String.eqb_eq in H
    | H : String.eqb _ _ = false |- _ => apply String.eqb_neq in H
    end.

(** ** Lemmas on machine integers *)

Lemma in_int64_spec z : in_int64 z = true <-> int64_min <= z <= int64_max.
Proof. unfold in_int64. rewrite andb_true_iff, !Z.leb_le. done. Qed.

Lemma wrap64_id z : int64_min <= z <= int64_max -> wrap64 z = z.
Proof.
  unfold wrap64, int64_min, int64_max. intros H.
  rewrite Z.mod_small; lia.
Qed.

Lemma wrap64_range z : int64_min <= wrap64 z <= int64_max.
Proof.
  unfold wrap64, int64_min, int64_max.
  pose proof (Z.mod_pos_bound (z + 2 ^ 63) (2 ^ 64)). lia.
Qed.

#[export] Hint Rewrite wrap64_id using lia : rail.

(** ** Lemmas on lists *)

Lemma filter_ext_elem {A} (P Q : A -> Prop) `{!forall x, Decision (P x), !forall x, Decision (Q x)} (l : list A) :
  (forall x, x ∈ l -> P x <-> Q x) -> filter P l = filter Q l.
Proof.
  induction l as [|x l IH]; [done|]. intros Hx. rewrite !filter_cons.
  rewrite IH by (intros y Hy; apply Hx; by right).
  pose proof (Hx x ltac:(by left)). repeat case_decide; tauto.
Qed.

Lemma take_elem {A} n (l : list A) x : x ∈ take n l -> x ∈ l.
Proof. intros (i & Hi & _)%elem_of_take. by eapply list_elem_of_lookup_2. Qed.

(** ** Lemmas on strings *)

Lemma string_app_nil_l (b : string) : "" +:+ b = b.
Proof. reflexivity. Qed.

Lemma string_app_cons c (a b : string) : String c a +:+ b = String c (a +:+ b).
Proof. reflexivity. Qed.

Lemma string_app_nil_r (a : string) : a +:+ "" = a.
Proof. induction a as [|c a IH]; [done|]. by rewrite string_app_cons, IH. Qed.

Lemma string_app_assoc (a b d : string) : (a +:+ b) +:+ d = a +:+ (b +:+ d).
Proof. induction a as [|c a IH]; [done|]. by rewrite !string_app_cons, IH. Qed.

Lemma string_app_length (a b : string) :
  String.length (a +:+ b) = (String.length a + String.length b)%nat.
Proof. induction a as [|c a IH]; [done|]. rewrite string_app_cons. simpl. by rewrite IH. Qed.

#[export] Hint Rewrite string_app_nil_l string_app_cons string_app_nil_r : rail.

Lemma string_of_list_app (a b : list ascii) :
  String.string_of_list_ascii (a ++ b) = String.string_of_list_ascii a +:+ String.string_of_list_ascii b.
Proof. induction a as [|c a IH]; [done|]. simpl. by rewrite IH. Qed.

Lemma string_of_list_length (l : list ascii) : String.length (String.string_of_list_ascii l) = length l.
Proof. induction l as [|c l IH]; [done|]. simpl. by rewrite IH. Qed.

(** ** Lemmas on the effect monad *)

Lemma gbind_ok {E S A B} (m : GoM E S A) (k : A -> GoM E S B) s a s' :
  m s = (Ok a, s') -> gbind m k s = k a s'.
Proof. unfold gbind. by intros ->. Qed.

Lemma gbind_err {E S A B} (m : GoM E S A) (k : A -> GoM E S B) s e s' :
  m s = (Err e, s') -> gbind m k s = (Err e, s').
Proof. unfold gbind. by intros ->. Qed.

(** Inversion of a sequence that succeeded. *)
Lemma gbind_inv_ok {E S A B} (m : GoM E S A) (k : A -> GoM E S B) s b s'' :
  gbind m k s = (Ok b, s'') ->
  exists a s', m s = (Ok a, s') /\ k a s' = (Ok b, s'').
Proof. unfold gbind. destruct (m s) as [[a|e] s']; naive_solver. Qed.

(** Inversion of a sequence in general. *)
Lemma gbind_inv {E S A B} (m : GoM E S A) (k : A -> GoM E S B) s r s'' :
  gbind m k s = (r, s'') ->
  (exists a s', m s = (Ok a, s') /\ k a s' = (r, s'')) \/
  (exists e, m s = (Err e, s'') /\ r = Err e).
Proof. unfold gbind. destruct (m s) as [[a|e] s']; naive_solver. Qed.

Lemma gbind_assoc {E S A B C} (m : GoM E S A) (f : A -> GoM E S B) (g : B -> GoM E S C) s :
  gbind (gbind m f) g s = gbind m (fun a => gbind (f a) g) s.
Proof. unfold gbind. by destruct (m s) as [[a|e] s']. Qed.

Lemma wrap_err_inv_ok {E S A} (f : E -> E) (m : GoM E S A) s a s' :
  wrap_err f m s = (Ok a, s') <-> m s = (Ok a, s').
Proof. unfold wrap_err. destruct (m s) as [[x|e] s1]; naive_solver. Qed.

(** Relational reasoning: a relation kept by every step of a computation is
    kept by the computation. *)
Definition keeps {E S A} (R : S -> S -> Prop) (m : GoM E S A) : Prop :=
  forall s, R s (m s).2.

Section Keeps.
Context {E S : Type} (R : S -> S -> Prop) `{!PreOrder R}.

Lemma keeps_ret {A} (a : A) : keeps R (gret (E:=E) a).
Proof. intros s. simpl. reflexivity. Qed.

Lemma keeps_err {A} (e : E) : keeps R (gerr (A:=A) e).
Proof. intros s. simpl. reflexivity. Qed.

Lemma keeps_lift {A} (r : res E A) : keeps R (lift_res r).
Proof. intros s. simpl. reflexivity. Qed.

Lemma keeps_bind {A B} (m : GoM E S A) (k : A -> GoM E S B) :
  keeps R m -> (forall a, keeps R (k a)) -> keeps R (gbind m k).
Proof.
  intros Hm Hk s. unfold gbind. specialize (Hm s).
  destruct (m s) as [[a|e] s']; simpl in *; [|done].
  etransitivity; [apply Hm | apply Hk].
Qed.

Lemma keeps_catch {A} (m : GoM E S A) : keeps R m -> keeps R (catch m).
Proof. intros Hm s. unfold catch. specialize (Hm s). by destruct (m s). Qed.

Lemma keeps_wrap {A} f (m : GoM E S A) : keeps R m -> keeps R (wrap_err f m).
Proof. intros Hm s. unfold wrap_err. specialize (Hm s). by destruct (m s). Qed.

Lemma keeps_defer {A} c (m : GoM E S A) : keeps R c -> keeps R m -> keeps R (defer c m).
Proof.
  intros Hc Hm s. unfold defer. specialize (Hm s). destruct (m s) as [r s'].
  specialize (Hc s'). destruct (c s') as [u s'']. simpl in *. by etransitivity.
Qed.
End Keeps.
