(* ===== verification/GoStrings.v ===== *)
(** * GoStrings: the parts of Go's [strings] and [strconv] the program uses

    Go strings are byte sequences; [string] is a list of 8-bit [ascii], so a
    string of the model is exactly a Go string.  [TrimSpace] works on the UTF-8
    encodings of the Unicode White_Space code points ([unicode.IsSpace]);
    [Atoi] and [Itoa] are [strconv]'s decimal conversions for [int]. *)

From S2P Require Import Prelude.

(** ** Byte strings *)

Definition bytes (l : list N) : string := String.string_of_list_ascii (map ascii_of_N l).

Fixpoint strip_prefix (p l : list ascii) : option (list ascii) :=
  match p, l with
  | [], _ => Some l
  | c :: p', d :: l' => if Ascii.eqb c d then strip_prefix p' l' else None
  | _ :: _, [] => None
  end.

(** The first of the sequences [seqs] that starts [l], removed from it. *)
Fixpoint strip_any (seqs : list (list ascii)) (l : list ascii) : option (list ascii) :=
  match seqs with
  | [] => None
  | p :: ps => match strip_prefix p l with Some l' => Some l' | None => strip_any ps l end
  end.

(** Remove sequences from the front as long as one matches; [length l] rounds
    are enough because every sequence is nonempty. *)
Fixpoint trim_front (fuel : nat) (seqs : list (list ascii)) (l : list ascii) : list ascii :=
  match fuel with
  | O => l
  | S n => match strip_any seqs l with Some l' => trim_front n seqs l' | None => l end
  end.

Definition trim_left_seqs (seqs : list (list ascii)) (l : list ascii) : list ascii :=
  trim_front (length l) seqs l.

Definition trim_seqs (seqs : list (list ascii)) (l : list ascii) : list ascii :=
  reverse (trim_left_seqs (map reverse seqs) (reverse (trim_left_seqs seqs l))).

(** UTF-8 encodings of the runes for which [unicode.IsSpace] holds. *)
Definition space_encodings : list (list N) :=
  [[9]; [10]; [11]; [12]; [13]; [32];
   [194; 133]; [194; 160];
   [225; 154; 128];
   [226; 128; 128]; [226; 128; 129]; [226; 128; 130]; [226; 128; 131];
   [226; 128; 132]; [226; 128; 133]; [226; 128; 134]; [226; 128; 135];
   [226; 128; 136]; [226; 128; 137]; [226; 128; 138];
   [226; 128; 168]; [226; 128; 169]; [226; 128; 175];
   [226; 129; 159]; [227; 128; 128]]%N.

Definition space_seqs : list (list ascii) := map (map ascii_of_N) space_encodings.

(** [strings.TrimSpace] *)
Definition TrimSpace (s : string) : string :=
  String.string_of_list_ascii (trim_seqs space_seqs (String.list_ascii_of_string s)).

(** [strings.TrimRight(s, "/")], [strings.Trim(s, "/")] with a one-byte cutset *)
Definition TrimRightByte (c : ascii) (s : string) : string :=
  String.string_of_list_ascii (reverse (trim_left_seqs [[c]] (reverse (String.list_ascii_of_string s)))).
Definition TrimByte (c : ascii) (s : string) : string :=
  String.string_of_list_ascii (trim_seqs [[c]] (String.list_ascii_of_string s)).

(** [strings.TrimPrefix], [strings.TrimSuffix], [strings.HasSuffix] *)
Definition TrimPrefix (s p : string) : string :=
  match strip_prefix (String.list_ascii_of_string p) (String.list_ascii_of_string s) with
  | Some l => String.string_of_list_ascii l
  | None => s
  end.
Definition TrimSuffix (s p : string) : string :=
  match strip_prefix (reverse (String.list_ascii_of_string p)) (reverse (String.list_ascii_of_string s)) with
  | Some l => String.string_of_list_ascii (reverse l)
  | None => s
  end.
Definition HasSuffix (s p : string) : bool :=
  match strip_prefix (reverse (String.list_ascii_of_string p)) (reverse (String.list_ascii_of_string s)) with
  | Some _ => true
  | None => false
  end.

(** [strings.Contains] *)
Fixpoint contains_list (p l : list ascii) : bool :=
  match strip_prefix p l with
  | Some _ => true
  | None => match l with [] => false | _ :: l' => contains_list p l' end
  end.
Definition Contains (s p : string) : bool :=
  contains_list (String.list_ascii_of_string p) (String.list_ascii_of_string s).

(** ** [strconv.Quote], float conversions, error texts of [encoding/json]

    The [%q] verb and the texts of JSON errors appear in error texts only, and
    floats only pass through the program on their way from a payload to a
    webhook body; they are parameters without laws. *)

Class Strconv := {
  Quote : string -> string;
  (** the text [json.Marshal] gives the float64 that a JSON number literal
      denotes ([strconv.ParseFloat], then the shortest formatting); [None] when
      the literal is out of the range of float64 *)
  float64_text : string -> option string;
  (** the text of the error [encoding/json] reports for an input it rejects *)
  json_error_text : string -> string;
}.

(** ** [strconv.Atoi] and [strconv.Itoa] *)

Definition digit_val (c : ascii) : option Z :=
  let n := Z.of_N (N_of_ascii c) in
  if (48 <=? n) && (n <=? 57) then Some (n - 48) else None.

Definition digit_char (d : Z) : ascii := ascii_of_N (Z.to_N (48 + d)).

Fixpoint parse_digits (s : string) (acc : Z) : option Z :=
  match s with
  | EmptyString => Some acc
  | String c s' => match digit_val c with
                   | Some d => parse_digits s' (acc * 10 + d)
                   | None => None
                   end
  end.

(** A sign is accepted, an empty digit string is not, and a value out of the
    range of [int] is an error. *)
Definition Atoi (s : string) : option Z :=
  let '(neg, ds) := match s with
                    | String c s' => if Ascii.eqb c "+" then (false, s')
                                     else if Ascii.eqb c "-" then (true, s')
                                     else (false, s)
                    | EmptyString => (false, s)
                    end in
  if String.eqb ds "" then None else
  match parse_digits ds 0 with
  | None => None
  | Some n => let v := if neg : bool then - n else n in
              if in_int64 v then Some v else None
  end.

Fixpoint fmt_digits (fuel : nat) (n : Z) (acc : string) : string :=
  match fuel with
  | O => acc
  | S f => let acc' := String (digit_char (n mod 10)) acc in
           if n <? 10 then acc' else fmt_digits f (n / 10) acc'
  end.

(** 19 digits are enough for the magnitude of an [int64]. *)
Definition Itoa (z : Z) : string :=
  if z <? 0 then String "-" (fmt_digits 20 (- z) "") else fmt_digits 20 z "".

(** ** Trimming *)

Lemma strip_prefix_spec p l l' : strip_prefix p l = Some l' <-> l = p ++ l'.
Proof.
  revert l. induction p as [|c p IH]; intros [|d l]; simpl; [naive_solver..|].
  destruct (Ascii.eqb_spec c d); naive_solver.
Qed.

Lemma HasSuffix_spec s p : HasSuffix s p = true <-> exists stem, s = stem +:+ p.
Proof.
  unfold HasSuffix. destruct (strip_prefix _ _) as [l|] eqn:E.
  - split; [intros _|done]. apply strip_prefix_spec in E. apply (f_equal reverse) in E.
    rewrite reverse_app, !reverse_involutive in E. exists (String.string_of_list_ascii (reverse l)).
    rewrite <- (String.string_of_list_ascii_of_string s), E. clear. induction (reverse l) as [|c r IH]; simpl.
    + apply String.string_of_list_ascii_of_string.
    + by rewrite IH.
  - split; [done|]. intros [stem ->]. rewrite (proj2 (strip_prefix_spec _ _ (reverse (String.list_ascii_of_string stem)))) in E; [done|].
    rewrite <- reverse_app. f_equal. clear. induction stem as [|c r IH]; [done|]. simpl. by rewrite IH.
Qed.

Lemma strip_any_spec seqs l l' :
  strip_any seqs l = Some l' -> exists p, p ∈ seqs /\ l = p ++ l'.
Proof.
  induction seqs as [|p ps IH]; simpl; [done|].
  destruct (strip_prefix p l) eqn:E; intros H; simplify_eq.
  - apply strip_prefix_spec in E. exists p. set_solver.
  - destruct (IH H) as (q & ? & ?). exists q. set_solver.
Qed.

Lemma strip_any_None seqs l :
  strip_any seqs l = None <-> forall p l', p ∈ seqs -> l <> p ++ l'.
Proof.
  induction seqs as [|p ps IH]; simpl; [set_solver|].
  destruct (strip_prefix p l) as [l'|] eqn:E.
  - apply strip_prefix_spec in E. split; [done|]. intros H. exfalso. eapply H; [|done]. set_solver.
  - assert (forall l', l <> p ++ l') by (intros l' ?%strip_prefix_spec; congruence).
    rewrite IH. split; intros Hx q l' Hq; [|apply Hx; set_solver].
    apply elem_of_cons in Hq as [->|Hq]; eauto.
Qed.

(** A list that starts with none of the sequences is left alone. *)
Lemma trim_left_seqs_id seqs l : strip_any seqs l = None -> trim_left_seqs seqs l = l.
Proof. unfold trim_left_seqs. destruct (length l); simpl; [done|]. by intros ->. Qed.

Section Trim.
Context (seqs : list (list ascii)) (Hne : Forall (fun p => p <> []) seqs).

Lemma trim_front_stable n l :
  (length l <= n)%nat -> strip_any seqs (trim_front n seqs l) = None.
Proof.
  revert l. induction n as [|n IH]; intros l Hl; simpl.
  - destruct l; [|simpl in Hl; lia].
    apply strip_any_None. intros p l' Hp Heq.
    rewrite Forall_forall in Hne. specialize (Hne _ Hp). by destruct p.
  - destruct (strip_any seqs l) as [l'|] eqn:E; [|done].
    apply IH. apply strip_any_spec in E as (p & Hp & ->).
    rewrite Forall_forall in Hne. specialize (Hne _ Hp).
    rewrite length_app in Hl. destruct p; simpl in *; [done|lia].
Qed.

Lemma trim_front_suffix n l : exists k, l = k ++ trim_front n seqs l.
Proof.
  revert l. induction n as [|n IH]; intros l; simpl; [by exists []|].
  destruct (strip_any seqs l) as [l'|] eqn:E; [|by exists []].
  apply strip_any_spec in E as (p & _ & ->).
  destruct (IH l') as [k Hk]. exists (p ++ k). rewrite <- app_assoc. by f_equal.
Qed.

Lemma trim_left_stable l : strip_any seqs (trim_left_seqs seqs l) = None.
Proof. apply trim_front_stable. lia. Qed.

(** A prefix of a list that starts with no sequence starts with none. *)
Lemma strip_any_prefix l k : strip_any seqs (l ++ k) = None -> strip_any seqs l = None.
Proof.
  rewrite !strip_any_None. intros H p l' Hp ->. eapply H; [done|]. by rewrite <- app_assoc.
Qed.
End Trim.

Lemma map_reverse_nonempty (seqs : list (list ascii)) :
  Forall (fun p => p <> []) seqs -> Forall (fun p => p <> []) (map reverse seqs).
Proof.
  intros H. apply Forall_forall. intros p Hp.
  apply list_elem_of_In, in_map_iff in Hp as (q & <- & Hq).
  rewrite Forall_forall in H. apply list_elem_of_In, H in Hq.
  intros He. apply Hq. by rewrite <- (reverse_involutive q), He.
Qed.

(** After trimming, neither end matches a sequence. *)
Lemma trim_seqs_stable seqs l :
  Forall (fun p => p <> []) seqs ->
  strip_any seqs (trim_seqs seqs l) = None /\
  strip_any (map reverse seqs) (reverse (trim_seqs seqs l)) = None.
Proof.
  intros Hne. unfold trim_seqs. rewrite reverse_involutive. split.
  - set (m := trim_left_seqs seqs l).
    destruct (trim_front_suffix (map reverse seqs) (length (reverse m)) (reverse m)) as [k Hk].
    apply (strip_any_prefix seqs _ (reverse k)). unfold trim_left_seqs at 1.
    rewrite <- reverse_app, <- Hk, reverse_involutive. by apply trim_left_stable.
  - by apply trim_left_stable, map_reverse_nonempty.
Qed.

Lemma trim_seqs_id seqs l :
  strip_any seqs l = None -> strip_any (map reverse seqs) (reverse l) = None ->
  trim_seqs seqs l = l.
Proof.
  intros H1 H2. unfold trim_seqs.
  by rewrite (trim_left_seqs_id seqs), trim_left_seqs_id, reverse_involutive.
Qed.

Lemma trim_seqs_idemp seqs l :
  Forall (fun p => p <> []) seqs -> trim_seqs seqs (trim_seqs seqs l) = trim_seqs seqs l.
Proof. intros H. destruct (trim_seqs_stable seqs l H). by apply trim_seqs_id. Qed.

Lemma space_seqs_nonempty : Forall (fun p => p <> []) space_seqs.
Proof. repeat (constructor; [done|]). constructor. Qed.

(** Trimming a prefix of a trimmed text only shortens it at its end. *)
Lemma trim_seqs_prefix seqs l k :
  strip_any seqs l = None -> exists rest, l = trim_seqs seqs (take k l) ++ rest.
Proof.
  intros Hl. unfold trim_seqs.
  rewrite (trim_left_seqs_id seqs) by (eapply strip_any_prefix; by rewrite take_drop).
  destruct (trim_front_suffix (map reverse seqs) (length (reverse (take k l))) (reverse (take k l))) as [p Hp].
  exists (reverse p ++ drop k l). unfold trim_left_seqs. rewrite app_assoc, <- reverse_app, <- Hp, reverse_involutive.
  by rewrite take_drop.
Qed.

Lemma trim_seqs_length seqs l : (length (trim_seqs seqs l) <= length l)%nat.
Proof.
  unfold trim_seqs, trim_left_seqs. rewrite length_reverse.
  destruct (trim_front_suffix seqs (length l) l) as [p Hp].
  set (m := trim_front (length l) seqs l) in *.
  destruct (trim_front_suffix (map reverse seqs) (length (reverse m)) (reverse m)) as [q Hq].
  apply (f_equal length) in Hp, Hq. rewrite !length_app in *. rewrite length_reverse in Hq at 1. lia.
Qed.

Lemma TrimSpace_idemp s : TrimSpace (TrimSpace s) = TrimSpace s.
Proof.
  unfold TrimSpace. rewrite String.list_ascii_of_string_of_list_ascii.
  by rewrite trim_seqs_idemp by apply space_seqs_nonempty.
Qed.

(** Characters that no space encoding starts or ends with. *)
Definition solid (c : ascii) : Prop :=
  forall l, strip_any space_seqs (c :: l) = None /\ strip_any (map reverse space_seqs) (c :: l) = None.

Lemma TrimSpace_solid s : Forall solid (String.list_ascii_of_string s) -> TrimSpace s = s.
Proof.
  intros Hs. unfold TrimSpace. rewrite trim_seqs_id; [apply String.string_of_list_ascii_of_string|..].
  - destruct (String.list_ascii_of_string s) as [|c l]; [reflexivity|]. apply Forall_cons in Hs as [Hc _].
    exact (proj1 (Hc l)).
  - destruct (reverse (String.list_ascii_of_string s)) as [|c l] eqn:E; [reflexivity|].
    rewrite <- Forall_reverse, E in Hs. apply Forall_cons in Hs as [Hc _]. exact (proj2 (Hc l)).
Qed.

Lemma TrimSpace_empty : TrimSpace "" = "".
Proof. reflexivity. Qed.

#[export] Hint Rewrite TrimSpace_idemp TrimSpace_empty : rail.

(** ** Decimal conversions *)

Lemma digit_val_char d : 0 <= d < 10 -> digit_val (digit_char d) = Some d.
Proof.
  intros H. assert (d ∈ seqZ 0 10) as Hd by (apply elem_of_seqZ; lia).
  repeat (apply elem_of_cons in Hd as [->|Hd]; [reflexivity|]). set_solver.
Qed.

Lemma parse_fmt_digits f n acc k :
  0 <= n < 10 ^ Z.of_nat f -> (0 < f)%nat ->
  exists ds, fmt_digits f n acc = ds +:+ acc /\ ds <> "" /\
             parse_digits (ds +:+ acc) k = parse_digits acc (k * 10 ^ Z.of_nat (String.length ds) + n)
             /\ (exists c r, ds = String c r /\ is_Some (digit_val c)).
Proof.
  revert n acc. induction f as [|f IH]; intros n acc Hn Hf; [lia|]. simpl.
  destruct (Z.ltb_spec n 10) as [Hlt|Hge].
  - exists (String (digit_char n) ""). rewrite Z.mod_small by lia. simpl.
    rewrite digit_val_char by lia.
    split_and!; [done|done|f_equal; lia|].
    exists (digit_char n), "". split; [done|]. by rewrite digit_val_char by lia.
  - destruct f as [|f]; [simpl in Hn; lia|].
    assert (0 <= n / 10 < 10 ^ Z.of_nat (S f)) as Hd.
    { split; [apply Z.div_pos; lia|]. apply Z.div_lt_upper_bound; [lia|].
      rewrite (Nat2Z.inj_succ (S f)), Z.pow_succ_r in Hn by lia. lia. }
    destruct (IH (n / 10) (String (digit_char (n mod 10)) acc) Hd ltac:(lia))
      as (ds & Heq & Hnil & Hp & c & r & -> & Hc).
    exists (String c (r +:+ String (digit_char (n mod 10)) "")).
    rewrite !string_app_cons in *. rewrite string_app_assoc, Heq. split_and!; [done|done| |eauto].
    change (String (digit_char (n mod 10)) "" +:+ acc) with (String (digit_char (n mod 10)) acc).
    rewrite Hp. cbn [parse_digits]. rewrite digit_val_char by (apply Z.mod_pos_bound; lia).
    f_equal. cbn [String.length]. rewrite string_app_length. cbn [String.length].
    rewrite Nat.add_1_r.
    rewrite !Nat2Z.inj_succ, !Z.pow_succ_r by lia.
    rewrite (Z.div_mod n 10) at 3 by lia. ring.
Qed.

(** [Atoi] inverts [Itoa] on every [int]. *)
Lemma Atoi_Itoa z : int64_min <= z <= int64_max -> Atoi (Itoa z) = Some z.
Proof.
  intros Hz. pose proof Hz as Hz'. unfold int64_min, int64_max in Hz. unfold Itoa.
  assert (forall n, 0 <= n < 10 ^ 20 ->
    exists c r, fmt_digits 20 n "" = String c r /\ is_Some (digit_val c) /\
                parse_digits (String c r) 0 = Some n) as Hf.
  { intros n Hn. destruct (parse_fmt_digits 20 n "" 0 ltac:(lia) ltac:(lia))
      as (ds & -> & _ & Hp & c & r & -> & Hc).
    rewrite string_app_nil_r in *. exists c, r. split_and!; [done|done|]. by rewrite Hp. }
  assert (forall c, is_Some (digit_val c) -> Ascii.eqb c "+" = false /\ Ascii.eqb c "-" = false) as Hs.
  { intros c [d Hd]. split; destruct (Ascii.eqb_spec c "+"), (Ascii.eqb_spec c "-"); by subst. }
  destruct (Z.ltb_spec z 0).
  - destruct (Hf (- z) ltac:(lia)) as (c & r & -> & Hc & Hp). unfold Atoi. cbn -[parse_digits].
    rewrite Hp. rewrite Z.opp_involutive. by rewrite (proj2 (in_int64_spec z)).
  - destruct (Hf z ltac:(lia)) as (c & r & -> & Hc & Hp). destruct (Hs c Hc) as [H1 H2].
    unfold Atoi. rewrite H1, H2. cbn -[parse_digits].
    rewrite Hp. by rewrite (proj2 (in_int64_spec z)).
Qed.

(** [Atoi] only returns values of the range of [int]. *)
Lemma Atoi_range s z : Atoi s = Some z -> int64_min <= z <= int64_max.
Proof.
  unfold Atoi. intros H. apply in_int64_spec. by repeat case_match; simplify_eq.
Qed.
