(* ===== verification/GoErrors.v ===== *)
(** * GoErrors: Go error values, wrapping, [errors.Is] and [errors.As]

    An [error] is the chain that [fmt.Errorf("...%w", err)] builds.  Package
    level sentinel variables are compared by identity, so each is a constructor
    of [sentinel]; errors made by [errors.New] at a call site (and the errors
    of drivers) match no sentinel.  [*delivery.Failure] is the one error struct
    the program itself defines. *)

From S2P Require Import Prelude GoStrings.

(** ** Sentinels *)

Inductive sentinel :=
| ErrIdempotencyConflict
| ErrOutboxPublishFailed
| ErrEventNotFound
| ErrDLQNotFound
| ErrDLQNotOpen
| ErrExtraJSONValue
| ErrAIServiceUnavailable
| ErrAIServiceInvalidResponse
| errEventNotReadyForExplanation
| pgxErrNoRows
| redisNil
| ioEOF.

#[global] Instance sentinel_eq_dec : EqDecision sentinel.
Proof. solve_decision. Defined.

Definition sentinel_text (s : sentinel) : string :=
  match s with
  | ErrIdempotencyConflict => "idempotency key conflict"
  | ErrOutboxPublishFailed => "outbox publication failed"
  | ErrEventNotFound => "event not found"
  | ErrDLQNotFound => "DLQ record not found"
  | ErrDLQNotOpen => "DLQ record is not open"
  | ErrExtraJSONValue => "request body must contain exactly one JSON value"
  | ErrAIServiceUnavailable => "AI service unavailable"
  | ErrAIServiceInvalidResponse => "AI service invalid response"
  | errEventNotReadyForExplanation => "event not ready for explanation"
  | pgxErrNoRows => "no rows in result set"
  | redisNil => "redis: nil"
  | ioEOF => "EOF"
  end.

(** ** Error values

    [WrapError msg inner] is [fmt]'s [wrapError]: the formatted text and the
    operand of the [%w] verb.  [Panic] is a run-time panic, which no code of the
    program recovers from: it ends the process.  [FailureError] is a non-nil [*delivery.Failure]
    with its three fields. *)

Inductive error :=
| ErrorString (text : string)
| Sentinel (s : sentinel)
| WrapError (text : string) (inner : error)
| MaxBytesError (limit : Z)
| Panic (text : string)
| FailureError (kind : string) (statusCode : Z) (cause : option error).

(** The text of a [Failure], given the text of its cause
    ([func (f *Failure) Error()] below the nil test). *)
Definition failure_text (kind : string) (statusCode : Z) (cause : option string) : string :=
  let kind := if String.eqb kind "" then "unknown" else kind in
  if negb (statusCode =? 0) then
    match cause with
    | Some c => kind +:+ " delivery failure status=" +:+ Itoa statusCode +:+ ": " +:+ c
    | None => kind +:+ " delivery failure status=" +:+ Itoa statusCode
    end
  else
    match cause with
    | Some c => kind +:+ " delivery failure: " +:+ c
    | None => kind +:+ " delivery failure"
    end.

(** [err.Error()] *)
Fixpoint error_text (e : error) : string :=
  match e with
  | ErrorString t => t
  | Sentinel s => sentinel_text s
  | WrapError t _ => t
  | MaxBytesError _ => "http: request body too large"
  | Panic t => "panic: " +:+ t
  | FailureError k c cause =>
      failure_text k c (match cause with Some e' => Some (error_text e') | None => None end)
  end.

(** [fmt.Errorf(prefix + ": %w", err)] and [fmt.Errorf("%w" + suffix, err)] *)
Definition wrapf (prefix : string) (e : error) : error :=
  WrapError (prefix +:+ ": " +:+ error_text e) e.
Definition wrap_suffix (suffix : string) (e : error) : error :=
  WrapError (error_text e +:+ suffix) e.

(** [errors.Unwrap] *)
Definition unwrap (e : error) : option error :=
  match e with
  | WrapError _ i => Some i
  | FailureError _ _ c => c
  | _ => None
  end.

(** [errors.Is(err, target)] for a sentinel target *)
Fixpoint errors_Is (e : error) (t : sentinel) : bool :=
  match e with
  | Sentinel s => bool_decide (s = t)
  | WrapError _ i => errors_Is i t
  | FailureError _ _ (Some c) => errors_Is c t
  | _ => false
  end.

(** [errors.As(err, &failure)] with [failure *delivery.Failure]: the first
    failure of the chain, as its kind, status code and cause. *)
Fixpoint errors_As_Failure (e : error) : option (string * Z * option error) :=
  match e with
  | FailureError k c cause => Some (k, c, cause)
  | WrapError _ i => errors_As_Failure i
  | _ => None
  end.

(** [errors.As(err, &maxBytesErr)] *)
Fixpoint errors_As_MaxBytes (e : error) : bool :=
  match e with
  | MaxBytesError _ => true
  | WrapError _ i => errors_As_MaxBytes i
  | FailureError _ _ (Some c) => errors_As_MaxBytes c
  | _ => false
  end.

(** ** Lemmas *)

Lemma errors_Is_wrapf p e t : errors_Is (wrapf p e) t = errors_Is e t.
Proof. reflexivity. Qed.

Lemma errors_Is_wrap_suffix p e t : errors_Is (wrap_suffix p e) t = errors_Is e t.
Proof. reflexivity. Qed.

Lemma errors_As_wrapf p e : errors_As_Failure (wrapf p e) = errors_As_Failure e.
Proof. reflexivity. Qed.

(** [errors.Is] holds exactly when the sentinel is reachable by unwrapping. *)
Inductive in_chain (t : sentinel) : error -> Prop :=
| in_chain_here : in_chain t (Sentinel t)
| in_chain_next e e' : unwrap e = Some e' -> in_chain t e' -> in_chain t e.

Lemma errors_Is_chain t e : in_chain t e -> errors_Is e t = true.
Proof.
  induction 1 as [|e e' Hu Hc IH]; simpl.
  - by apply bool_decide_eq_true.
  - destruct e as [| | | | |k c [cause|]]; simplify_eq/=; done.
Qed.

#[export] Hint Rewrite errors_Is_wrapf errors_Is_wrap_suffix errors_As_wrapf : rail.
