(* ===== verification/Delivery.v ===== *)
(** * Delivery: classification of delivery failures
    ([internal/delivery/failure.go])

    Which HTTP statuses are failures and of which kind, how a failure is found
    in an error chain, and the decision between retrying and dead-lettering. *)

From S2P Require Import Prelude GoStrings GoErrors.

Module Delivery.

(** ** Data *)

(** [type FailureKind string], [type FailureAction string] *)
Definition FailureKind : Type := string.
Definition FailureRetryable : FailureKind := "retryable".
Definition FailurePermanent : FailureKind := "permanent".

Inductive FailureAction := FailureActionRetry | FailureActionDeadLetter.

#[global] Instance FailureAction_eq_dec : EqDecision FailureAction.
Proof. solve_decision. Defined.

Record Failure := mkFailure { Kind : FailureKind; StatusCode : Z; Cause : option error }.

(** ** Operations *)

(** [func (f *Failure) Error() string], [None] being the nil receiver *)
Definition Failure_Error (f : option Failure) : string :=
  match f with
  | None => "delivery failure"
  | Some f => failure_text (Kind f) (StatusCode f) (error_text <$> Cause f)
  end.

(** [func (f *Failure) Unwrap() error] *)
Definition Failure_Unwrap (f : option Failure) : option error :=
  match f with None => None | Some f => Cause f end.

Definition failure_error (f : Failure) : error := FailureError (Kind f) (StatusCode f) (Cause f).

Definition NewRetryableFailure (cause : error) : error :=
  failure_error {| Kind := FailureRetryable; StatusCode := 0; Cause := Some cause |}.

Definition NewPermanentFailure (cause : error) : error :=
  failure_error {| Kind := FailurePermanent; StatusCode := 0; Cause := Some cause |}.

(** [http.StatusText] *)
Definition StatusText (code : Z) : string :=
  match code with
  | 100 => "Continue" | 101 => "Switching Protocols" | 102 => "Processing"
  | 103 => "Early Hints"
  | 200 => "OK" | 201 => "Created" | 202 => "Accepted"
  | 203 => "Non-Authoritative Information" | 204 => "No Content" | 205 => "Reset Content"
  | 206 => "Partial Content" | 207 => "Multi-Status" | 208 => "Already Reported"
  | 226 => "IM Used"
  | 300 => "Multiple Choices" | 301 => "Moved Permanently" | 302 => "Found"
  | 303 => "See Other" | 304 => "Not Modified" | 305 => "Use Proxy"
  | 307 => "Temporary Redirect" | 308 => "Permanent Redirect"
  | 400 => "Bad Request" | 401 => "Unauthorized" | 402 => "Payment Required"
  | 403 => "Forbidden" | 404 => "Not Found" | 405 => "Method Not Allowed"
  | 406 => "Not Acceptable" | 407 => "Proxy Authentication Required"
  | 408 => "Request Timeout" | 409 => "Conflict" | 410 => "Gone"
  | 411 => "Length Required" | 412 => "Precondition Failed"
  | 413 => "Request Entity Too Large" | 414 => "Request URI Too Long"
  | 415 => "Unsupported Media Type" | 416 => "Requested Range Not Satisfiable"
  | 417 => "Expectation Failed" | 418 => "I'm a teapot" | 421 => "Misdirected Request"
  | 422 => "Unprocessable Entity" | 423 => "Locked" | 424 => "Failed Dependency"
  | 425 => "Too Early" | 426 => "Upgrade Required" | 428 => "Precondition Required"
  | 429 => "Too Many Requests" | 431 => "Request Header Fields Too Large"
  | 451 => "Unavailable For Legal Reasons"
  | 500 => "Internal Server Error" | 501 => "Not Implemented" | 502 => "Bad Gateway"
  | 503 => "Service Unavailable" | 504 => "Gateway Timeout"
  | 505 => "HTTP Version Not Supported" | 506 => "Variant Also Negotiates"
  | 507 => "Insufficient Storage" | 508 => "Loop Detected" | 510 => "Not Extended"
  | 511 => "Network Authentication Required"
  | _ => ""
  end.

(** [http.StatusRequestTimeout], [StatusTooEarly], [StatusTooManyRequests] are
    408, 425 and 429. *)
Definition ClassifyHTTPStatus (statusCode : Z) : FailureKind :=
  if (statusCode =? 408) || (statusCode =? 425) || (statusCode =? 429) then FailureRetryable
  else if (500 <=? statusCode) && (statusCode <=? 599) then FailureRetryable
  else if (400 <=? statusCode) && (statusCode <=? 499) then FailurePermanent
  else "".

(** [None] is the nil error. *)
Definition NewHTTPFailure (statusCode : Z) (status : string) : option error :=
  let kind := ClassifyHTTPStatus statusCode in
  if String.eqb kind "" then None else
  let statusText := TrimSpace status in
  let statusText := if String.eqb statusText "" then StatusText statusCode else statusText in
  let statusText := if String.eqb statusText "" then "HTTP status " +:+ Itoa statusCode
                    else statusText in
  Some (failure_error {| Kind := kind; StatusCode := statusCode;
                         Cause := Some (ErrorString statusText) |}).

Definition IsRetryable (err : error) : bool :=
  match errors_As_Failure err with
  | None => false
  | Some (kind, _, _) => String.eqb kind FailureRetryable
  end.

Definition IsPermanent (err : error) : bool :=
  match errors_As_Failure err with
  | None => false
  | Some (kind, _, _) => String.eqb kind FailurePermanent
  end.

Definition DecideFailureAction (err : error) (retryCount maxRetries : Z) : FailureAction :=
  if IsPermanent err then FailureActionDeadLetter
  else if retryCount <? maxRetries then FailureActionRetry
  else FailureActionDeadLetter.

(** ** Properties *)

(** A message is retried exactly when its failure is not permanent and the
    retry budget is not used up. *)
Lemma decide_retry_iff err retry max :
  DecideFailureAction err retry max = FailureActionRetry <->
  IsPermanent err = false /\ retry < max.
Proof.
  unfold DecideFailureAction.
  destruct (IsPermanent err), (Z.ltb_spec retry max); naive_solver lia.
Qed.

Lemma decide_dead_letter_iff err retry max :
  DecideFailureAction err retry max = FailureActionDeadLetter <->
  IsPermanent err = true \/ max <= retry.
Proof.
  unfold DecideFailureAction.
  destruct (IsPermanent err), (Z.ltb_spec retry max); naive_solver lia.
Qed.

Lemma classify_cases code :
  (ClassifyHTTPStatus code = FailureRetryable /\
     (code = 408 \/ code = 425 \/ code = 429 \/ 500 <= code <= 599)) \/
  (ClassifyHTTPStatus code = FailurePermanent /\
     400 <= code <= 499 /\ code <> 408 /\ code <> 425 /\ code <> 429) \/
  (ClassifyHTTPStatus code = "" /\ ~ 400 <= code <= 599).
Proof.
  unfold ClassifyHTTPStatus.
  repeat case_match; rail_bool; rewrite ?orb_true_iff, ?Z.eqb_eq in *;
    repeat match goal with H : (_ && _)%bool = false |- _ => apply andb_false_iff in H end;
    rewrite ?Z.leb_gt in *; naive_solver lia.
Qed.

(** The failure a status produces carries that status. *)
Lemma NewHTTPFailure_code code status e :
  NewHTTPFailure code status = Some e ->
  exists cause, errors_As_Failure e = Some (ClassifyHTTPStatus code, code, cause).
Proof.
  unfold NewHTTPFailure. destruct (String.eqb (ClassifyHTTPStatus code) ""); [done|].
  intros H. simplify_eq/=. eauto.
Qed.

(** HTTP statuses are partitioned: 400-599 and only those are failures;
    408, 425, 429 and 5xx are retryable, every other 4xx is permanent; and
    wrapping the failure with context does not change how it is classified. *)
Theorem http_failure_classification code status ctx :
  (NewHTTPFailure code status = None <-> ~ 400 <= code <= 599) /\
  (forall e, NewHTTPFailure code status = Some e ->
     (IsRetryable (wrapf ctx e) = true <->
        code = 408 \/ code = 425 \/ code = 429 \/ 500 <= code <= 599) /\
     IsPermanent (wrapf ctx e) = negb (IsRetryable e)).
Proof.
  destruct (classify_cases code) as [[Hk Hc]|[[Hk Hc]|[Hk Hc]]]; split.
  1,3,5: unfold NewHTTPFailure; rewrite Hk; simpl; naive_solver lia.
  3: unfold NewHTTPFailure; by rewrite Hk.
  all: intros e He; apply NewHTTPFailure_code in He as [cause He];
    unfold IsRetryable, IsPermanent; rewrite errors_As_wrapf, He, Hk; simpl; naive_solver lia.
Qed.

End Delivery.
