(* ===== verification/Utf8.v ===== *)
(** * Utf8: [unicode/utf8] and conversions between strings and runes *)

From S2P Require Import Prelude.

(** ** UTF-8: [utf8.DecodeRune]

    [decode_rune l] is the code point and the width in bytes of the encoding
    that starts [l], [None] when the bytes are not valid UTF-8 (overlong forms,
    surrogates and values above U+10FFFF included). *)

Definition byte_val (c : ascii) : N := N_of_ascii c.

Definition is_cont (c : ascii) : bool := ((128 <=? byte_val c) && (byte_val c <=? 191))%N.

Definition cont_val (c : ascii) : N := (byte_val c - 128)%N.

Definition decode_rune (l : list ascii) : option (N * nat) :=
  match l with
  | [] => None
  | b0 :: l1 =>
      let v0 := byte_val b0 in
      if (v0 <? 128)%N then Some (v0, 1%nat)
      else match l1 with
      | [] => None
      | b1 :: l2 =>
        if ((194 <=? v0) && (v0 <=? 223))%N then
          if is_cont b1 then Some ((v0 - 192) * 64 + cont_val b1, 2%nat)%N else None
        else match l2 with
        | [] => None
        | b2 :: l3 =>
          if ((224 <=? v0) && (v0 <=? 239))%N then
            if is_cont b1 && is_cont b2 then
              let r := ((v0 - 224) * 4096 + cont_val b1 * 64 + cont_val b2)%N in
              if ((2048 <=? r) && negb ((55296 <=? r) && (r <=? 57343)))%N
              then Some (r, 3%nat) else None
            else None
          else match l3 with
          | [] => None
          | b3 :: _ =>
            if ((240 <=? v0) && (v0 <=? 244))%N then
              if is_cont b1 && is_cont b2 && is_cont b3 then
                let r := ((v0 - 240) * 262144 + cont_val b1 * 4096 + cont_val b2 * 64 + cont_val b3)%N in
                if ((65536 <=? r) && (r <=? 1114111))%N then Some (r, 4%nat) else None
              else None
            else None
          end
        end
      end
  end.

(** [utf8.EncodeRune] *)
Definition encode_rune (r : N) : list ascii :=
  map ascii_of_N
    (if (r <? 128)%N then [r]
     else if (r <? 2048)%N then [192 + r / 64; 128 + r mod 64]
     else if (r <? 65536)%N then [224 + r / 4096; 128 + (r / 64) mod 64; 128 + r mod 64]
     else [240 + r / 262144; 128 + (r / 4096) mod 64; 128 + (r / 64) mod 64; 128 + r mod 64])%N.

Definition rune_error : list ascii := encode_rune 65533.

(** [[]rune(s)]: an invalid byte is U+FFFD *)
Fixpoint runes_loop (fuel : nat) (l : list ascii) : list N :=
  match fuel, l with
  | S f, _ :: l' => match decode_rune l with
                    | Some (r, n) => r :: runes_loop f (drop n l)
                    | None => 65533%N :: runes_loop f l'
                    end
  | _, _ => []
  end.

Definition runes_of_string (s : string) : list N :=
  let l := String.list_ascii_of_string s in runes_loop (length l) l.

(** [string(runes)] for runes that a string can hold *)
Definition string_of_runes (rs : list N) : string :=
  String.string_of_list_ascii (concat (map encode_rune rs)).
