(* ===== verification/Json.v ===== *)
(** * Json: the parts of [encoding/json] the program uses

    [json] is the dynamic value [any] that the decoder produces: an object is a
    Go map, kept as an association list with strictly increasing keys (byte
    order), so equal maps are equal terms; a number is its literal
    ([json.Number], as with [UseNumber]).  [marshal] is [json.Marshal] with HTML
    escaping and sorted keys; [scan_value] is the scanner: it reads one value
    from the front of the input and returns the rest, which is what a
    [json.Decoder] does; [unmarshal] is [json.Unmarshal] into [any]. *)

From S2P Require Import Prelude GoStrings Utf8.

(** ** Values *)

Inductive json :=
| JNull
| JBool (b : bool)
| JNum (lit : string)
| JStr (s : string)
| JArr (l : list json)
| JObj (m : list (string * json)).

(** Byte order on strings: [strings.Compare]. *)
Definition str_ltb (a b : string) : bool := String.ltb a b.

(** [m[k] = v] on a Go map *)
Fixpoint obj_insert (k : string) (v : json) (m : list (string * json)) : list (string * json) :=
  match m with
  | [] => [(k, v)]
  | (k', v') :: m' =>
      if String.eqb k k' then (k, v) :: m'
      else if str_ltb k k' then (k, v) :: m
      else (k', v') :: obj_insert k v m'
  end.

(** [m[k]] *)
Fixpoint obj_lookup (k : string) (m : list (string * json)) : option json :=
  match m with
  | [] => None
  | (k', v) :: m' => if String.eqb k k' then Some v else obj_lookup k m'
  end.

Definition obj_of_list (l : list (string * json)) : list (string * json) :=
  fold_left (fun m kv => obj_insert kv.1 kv.2 m) l [].

(** ** Marshalling *)

Definition hex_digit (n : N) : ascii := ascii_of_N (if (n <? 10)%N then 48 + n else 87 + n)%N.

Definition bs : ascii := ascii_of_N 92.
Definition dq : ascii := ascii_of_N 34.

Definition escape_u (n : N) : list ascii :=
  [bs; ascii_of_N 117; hex_digit (n / 4096); hex_digit ((n / 256) mod 16);
   hex_digit ((n / 16) mod 16); hex_digit (n mod 16)]%N.

(** One byte below 0x80, with [escapeHTML] on: control bytes, the double quote, [\\], [<],
    [>] and [&] are escaped. *)
Definition escape_ascii (c : ascii) : list ascii :=
  let v := byte_val c in
  if ((v =? 92) || (v =? 34))%N then [bs; c]
  else if (v =? 8)%N then [bs; ascii_of_N 98]
  else if (v =? 12)%N then [bs; ascii_of_N 102]
  else if (v =? 10)%N then [bs; ascii_of_N 110]
  else if (v =? 13)%N then [bs; ascii_of_N 114]
  else if (v =? 9)%N then [bs; ascii_of_N 116]
  else if ((v <? 32) || (v =? 60) || (v =? 62) || (v =? 38))%N then escape_u v
  else [c].

(** [appendString]'s loop; every round consumes at least one byte, so
    [length l] rounds are enough. *)
Fixpoint escape_loop (fuel : nat) (l : list ascii) : list ascii :=
  match fuel, l with
  | S f, c :: l' =>
      if (byte_val c <? 128)%N then escape_ascii c ++ escape_loop f l'
      else match decode_rune l with
           | None => escape_u 65533 ++ escape_loop f l'
           | Some (r, n) =>
               (if ((r =? 8232) || (r =? 8233))%N then escape_u r else take n l)
               ++ escape_loop f (drop n l)
           end
  | _, _ => []
  end.

Definition quote_list (s : string) : list ascii :=
  let l := String.list_ascii_of_string s in
  dq :: escape_loop (length l) l ++ [dq].

Definition chars (s : string) : list ascii := String.list_ascii_of_string s.

Fixpoint join (sep : list ascii) (ls : list (list ascii)) : list ascii :=
  match ls with
  | [] => []
  | [x] => x
  | x :: xs => x ++ sep ++ join sep xs
  end.

Fixpoint marshal_list (v : json) : list ascii :=
  match v with
  | JNull => chars "null"
  | JBool true => chars "true"
  | JBool false => chars "false"
  | JNum lit => chars lit
  | JStr s => quote_list s
  | JArr l => chars "[" ++ join (chars ",") (map marshal_list l) ++ chars "]"
  | JObj m => chars "{" ++ join (chars ",")
                (map (fun kv => quote_list kv.1 ++ chars ":" ++ marshal_list kv.2) m) ++ chars "}"
  end.

(** [json.Marshal] of a value without floats, channels or functions: it cannot
    fail. *)
Definition marshal (v : json) : string := String.string_of_list_ascii (marshal_list v).

(** ** Scanning *)

Definition is_json_space (c : ascii) : bool :=
  let v := byte_val c in ((v =? 32) || (v =? 9) || (v =? 13) || (v =? 10))%N.

Fixpoint skip_space (l : list ascii) : list ascii :=
  match l with
  | c :: l' => if is_json_space c then skip_space l' else l
  | [] => []
  end.

Definition hex_val (c : ascii) : option N :=
  let v := byte_val c in
  if ((48 <=? v) && (v <=? 57))%N then Some (v - 48)%N
  else if ((97 <=? v) && (v <=? 102))%N then Some (v - 87)%N
  else if ((65 <=? v) && (v <=? 70))%N then Some (v - 55)%N
  else None.

(** [getu4]: four hexadecimal digits *)
Definition hex4 (l : list ascii) : option (N * list ascii) :=
  match l with
  | a :: b :: c :: d :: l' =>
      match hex_val a, hex_val b, hex_val c, hex_val d with
      | Some a, Some b, Some c, Some d => Some (a * 4096 + b * 256 + c * 16 + d, l')%N
      | _, _, _, _ => None
      end
  | _ => None
  end.

Definition is_surrogate (r : N) : bool := ((55296 <=? r) && (r <=? 57343))%N.

(** [utf16.DecodeRune] *)
Definition utf16_decode (r1 r2 : N) : option N :=
  if ((55296 <=? r1) && (r1 <? 56320) && (56320 <=? r2) && (r2 <? 57344))%N
  then Some ((r1 - 55296) * 1024 + (r2 - 56320) + 65536)%N else None.

(** The rune after a [\uXXXX] escape whose four digits are read: a surrogate is
    combined with the low surrogate that follows, or becomes U+FFFD. *)
Definition unescape_u (r : N) (l : list ascii) : list ascii * list ascii :=
  if is_surrogate r then
    match l with
    | b :: u :: l' =>
        if Ascii.eqb b bs && Ascii.eqb u (ascii_of_N 117) then
          match hex4 l' with
          | Some (r2, l'') =>
              match utf16_decode r r2 with
              | Some d => (encode_rune d, l'')
              | None => (rune_error, l)
              end
          | None => (rune_error, l)
          end
        else (rune_error, l)
    | _ => (rune_error, l)
    end
  else (encode_rune r, l).

(** The body of a string after its opening quote: the decoded bytes and the
    input after the closing quote. *)
Fixpoint scan_string (fuel : nat) (l : list ascii) : option (list ascii * list ascii) :=
  match fuel, l with
  | S f, c :: l' =>
      let v := byte_val c in
      if (v =? 34)%N then Some ([], l')
      else if (v =? 92)%N then
        match l' with
        | e :: l'' =>
            let ev := byte_val e in
            let simple (b : N) :=
              match scan_string f l'' with
              | Some (s, r) => Some (ascii_of_N b :: s, r)
              | None => None
              end in
            if ((ev =? 34) || (ev =? 92) || (ev =? 47))%N then simple ev
            else if (ev =? 98)%N then simple 8%N
            else if (ev =? 102)%N then simple 12%N
            else if (ev =? 110)%N then simple 10%N
            else if (ev =? 114)%N then simple 13%N
            else if (ev =? 116)%N then simple 9%N
            else if (ev =? 117)%N then
              match hex4 l'' with
              | None => None
              | Some (r, l3) =>
                  let '(out, l4) := unescape_u r l3 in
                  match scan_string f l4 with
                  | Some (s, rest) => Some (out ++ s, rest)
                  | None => None
                  end
              end
            else None
        | [] => None
        end
      else if (v <? 32)%N then None
      else if (v <? 128)%N then
        match scan_string f l' with Some (s, r) => Some (c :: s, r) | None => None end
      else match decode_rune l with
           | None => match scan_string f l' with
                     | Some (s, r) => Some (rune_error ++ s, r) | None => None end
           | Some (_, n) => match scan_string f (drop n l) with
                            | Some (s, r) => Some (take n l ++ s, r) | None => None end
           end
  | _, _ => None
  end.

Definition is_digit (c : ascii) : bool := ((48 <=? byte_val c) && (byte_val c <=? 57))%N.

Fixpoint span_digits (l : list ascii) : list ascii * list ascii :=
  match l with
  | c :: l' => if is_digit c then let '(d, r) := span_digits l' in (c :: d, r) else ([], l)
  | [] => ([], [])
  end.

(** At least one digit. *)
Definition digits1 (l : list ascii) : option (list ascii * list ascii) :=
  match span_digits l with
  | ([], _) => None
  | (d, r) => Some (d, r)
  end.

(** The integer part: [0], or a nonzero digit and more digits. *)
Definition scan_int (l : list ascii) : option (list ascii * list ascii) :=
  match l with
  | c :: l' => if Ascii.eqb c "0" then Some ([c], l')
               else if is_digit c then let '(d, r) := span_digits l' in Some (c :: d, r)
               else None
  | [] => None
  end.

(** A [.] must be followed by a digit; no [.] is an empty fraction. *)
Definition scan_frac (l : list ascii) : option (list ascii * list ascii) :=
  match l with
  | c :: l' => if Ascii.eqb c "." then
                 match digits1 l' with Some (d, r) => Some (c :: d, r) | None => None end
               else Some ([], l)
  | [] => Some ([], [])
  end.

Definition scan_exp (l : list ascii) : option (list ascii * list ascii) :=
  match l with
  | c :: l' =>
      if Ascii.eqb c "e" || Ascii.eqb c "E" then
        let '(sign, l'') := match l' with
                            | s :: m => if Ascii.eqb s "+" || Ascii.eqb s "-" then ([s], m) else ([], l')
                            | [] => ([], l')
                            end in
        match digits1 l'' with Some (d, r) => Some (c :: sign ++ d, r) | None => None end
      else Some ([], l)
  | [] => Some ([], [])
  end.

Definition scan_number (l : list ascii) : option (list ascii * list ascii) :=
  let '(sign, l0) := match l with
                     | c :: l' => if Ascii.eqb c "-" then ([c], l') else ([], l)
                     | [] => ([], l)
                     end in
  match scan_int l0 with
  | None => None
  | Some (i, l1) =>
      match scan_frac l1 with
      | None => None
      | Some (f, l2) =>
          match scan_exp l2 with
          | None => None
          | Some (e, l3) => Some (sign ++ i ++ f ++ e, l3)
          end
      end
  end.

Definition scan_lit (word : string) (v : json) (l : list ascii) : option (json * list ascii) :=
  match strip_prefix (chars word) l with Some r => Some (v, r) | None => None end.

Definition max_nesting_depth : nat := Z.to_nat 10000.

(** One value at nesting depth [depth]; objects keep their members in text
    order, duplicates included.  Every call consumes a byte or passes to
    a call that does, so twice the length of the input is fuel enough. *)
Fixpoint scan_value (fuel depth : nat) (l : list ascii) : option (json * list ascii) :=
  match fuel with
  | O => None
  | S f =>
      match skip_space l with
      | [] => None
      | c :: l' =>
          if Ascii.eqb c dq then
            match scan_string (S (length l')) l' with
            | Some (s, r) => Some (JStr (String.string_of_list_ascii s), r)
            | None => None
            end
          else if Ascii.eqb c "[" then
            if (max_nesting_depth <=? depth)%nat then None else
            match skip_space l' with
            | d :: r => if Ascii.eqb d "]" then Some (JArr [], r)
                        else match scan_elems f (S depth) l' with
                             | Some (vs, r') => Some (JArr vs, r')
                             | None => None
                             end
            | [] => None
            end
          else if Ascii.eqb c "{" then
            if (max_nesting_depth <=? depth)%nat then None else
            match skip_space l' with
            | d :: r => if Ascii.eqb d "}" then Some (JObj [], r)
                        else match scan_members f (S depth) l' with
                             | Some (kvs, r') => Some (JObj kvs, r')
                             | None => None
                             end
            | [] => None
            end
          else if Ascii.eqb c "n" then scan_lit "null" JNull (c :: l')
          else if Ascii.eqb c "t" then scan_lit "true" (JBool true) (c :: l')
          else if Ascii.eqb c "f" then scan_lit "false" (JBool false) (c :: l')
          else match scan_number (c :: l') with
               | Some (n, r) => Some (JNum (String.string_of_list_ascii n), r)
               | None => None
               end
      end
  end
with scan_elems (fuel depth : nat) (l : list ascii) : option (list json * list ascii) :=
  match fuel with
  | O => None
  | S f =>
      match scan_value f depth l with
      | None => None
      | Some (v, l1) =>
          match skip_space l1 with
          | c :: l2 =>
              if Ascii.eqb c "," then
                match scan_elems f depth l2 with
                | Some (vs, r) => Some (v :: vs, r)
                | None => None
                end
              else if Ascii.eqb c "]" then Some ([v], l2) else None
          | [] => None
          end
      end
  end
with scan_members (fuel depth : nat) (l : list ascii) : option (list (string * json) * list ascii) :=
  match fuel with
  | O => None
  | S f =>
      match skip_space l with
      | c :: l0 =>
          if Ascii.eqb c dq then
            match scan_string (S (length l0)) l0 with
            | None => None
            | Some (k, l1) =>
                match skip_space l1 with
                | d :: l2 =>
                    if Ascii.eqb d ":" then
                      match scan_value f depth l2 with
                      | None => None
                      | Some (v, l3) =>
                          let kv := (String.string_of_list_ascii k, v) in
                          match skip_space l3 with
                          | e :: l4 =>
                              if Ascii.eqb e "," then
                                match scan_members f depth l4 with
                                | Some (kvs, r) => Some (kv :: kvs, r)
                                | None => None
                                end
                              else if Ascii.eqb e "}" then Some ([kv], l4) else None
                          | [] => None
                          end
                      end
                    else None
                | [] => None
                end
            end
          else None
      | [] => None
      end
  end.

Definition scan_fuel (l : list ascii) : nat := S (S (2 * length l)).

(** ** From syntax to values *)

(** Decoding into [any]: objects become maps, a later duplicate key replaces an
    earlier one. *)
Fixpoint to_any (v : json) : json :=
  match v with
  | JArr l => JArr (map to_any l)
  | JObj m => JObj (obj_of_list (map (fun kv => (kv.1, to_any kv.2)) m))
  | _ => v
  end.

(** Decoding into [any] without [UseNumber]: numbers become float64, kept as the
    text they marshal to. *)
Fixpoint to_any_float {SC : Strconv} (v : json) : option json :=
  match v with
  | JNum lit => JNum <$> float64_text lit
  | JArr l => JArr <$> mapM to_any_float l
  | JObj m =>
      (fun m' => JObj (obj_of_list m')) <$>
        mapM (fun kv => pair kv.1 <$> to_any_float kv.2) m
  | _ => Some v
  end.

(** ** Entry points *)

(** Outcome of [Decoder.Decode] into [any] with [UseNumber]: a value and the
    unread input, [io.EOF] when only white space is left, or a syntax error. *)
Inductive decoded :=
| DecValue (v : json) (rest : list ascii)
| DecEOF
| DecError.

Definition decode (l : list ascii) : decoded :=
  match skip_space l with
  | [] => DecEOF
  | _ => match scan_value (scan_fuel l) 0 l with
         | Some (v, r) => DecValue (to_any v) r
         | None => DecError
         end
  end.

(** The syntax tree of a text that holds exactly one value: what
    [json.Unmarshal] accepts before it looks at the target. *)
Definition parse (s : string) : option json :=
  let l := chars s in
  match scan_value (scan_fuel l) 0 l with
  | Some (v, r) => match skip_space r with [] => Some v | _ => None end
  | None => None
  end.

(** [json.Unmarshal] into [map[string]interface{}]: [null] leaves the map nil. *)
Definition unmarshal_map {SC : Strconv} (s : string) : option (list (string * json)) :=
  match parse s with
  | Some JNull => Some []
  | Some (JObj m) => match to_any_float (JObj m) with Some (JObj m') => Some m' | _ => None end
  | _ => None
  end.

(** Case folding of a key as the decoder matches it with the (ASCII) name of a
    struct field: letters to lower case, and the two other code points that fold
    to a letter, U+017F to [s] and U+212A to [k]. *)
Definition lower_ascii (c : ascii) : ascii :=
  if ((65 <=? byte_val c) && (byte_val c <=? 90))%N then ascii_of_N (byte_val c + 32) else c.
Fixpoint fold_list (l : list ascii) : list ascii :=
  match l with
  | [] => []
  | a :: l1 =>
      match strip_prefix [ascii_of_N 197; ascii_of_N 191] l, l1 with
      | Some _, _ :: l2 => ascii_of_N 115 :: fold_list l2
      | _, _ =>
          match strip_prefix [ascii_of_N 226; ascii_of_N 132; ascii_of_N 170] l, l1 with
          | Some _, _ :: _ :: l3 => ascii_of_N 107 :: fold_list l3
          | _, _ => lower_ascii a :: fold_list l1
          end
      end
  end.
Definition fold_name (s : string) : string :=
  String.string_of_list_ascii (fold_list (chars s)).
