(* ===== verification/JsonFacts.v ===== *)
(** * JsonFacts: decoding what was encoded

    A string that [json.Marshal] wrote is read back with its invalid UTF-8
    replaced; a map of strings is read back as it was, which is what the retry
    queue relies on. *)

From Stdlib Require Import ZifyN ZifyNat ZifyBool.
From S2P Require Import Prelude GoStrings Utf8 Json.

#[local] Ltac Zify.zify_post_hook ::= Z.to_euclidean_division_equations.

Lemma string_chars s : String.string_of_list_ascii (chars s) = s.
Proof. apply String.string_of_list_ascii_of_string. Qed.

Lemma chars_app a b : chars (a +:+ b) = chars a ++ chars b.
Proof. unfold chars. induction a as [|c a IH]; [done|]. rewrite string_app_cons. simpl. by rewrite IH. Qed.

(** ** UTF-8 *)

Lemma byte_val_lt c : (byte_val c < 256)%N.
Proof. apply N_ascii_bounded. Qed.

Lemma ascii_of_byte_val c : ascii_of_N (byte_val c) = c.
Proof. apply ascii_N_embedding. Qed.

Lemma byte_val_of_N n : (n < 256)%N -> byte_val (ascii_of_N n) = n.
Proof. apply N_ascii_embedding. Qed.

(** The cases of a valid encoding, with the bytes it occupies. *)
Lemma decode_rune_cases l r n :
  decode_rune l = Some (r, n) ->
  exists b l1, l = b :: l1 /\
  ((n = 1%nat /\ (byte_val b < 128)%N /\ r = byte_val b) \/
   ((194 <= byte_val b)%N /\ (2 <= n)%nat /\ take n l = encode_rune r /\ length (take n l) = n /\
    forall tl, decode_rune (take n l ++ tl) = Some (r, n))).
Proof.
  destruct l as [|b0 l1]; simpl; [done|]. intros H. exists b0, l1. split; [done|].
  destruct (byte_val b0 <? 128)%N eqn:E0; [left; injection H as <- <-; by apply N.ltb_lt in E0|right].
  destruct l1 as [|b1 l2]; [done|].
  pose proof (byte_val_lt b0). pose proof (byte_val_lt b1).
  assert (Hc : forall b, is_cont b = true -> (128 <= byte_val b <= 191)%N).
  { intros b Hb. unfold is_cont in Hb. lia. }
  assert (Henc : forall b v, (v < 256)%N -> v = byte_val b -> ascii_of_N v = b).
  { intros b v _ ->. apply ascii_of_byte_val. }
  destruct ((194 <=? byte_val b0) && (byte_val b0 <=? 223))%N eqn:E1.
  { destruct (is_cont b1) eqn:C1; [|done]. simplify_eq. pose proof (Hc _ C1). unfold cont_val.
    split_and!; [lia|lia| |done|].
    - simpl. unfold encode_rune.
      destruct (((byte_val b0 - 192) * 64 + (byte_val b1 - 128)) <? 128)%N eqn:F1; [lia|].
      destruct (((byte_val b0 - 192) * 64 + (byte_val b1 - 128)) <? 2048)%N eqn:F2; [|lia]. simpl.
      f_equal; [|f_equal]; symmetry; apply Henc; try lia.
    - intros tl. simpl. by rewrite E0, E1, C1. }
  destruct l2 as [|b2 l3]; [done|]. pose proof (byte_val_lt b2).
  destruct ((224 <=? byte_val b0) && (byte_val b0 <=? 239))%N eqn:E2.
  { destruct (is_cont b1) eqn:C1, (is_cont b2) eqn:C2; try done. simpl in H.
    destruct ((2048 <=? _) && negb _)%N eqn:E3; [|done]. simplify_eq.
    pose proof (Hc _ C1). pose proof (Hc _ C2). unfold cont_val in *.
    split_and!; [lia|lia| |done|].
    - simpl. unfold encode_rune.
      repeat match goal with |- context [(?x <? ?y)%N] => destruct (x <? y)%N eqn:?; try lia end. simpl.
      f_equal; [|f_equal; [|f_equal]]; symmetry; apply Henc; try lia.
    - intros tl. simpl. rewrite E0, E1, E2, C1, C2. simpl. unfold cont_val. by rewrite E3. }
  destruct l3 as [|b3 l4]; [done|]. pose proof (byte_val_lt b3).
  destruct ((240 <=? byte_val b0) && (byte_val b0 <=? 244))%N eqn:E3; [|done].
  destruct (is_cont b1) eqn:C1, (is_cont b2) eqn:C2, (is_cont b3) eqn:C3; try done. simpl in H.
  destruct ((65536 <=? _) && _)%N eqn:E4; [|done]. simplify_eq.
  pose proof (Hc _ C1). pose proof (Hc _ C2). pose proof (Hc _ C3). unfold cont_val in *.
  split_and!; [lia|lia| |done|].
  - simpl. unfold encode_rune.
    repeat match goal with |- context [(?x <? ?y)%N] => destruct (x <? y)%N eqn:?; try lia end. simpl.
    f_equal; [|f_equal; [|f_equal; [|f_equal]]]; symmetry; apply Henc; try lia.
  - intros tl. simpl. rewrite E0, E1, E2, E3, C1, C2, C3. simpl. unfold cont_val. by rewrite E4.
Qed.

(** The string with every byte that starts no valid encoding replaced by U+FFFD:
    what a JSON string can carry. *)
Fixpoint clean_loop (fuel : nat) (l : list ascii) : list ascii :=
  match fuel, l with
  | S f, _ :: l' => match decode_rune l with
                    | Some (_, n) => take n l ++ clean_loop f (drop n l)
                    | None => rune_error ++ clean_loop f l'
                    end
  | _, _ => []
  end.

Definition clean (s : string) : string :=
  let l := chars s in String.string_of_list_ascii (clean_loop (length l) l).

Definition valid_utf8 (s : string) : Prop := clean s = s.
#[global] Instance valid_utf8_dec s : Decision (valid_utf8 s).
Proof. unfold valid_utf8. apply _. Defined.

Lemma ascii_decode c l : (byte_val c < 128)%N -> decode_rune (c :: l) = Some (byte_val c, 1%nat).
Proof. intros Hc. simpl. by rewrite (proj2 (N.ltb_lt _ _) Hc). Qed.

(** ASCII strings are valid. *)
Lemma ascii_valid s : Forall (fun c => (byte_val c < 128)%N) (chars s) -> valid_utf8 s.
Proof.
  intros Hs. unfold valid_utf8, clean.
  assert (Hl : forall l, Forall (fun c => (byte_val c < 128)%N) l -> clean_loop (length l) l = l).
  { induction 1 as [|c l Hc _ IH]; [done|]. cbn [clean_loop length]. rewrite ascii_decode by done. simpl.
    by rewrite drop_0, IH. }
  rewrite Hl by done. apply String.string_of_list_ascii_of_string.
Qed.

(** ** Escapes *)

Lemma hex_val_digit d : (d < 16)%N -> hex_val (hex_digit d) = Some d.
Proof.
  intros Hd. assert (Hin : d ∈ [0; 1; 2; 3; 4; 5; 6; 7; 8; 9; 10; 11; 12; 13; 14; 15]%N)
    by (rewrite !elem_of_cons; lia).
  rewrite !elem_of_cons in Hin. destruct_or! Hin; subst; try done. by apply not_elem_of_nil in Hin.
Qed.

Lemma hex4_escape v tl : (v < 65536)%N -> hex4 (drop 2 (escape_u v) ++ tl) = Some (v, tl).
Proof.
  intros Hv. unfold escape_u. simpl. rewrite !hex_val_digit by lia. do 2 f_equal. lia.
Qed.

Lemma scan_escape_u g v tl :
  (v < 65536)%N -> is_surrogate v = false ->
  scan_string (S g) (escape_u v ++ tl) =
    match scan_string g tl with Some (s, r) => Some (encode_rune v ++ s, r) | None => None end.
Proof.
  intros Hv Hs. pose proof (hex4_escape v tl Hv) as H4. unfold escape_u in *. cbn [app drop] in *.
  cbn [scan_string]. change (byte_val bs =? 34)%N with false. change (byte_val bs =? 92)%N with true.
  change (byte_val (ascii_of_N 117)) with 117%N. cbn [N.eqb orb Pos.eqb].
  rewrite H4.
  unfold unescape_u. rewrite Hs. done.
Qed.

(** One byte below 0x80. *)
Lemma scan_escape_ascii g c tl :
  (byte_val c < 128)%N ->
  scan_string (S g) (escape_ascii c ++ tl) =
    match scan_string g tl with Some (s, r) => Some (c :: s, r) | None => None end.
Proof.
  intros Hc. unfold escape_ascii.
  assert (Hsimple : forall v e, byte_val c = v -> (e < 256)%N -> In (v, e)
    [(92, 92); (34, 34); (8, 98); (12, 102); (10, 110); (13, 114); (9, 116)]%N ->
    scan_string (S g) ([bs; ascii_of_N e] ++ tl) =
      match scan_string g tl with Some (s, r) => Some (c :: s, r) | None => None end).
  { intros v e Hv He Hin. cbn [app scan_string]. change (byte_val bs =? 34)%N with false.
    change (byte_val bs =? 92)%N with true. rewrite byte_val_of_N by done.
    assert (Hcc : c = ascii_of_N v) by (by rewrite <- Hv, ascii_of_byte_val). rewrite Hcc.
    simpl in Hin. destruct_or! Hin; simplify_eq; try done. }
  destruct ((byte_val c =? 92) || (byte_val c =? 34))%N eqn:E1.
  { rewrite <- (ascii_of_byte_val c) at 1. apply orb_true_iff in E1 as [E1|E1]; apply N.eqb_eq in E1;
      rewrite E1; eapply Hsimple; simpl; eauto 10; lia. }
  destruct (byte_val c =? 8)%N eqn:E2; [eapply Hsimple; [by apply N.eqb_eq|..]; simpl; auto 10; lia|].
  destruct (byte_val c =? 12)%N eqn:E3; [eapply Hsimple; [by apply N.eqb_eq|..]; simpl; auto 10; lia|].
  destruct (byte_val c =? 10)%N eqn:E4; [eapply Hsimple; [by apply N.eqb_eq|..]; simpl; auto 10; lia|].
  destruct (byte_val c =? 13)%N eqn:E5; [eapply Hsimple; [by apply N.eqb_eq|..]; simpl; auto 10; lia|].
  destruct (byte_val c =? 9)%N eqn:E6; [eapply Hsimple; [by apply N.eqb_eq|..]; simpl; auto 10; lia|].
  destruct ((byte_val c <? 32) || _ || _ || _)%N eqn:E7.
  - rewrite scan_escape_u; [|lia|unfold is_surrogate; lia].
    unfold encode_rune. rewrite (proj2 (N.ltb_lt _ _) Hc). simpl. by rewrite ascii_of_byte_val.
  - cbn [app scan_string]. apply orb_false_iff in E1 as [E1 E1'].
    replace (byte_val c =? 34)%N with false. replace (byte_val c =? 92)%N with false.
    destruct (byte_val c <? 32)%N eqn:E8; [lia|]. by rewrite (proj2 (N.ltb_lt _ _) Hc).
Qed.

(** Reading back a string that was written: its bytes with invalid UTF-8
    replaced, and the input after the closing quote. *)
Lemma scan_escape_loop f l g rest :
  (length l <= f)%nat -> (length (escape_loop f l) < g)%nat ->
  scan_string g (escape_loop f l ++ dq :: rest) = Some (clean_loop f l, rest).
Proof.
  revert l g. induction f as [|f IH]; intros l g Hl Hg.
  { destruct l; [|simpl in Hl; lia]. destruct g; [simpl in Hg; lia|]. reflexivity. }
  destruct l as [|c l']; [destruct g; [simpl in Hg; lia|]; reflexivity|].
  destruct g as [|g]; [simpl in Hg; lia|].
  cbn [escape_loop clean_loop] in *. destruct (byte_val c <? 128)%N eqn:Ec.
  { apply N.ltb_lt in Ec. rewrite ascii_decode by done. rewrite length_app in Hg.
    rewrite <- app_assoc, scan_escape_ascii by done. simpl. rewrite drop_0.
    rewrite IH; [done|simpl in Hl; lia|].
    assert (1 <= length (escape_ascii c))%nat; [|lia]. unfold escape_ascii. repeat case_match; simpl; lia. }
  destruct (decode_rune (c :: l')) as [[r n]|] eqn:Ed; cycle 1.
  { rewrite <- app_assoc, scan_escape_u by done. rewrite length_app in Hg.
    rewrite IH; [done|simpl in Hl; lia|]. simpl in Hg. lia. }
  pose proof Ed as Ed'. apply decode_rune_cases in Ed' as (b & l1 & Heq & [(_ & Hb & _)|(Hb & Hn & Henc & Hlen & Hdec)]);
    simplify_eq; [lia|].
  assert (Hdrop : (length (drop n (b :: l1)) <= f)%nat) by (rewrite length_drop; simpl in *; lia).
  rewrite <- app_assoc. rewrite length_app in Hg. destruct ((r =? 8232) || (r =? 8233))%N eqn:Er.
  - rewrite scan_escape_u; [|lia|unfold is_surrogate; lia].
    rewrite IH; [|done|simpl in Hg; lia]. by rewrite Henc.
  - assert (exists t1, take n (b :: l1) = b :: t1) as [t1 Ht1] by (destruct n; [lia|]; simpl; eauto).
    specialize (Hdec (escape_loop f (drop n (b :: l1)) ++ dq :: rest)).
    rewrite Ht1 in Hdec |- *. cbn [app scan_string]. cbn [app] in Hdec. rewrite Hdec.
    destruct (byte_val b =? 34)%N eqn:X1; [lia|]. destruct (byte_val b =? 92)%N eqn:X2; [lia|].
    destruct (byte_val b <? 32)%N eqn:X3; [lia|]. rewrite Ec.
    change (b :: t1 ++ ?x) with ((b :: t1) ++ x). rewrite <- Ht1.
    rewrite drop_app_length', take_app_length' by (by rewrite Hlen).
    rewrite IH; [done|done|rewrite Ht1 in Hg; simpl in Hg; lia].
Qed.

Lemma scan_quote s rest g :
  (length (quote_list s) <= g)%nat ->
  scan_string g (tail (quote_list s) ++ rest) = Some (chars (clean s), rest).
Proof.
  intros Hg. unfold quote_list in *. simpl in *. rewrite length_app in Hg. simpl in Hg.
  rewrite <- app_assoc. simpl. rewrite scan_escape_loop; [|done|lia].
  unfold clean, chars. by rewrite String.list_ascii_of_string_of_list_ascii.
Qed.

(** ** Objects of strings *)

Definition string_members (l : list (string * string)) : list (string * json) :=
  map (fun kv => (kv.1, JStr kv.2)) l.

Definition clean_members (l : list (string * string)) : list (string * json) :=
  map (fun kv => (clean kv.1, JStr (clean kv.2))) l.

Definition member_text (kv : string * json) : list ascii :=
  quote_list kv.1 ++ chars ":" ++ marshal_list kv.2.

Lemma quote_head s : quote_list s = dq :: tail (quote_list s).
Proof. reflexivity. Qed.

Lemma scan_value_string f depth s rest :
  scan_value (S f) depth (quote_list s ++ rest) = Some (JStr (clean s), rest).
Proof.
  rewrite quote_head. cbn [app scan_value skip_space].
  change (is_json_space dq) with false. cbn iota. change (Ascii.eqb dq dq) with true. cbn iota.
  rewrite scan_quote; [|rewrite length_app; simpl; lia].
  by rewrite string_chars.
Qed.

(** ** Reading back what was written *)

Lemma json_nested_ind (P : json -> Prop) :
  P JNull -> (forall b, P (JBool b)) -> (forall lit, P (JNum lit)) -> (forall s, P (JStr s)) ->
  (forall l, Forall P l -> P (JArr l)) -> (forall m, Forall (fun kv => P kv.2) m -> P (JObj m)) ->
  forall v, P v.
Proof.
  intros Hn Hb Hi Hs Ha Ho. fix IH 1. intros [|b|lit|s|l|m]; [done|apply Hb|apply Hi|apply Hs| |].
  - apply Ha. induction l; constructor; [apply IH|done].
  - apply Ho. induction m as [|kv m IHm]; constructor; [apply IH|done].
Qed.

(** What may follow a value *)
Definition value_end (rest : list ascii) : Prop :=
  match rest with [] => True | c :: _ => c ∈ [","%char; "]"%char; "}"%char; ascii_of_N 10] end.

(** A number literal: it is read up to the end of the value. *)
Definition num_ok (lit : string) : Prop :=
  match chars lit with [] => False | c :: _ => is_digit c = true \/ c = "-"%char end /\
  forall rest, value_end rest -> scan_number (chars lit ++ rest) = Some (chars lit, rest).

Fixpoint readable (v : json) : Prop :=
  match v with
  | JNum lit => num_ok lit
  | JArr l => foldr and True (map readable l)
  | JObj m => foldr and True (map (fun kv => readable kv.2) m)
  | _ => True
  end.

Fixpoint json_depth (v : json) : nat :=
  match v with
  | JArr l => S (max_list (map json_depth l))
  | JObj m => S (max_list (map (fun kv => json_depth kv.2) m))
  | _ => 0
  end.

(** Strings come back as valid UTF-8. *)
Fixpoint clean_json (v : json) : json :=
  match v with
  | JStr s => JStr (clean s)
  | JArr l => JArr (map clean_json l)
  | JObj m => JObj (map (fun kv => (clean kv.1, clean_json kv.2)) m)
  | _ => v
  end.

Definition reads (v : json) : Prop :=
  forall fuel depth rest, (2 * length (marshal_list v) < fuel)%nat -> (depth + json_depth v <= max_nesting_depth)%nat ->
    readable v -> value_end rest -> scan_value fuel depth (marshal_list v ++ rest) = Some (clean_json v, rest).

Ltac json_char := cbn [skip_space app]; repeat match goal with
  | |- context [is_json_space ?c] => change (is_json_space c) with false; cbn iota
  | |- context [Ascii.eqb ?a ?b] => is_ground a; is_ground b;
      first [change (Ascii.eqb a b) with true | change (Ascii.eqb a b) with false]; cbn iota
  end.

Lemma join_cons sep x ls : ls <> [] -> join sep (x :: ls) = x ++ sep ++ join sep ls.
Proof. by destruct ls. Qed.

Lemma scan_elems_join l : l <> [] -> Forall reads l -> forall fuel depth rest,
  (2 * length (join (chars ",") (map marshal_list l)) + 1 < fuel)%nat ->
  (depth + max_list (map json_depth l) <= max_nesting_depth)%nat ->
  foldr and True (map readable l) ->
  scan_elems fuel depth (join (chars ",") (map marshal_list l) ++ "]"%char :: rest) = Some (map clean_json l, rest).
Proof.
  intros Hne Hl. induction Hl as [|v l Hv Hl IH]; [done|]. intros [|f] depth rest Hf Hd [Hr Hrs]; [lia|].
  cbn [map max_list_with id] in *. destruct (decide (l = [])) as [->|Hl0].
  - cbn [map join app scan_elems] in *. rewrite Hv; [|lia|simpl in Hd; lia|done|simpl; set_solver]. reflexivity.
  - rewrite join_cons in Hf |- * by by destruct l. rewrite !length_app in Hf. rewrite <- !app_assoc. cbn [scan_elems].
    rewrite Hv; [|lia|lia|done|simpl; set_solver]. change (chars ",") with [","%char] in *. cbn [length] in Hf. json_char.
    rewrite IH; [done|done|lia|lia|done].
Qed.

Lemma scan_members_join m : m <> [] -> Forall (fun kv => reads kv.2) m -> forall fuel depth rest,
  (2 * length (join (chars ",") (map member_text m)) + 1 < fuel)%nat ->
  (depth + max_list (map (fun kv => json_depth kv.2) m) <= max_nesting_depth)%nat ->
  foldr and True (map (fun kv => readable kv.2) m) ->
  scan_members fuel depth (join (chars ",") (map member_text m) ++ "}"%char :: rest) =
    Some (map (fun kv => (clean kv.1, clean_json kv.2)) m, rest).
Proof.
  intros Hne Hl. induction Hl as [|[k v] m Hv Hl IH]; [done|]. intros [|f] depth rest Hf Hd [Hr Hrs]; [lia|].
  cbn [map max_list_with id fst snd] in *.
  assert (forall sep more, value_end (sep :: more) -> (2 * length (marshal_list v) < f)%nat ->
    scan_members (S f) depth (member_text (k, v) ++ sep :: more) =
    match skip_space (sep :: more) with
    | e :: l4 => if Ascii.eqb e "," then
                   match scan_members f depth l4 with
                   | Some (kvs, r) => Some ((clean k, clean_json v) :: kvs, r)
                   | None => None
                   end
                 else if Ascii.eqb e "}" then Some ([(clean k, clean_json v)], l4) else None
    | [] => None
    end) as Hone.
  { intros sep more Hsep Hlen. unfold member_text. cbn [fst snd]. rewrite <- !app_assoc, (quote_head k).
    cbn [app scan_members]. json_char. change (chars ":") with [":"%char].
    rewrite scan_quote; [|rewrite length_app; simpl; lia]. json_char.
    rewrite Hv; [|lia|lia|done|done]. by rewrite string_chars. }
  destruct (decide (m = [])) as [->|Hm0].
  - cbn [map join] in *. unfold member_text in Hf. cbn [fst snd] in Hf. rewrite !length_app in Hf.
    rewrite Hone; [reflexivity|simpl; set_solver|lia].
  - rewrite join_cons in Hf |- * by by destruct m. unfold member_text at 1 in Hf. cbn [fst snd] in Hf.
    rewrite !length_app in Hf. change (chars ",") with [","%char] in *. cbn [length] in Hf. rewrite <- !app_assoc. cbn [app].
    rewrite Hone; [|simpl; set_solver|lia]. json_char. rewrite IH; [done|done|lia|lia|done].
Qed.

Lemma scan_value_num f depth lit rest :
  num_ok lit -> value_end rest -> scan_value (S f) depth (chars lit ++ rest) = Some (JNum lit, rest).
Proof.
  intros [Hc Hn] Hr. specialize (Hn rest Hr). rewrite <- (string_chars lit) at 2.
  destruct (chars lit) as [|c l]; [done|]. cbn [app] in *.
  assert (scan_value (S f) depth (c :: l ++ rest) =
    match scan_number (c :: l ++ rest) with
    | Some (n, r) => Some (JNum (String.string_of_list_ascii n), r)
    | None => None
    end) as ->; [|by rewrite Hn].
  destruct Hc as [Hc| ->]; [|reflexivity].
  destruct c as [[] [] [] [] [] [] [] []]; try discriminate Hc; reflexivity.
Qed.

Lemma marshal_head v : readable v ->
  exists c t, marshal_list v = c :: t /\ is_json_space c = false /\ Ascii.eqb c "]" = false.
Proof.
  destruct v as [|[]|lit|s|l|m]; intros Hr; try (by eexists _, _).
  destruct Hr as [Hc _]. cbn [marshal_list]. destruct (chars lit) as [|c t]; [done|]. exists c, t. split; [done|].
  destruct Hc as [Hc| ->]; [|done]. destruct c as [[] [] [] [] [] [] [] []]; try discriminate Hc; done.
Qed.

(** Every readable value is read back, its strings as valid UTF-8. *)
Lemma reads_all v : reads v.
Proof.
  induction v as [|b|lit|s|l IH|m IH] using json_nested_ind; 
    intros [|f] depth rest Hf Hd Hr Hend; try lia.
  - reflexivity.
  - by destruct b.
  - by apply scan_value_num.
  - apply scan_value_string.
  - cbn [json_depth] in Hd. change (marshal_list (JArr l)) with ("["%char :: join (chars ",") (map marshal_list l) ++ ["]"%char]) in *.
    cbn [app length] in Hf |- *. rewrite length_app in Hf. cbn [length] in Hf.
    rewrite <- app_assoc. cbn [app scan_value]. json_char.
    assert ((max_nesting_depth <=? depth)%nat = false) as -> by (apply Nat.leb_gt; lia).
    destruct (decide (l = [])) as [->|Hl]; [reflexivity|]. rewrite scan_elems_join; [|done|done|lia|lia|done].
    destruct l as [|v l]; [done|]. destruct Hr as [Hr _]. destruct (marshal_head v Hr) as (c & t & Ht & Hs & Hb).
    destruct l; cbn [map join]; rewrite Ht; cbn [app skip_space]; by rewrite Hs, Hb.
  - cbn [json_depth] in Hd. change (marshal_list (JObj m)) with ("{"%char :: join (chars ",") (map member_text m) ++ ["}"%char]) in *.
    cbn [app length] in Hf |- *. rewrite length_app in Hf. cbn [length] in Hf.
    rewrite <- app_assoc. cbn [app scan_value]. json_char.
    assert ((max_nesting_depth <=? depth)%nat = false) as -> by (apply Nat.leb_gt; lia).
    destruct (decide (m = [])) as [->|Hm]; [reflexivity|]. rewrite scan_members_join; [|done|done|lia|lia|done].
    destruct m as [|kv m]; [done|]. destruct m; reflexivity.
Qed.

(** [json.Unmarshal] of what [json.Marshal] wrote, with white space after it *)
Lemma parse_marshal v tail :
  readable v -> (json_depth v <= max_nesting_depth)%nat -> skip_space (chars tail) = [] -> value_end (chars tail) ->
  parse (marshal v +:+ tail) = Some (clean_json v).
Proof.
  intros Hr Hd Ht Hend. unfold parse, marshal.
  replace (chars (String.string_of_list_ascii (marshal_list v) +:+ tail)) with (marshal_list v ++ chars tail).
  - rewrite reads_all; [by rewrite Ht| |lia|done|done]. unfold scan_fuel. rewrite length_app. lia.
  - rewrite <- (string_chars tail) at 2. rewrite <- string_of_list_app. unfold chars.
    by rewrite String.list_ascii_of_string_of_list_ascii.
Qed.

(** A map of strings is read back member by member. *)
Lemma parse_string_object l : parse (marshal (JObj (string_members l))) = Some (JObj (clean_members l)).
Proof.
  rewrite <- (string_app_nil_r (marshal _)). rewrite parse_marshal; [| |..|done|done].
  - unfold string_members, clean_members. cbn [clean_json]. by rewrite map_map.
  - cbn [readable]. unfold string_members. rewrite map_map. by induction l.
  - assert (json_depth (JObj (string_members l)) = 1)%nat as ->; [|by apply Nat.leb_le; vm_compute].
    cbn [json_depth]. f_equal. by induction l.
Qed.

(** *** Integers *)

Lemma is_digit_char d : 0 <= d <= 9 -> is_digit (digit_char d) = true /\ (Ascii.eqb (digit_char d) "0" = true -> d = 0).
Proof.
  intros Hd. assert (d = 0 \/ d = 1 \/ d = 2 \/ d = 3 \/ d = 4 \/ d = 5 \/ d = 6 \/ d = 7 \/ d = 8 \/ d = 9) as Hc by lia.
  destruct_or! Hc; subst d; done.
Qed.

(** Decimal digits, the first of them 0 only for zero *)
Lemma fmt_digits_shape f n acc :
  0 <= n < 10 ^ Z.of_nat (S f) -> Forall (fun c => is_digit c = true) (chars acc) ->
  exists d l, chars (fmt_digits (S f) n acc) = digit_char d :: l /\ 0 <= d <= 9 /\
    Forall (fun c => is_digit c = true) l /\ (d = 0 -> n = 0 /\ l = chars acc).
Proof.
  revert n acc. induction f as [|f IH]; intros n acc Hn Ha.
  - change (10 ^ Z.of_nat 1) with 10 in Hn. cbn [fmt_digits].
    assert (n <? 10 = true) as -> by lia. exists n, (chars acc). rewrite Z.mod_small by lia.
    split_and!; [done|lia..|done|done].
  - cbn [fmt_digits]. destruct (Z.ltb_spec n 10).
    { exists n, (chars acc). rewrite Z.mod_small by lia. split_and!; [done|lia..|done|done]. }
    destruct (IH (n / 10) (String (digit_char (n mod 10)) acc)) as (d & l & E & Hd & Hl & Hz).
    + rewrite (Nat2Z.inj_succ (S f)), Z.pow_succ_r in Hn by lia. revert Hn. generalize (10 ^ Z.of_nat (S f)). lia.
    + constructor; [apply is_digit_char; lia|done].
    + exists d, l. split_and!; [exact E|lia..|done|]. intros ->. destruct (Hz eq_refl) as [? _]. lia.
Qed.

Lemma span_digits_app l rest :
  Forall (fun c => is_digit c = true) l -> value_end rest -> span_digits (l ++ rest) = (l, rest).
Proof.
  intros Hl Hr. induction Hl as [|c l Hc _ IH]; simpl; [|by rewrite Hc, IH].
  destruct rest as [|c r]; [done|]. simpl in *. rewrite !elem_of_cons in Hr.
  destruct_or! Hr; subst; try done. by apply not_elem_of_nil in Hr.
Qed.

Lemma scan_no_fraction rest : value_end rest -> scan_frac rest = Some ([], rest) /\ scan_exp rest = Some ([], rest).
Proof.
  destruct rest as [|c r]; [done|]. simpl. rewrite !elem_of_cons. intros Hr.
  destruct_or! Hr; subst; try done. by apply not_elem_of_nil in Hr.
Qed.

Lemma num_ok_Itoa n : 0 <= n <= int64_max -> num_ok (Itoa n).
Proof.
  intros Hn. unfold num_ok, Itoa. destruct (Z.ltb_spec n 0); [lia|].
  destruct (fmt_digits_shape 19 n "") as (d & l & E & Hd & Hl & Hz); [unfold int64_max in Hn; simpl; lia|done|].
  destruct (is_digit_char d Hd) as [Hdig H0]. rewrite E. split; [by left|]. intros rest Hr.
  unfold scan_number. cbn [app].
  assert (Ascii.eqb (digit_char d) "-" = false) as ->.
  { apply Ascii.eqb_neq. intros Heq. by rewrite Heq in Hdig. }
  cbn [scan_int]. destruct (Ascii.eqb (digit_char d) "0").
  - destruct (Hz (H0 eq_refl)) as [_ ->]. simpl app. destruct (scan_no_fraction rest Hr) as [-> ->]. done.
  - rewrite Hdig, span_digits_app by done. destruct (scan_no_fraction rest Hr) as [-> ->]. by rewrite !app_nil_r.
Qed.

(** ** Association lists as maps *)

Lemma list_to_map_obj_insert k v m :
  list_to_map (obj_insert k v m) = <[k := v]> (list_to_map m : gmap string json).
Proof.
  induction m as [|[k' v'] m IH]; simpl; [done|].
  destruct (String.eqb_spec k k') as [->|Hne]; simpl; [by rewrite insert_insert_eq|].
  destruct (str_ltb k k'); simpl; [done|]. rewrite IH. by rewrite insert_insert_ne.
Qed.

Lemma obj_insert_elem k v m kv : kv ∈ obj_insert k v m -> kv = (k, v) \/ kv ∈ m.
Proof.
  induction m as [|[k' v'] m IH]; simpl; [rewrite list_elem_of_singleton; auto|].
  destruct (String.eqb_spec k k'); [|destruct (str_ltb k k')]; rewrite ?elem_of_cons; naive_solver.
Qed.

Lemma obj_of_list_elem l kv : kv ∈ obj_of_list l -> kv ∈ l.
Proof.
  unfold obj_of_list. assert (Hg : forall acc, kv ∈ fold_left (fun m kv => obj_insert kv.1 kv.2 m) l acc ->
    kv ∈ l \/ kv ∈ acc).
  { induction l as [|[k v] l IH]; simpl; intros acc Hin; [auto|].
    apply IH in Hin as [Hin|Hin]; [left; by right|]. apply obj_insert_elem in Hin as [->|Hin]; [left; left|auto]. }
  intros Hin. apply Hg in Hin as [?|Hin]; [done|]. by apply not_elem_of_nil in Hin.
Qed.

(** The value a list of pairs gives to a key, in any order and with
    repetitions, when the pairs of that key agree. *)
Lemma obj_of_list_lookup l k (x : option json) :
  (forall v, (k, v) ∈ l -> x = Some v) -> (forall v, x = Some v -> (k, v) ∈ l) ->
  (list_to_map (obj_of_list l) : gmap string json) !! k = x.
Proof.
  intros Hin Hcov. unfold obj_of_list.
  assert (Hg : forall l acc, (forall v, (k, v) ∈ l -> x = Some v) ->
    (forall v, (list_to_map acc : gmap string json) !! k = Some v -> x = Some v) ->
    (forall v, x = Some v -> (k, v) ∈ l \/ (list_to_map acc : gmap string json) !! k = Some v) ->
    (list_to_map (fold_left (fun m kv => obj_insert kv.1 kv.2 m) l acc) : gmap string json) !! k = x).
  { clear l Hin Hcov. induction l as [|[k' v'] l IH]; simpl; intros acc Hin Hacc Hcov.
    - destruct x as [v|].
      + destruct (Hcov v eq_refl) as [Hx|Hx]; [by apply not_elem_of_nil in Hx|done].
      + apply eq_None_not_Some. intros [v Hv]. by apply Hacc in Hv.
    - apply IH.
      + intros v Hx. apply Hin. by right.
      + intros v. rewrite list_to_map_obj_insert. intros [[-> ->]|[_ Hv]]%lookup_insert_Some; [|by apply Hacc].
        apply Hin. left.
      + intros v Hv. rewrite list_to_map_obj_insert. destruct (decide (k' = k)) as [->|Hne].
        * right. rewrite lookup_insert_eq. rewrite (Hin v' ltac:(left)) in Hv. done.
        * rewrite lookup_insert_ne by done. destruct (Hcov v Hv) as [Hx|Hx]; [|by right].
          apply elem_of_cons in Hx as [Hx|Hx]; [simplify_eq|by left]. }
  apply Hg; [done|intros v Hv; simpl in Hv; by rewrite lookup_empty in Hv|]. intros v Hv. left. by apply Hcov.
Qed.

Lemma string_members_exists (m : list (string * json)) :
  (forall kv, kv ∈ m -> exists s, kv.2 = JStr s) -> exists l, m = string_members l.
Proof.
  induction m as [|[k v] m IH]; intros Hm; [by exists []|].
  destruct IH as [l ->]; [intros; apply Hm; by right|]. destruct (Hm (k, v) ltac:(left)) as [s Hs]. simpl in Hs. subst v.
  by exists ((k, s) :: l).
Qed.

Lemma list_to_map_string_members l :
  list_to_map (string_members l) = JStr <$> (list_to_map l : gmap string string).
Proof.
  induction l as [|[k v] l IH]; simpl; [by rewrite fmap_empty|]. by rewrite IH, fmap_insert.
Qed.

Lemma unmarshal_string_object `{Strconv} l :
  unmarshal_map (marshal (JObj (string_members l))) = Some (obj_of_list (clean_members l)).
Proof.
  unfold unmarshal_map. rewrite parse_string_object. cbn [to_any_float].
  assert (Hm : mapM (fun kv => pair kv.1 <$> to_any_float kv.2) (clean_members l) = Some (clean_members l)).
  { apply mapM_Some. unfold clean_members. induction l as [|[k v] l IH]; constructor; done. }
  by rewrite Hm.
Qed.

(** An ASCII key. *)
Definition ascii_key (k : string) : Prop := Forall (fun c => (byte_val c < 128)%N) (chars k).

(** Cleaning makes no ASCII text of other text. *)
Lemma clean_ascii s : ascii_key (clean s) -> clean s = s.
Proof.
  unfold ascii_key, clean. unfold chars at 1. rewrite String.list_ascii_of_string_of_list_ascii. intros Ha.
  assert (Hl : forall f l, (length l <= f)%nat -> Forall (fun c => (byte_val c < 128)%N) (clean_loop f l) ->
    clean_loop f l = l).
  { induction f as [|f IH]; intros l Hl Hf; destruct l as [|c l']; [done|simpl in Hl; lia|done|].
    cbn [clean_loop] in *. destruct (decode_rune (c :: l')) as [[r n]|] eqn:Ed; cycle 1.
    { apply Forall_app in Hf as [Hf _]. apply Forall_cons in Hf as [Hf _]. vm_compute in Hf. discriminate. }
    apply Forall_app in Hf as [_ Hf]. rewrite IH; [apply take_drop| |done]. rewrite length_drop.
    apply decode_rune_cases in Ed as (b & l1 & _ & [(-> & _)|(_ & Hn & _)]); simpl in *; lia. }
  rewrite Hl by done. apply string_chars.
Qed.

(** A Go map of strings survives [json.Marshal] and [json.Unmarshal]: ASCII keys
    keep their values, cleaned; and every key does if all are valid UTF-8. *)
Lemma unmarshal_marshal_strings `{Strconv} (f : gmap string string) :
  exists l, unmarshal_map (marshal (JObj (obj_of_list (string_members (map_to_list f))))) = Some (string_members l) /\
    (forall k, ascii_key k -> (list_to_map l : gmap string string) !! k = clean <$> f !! k) /\
    ((forall k v, f !! k = Some v -> valid_utf8 k) -> list_to_map l = clean <$> f).
Proof.
  set (l0 := map_to_list f).
  destruct (string_members_exists (obj_of_list (string_members l0))) as [l Hl].
  { intros kv Hin%obj_of_list_elem. apply list_elem_of_fmap in Hin as ([k v] & -> & _). simpl. eauto. }
  assert (Hel : forall k s, (k, s) ∈ l <-> f !! k = Some s).
  { intros k s. split.
    - intros Hin. assert (Hx : (k, JStr s) ∈ obj_of_list (string_members l0)).
      { rewrite Hl. apply list_elem_of_fmap. by exists (k, s). }
      apply obj_of_list_elem, list_elem_of_fmap in Hx as ([k' s'] & ? & Hx). simplify_eq/=. by apply elem_of_map_to_list in Hx.
    - intros Hf. assert (Hx : (list_to_map (obj_of_list (string_members l0)) : gmap string json) !! k = Some (JStr s)).
      { apply obj_of_list_lookup.
        - intros v Hin. apply list_elem_of_fmap in Hin as ([k' s'] & ? & Hin). simplify_eq/=.
          apply elem_of_map_to_list in Hin. congruence.
        - intros v ?. simplify_eq. apply list_elem_of_fmap. exists (k, s). split; [done|]. by apply elem_of_map_to_list. }
      rewrite Hl in Hx. apply elem_of_list_to_map_2, list_elem_of_fmap in Hx as ([k' s'] & ? & Hx). by simplify_eq/=. }
  destruct (string_members_exists (obj_of_list (clean_members l))) as [l' Hl'].
  { intros kv Hin%obj_of_list_elem. apply list_elem_of_fmap in Hin as ([k v] & -> & _). simpl. eauto. }
  assert (Hlook : forall k, (forall k' v, f !! k' = Some v -> clean k' = k -> k' = k) -> clean k = k ->
    (list_to_map l' : gmap string string) !! k = clean <$> f !! k).
  { intros k Hk Hck. assert (Hj : (list_to_map (obj_of_list (clean_members l)) : gmap string json) !! k
      = JStr <$> (clean <$> f !! k)).
    { apply obj_of_list_lookup.
      - intros v Hin. apply list_elem_of_fmap in Hin as ([k' s] & ? & Hin). simplify_eq/=. apply Hel in Hin.
        by rewrite <- (Hk _ _ Hin eq_refl), Hin.
      - intros v Hv. destruct (f !! k) as [s|] eqn:Hs; simplify_eq/=. apply list_elem_of_fmap. exists (k, s).
        simpl. rewrite Hck. split; [done|]. by apply Hel. }
    rewrite Hl', list_to_map_string_members, lookup_fmap in Hj.
    destruct (list_to_map l' !! k), (f !! k); simplify_eq/=; congruence. }
  exists l'. rewrite Hl, unmarshal_string_object, Hl'. split_and!; [done|..].
  - intros k Hk. apply Hlook; [|by apply ascii_valid]. intros k' v Hv Hc. rewrite <- Hc. symmetry. apply clean_ascii. by rewrite Hc.
  - intros Hv. apply map_eq. intros k. rewrite lookup_fmap. destruct (decide (clean k = k)) as [Hc|Hc].
    + apply Hlook; [|done]. intros k' v' Hk' <-. symmetry. by eapply Hv.
    + destruct (f !! k) eqn:Hk; [by apply Hv in Hk|]. simpl. apply not_elem_of_list_to_map_1.
      intros Hin. apply list_elem_of_fmap in Hin as ([k' s] & -> & Hin). simpl in *.
      assert (Hx : (k', JStr s) ∈ obj_of_list (clean_members l)) by (rewrite Hl'; apply list_elem_of_fmap; by exists (k', s)).
      apply obj_of_list_elem, list_elem_of_fmap in Hx as ([k2 s2] & ? & Hx). simplify_eq/=. apply Hel in Hx.
      pose proof (Hv _ _ Hx : clean k2 = k2) as Hk2. rewrite Hk2 in Hk. congruence.
Qed.

(** Decimal numbers are ASCII. *)
Lemma Itoa_valid n : clean (Itoa n) = Itoa n.
Proof.
  apply ascii_valid.
  assert (Hd : forall f m acc, Forall (fun c => (byte_val c < 128)%N) (chars acc) ->
    Forall (fun c => (byte_val c < 128)%N) (chars (fmt_digits f m acc))).
  { induction f as [|f IH]; intros m acc Hacc; [done|]. cbn [fmt_digits].
    assert (Hc : Forall (fun c => (byte_val c < 128)%N) (chars (String (digit_char (m mod 10)) acc))).
    { constructor; [|done]. unfold digit_char. pose proof (Z.mod_pos_bound m 10).
      rewrite byte_val_of_N; lia. }
    destruct (m <? 10); [done|by apply IH]. }
  unfold Itoa. destruct (n <? 0); [constructor; [done|]|]; by apply Hd.
Qed.
