(* ===== verification/JsonDecode.v ===== *)
(** * JsonDecode: decoding request bodies into structs

    What [json.Decoder] does with a body that may be cut off by
    [http.MaxBytesReader], and with the fields of a struct: a key names a field
    regardless of case, a later member overrides an earlier one, [null] leaves a
    field as it is, unknown keys are ignored, and a value of the wrong type is an
    error. *)

From S2P Require Import Prelude GoStrings Utf8 GoErrors Json.

(** ** The scanner, byte by byte

    [scanner.go]: the state after a byte, [None] being a syntax error.  It tells
    an input that is wrong from one that only breaks off. *)

Inductive scan_state :=
| BeginValue (orEmpty : bool)
| BeginString (orEmpty : bool)
| EndValue
| EndTop
| InString
| InStringEsc
| InStringEscU (remaining : nat)
| NumNeg | Num1 | Num0 | NumDot | NumDot0 | NumE | NumESign | NumE0
| InLiteral (rest : list ascii).

Inductive parse_state := ParseObjectKey | ParseObjectValue | ParseArrayValue.

Definition state_end_value (c : ascii) (stack : list parse_state)
    : option (scan_state * list parse_state) :=
  match stack with
  | [] => if is_json_space c then Some (EndTop, []) else None
  | p :: st =>
      if is_json_space c then Some (EndValue, stack) else
      match p with
      | ParseObjectKey => if Ascii.eqb c ":" then Some (BeginValue false, ParseObjectValue :: st) else None
      | ParseObjectValue => if Ascii.eqb c "," then Some (BeginString false, ParseObjectKey :: st)
                            else if Ascii.eqb c "}" then Some (EndValue, st) else None
      | ParseArrayValue => if Ascii.eqb c "," then Some (BeginValue false, stack)
                           else if Ascii.eqb c "]" then Some (EndValue, st) else None
      end
  end.

Definition state_begin_value (c : ascii) (stack : list parse_state)
    : option (scan_state * list parse_state) :=
  let push (s : scan_state) (p : parse_state) :=
    if (max_nesting_depth <=? length stack)%nat then None else Some (s, p :: stack) in
  if is_json_space c then Some (BeginValue false, stack)
  else if Ascii.eqb c "{" then push (BeginString true) ParseObjectKey
  else if Ascii.eqb c "[" then push (BeginValue true) ParseArrayValue
  else if Ascii.eqb c dq then Some (InString, stack)
  else if Ascii.eqb c "-" then Some (NumNeg, stack)
  else if Ascii.eqb c "0" then Some (Num0, stack)
  else if Ascii.eqb c "t" then Some (InLiteral (chars "rue"), stack)
  else if Ascii.eqb c "f" then Some (InLiteral (chars "alse"), stack)
  else if Ascii.eqb c "n" then Some (InLiteral (chars "ull"), stack)
  else if is_digit c then Some (Num1, stack)
  else None.

Definition is_exp (c : ascii) : bool := Ascii.eqb c "e" || Ascii.eqb c "E".

Definition scan_step (s : scan_state) (stack : list parse_state) (c : ascii)
    : option (scan_state * list parse_state) :=
  let num0 := if Ascii.eqb c "." then Some (NumDot, stack)
              else if is_exp c then Some (NumE, stack) else state_end_value c stack in
  match s with
  | BeginValue orEmpty =>
      if is_json_space c then Some (s, stack)
      else if orEmpty && Ascii.eqb c "]" then state_end_value c stack
      else state_begin_value c stack
  | BeginString orEmpty =>
      if is_json_space c then Some (s, stack)
      else if orEmpty && Ascii.eqb c "}" then Some (EndValue, tl stack)
      else if Ascii.eqb c dq then Some (InString, stack) else None
  | EndValue => state_end_value c stack
  | EndTop => if is_json_space c then Some (EndTop, stack) else None
  | InString =>
      if Ascii.eqb c dq then Some (EndValue, stack)
      else if Ascii.eqb c bs then Some (InStringEsc, stack)
      else if (byte_val c <? 32)%N then None else Some (InString, stack)
  | InStringEsc =>
      if Ascii.eqb c "u" then Some (InStringEscU 4, stack)
      else if existsb (Ascii.eqb c) [dq; bs; "/"%char; "b"%char; "f"%char; "n"%char; "r"%char; "t"%char]
      then Some (InString, stack) else None
  | InStringEscU remaining =>
      match hex_val c, remaining with
      | Some _, S (S n) => Some (InStringEscU (S n), stack)
      | Some _, _ => Some (InString, stack)
      | None, _ => None
      end
  | NumNeg => if Ascii.eqb c "0" then Some (Num0, stack)
              else if is_digit c then Some (Num1, stack) else None
  | Num1 => if is_digit c then Some (Num1, stack) else num0
  | Num0 => num0
  | NumDot => if is_digit c then Some (NumDot0, stack) else None
  | NumDot0 => if is_digit c then Some (NumDot0, stack)
               else if is_exp c then Some (NumE, stack) else state_end_value c stack
  | NumE => if Ascii.eqb c "+" || Ascii.eqb c "-" then Some (NumESign, stack)
            else if is_digit c then Some (NumE0, stack) else None
  | NumESign => if is_digit c then Some (NumE0, stack) else None
  | NumE0 => if is_digit c then Some (NumE0, stack) else state_end_value c stack
  | InLiteral [] => state_end_value c stack
  | InLiteral [x] => if Ascii.eqb c x then Some (EndValue, stack) else None
  | InLiteral (x :: r) => if Ascii.eqb c x then Some (InLiteral r, stack) else None
  end.

Fixpoint scan_bytes (s : scan_state) (stack : list parse_state) (l : list ascii) : bool :=
  match l with
  | [] => true
  | c :: l' => match scan_step s stack c with
               | Some (s', stack') => scan_bytes s' stack' l'
               | None => false
               end
  end.

(** No byte of the input is a syntax error. *)
Definition scan_prefix (l : list ascii) : bool := scan_bytes (BeginValue false) [] l.

(** ** [Decoder.Decode] behind a size limit *)

Definition is_container (v : json) : bool :=
  match v with JArr _ | JObj _ => true | _ => false end.

Definition is_nil {A} (l : list A) : bool := match l with [] => true | _ => false end.

(** The next value of the bytes [l]; [cut] says that more bytes follow which the
    reader refuses with [e].  A value that is not an object or array ends only at
    the byte after it. *)
Definition decode_next {SC : Strconv} (e : error) (cut : bool) (l : list ascii)
    : res error (json * list ascii) :=
  match skip_space l with
  | [] => Err (if cut then e else Sentinel ioEOF)
  | _ =>
      match scan_value (scan_fuel l) 0 l with
      | Some (v, rest) => if cut && is_nil rest && negb (is_container v) then Err e else Ok (v, rest)
      | None => if cut && scan_prefix l then Err e
                else Err (ErrorString (json_error_text (String.string_of_list_ascii l)))
      end
  end.

(** The bytes [io.Reader] lets through and whether it cuts the body off. *)
Definition limit_body (limit : Z) (body : string) : list ascii * bool :=
  let l := chars body in
  if limit <? Z.of_nat (length l) then (take (Z.to_nat limit) l, true) else (l, false).

(** ** Struct fields *)

(** The members of an object with the text of each value. *)
Fixpoint raw_members (fuel : nat) (l : list ascii) : list (string * (json * string)) :=
  match fuel, skip_space l with
  | S f, _ :: l0 =>
      match scan_string (S (length l0)) l0 with
      | Some (k, l1) =>
          let v := skip_space (tl (skip_space l1)) in
          match scan_value (scan_fuel v) 1 v with
          | Some (t, l3) =>
              let raw := String.string_of_list_ascii (take (length v - length l3) v) in
              (String.string_of_list_ascii k, (t, raw)) ::
              match skip_space l3 with
              | c :: l4 => if Ascii.eqb c "," then raw_members f l4 else []
              | [] => []
              end
          | None => []
          end
      | None => []
      end
  | _, _ => []
  end.

(** The members of the value at the front of [l]: none for [null], [None] for a
    value that does not fit a struct. *)
Definition struct_members (v : json) (l : list ascii) : option (list (string * (json * string))) :=
  match v with
  | JNull => Some []
  | JObj [] => Some []
  | JObj _ => Some (raw_members (length l) (tl (skip_space l)))
  | _ => None
  end.

Definition named {A} (name : string) (m : list (string * A)) : list A :=
  map snd (filter (fun kv => fold_name kv.1 = name) m).

Definition trees (m : list (string * (json * string))) : list (string * json) :=
  map (fun kv => (kv.1, kv.2.1)) m.

(** Decode the values given to a field one after the other, from its old value. *)
Definition decode_field {A} (set : A -> json -> option A) (old : A) (name : string)
    (m : list (string * json)) : option A :=
  fold_left (fun acc v => acc ≫= fun x => set x v) (named name m) (Some old).

Definition set_string (old : string) (v : json) : option string :=
  match v with JStr s => Some s | JNull => Some old | _ => None end.
Definition set_int (old : Z) (v : json) : option Z :=
  match v with JNum lit => Atoi lit | JNull => Some old | _ => None end.
Definition set_string_ptr (_ : option string) (v : json) : option (option string) :=
  match v with JStr s => Some (Some s) | JNull => Some None | _ => None end.
Definition set_int_ptr (_ : option Z) (v : json) : option (option Z) :=
  match v with JNum lit => Some <$> Atoi lit | JNull => Some None | _ => None end.

(** A slice, [None] being nil: elements are decoded over those already there. *)
Fixpoint set_elems {A} (set : A -> json -> option A) (zero : A) (old : list A) (l : list json)
    : option (list A) :=
  match l with
  | [] => Some []
  | v :: l' => match set (hd zero old) v, set_elems set zero (tl old) l' with
               | Some x, Some xs => Some (x :: xs)
               | _, _ => None
               end
  end.
Definition set_slice {A} (set : A -> json -> option A) (zero : A) (old : option (list A)) (v : json)
    : option (option (list A)) :=
  match v with
  | JNull => Some None
  | JArr l => Some <$> set_elems set zero (default [] old) l
  | _ => None
  end.

Definition string_field := decode_field set_string.
Definition int_field := decode_field set_int.
Definition string_ptr_field := decode_field set_string_ptr.
Definition int_ptr_field := decode_field set_int_ptr.
Definition strings_field := decode_field (set_slice set_string "").

(** [json.RawMessage]: the text of the last value, [null] included. *)
Definition raw_field (name : string) (m : list (string * (json * string))) : string :=
  default "" (snd <$> last (named name m)).

(** ** [json.Compact] with HTML escaping, as [json.Marshal] treats raw messages *)

Fixpoint compact_list (instr esc : bool) (l : list ascii) : list ascii :=
  match l with
  | [] => []
  | c :: l' =>
      let v := byte_val c in
      if instr then
        if ((v =? 60) || (v =? 62) || (v =? 38))%N then escape_u v ++ compact_list true false l'
        else match strip_prefix [ascii_of_N 226; ascii_of_N 128] l, l' with
             | Some (d :: _), _ :: _ :: l3 =>
                 if ((byte_val d =? 168) || (byte_val d =? 169))%N
                 then escape_u (8064 + byte_val d) ++ compact_list true false l3
                 else c :: compact_list true false l'
             | _, _ => c :: compact_list (esc || negb (Ascii.eqb c dq)) (negb esc && Ascii.eqb c bs) l'
             end
      else if is_json_space c then compact_list false false l'
      else c :: compact_list (Ascii.eqb c dq) false l'
  end.

(** A node that prints a given text. *)
Definition JRaw (text : string) : json := JNum text.

(** A raw message as a node; [None] when it is not one JSON value, which makes
    the encoder fail. *)
Definition raw_json (s : string) : option json :=
  match parse s with
  | Some _ => Some (JRaw (String.string_of_list_ascii (compact_list false false (chars s))))
  | None => None
  end.
