(* ===== verification/GoHttp.v ===== *)
(** * GoHttp: requests, response writers and query strings
    (what the handlers use of [net/http] and [net/url])

    A request is what the server hands to a handler: the decoded path, the path as
    it was sent when that is not the usual encoding of the decoded one, the raw
    query, header fields under their canonical names, and the body.  A response
    writer freezes the header when the status is written; a second status is
    ignored. *)

From S2P Require Import Prelude GoStrings GoErrors Json JsonDecode.

Record Request := mkRequestFull {
  Method : string;
  Path : string;
  RawPath : string;
  RawQuery : string;
  Header : list (string * string);
  Body : string;
}.

(** A request whose path was sent in the usual encoding *)
Definition mkRequest (method path query : string) (header : list (string * string)) (body : string) : Request :=
  mkRequestFull method path "" query header body.

(** [r.Header.Get(name)], with [name] canonical *)
Definition HeaderGet (name : string) (r : Request) : string :=
  default "" (snd <$> head (filter (fun kv => kv.1 = name) (Header r))).

(** ** Response writers *)

Record ResponseWriter := mkWriter {
  rw_header : gmap string string;
  rw_wrote : option (Z * gmap string string);
  rw_body : string;
}.

Definition new_writer : ResponseWriter := mkWriter ∅ None "".

Definition SetHeader (k v : string) (w : ResponseWriter) : ResponseWriter :=
  mkWriter (<[k := v]> (rw_header w)) (rw_wrote w) (rw_body w).

Definition WriteHeader (code : Z) (w : ResponseWriter) : ResponseWriter :=
  match rw_wrote w with
  | None => mkWriter (rw_header w) (Some (code, rw_header w)) (rw_body w)
  | Some _ => w
  end.

Definition Write (text : string) (w : ResponseWriter) : ResponseWriter :=
  let w := WriteHeader 200 w in mkWriter (rw_header w) (rw_wrote w) (rw_body w +:+ text).

Definition newline : string := String (ascii_of_N 10) "".

(** [http.Error] *)
Definition Error (text : string) (code : Z) (w : ResponseWriter) : ResponseWriter :=
  let w := mkWriter (delete "Content-Length" (rw_header w)) (rw_wrote w) (rw_body w) in
  let w := SetHeader "X-Content-Type-Options" "nosniff"
             (SetHeader "Content-Type" "text/plain; charset=utf-8" w) in
  Write (text +:+ newline) (WriteHeader code w).

(** [json.NewEncoder(w).Encode(v)]; [None] is a value the encoder rejects, for
    which nothing is written. *)
Definition Encode (v : option json) (w : ResponseWriter) : ResponseWriter :=
  match v with
  | Some v => Write (marshal v +:+ newline) w
  | None => w
  end.

(** The status and header of the response once the handler has returned. *)
Definition response_status (w : ResponseWriter) : Z :=
  match rw_wrote w with Some (code, _) => code | None => 200 end.
Definition response_header (w : ResponseWriter) : gmap string string :=
  match rw_wrote w with Some (_, h) => h | None => rw_header w end.

(** ** Splitting strings *)

(** [strings.Cut(s, sep)] for a one-byte separator, without the found flag *)
Fixpoint cut_byte (c : ascii) (l : list ascii) : list ascii * list ascii :=
  match l with
  | [] => ([], [])
  | x :: l' => if Ascii.eqb x c then ([], l') else let '(a, b) := cut_byte c l' in (x :: a, b)
  end.

(** [strings.Split(s, sep)] for a one-byte separator *)
Fixpoint split_list (c : ascii) (l : list ascii) : list (list ascii) :=
  match l with
  | [] => [[]]
  | x :: l' => if Ascii.eqb x c then [] :: split_list c l'
               else match split_list c l' with
                    | p :: ps => (x :: p) :: ps
                    | [] => [[x]]
                    end
  end.
Definition Split (s : string) (c : ascii) : list string :=
  map String.string_of_list_ascii (split_list c (chars s)).

(** ** Escapes *)

(** [url.unescape]: [plus] is what a plus sign stands for. *)
Fixpoint unescape (plus : ascii) (l : list ascii) : option (list ascii) :=
  match l with
  | [] => Some []
  | c :: l' =>
      if Ascii.eqb c "%" then
        match l' with
        | a :: b :: l'' =>
            match hex_val a, hex_val b with
            | Some x, Some y => cons (ascii_of_N (x * 16 + y)) <$> unescape plus l''
            | _, _ => None
            end
        | _ => None
        end
      else cons (if Ascii.eqb c "+" then plus else c) <$> unescape plus l'
  end.

(** [url.QueryUnescape], [url.PathUnescape] *)
Definition query_unescape : list ascii -> option (list ascii) := unescape " ".
Definition path_unescape : list ascii -> option (list ascii) := unescape "+".

Definition one_of_chars (s : string) (c : ascii) : bool := existsb (Ascii.eqb c) (chars s).

(** [shouldEscape(c, encodePath)] *)
Definition shouldEscape (c : ascii) : bool :=
  negb (one_of_chars "abcdefghijklmnopqrstuvwxyzABCDEFGHIJKLMNOPQRSTUVWXYZ0123456789-_.~$&+,/:;=@" c).

(** [validEncoded(s, encodePath)] *)
Definition validEncoded (s : string) : bool :=
  forallb (fun c => one_of_chars "!'()*[]%" c || negb (shouldEscape c)) (chars s).

Definition upper_hex (n : N) : ascii := ascii_of_N (if (n <? 10)%N then 48 + n else 55 + n)%N.

(** [escape(s, encodePath)] *)
Definition escape_char (c : ascii) : list ascii :=
  if shouldEscape c then ["%"%char; upper_hex (N_of_ascii c / 16); upper_hex (N_of_ascii c mod 16)] else [c].
Definition escape (s : string) : string := String.string_of_list_ascii (concat (map escape_char (chars s))).

(** [r.URL.EscapedPath()] *)
Definition EscapedPath (r : Request) : string :=
  if negb (String.eqb (RawPath r) "") && validEncoded (RawPath r) &&
     bool_decide (path_unescape (chars (RawPath r)) = Some (chars (Path r)))
  then RawPath r else if String.eqb (Path r) "*" then "*" else escape (Path r).

(** ** Query strings *)

(** One setting of [url.ParseQuery]; a malformed one is skipped. *)
Definition parse_setting (l : list ascii) : option (string * string) :=
  if existsb (Ascii.eqb ";") l || is_nil l then None else
  let '(k, v) := cut_byte "=" l in
  match query_unescape k, query_unescape v with
  | Some k, Some v => Some (String.string_of_list_ascii k, String.string_of_list_ascii v)
  | _, _ => None
  end.

(** [r.URL.Query().Get(name)] *)
Definition QueryGet (name : string) (r : Request) : string :=
  default "" (snd <$> head (filter (fun kv => kv.1 = name)
                              (omap parse_setting (split_list "&" (chars (RawQuery r)))))).

(** ** Lemmas *)

Lemma response_status_Error text code w :
  rw_wrote w = None -> response_status (Error text code w) = code.
Proof. destruct w as [h [?|] b]; [done|]. reflexivity. Qed.

Lemma response_status_WriteHeader code w :
  rw_wrote w = None -> response_status (WriteHeader code w) = code.
Proof. destruct w as [h [?|] b]; [done|]. reflexivity. Qed.

Lemma response_header_WriteHeader code w :
  rw_wrote w = None -> response_header (WriteHeader code w) = rw_header w.
Proof. destruct w as [h [?|] b]; [done|]. reflexivity. Qed.

Lemma rw_header_SetHeader k v w : rw_header (SetHeader k v w) = <[k := v]> (rw_header w).
Proof. reflexivity. Qed.

#[export] Hint Rewrite response_status_Error response_status_WriteHeader using done : rail.

(** *** Escaped paths *)

Lemma unescape_escape_char c l : path_unescape (escape_char c ++ l) = cons c <$> path_unescape l.
Proof. destruct c as [[] [] [] [] [] [] [] []]; reflexivity. Qed.

Lemma unescape_EscapedPath r : path_unescape (chars (EscapedPath r)) = Some (chars (Path r)).
Proof.
  unfold EscapedPath. destruct (_ && _) eqn:E.
  { apply andb_prop in E as [_ E]. by apply bool_decide_eq_true in E. }
  clear E. destruct (String.eqb_spec (Path r) "*") as [->|_]; [done|]. unfold escape, chars at 1.
  rewrite String.list_ascii_of_string_of_list_ascii. induction (chars (Path r)) as [|c l IH]; [done|].
  cbn [map concat]. by rewrite unescape_escape_char, IH.
Qed.

(** [strings.Join(segs, sep)] for a one-byte separator *)
Fixpoint join_list (c : ascii) (segs : list (list ascii)) : list ascii :=
  match segs with
  | [] => []
  | [s] => s
  | s :: segs' => s ++ c :: join_list c segs'
  end.

Lemma split_list_cons c x l : Ascii.eqb x c = false ->
  exists p ps, split_list c l = p :: ps /\ split_list c (x :: l) = (x :: p) :: ps.
Proof.
  intros Hx. cbn. rewrite Hx. assert (split_list c l <> []) as Hne.
  { destruct l as [|y l]; cbn; [done|]. by repeat case_match. }
  destruct (split_list c l); eauto; done.
Qed.

Lemma join_list_cons c x y ys : join_list c ((x :: y) :: ys) = x :: join_list c (y :: ys).
Proof. by destruct ys. Qed.

Lemma join_split c l : join_list c (split_list c l) = l.
Proof.
  induction l as [|x l IH]; [done|]. destruct (Ascii.eqb_spec x c) as [->|Hx].
  - cbn. rewrite Ascii.eqb_refl. destruct (split_list c l) as [|p ps] eqn:E; [|cbn in *; by rewrite IH].
    exfalso. destruct l as [|y l]; [done|]. cbn in E. by repeat case_match.
  - apply Ascii.eqb_neq in Hx. destruct (split_list_cons c x l Hx) as (p & ps & E & ->).
    by rewrite join_list_cons, <- E, IH.
Qed.

(** Decoding the parts of a path decodes the path. *)
Lemma unescape_segments n : forall l p, (length l <= n)%nat -> path_unescape l = Some p ->
  exists segs, Forall2 (fun x y => path_unescape x = Some y) (split_list "/" l) segs /\ p = join_list "/" segs.
Proof.
  unfold path_unescape. induction n as [|n IH]; intros [|c l] p Hn Hp; cbn in Hn; try lia.
  1,2: cbn in Hp; simplify_eq; exists [[]]; split; [by repeat constructor|done].
  cbn [unescape] in Hp. destruct (Ascii.eqb_spec c "%") as [->|Hc].
  - destruct l as [|a [|b l]]; try done. destruct (hex_val a) as [x|] eqn:Ha; [|done].
    destruct (hex_val b) as [y|] eqn:Hb; [|done]. apply fmap_Some in Hp as (q & Hq & ->).
    destruct (IH l q) as (segs & Hs & ->); [cbn in Hn; lia|done|].
    assert (forall z, is_Some (hex_val z) -> Ascii.eqb z "/" = false) as Hsl.
    { intros z Hz. apply Ascii.eqb_neq. intros ->. by destruct Hz. }
    destruct (split_list_cons "/" b l) as (p1 & ps & E1 & E2); [by apply Hsl; rewrite Hb|].
    destruct (split_list_cons "/" a (b :: l)) as (p2 & ps2 & E3 & E4); [by apply Hsl; rewrite Ha|].
    destruct (split_list_cons "/" "%" (a :: b :: l)) as (p3 & ps3 & E5 & E6); [done|]. simplify_eq.
    rewrite E1 in Hs. inversion Hs as [|? u ? us Hu Hus]; subst. exists ((ascii_of_N (x * 16 + y) :: u) :: us).
    rewrite E6. split; [|by rewrite join_list_cons]. rewrite E4 in E5. rewrite E2 in E3. simplify_eq. constructor; [|done]. cbn [unescape Ascii.eqb].
    change (Ascii.eqb "%" "%") with true. cbv iota. by rewrite Ha, Hb, Hu.
  - apply fmap_Some in Hp as (q & Hq & ->). destruct (IH l q) as (segs & Hs & ->); [lia|done|].
    assert ((if Ascii.eqb c "+" then "+"%char else c) = c) as -> by (destruct (Ascii.eqb_spec c "+"); congruence).
    destruct (Ascii.eqb_spec c "/") as [->|Hsl].
    + exists ([] :: segs). cbn [split_list]. rewrite Ascii.eqb_refl. split; [by constructor|].
      destruct segs; [|done]. exfalso. apply Forall2_length in Hs. destruct l; cbn in Hs; [done|]. by repeat case_match.
    + apply Ascii.eqb_neq in Hsl. destruct (split_list_cons "/" c l Hsl) as (p1 & ps & E1 & ->).
      rewrite E1 in Hs. inversion Hs as [|? u ? us Hu Hus]; subst. exists ((c :: u) :: us).
      split; [|by rewrite join_list_cons]. constructor; [|done]. cbn [unescape]. apply Ascii.eqb_neq in Hc. rewrite Hc, Hu. cbn.
      by destruct (Ascii.eqb_spec c "+"); subst.
Qed.
