(* ===== verification/Sha256.v ===== *)
(** * Sha256: [crypto/sha256] and [encoding/hex]

    FIPS 180-4 SHA-256 on byte strings, with words in [N] below 2^32. *)

From S2P Require Import Prelude.

Local Open Scope N_scope.

Definition w32 (x : N) : N := N.land x 4294967295.
Definition add32 (x y : N) : N := w32 (x + y).
Definition rotr (n x : N) : N := N.lor (N.shiftr x n) (w32 (N.shiftl x (32 - n))).

(** ** Constants: fractions of roots of the first primes *)

Definition is_prime (p : nat) : bool :=
  forallb (fun d => negb (Nat.modulo p d =? 0)%nat) (seq 2 (p - 2)).

Definition primes : list N := map N.of_nat (take 64 (base.filter is_prime (seq 2 310))).

(** The integer cube root, one bit at a time from bit [n] down. *)
Fixpoint cube_root (n : nat) (acc x : N) : N :=
  match n with
  | O => acc
  | S n' => let acc' := acc + 2 ^ N.of_nat n' in
            cube_root n' (if acc' * acc' * acc' <=? x then acc' else acc) x
  end.

(** The first 32 bits of the fraction of the cube root, and of the square root. *)
Definition K256 : list N := Eval vm_compute in map (fun p => w32 (cube_root 40 0 (p * 2 ^ 96))) primes.
Definition H256 : list N := Eval vm_compute in map (fun p => w32 (N.sqrt (p * 2 ^ 64))) (take 8 primes).

(** ** Compression *)

Definition Ch (x y z : N) : N := N.lxor (N.land x y) (N.land (N.lxor x 4294967295) z).
Definition Maj (x y z : N) : N := N.lxor (N.lxor (N.land x y) (N.land x z)) (N.land y z).
Definition Sigma0 (x : N) : N := N.lxor (N.lxor (rotr 2 x) (rotr 13 x)) (rotr 22 x).
Definition Sigma1 (x : N) : N := N.lxor (N.lxor (rotr 6 x) (rotr 11 x)) (rotr 25 x).
Definition sigma0 (x : N) : N := N.lxor (N.lxor (rotr 7 x) (rotr 18 x)) (N.shiftr x 3).
Definition sigma1 (x : N) : N := N.lxor (N.lxor (rotr 17 x) (rotr 19 x)) (N.shiftr x 10).

(** The message schedule, newest word first: 48 words extend the 16 of a block. *)
Fixpoint schedule (n : nat) (w : list N) : list N :=
  match n with
  | O => w
  | S n' =>
      let wi := add32 (add32 (sigma1 (nth 1 w 0)) (nth 6 w 0))
                      (add32 (sigma0 (nth 14 w 0)) (nth 15 w 0)) in
      schedule n' (wi :: w)
  end.

Definition round (h : list N) (kw : N * N) : list N :=
  match h with
  | [a; b; c; d; e; f; g; hh] =>
      let t1 := add32 (add32 (add32 hh (Sigma1 e)) (Ch e f g)) (add32 kw.1 kw.2) in
      let t2 := add32 (Sigma0 a) (Maj a b c) in
      [add32 t1 t2; a; b; c; add32 d t1; e; f; g]
  | _ => h
  end.

Definition compress (h block : list N) : list N :=
  let w := reverse (schedule 48 (reverse block)) in
  zip_with add32 h (fold_left round (zip K256 w) h).

Fixpoint words_of_bytes (fuel : nat) (l : list N) : list N :=
  match fuel, l with
  | S f, a :: b :: c :: d :: l' =>
      (a * 16777216 + b * 65536 + c * 256 + d) :: words_of_bytes f l'
  | _, _ => []
  end.

Fixpoint blocks (fuel : nat) (ws : list N) : list (list N) :=
  match fuel, ws with
  | S f, _ :: _ => take 16 ws :: blocks f (drop 16 ws)
  | _, _ => []
  end.

(** Big-endian bytes of a [k]-byte number *)
Fixpoint be_bytes (k : nat) (n : N) : list N :=
  match k with
  | O => []
  | S k' => be_bytes k' (n / 256) ++ [n mod 256]
  end.

(** One 0x80 byte, zeros up to 56 modulo 64, and the bit length in 8 bytes. *)
Definition padded (msg : list N) : list N :=
  let len := length msg in
  let zeros := Nat.modulo (119 - Nat.modulo len 64)%nat 64 in
  msg ++ [128] ++ replicate zeros 0 ++ be_bytes 8 (8 * N.of_nat len).

Definition sha256_words (msg : list N) : list N :=
  let p := padded msg in
  let ws := words_of_bytes (length p) p in
  fold_left compress (blocks (length ws) ws) H256.

Definition hex_char (n : N) : ascii := ascii_of_N (if n <? 10 then 48 + n else 87 + n).

(** [hex.EncodeToString(sum[:])] of [sha256.Sum256(bytes)] *)
Definition sha256_hex (s : string) : string :=
  let msg := map N_of_ascii (String.list_ascii_of_string s) in
  let digest := concat (map (be_bytes 4) (sha256_words msg)) in
  String.string_of_list_ascii (concat (map (fun b => [hex_char (b / 16); hex_char (b mod 16)]) digest)).

(** The FIPS 180-4 test vectors. *)
Example sha256_abc :
  sha256_hex "abc" = "ba7816bf8f01cfea414140de5dae2223b00361a396177a9cb410ff61f20015ad".
Proof. vm_compute. reflexivity. Qed.

Example sha256_two_blocks :
  sha256_hex "abcdbcdecdefdefgefghfghighijhijkijkljklmklmnlmnomnopnopq"
  = "248d6a61d20638b8e5c026930c3e6039a33ce45964ff2167f6ecedd419db06c1".
Proof. vm_compute. reflexivity. Qed.

Example sha256_empty :
  sha256_hex "" = "e3b0c44298fc1c149afbf4c8996fb92427ae41e4649b934ca495991b7852b855".
Proof. vm_compute. reflexivity. Qed.
