(* ===== verification/GoTime.v ===== *)
(** * GoTime: instants and their RFC 3339 texts

    A [time.Time] is the number of nanoseconds since the Unix epoch (the
    program converts to UTC before it formats).  [rfc3339] and [rfc3339nano]
    are [t.UTC().Format(time.RFC3339)] and [...Format(time.RFC3339Nano)] for
    years 0 to 9999. *)

From S2P Require Import Prelude GoStrings.

Definition ns_per_s : Z := 1000000000.
Definition Millisecond : Z := 1000000.
Definition Second : Z := 1000000000.

(** Days since the epoch to year, month, day (proleptic Gregorian calendar,
    eras of 400 years starting on March 1st). *)
Definition civil_of_days (days : Z) : Z * Z * Z :=
  let z := days + 719468 in
  let era := z / 146097 in
  let doe := z mod 146097 in
  let yoe := (doe - doe / 1460 + doe / 36524 - doe / 146096) / 365 in
  let doy := doe - (365 * yoe + yoe / 4 - yoe / 100) in
  let mp := (5 * doy + 2) / 153 in
  let d := doy - (153 * mp + 2) / 5 + 1 in
  let m := if mp <? 10 then mp + 3 else mp - 9 in
  let y := yoe + era * 400 + (if m <=? 2 then 1 else 0) in
  (y, m, d).

(** [n] in [width] decimal digits, zero padded *)
Fixpoint pad (width : nat) (n : Z) : string :=
  match width with
  | O => ""
  | S w => pad w (n / 10) +:+ String (digit_char (n mod 10)) ""
  end.

Definition rfc3339_date (secs : Z) : string :=
  let days := secs / 86400 in
  let s := secs mod 86400 in
  let '(y, m, d) := civil_of_days days in
  pad 4 y +:+ "-" +:+ pad 2 m +:+ "-" +:+ pad 2 d +:+ "T" +:+
  pad 2 (s / 3600) +:+ ":" +:+ pad 2 (s / 60 mod 60) +:+ ":" +:+ pad 2 (s mod 60).

Definition rfc3339 (ns : Z) : string := rfc3339_date (ns / ns_per_s) +:+ "Z".

(** The fraction without trailing zeros: [width] digits of [n], dropped from the
    right while they are zero. *)
Fixpoint frac_digits (width : nat) (n : Z) : string :=
  match width with
  | O => ""
  | S w => if n mod 10 =? 0 then frac_digits w (n / 10) else pad width n
  end.

Definition rfc3339nano (ns : Z) : string :=
  let frac := frac_digits 9 (ns mod ns_per_s) in
  rfc3339_date (ns / ns_per_s) +:+ (if String.eqb frac "" then "" else "." +:+ frac) +:+ "Z".

(** [time.Time.MarshalJSON] prints an instant in the zone it carries, which for a
    timestamp read from the database is the local zone of the process; [None]
    when the year is not within 0 to 9999. *)
Class LocalZone := { time_json : Z -> option string }.

(** A process that runs in UTC *)
Definition utc_time_json (ns : Z) : option string :=
  let '(y, _, _) := civil_of_days (ns / ns_per_s / 86400) in
  if (0 <=? y) && (y <=? 9999) then Some (rfc3339nano ns) else None.
