(* ===== verification/Config.v ===== *)
(** * Config: the configuration from the environment ([internal/config/config.go]) *)

From S2P Require Import Prelude GoStrings GoErrors GoTime.

Module Config.

Definition defaultConsumerName : string := "api-1".
Definition defaultMaxRetries : Z := 5.
Definition defaultBaseBackoffMS : Z := 500.
Definition defaultOutboxPollInterval : Z := 250.
Definition defaultAIServiceURL : string := "http://127.0.0.1:8090".
Definition defaultAIServiceTimeoutMS : Z := 10000.

Record Config := mkConfig {
  PostgresDSN : string; RedisAddr : string; AIServiceURL : string; AIServiceTimeout : Z;
  ConsumerName : string; MaxRetries : Z; BaseBackoff : Z; OutboxPollInterval : Z;
}.

(** [os.LookupEnv], and [os.Getenv], which reads an unset variable as empty *)
Definition Env : Type := string -> option string.
Definition Getenv (env : Env) (key : string) : string := default "" (env key).

Definition requiredString (env : Env) (key : string) : res error string :=
  let value := TrimSpace (Getenv env key) in
  if String.eqb value "" then Err (ErrorString (key +:+ " is required")) else Ok value.

Definition optionalPositiveInt (env : Env) (key : string) (defaultValue : Z) : res error Z :=
  match env key with
  | None => Ok defaultValue
  | Some raw =>
      match Atoi (TrimSpace raw) with
      | None => Err (ErrorString (key +:+ " must be a valid integer"))
      | Some value => if value <=? 0 then Err (ErrorString (key +:+ " must be greater than zero"))
                      else Ok value
      end
  end.

(** [strings.TrimSpace(os.Getenv(key))] with a default *)
Definition optionalString (env : Env) (key defaultValue : string) : string :=
  let value := TrimSpace (Getenv env key) in if String.eqb value "" then defaultValue else value.

(** [time.Duration(ms) * time.Millisecond] *)
Definition milliseconds (ms : Z) : Z := wrap64 (ms * Millisecond).

Definition Load (env : Env) : res error Config :=
  res_bind (requiredString env "POSTGRES_DSN") (fun postgresDSN =>
  res_bind (requiredString env "REDIS_ADDR") (fun redisAddr =>
  let consumerName := optionalString env "CONSUMER_NAME" defaultConsumerName in
  let aiServiceURL := optionalString env "AI_SERVICE_URL" defaultAIServiceURL in
  res_bind (optionalPositiveInt env "MAX_RETRIES" defaultMaxRetries) (fun maxRetries =>
  res_bind (optionalPositiveInt env "BASE_BACKOFF_MS" defaultBaseBackoffMS) (fun baseBackoffMS =>
  res_bind (optionalPositiveInt env "OUTBOX_POLL_INTERVAL_MS" defaultOutboxPollInterval) (fun outboxPollIntervalMS =>
  res_bind (optionalPositiveInt env "AI_SERVICE_TIMEOUT_MS" defaultAIServiceTimeoutMS) (fun aiServiceTimeoutMS =>
  Ok (mkConfig postgresDSN redisAddr aiServiceURL (milliseconds aiServiceTimeoutMS) consumerName maxRetries
        (milliseconds baseBackoffMS) (milliseconds outboxPollIntervalMS)))))))).

(** ** Properties *)

(** What a text variable says: its value without surrounding space, or the default
    when there is nothing else. *)
Definition text_setting (env : Env) (key defaultValue v : string) : Prop :=
  match env key with
  | Some raw => if String.eqb (TrimSpace raw) "" then v = defaultValue else v = TrimSpace raw
  | None => v = defaultValue
  end.

(** What an integer variable may say: nothing, or a positive number. *)
Definition setting (env : Env) (key : string) (defaultValue v : Z) : Prop :=
  match env key with
  | None => v = defaultValue
  | Some raw => Atoi (TrimSpace raw) = Some v /\ 0 < v
  end.

(** The variables that are checked, in the order of the checks *)
Definition required : list string := ["POSTGRES_DSN"; "REDIS_ADDR"].
Definition numbers : list string := ["MAX_RETRIES"; "BASE_BACKOFF_MS"; "OUTBOX_POLL_INTERVAL_MS"; "AI_SERVICE_TIMEOUT_MS"].

(** What is wrong with a variable, and what the program says of it *)
Inductive faulty (env : Env) : string -> string -> Prop :=
| unset key : key ∈ required -> env key = None -> faulty env key (key +:+ " is required")
| blank key raw : key ∈ required -> env key = Some raw -> TrimSpace raw = "" -> faulty env key (key +:+ " is required")
| not_integer key raw :
    key ∈ numbers -> env key = Some raw -> Atoi (TrimSpace raw) = None ->
    faulty env key (key +:+ " must be a valid integer")
| not_positive key raw v :
    key ∈ numbers -> env key = Some raw -> Atoi (TrimSpace raw) = Some v -> v <= 0 ->
    faulty env key (key +:+ " must be greater than zero").

Definition sound (env : Env) (key : string) : Prop := forall text, ~ faulty env key text.

Lemma required_not_number key : key ∈ required -> key ∈ numbers -> False.
Proof. unfold required, numbers. rewrite !elem_of_cons, !elem_of_nil. naive_solver. Qed.

Lemma requiredString_cases env key :
  key ∈ required ->
  match requiredString env key with
  | Ok v => (exists raw, env key = Some raw /\ v = TrimSpace raw /\ v <> "") /\ sound env key
  | Err e => faulty env key (error_text e)
  end.
Proof.
  intros Hk. unfold requiredString, Getenv. cbv zeta. destruct (env key) as [raw|] eqn:E; simpl; [|by apply unset].
  destruct (String.eqb_spec (TrimSpace raw) "") as [Hb|Hb]; [by eapply blank|]. split; [eauto|].
  intros text Hf. pose proof (required_not_number key Hk). inversion Hf; naive_solver congruence.
Qed.

Lemma optionalPositiveInt_cases env key d :
  key ∈ numbers ->
  match optionalPositiveInt env key d with
  | Ok v => setting env key d v /\ sound env key
  | Err e => faulty env key (error_text e)
  end.
Proof.
  intros Hk. assert (Hr : key ∉ required) by (intros ?; by eapply required_not_number).
  unfold optionalPositiveInt, setting. destruct (env key) as [raw|] eqn:E.
  - destruct (Atoi (TrimSpace raw)) as [v|] eqn:Ea; [|by eapply not_integer].
    destruct (Z.leb_spec v 0); [by eapply not_positive|]. split; [auto|].
    intros text Hf. inversion Hf; naive_solver congruence || (simplify_eq; lia).
  - split; [done|]. intros text Hf. inversion Hf; congruence.
Qed.

Lemma optionalString_setting env key d : text_setting env key d (optionalString env key d).
Proof.
  unfold text_setting, optionalString, Getenv. cbv zeta. destruct (env key) as [raw|]; simpl; [|done]. by destruct (String.eqb _ "").
Qed.

Lemma milliseconds_exact ms :
  0 < ms <= 9223372036854 -> milliseconds ms = ms * 1000000 /\ 0 < milliseconds ms.
Proof.
  intros H. unfold milliseconds, Millisecond. rewrite wrap64_id by (unfold int64_min, int64_max; lia). lia.
Qed.

(** The first variable of a list that is faulty *)
Definition first_fault (env : Env) (keys : list string) (text : string) : Prop :=
  exists before key after, keys = before ++ key :: after /\ faulty env key text /\ Forall (sound env) before.

Lemma first_fault_here env key keys text : faulty env key text -> first_fault env (key :: keys) text.
Proof. intros Hf. by exists [], key, keys. Qed.

Lemma first_fault_later env key keys text : sound env key -> first_fault env keys text -> first_fault env (key :: keys) text.
Proof. intros Hs (b & k & a & -> & Hf & Hb). exists (key :: b), k, a. split_and!; [done|done|by constructor]. Qed.

(** C39: The configuration is what the environment says.  A loaded configuration has
    the addresses that POSTGRES_DSN and REDIS_ADDR give, without surrounding space and
    not blank; the names that CONSUMER_NAME and AI_SERVICE_URL give, or api-1 and
    http://127.0.0.1:8090 when they are unset or blank; the positive number that
    MAX_RETRIES gives, or 5; and the intervals that BASE_BACKOFF_MS,
    OUTBOX_POLL_INTERVAL_MS and AI_SERVICE_TIMEOUT_MS give, or 500, 250 and 10000 ms,
    in nanoseconds, exactly up to 9223372036854 ms.  It is loaded only if no variable
    is faulty; otherwise the error names the first one that is, in this order:
    POSTGRES_DSN, REDIS_ADDR, MAX_RETRIES, BASE_BACKOFF_MS, OUTBOX_POLL_INTERVAL_MS,
    AI_SERVICE_TIMEOUT_MS, and says whether it is missing, not an integer or not
    positive. *)
Theorem load_outcome env :
  let keys := ["POSTGRES_DSN"; "REDIS_ADDR"; "MAX_RETRIES"; "BASE_BACKOFF_MS"; "OUTBOX_POLL_INTERVAL_MS";
               "AI_SERVICE_TIMEOUT_MS"] in
  match Load env with
  | Ok c =>
      Forall (sound env) keys /\
      (exists raw, env "POSTGRES_DSN" = Some raw /\ PostgresDSN c = TrimSpace raw /\ PostgresDSN c <> "") /\
      (exists raw, env "REDIS_ADDR" = Some raw /\ RedisAddr c = TrimSpace raw /\ RedisAddr c <> "") /\
      text_setting env "CONSUMER_NAME" "api-1" (ConsumerName c) /\
      text_setting env "AI_SERVICE_URL" "http://127.0.0.1:8090" (AIServiceURL c) /\
      setting env "MAX_RETRIES" 5 (MaxRetries c) /\
      exists base poll timeout,
        setting env "BASE_BACKOFF_MS" 500 base /\
        setting env "OUTBOX_POLL_INTERVAL_MS" 250 poll /\
        setting env "AI_SERVICE_TIMEOUT_MS" 10000 timeout /\
        (base <= 9223372036854 -> BaseBackoff c = base * 1000000 /\ 0 < BaseBackoff c) /\
        (poll <= 9223372036854 -> OutboxPollInterval c = poll * 1000000 /\ 0 < OutboxPollInterval c) /\
        (timeout <= 9223372036854 -> AIServiceTimeout c = timeout * 1000000 /\ 0 < AIServiceTimeout c)
  | Err e => first_fault env keys (error_text e)
  end.
Proof.
  assert (Hpos : forall k d v, 0 < d -> setting env k d v -> 0 < v).
  { intros k d v Hd. unfold setting. destruct (env k); [by intros []|by intros ->]. }
  assert (Hreq : forall k, k ∈ required -> _) by exact (requiredString_cases env).
  assert (Hnum : forall k d, k ∈ numbers -> _) by exact (optionalPositiveInt_cases env).
  cbv zeta. unfold Load.
  pose proof (Hreq "POSTGRES_DSN" ltac:(left)) as H1. destruct (requiredString env "POSTGRES_DSN") as [dsn|e];
    simpl; [destruct H1 as [H1 S1]|by apply first_fault_here].
  pose proof (Hreq "REDIS_ADDR" ltac:(right; left)) as H2. destruct (requiredString env "REDIS_ADDR") as [addr|e];
    simpl; [destruct H2 as [H2 S2]|apply first_fault_later; [done|by apply first_fault_here]].
  pose proof (Hnum "MAX_RETRIES" 5 ltac:(left)) as H3. unfold defaultMaxRetries.
  destruct (optionalPositiveInt env "MAX_RETRIES" _) as [mr|e];
    simpl; [destruct H3 as [H3 S3]|do 2 (apply first_fault_later; [done|]); by apply first_fault_here].
  pose proof (Hnum "BASE_BACKOFF_MS" 500 ltac:(right; left)) as H4. unfold defaultBaseBackoffMS.
  destruct (optionalPositiveInt env "BASE_BACKOFF_MS" _) as [bb|e];
    simpl; [destruct H4 as [H4 S4]|do 3 (apply first_fault_later; [done|]); by apply first_fault_here].
  pose proof (Hnum "OUTBOX_POLL_INTERVAL_MS" 250 ltac:(do 2 right; left)) as H5. unfold defaultOutboxPollInterval.
  destruct (optionalPositiveInt env "OUTBOX_POLL_INTERVAL_MS" _) as [pi|e];
    simpl; [destruct H5 as [H5 S5]|do 4 (apply first_fault_later; [done|]); by apply first_fault_here].
  pose proof (Hnum "AI_SERVICE_TIMEOUT_MS" 10000 ltac:(do 3 right; left)) as H6. unfold defaultAIServiceTimeoutMS.
  destruct (optionalPositiveInt env "AI_SERVICE_TIMEOUT_MS" _) as [tm|e];
    simpl; [destruct H6 as [H6 S6]|do 5 (apply first_fault_later; [done|]); by apply first_fault_here].
  split_and!; [by repeat constructor|done|done|apply optionalString_setting|apply optionalString_setting|done|].
  exists bb, pi, tm. split_and!; try done; intros Hle; apply milliseconds_exact; (split; [|done]).
  - by eapply (Hpos _ 500).
  - by eapply (Hpos _ 250).
  - by eapply (Hpos _ 10000).
Qed.

(** A name that is set, a blank one, and an interval; then two faulty variables *)
Definition named_env : Env := fun key =>
  if bool_decide (key ∈ ["POSTGRES_DSN"; "REDIS_ADDR"]) then Some "localhost"
  else if String.eqb key "CONSUMER_NAME" then Some " api-7 "
  else if String.eqb key "BASE_BACKOFF_MS" then Some "100" else None.
Definition faulty_env : Env := fun key =>
  if String.eqb key "POSTGRES_DSN" then Some "localhost" else if String.eqb key "MAX_RETRIES" then Some "many" else None.

Lemma load_outcome_witness :
  (exists c, Load named_env = Ok c /\ ConsumerName c = "api-7" /\ AIServiceURL c = "http://127.0.0.1:8090" /\
     BaseBackoff c = 100000000) /\
  exists e, Load faulty_env = Err e /\ error_text e = "REDIS_ADDR is required".
Proof.
  pose proof (load_outcome named_env) as H1. pose proof (load_outcome faulty_env) as H2. cbv zeta in H1, H2. split.
  - destruct (Load named_env) as [c|e] eqn:E; [|vm_compute in E; discriminate E].
    destruct H1 as (_ & _ & _ & Hn & Hu & _ & base & poll & timeout & Hb & _ & _ & Hbase & _).
    exists c. split; [reflexivity|]. split; [exact Hn|]. split; [exact Hu|].
    destruct Hb as [Hb _]. vm_compute in Hb. injection Hb as <-. apply Hbase. vm_compute. discriminate.
  - destruct (Load faulty_env) as [c|e] eqn:E; [vm_compute in E; discriminate E|].
    exists e. split; [reflexivity|]. vm_compute in E. injection E as <-. reflexivity.
Defined.

(** A larger interval is accepted and wraps around: with BASE_BACKOFF_MS and
    OUTBOX_POLL_INTERVAL_MS set to 9223372036855 the configuration loads with
    negative durations. *)
Theorem load_interval_overflow :
  exists env c, Load env = Ok c /\
    setting env "BASE_BACKOFF_MS" defaultBaseBackoffMS 9223372036855 /\ BaseBackoff c < 0 /\
    setting env "OUTBOX_POLL_INTERVAL_MS" defaultOutboxPollInterval 9223372036855 /\ OutboxPollInterval c < 0.
Proof.
  exists (fun k => if bool_decide (k ∈ ["MAX_RETRIES"; "AI_SERVICE_TIMEOUT_MS"]) then None
                   else Some "9223372036855").
  eexists. split; [vm_compute; reflexivity|]. vm_compute. done.
Qed.

End Config.
