(* ===== verification/Database.v ===== *)
(** * Database: the PostgreSQL schema and the SQL statements of the program

    Tables are those of [migrations/001..004]; each SQL text of the Go sources
    is a function on the tables that enforces the constraints the schema
    declares (primary keys, the partial unique index on (source,
    idempotency_key), foreign keys, CHECK clauses, 32-bit INTEGER columns).
    What the server decides by itself is a parameter ([Postgres]): the text
    forms of [uuid] and [jsonb], the values of [uuid_generate_v4()] and the
    order in which a table is scanned.  Timestamps are microseconds. *)

From S2P Require Import Prelude GoStrings GoErrors Json.

(** ** What the server decides *)

Class Postgres := {
  (** input and output of type [uuid]: the canonical text of a valid input *)
  uuid_in : string -> option string;
  uuid_in_canonical : forall s u, uuid_in s = Some u -> uuid_in u = Some u;
  (** the output is lower-case hexadecimal digits and hyphens *)
  uuid_in_text : forall s u, uuid_in s = Some u ->
    Forall (fun c => c ∈ String.list_ascii_of_string "0123456789abcdef-") (String.list_ascii_of_string u);
  uuid_in_length : forall s u, uuid_in s = Some u -> String.length u = 36%nat;
  (** the values [uuid_generate_v4()] returns over the life of the server *)
  uuid_v4 : nat -> string;
  uuid_v4_canonical : forall n, uuid_in (uuid_v4 n) = Some (uuid_v4 n);
  (** input and output of type [jsonb] *)
  jsonb_in : string -> option string;
  jsonb_in_canonical : forall s t, jsonb_in s = Some t -> jsonb_in t = Some t;
  (** the output is JSON *)
  jsonb_in_json : forall s t, jsonb_in s = Some t -> is_Some (parse t);
  (** the order in which a sequential scan returns the rows of a table *)
  heap_scan : forall A, gmap string A -> list (string * A);
  heap_scan_perm : forall A (m : gmap string A), heap_scan A m ≡ₚ map_to_list m;
}.
Arguments heap_scan {_ A} m.

(** ** Rows and tables *)

Record EventRow := mkEventRow {
  ev_event_type : string;
  ev_source : string;
  ev_payload : string;
  ev_created_at : Z;
  ev_idempotency_key : option string;
  ev_request_hash : option string;
}.

Record OutboxRow := mkOutboxRow {
  ob_event_id : string;
  ob_status : string;
  ob_attempt_count : Z;
  ob_next_attempt_at : Z;
  ob_published_at : option Z;
  ob_last_error : option string;
  ob_created_at : Z;
  ob_updated_at : Z;
}.

Record HistoryRow := mkHistoryRow {
  h_id : Z;
  h_event_id : string;
  h_status : string;
  h_details : string;
  h_created_at : Z;
}.

Record AttemptRow := mkAttemptRow {
  at_id : Z;
  at_event_id : string;
  at_attempt_number : Z;
  at_outcome : string;
  at_response_code : option Z;
  at_error : option string;
  at_started_at : Z;
  at_completed_at : Z;
}.

Record DlqRow := mkDlqRow {
  dq_original_stream_id : string;
  dq_attempt_count : Z;
  dq_last_error : option string;
  dq_status : string;
  dq_dead_lettered_at : Z;
  dq_redriven_at : option Z;
  dq_updated_at : Z;
}.

(** The two append-only tables are lists in insertion order, newest last. *)
Record DB := mkDB {
  events : gmap string EventRow;
  outbox : gmap string OutboxRow;
  status_history : list HistoryRow;
  delivery_attempts : list AttemptRow;
  dlq_records : gmap string DlqRow;
}.

#[global] Instance EventRow_eq_dec : EqDecision EventRow.
Proof. solve_decision. Defined.
#[global] Instance OutboxRow_eq_dec : EqDecision OutboxRow.
Proof. solve_decision. Defined.
#[global] Instance HistoryRow_eq_dec : EqDecision HistoryRow.
Proof. solve_decision. Defined.
#[global] Instance AttemptRow_eq_dec : EqDecision AttemptRow.
Proof. solve_decision. Defined.
#[global] Instance DlqRow_eq_dec : EqDecision DlqRow.
Proof. solve_decision. Defined.
#[global] Instance DB_eq_dec : EqDecision DB.
Proof. solve_decision. Defined.

Definition empty_db : DB := mkDB ∅ ∅ [] [] ∅.

Definition set_events m db :=
  mkDB m (outbox db) (status_history db) (delivery_attempts db) (dlq_records db).
Definition set_outbox m db :=
  mkDB (events db) m (status_history db) (delivery_attempts db) (dlq_records db).
Definition set_history l db :=
  mkDB (events db) (outbox db) l (delivery_attempts db) (dlq_records db).
Definition set_attempts l db :=
  mkDB (events db) (outbox db) (status_history db) l (dlq_records db).
Definition set_dlq m db :=
  mkDB (events db) (outbox db) (status_history db) (delivery_attempts db) m.

(** A failing statement and the text the driver reports. *)
Definition sql_error (text : string) : error := ErrorString ("ERROR: " +:+ text).

Definition int32_ok (z : Z) : bool := (- 2 ^ 31 <=? z) && (z <=? 2 ^ 31 - 1).

(** PostgreSQL's [btrim(text)] removes spaces only. *)
Definition btrim_blank (s : string) : bool := String.eqb (TrimByte " " s) "".

Section Sql.
Context {PG : Postgres}.

(** ** Statements of [internal/ingestion/store.go] *)

(** The row that holds (source, key) in the partial unique index. *)
Definition event_by_key (source key : string) (db : DB) : option (string * EventRow) :=
  head (filter (fun r => ev_source r.2 = source /\ ev_idempotency_key r.2 = Some key)
               (heap_scan (events db))).

(** [INSERT INTO events]: [id] is the value the column default produced. *)
Definition insert_event_row (id : string) (row : EventRow) (db : DB) : res error DB :=
  match events db !! id with
  | Some _ => Err (sql_error "duplicate key value violates unique constraint")
  | None => Ok (set_events (<[id := row]> (events db)) db)
  end.

Definition insertEventWithoutIdempotencyKeySQL (id : string) (now : Z)
    (event_type source payload request_hash : string) (db : DB) : res error (string * DB) :=
  match jsonb_in payload with
  | None => Err (sql_error "invalid input syntax for type json")
  | Some p =>
      res_bind (insert_event_row id (mkEventRow event_type source p now None (Some request_hash)) db)
        (fun db' => Ok (id, db'))
  end.

(** [ON CONFLICT ... DO NOTHING RETURNING id]: no row on a conflict. *)
Definition insertEventWithIdempotencyKeySQL (id : string) (now : Z)
    (event_type source payload key request_hash : string) (db : DB)
    : res error (option string * DB) :=
  match jsonb_in payload with
  | None => Err (sql_error "invalid input syntax for type json")
  | Some p =>
      match event_by_key source key db with
      | Some _ => Ok (None, db)
      | None =>
          res_bind (insert_event_row id
                      (mkEventRow event_type source p now (Some key) (Some request_hash)) db)
            (fun db' => Ok (Some id, db'))
      end
  end.

(** [SELECT id, COALESCE(request_hash, ''), request_hash IS NOT NULL] *)
Definition selectEventByIdempotencyKeySQL (source key : string) (db : DB)
    : option (string * string * bool) :=
  match event_by_key source key db with
  | None => None
  | Some (id, row) =>
      Some (id, default "" (ev_request_hash row), bool_decide (is_Some (ev_request_hash row)))
  end.

Definition outbox_by_event (event_id : string) (db : DB) : option (string * OutboxRow) :=
  head (filter (fun r => ob_event_id r.2 = event_id) (heap_scan (outbox db))).

Definition insertOutboxSQL (id : string) (now : Z) (event_id : string) (db : DB) : res error DB :=
  match uuid_in event_id with
  | None => Err (sql_error "invalid input syntax for type uuid")
  | Some e =>
      match events db !! e, outbox_by_event e db, outbox db !! id with
      | None, _, _ => Err (sql_error "insert on table outbox violates foreign key constraint")
      | _, Some _, _ | _, _, Some _ =>
          Err (sql_error "duplicate key value violates unique constraint")
      | Some _, None, None =>
          Ok (set_outbox (<[id := mkOutboxRow e "pending" 0 now None None now now]> (outbox db)) db)
      end
  end.

(** ** Statements of [internal/outbox/publisher.go] *)

(** [(a.next_attempt_at, a.created_at) < (b.next_attempt_at, b.created_at)] *)
Definition outbox_before (a b : OutboxRow) : bool :=
  (ob_next_attempt_at a <? ob_next_attempt_at b) ||
  ((ob_next_attempt_at a =? ob_next_attempt_at b) && (ob_created_at a <? ob_created_at b)).

(** [ORDER BY ... LIMIT 1]: a first row that no other row precedes. *)
Fixpoint first_by {A} (before : A -> A -> bool) (l : list A) : option A :=
  match l with
  | [] => None
  | x :: l' => match first_by before l' with
               | None => Some x
               | Some y => if before y x then Some y else Some x
               end
  end.

Definition outbox_claimable (locked : gset string) (now : Z) (r : string * OutboxRow) : bool :=
  String.eqb (ob_status r.2) "pending" && (ob_next_attempt_at r.2 <=? now) &&
  negb (bool_decide (r.1 ∈ locked)).

(** [locked] are the rows other transactions hold [FOR UPDATE]; [SKIP LOCKED]
    passes over them. *)
Definition selectNextPendingOutboxSQL (locked : gset string) (now : Z) (db : DB)
    : option (string * OutboxRow * (string * EventRow)) :=
  let rows := omap (fun r => match events db !! ob_event_id r.2 with
                             | Some e => Some (r, (ob_event_id r.2, e))
                             | None => None
                             end)
                (filter (fun r => outbox_claimable locked now r) (heap_scan (outbox db))) in
  first_by (fun a b => outbox_before a.1.2 b.1.2) rows.

(** An [UPDATE ... WHERE id = $1::uuid] reports the number of rows changed. *)
Definition update_outbox (id : string) (f : OutboxRow -> res error OutboxRow) (db : DB)
    : res error (Z * DB) :=
  match uuid_in id with
  | None => Err (sql_error "invalid input syntax for type uuid")
  | Some u =>
      match outbox db !! u with
      | None => Ok (0, db)
      | Some row => res_bind (f row) (fun row' => Ok (1, set_outbox (<[u := row']> (outbox db)) db))
      end
  end.

Definition markOutboxPublishedSQL (now : Z) (id : string) (db : DB) : res error (Z * DB) :=
  update_outbox id
    (fun r => Ok (mkOutboxRow (ob_event_id r) "published" (ob_attempt_count r)
                    (ob_next_attempt_at r) (Some now) None (ob_created_at r) now)) db.

Definition rescheduleOutboxAfterFailureSQL (now : Z) (id : string) (delay_us : Z)
    (last_error : string) (db : DB) : res error (Z * DB) :=
  update_outbox id
    (fun r => if int32_ok (ob_attempt_count r + 1)
              then Ok (mkOutboxRow (ob_event_id r) "pending" (ob_attempt_count r + 1)
                         (now + delay_us) None (Some last_error) (ob_created_at r) now)
              else Err (sql_error "integer out of range")) db.

(** ** Statements of [internal/operations/store.go] *)

Definition insertHistorySQL (now : Z) (event_id status details : string) (db : DB) : res error DB :=
  match uuid_in event_id, jsonb_in details with
  | None, _ => Err (sql_error "invalid input syntax for type uuid")
  | _, None => Err (sql_error "invalid input syntax for type json")
  | Some e, Some d =>
      if btrim_blank status then Err (sql_error "new row violates check constraint")
      else match events db !! e with
      | None => Err (sql_error "insert on table event_status_history violates foreign key constraint")
      | Some _ =>
          Ok (set_history (status_history db ++
                [mkHistoryRow (Z.of_nat (length (status_history db)) + 1) e status d now]) db)
      end
  end.

Definition insertAttemptSQL (event_id : string) (attempt_number : Z) (outcome : string)
    (response_code : option Z) (err : option string) (started_at completed_at : Z) (db : DB)
    : res error DB :=
  match uuid_in event_id with
  | None => Err (sql_error "invalid input syntax for type uuid")
  | Some e =>
      if negb (int32_ok attempt_number && default true (int32_ok <$> response_code))
      then Err (sql_error "integer out of range")
      else if negb ((0 <? attempt_number) && negb (btrim_blank outcome))
      then Err (sql_error "new row violates check constraint")
      else match events db !! e with
      | None => Err (sql_error "insert on table delivery_attempts violates foreign key constraint")
      | Some _ =>
          Ok (set_attempts (delivery_attempts db ++
                [mkAttemptRow (Z.of_nat (length (delivery_attempts db)) + 1) e attempt_number outcome
                   response_code err started_at completed_at]) db)
      end
  end.

(** [INSERT INTO dlq_records ... ON CONFLICT (event_id) DO UPDATE]: every column
    but the key is overwritten. *)
Definition upsertDlqSQL (now : Z) (event_id original_stream_id : string) (attempt_count : Z)
    (last_error : option string) (status : string) (db : DB) : res error DB :=
  match uuid_in event_id with
  | None => Err (sql_error "invalid input syntax for type uuid")
  | Some e =>
      if negb (int32_ok attempt_count) then Err (sql_error "integer out of range")
      else if negb ((0 <? attempt_count) && negb (btrim_blank status))
      then Err (sql_error "new row violates check constraint")
      else match events db !! e with
      | None => Err (sql_error "insert on table dlq_records violates foreign key constraint")
      | Some _ =>
          Ok (set_dlq (<[e := mkDlqRow original_stream_id attempt_count last_error status
                                now None now]> (dlq_records db)) db)
      end
  end.

(** [SELECT status FROM dlq_records WHERE event_id = $1::uuid FOR UPDATE] *)
Definition selectDlqStatusSQL (event_id : string) (db : DB) : res error (option string) :=
  match uuid_in event_id with
  | None => Err (sql_error "invalid input syntax for type uuid")
  | Some e => Ok (dq_status <$> dlq_records db !! e)
  end.

Definition updateDlqStatusSQL (now : Z) (event_id status : string) (db : DB) : res error (Z * DB) :=
  match uuid_in event_id with
  | None => Err (sql_error "invalid input syntax for type uuid")
  | Some e =>
      match dlq_records db !! e with
      | None => Ok (0, db)
      | Some r =>
          if btrim_blank status then Err (sql_error "new row violates check constraint")
          else Ok (1, set_dlq (<[e := mkDlqRow (dq_original_stream_id r) (dq_attempt_count r)
                                      (dq_last_error r) status (dq_dead_lettered_at r)
                                      (Some now) now]> (dlq_records db)) db)
      end
  end.

End Sql.
