(* ===== verification/DatabaseFacts.v ===== *)
(** * DatabaseFacts: the schema invariant and the statements

    [schema_ok] is what the constraints of the schema and the statements of the
    program keep true of the tables; every statement preserves it.  The
    statements that search ([event_by_key], [selectNextPendingOutboxSQL]) are
    characterised independently of the order of a table scan. *)

From S2P Require Import Prelude GoStrings GoErrors Utf8 JsonFacts Database.

(** ** The schema invariant *)

Definition outbox_row_ok (o : OutboxRow) : Prop :=
  0 <= ob_attempt_count o <= 2 ^ 31 - 1 /\
  ((ob_status o = "pending" /\ ob_published_at o = None) \/
   (ob_status o = "published" /\ is_Some (ob_published_at o) /\ ob_last_error o = None)).

Definition dlq_row_ok (d : DlqRow) : Prop :=
  0 < dq_attempt_count d /\
  ((dq_status d = "OPEN" /\ dq_redriven_at d = None) \/
   (dq_status d = "REDRIVEN" /\ is_Some (dq_redriven_at d))).

Definition known (db : DB) (e : string) : Prop := is_Some (events db !! e).

Record schema_ok `{Postgres} (db : DB) : Prop := {
  so_key_unique : forall id1 id2 e1 e2 k,
    events db !! id1 = Some e1 -> events db !! id2 = Some e2 ->
    ev_source e1 = ev_source e2 -> ev_idempotency_key e1 = Some k ->
    ev_idempotency_key e2 = Some k -> id1 = id2;
  so_event_ids : forall id, known db id -> uuid_in id = Some id;
  so_outbox_ids : forall oid o, outbox db !! oid = Some o -> uuid_in oid = Some oid;
  so_outbox_event : forall oid o, outbox db !! oid = Some o -> known db (ob_event_id o);
  so_outbox_unique : forall oid1 oid2 o1 o2,
    outbox db !! oid1 = Some o1 -> outbox db !! oid2 = Some o2 ->
    ob_event_id o1 = ob_event_id o2 -> oid1 = oid2;
  so_outbox_rows : forall oid o, outbox db !! oid = Some o -> outbox_row_ok o;
  so_history_event : forall h, h ∈ status_history db -> known db (h_event_id h);
  so_attempts : forall a, a ∈ delivery_attempts db ->
    known db (at_event_id a) /\ 0 < at_attempt_number a;
  so_dlq : forall e d, dlq_records db !! e = Some d -> known db e /\ dlq_row_ok d;
}.

Lemma empty_db_ok `{Postgres} : schema_ok empty_db.
Proof.
  split; unfold known; simpl; intros; rewrite ?lookup_empty in *; simplify_eq; try set_solver.
Qed.

(** ** Searches *)

(** [ORDER BY ... LIMIT 1]: a member that no member precedes, for an order
    whose complement is transitive. *)
Section FirstBy.
Context {A : Type} (before : A -> A -> bool).

Lemma first_by_None l : first_by before l = None <-> l = [].
Proof. destruct l as [|x l]; simpl; [done|]. repeat case_match; naive_solver. Qed.

Lemma first_by_elem l x : first_by before l = Some x -> x ∈ l.
Proof.
  revert x. induction l as [|y l IH]; simpl; intros x Hx; [done|].
  destruct (first_by before l) as [z|] eqn:E; repeat case_match; simplify_eq; set_solver.
Qed.

Context (Htrans : forall a b c, before a b = false -> before b c = false -> before a c = false)
        (Hasym : forall a b, before a b = true -> before b a = false)
        (Hirr : forall a, before a a = false).

Lemma first_by_least l x y : first_by before l = Some x -> y ∈ l -> before y x = false.
Proof.
  revert x y. induction l as [|z l IH]; simpl; intros x y Hx Hy; [done|].
  apply elem_of_cons in Hy. destruct (first_by before l) as [v|] eqn:E.
  - destruct (before v z) eqn:Ev; simplify_eq; destruct Hy as [->|Hy]; eauto.
  - apply first_by_None in E as ->. simplify_eq. destruct Hy as [->|Hy]; [done|set_solver].
Qed.
End FirstBy.

(** Reduce lookups in updated tables to cases, and close what the invariant of
    the old tables gives. *)
Ltac schema_solve Hok :=
  destruct Hok as [K1 K2 K3 K4 K5 K6 K7 K8 K9]; split; unfold known in *; simpl; intros;
  repeat match goal with
    | H : <[_ := _]> _ !! _ = Some _ |- _ => apply lookup_insert_Some in H as [[? ?]|[? ?]]
    | H : is_Some (<[_ := _]> _ !! _) |- _ => apply lookup_insert_is_Some in H as [?|[? ?]]
    | H : _ ∈ _ ++ [_] |- _ =>
        apply elem_of_app in H as [?|?%list_elem_of_singleton]
    | H : _ /\ _ |- _ => destruct H
    end; simplify_eq/=; eauto; try done.

Section Facts.
Context {PG : Postgres}.
Implicit Types db : DB.

(** The text of a [uuid] has no white space. *)
Lemma uuid_trimmed s u : uuid_in s = Some u -> TrimSpace u = u.
Proof.
  intros Hu. apply TrimSpace_solid. eapply Forall_impl; [by eapply uuid_in_text|]. intros c Hc l.
  apply list_elem_of_In in Hc. simpl in Hc. destruct_or! Hc; subst; try done.
Qed.

(** ... and is ASCII. *)
Lemma uuid_clean u : uuid_in u = Some u -> clean u = u.
Proof.
  intros Hu. apply ascii_valid. eapply Forall_impl; [by eapply uuid_in_text|]. intros c Hc.
  apply list_elem_of_In in Hc. simpl in Hc. destruct_or! Hc; subst; try done.
Qed.

Lemma elem_heap_scan {A} (m : gmap string A) id x : (id, x) ∈ heap_scan m <-> m !! id = Some x.
Proof. rewrite (heap_scan_perm A m). apply elem_of_map_to_list. Qed.

Lemma event_by_key_Some source key db id e :
  event_by_key source key db = Some (id, e) ->
  events db !! id = Some e /\ ev_source e = source /\ ev_idempotency_key e = Some key.
Proof.
  unfold event_by_key. intros H. apply head_Some_elem_of in H.
  apply list_elem_of_filter in H as [[H1 H2] H3]. by rewrite elem_heap_scan in H3.
Qed.

Lemma event_by_key_None source key db :
  event_by_key source key db = None <->
  forall id e, events db !! id = Some e -> ev_source e = source -> ev_idempotency_key e <> Some key.
Proof.
  unfold event_by_key. rewrite head_None. split.
  - intros H id e He Hs Hk.
    assert ((id, e) ∈ @nil (string * EventRow)) as Hin; [|set_solver].
    rewrite <- H. apply list_elem_of_filter. by rewrite elem_heap_scan.
  - intros H. apply elem_of_nil_inv. intros [id e] Hin.
    apply list_elem_of_filter in Hin as [[H1 H2] H3]. rewrite elem_heap_scan in H3. by eapply H.
Qed.

(** With a unique index the row found for a key does not depend on the scan. *)
Lemma event_by_key_found db id e k :
  schema_ok db -> events db !! id = Some e -> ev_idempotency_key e = Some k ->
  event_by_key (ev_source e) k db = Some (id, e).
Proof.
  intros Hok He Hk. destruct (event_by_key (ev_source e) k db) as [[id' e']|] eqn:E.
  - apply event_by_key_Some in E as (He' & Hs & Hk').
    assert (id' = id) as -> by (eapply so_key_unique; eauto). congruence.
  - rewrite event_by_key_None in E. by destruct (E id e).
Qed.

Lemma outbox_by_event_None e db :
  outbox_by_event e db = None <-> forall oid o, outbox db !! oid = Some o -> ob_event_id o <> e.
Proof.
  unfold outbox_by_event. rewrite head_None. split.
  - intros H oid o Ho He.
    assert ((oid, o) ∈ @nil (string * OutboxRow)) as Hin; [|set_solver].
    rewrite <- H. apply list_elem_of_filter. by rewrite elem_heap_scan.
  - intros H. apply elem_of_nil_inv. intros [oid o] Hin.
    apply list_elem_of_filter in Hin as [H1 H3]. rewrite elem_heap_scan in H3. by eapply H.
Qed.

(** ** What a statement that succeeded did *)

Lemma insert_event_row_inv id row db db' :
  insert_event_row id row db = Ok db' ->
  events db !! id = None /\ db' = set_events (<[id := row]> (events db)) db.
Proof. unfold insert_event_row. destruct (events db !! id); naive_solver. Qed.

Lemma insertOutbox_inv id now e db db' :
  insertOutboxSQL id now e db = Ok db' ->
  exists u, uuid_in e = Some u /\ known db u /\
    (forall oid o, outbox db !! oid = Some o -> ob_event_id o <> u) /\ outbox db !! id = None /\
    db' = set_outbox (<[id := mkOutboxRow u "pending" 0 now None None now now]> (outbox db)) db.
Proof.
  unfold insertOutboxSQL. destruct (uuid_in e) as [u|]; [|done].
  destruct (events db !! u) eqn:E1, (outbox_by_event u db) eqn:E2, (outbox db !! id) eqn:E3;
    intros ?; simplify_eq.
  exists u. rewrite outbox_by_event_None in E2. unfold known. split_and!; eauto.
Qed.

Lemma insertHistory_inv now e status details db db' :
  insertHistorySQL now e status details db = Ok db' ->
  exists u d, uuid_in e = Some u /\ jsonb_in details = Some d /\ known db u /\
    db' = set_history (status_history db ++
            [mkHistoryRow (Z.of_nat (length (status_history db)) + 1) u status d now]) db.
Proof.
  unfold insertHistorySQL. repeat case_match; intros ?; simplify_eq. unfold known. naive_solver.
Qed.

Lemma insertAttempt_inv e n outcome code err t1 t2 db db' :
  insertAttemptSQL e n outcome code err t1 t2 db = Ok db' ->
  exists u, uuid_in e = Some u /\ known db u /\ 0 < n /\
    db' = set_attempts (delivery_attempts db ++
            [mkAttemptRow (Z.of_nat (length (delivery_attempts db)) + 1) u n outcome code err t1 t2]) db.
Proof.
  unfold insertAttemptSQL. destruct (uuid_in e) as [u|]; [|done].
  destruct (negb (int32_ok n && _)); [done|].
  destruct (0 <? n) eqn:E; simpl; [|done]. destruct (negb _); [done|].
  destruct (events db !! u) eqn:Ee; [|done]. intros ?; simplify_eq. rail_bool.
  exists u. unfold known. split_and!; eauto.
Qed.

Lemma upsertDlq_inv now e sid n err status db db' :
  upsertDlqSQL now e sid n err status db = Ok db' ->
  exists u, uuid_in e = Some u /\ known db u /\ 0 < n /\
    db' = set_dlq (<[u := mkDlqRow sid n err status now None now]> (dlq_records db)) db.
Proof.
  unfold upsertDlqSQL. destruct (uuid_in e) as [u|]; [|done].
  destruct (negb (int32_ok n)); [done|].
  destruct (0 <? n) eqn:E; simpl; [|done]. destruct (negb _); [done|].
  destruct (events db !! u) eqn:Ee; [|done]. intros ?; simplify_eq. rail_bool.
  exists u. unfold known. split_and!; eauto.
Qed.

Lemma update_outbox_inv id f db n db' :
  update_outbox id f db = Ok (n, db') ->
  exists u, uuid_in id = Some u /\
    ((n = 0 /\ db' = db /\ outbox db !! u = None) \/
     (exists o o', n = 1 /\ outbox db !! u = Some o /\ f o = Ok o' /\
                   db' = set_outbox (<[u := o']> (outbox db)) db)).
Proof.
  unfold update_outbox. destruct (uuid_in id) as [u|]; [|done].
  destruct (outbox db !! u) as [o|] eqn:E; [|naive_solver].
  destruct (f o) as [o'|] eqn:Ef; simpl; intros ?; simplify_eq. naive_solver.
Qed.

Lemma updateDlqStatus_inv now e status db n db' :
  updateDlqStatusSQL now e status db = Ok (n, db') ->
  exists u, uuid_in e = Some u /\
    ((n = 0 /\ db' = db /\ dlq_records db !! u = None) \/
     (exists r, n = 1 /\ dlq_records db !! u = Some r /\
        db' = set_dlq (<[u := mkDlqRow (dq_original_stream_id r) (dq_attempt_count r)
                                (dq_last_error r) status (dq_dead_lettered_at r) (Some now) now]>
                         (dlq_records db)) db)).
Proof.
  unfold updateDlqStatusSQL. destruct (uuid_in e) as [u|]; [|done].
  repeat case_match; intros ?; simplify_eq; naive_solver.
Qed.

Lemma outbox_claimable_true locked now oid o :
  outbox_claimable locked now (oid, o) = true <->
  ob_status o = "pending" /\ ob_next_attempt_at o <= now /\ oid ∉ locked.
Proof.
  unfold outbox_claimable. simpl.
  rewrite !andb_true_iff, String.eqb_eq, Z.leb_le, negb_true_iff, bool_decide_eq_false. tauto.
Qed.

(** The claimed row is due, pending and unlocked, belongs to its event, and no
    other claimable row comes before it. *)
Lemma selectNextPending_Some locked now db oid o eid e :
  selectNextPendingOutboxSQL locked now db = Some ((oid, o), (eid, e)) ->
  outbox db !! oid = Some o /\ ob_status o = "pending" /\ ob_next_attempt_at o <= now /\
  oid ∉ locked /\ eid = ob_event_id o /\ events db !! eid = Some e /\
  (forall oid' o', outbox db !! oid' = Some o' -> ob_status o' = "pending" ->
     ob_next_attempt_at o' <= now -> oid' ∉ locked -> known db (ob_event_id o') ->
     ob_next_attempt_at o < ob_next_attempt_at o' \/
     (ob_next_attempt_at o = ob_next_attempt_at o' /\ ob_created_at o <= ob_created_at o')).
Proof.
  unfold selectNextPendingOutboxSQL. intros H.
  pose proof (first_by_elem _ _ _ H) as Hin.
  apply list_elem_of_omap in Hin as ([oid1 o1] & Hf & Ho). simpl in Ho.
  destruct (events db !! ob_event_id o1) eqn:Ee; simplify_eq.
  apply list_elem_of_filter in Hf as [Hc Hs]. rewrite elem_heap_scan in Hs.
  apply Is_true_true, outbox_claimable_true in Hc as (Hp0 & Hd0 & Hl0).
  split_and!; try done.
  intros oid' o' Ho' Hp Hd Hl [e' He'].
  enough (outbox_before o' o = false) as Hb.
  { unfold outbox_before in Hb. rail_bool.
    match goal with H : (_ && _)%bool = false |- _ => apply andb_false_iff in H as [H|H] end;
      rail_bool; lia. }
  refine (first_by_least (fun a b => outbox_before a.1.2 b.1.2) _ _ _ _ _
            ((oid', o'), (ob_event_id o', e')) H _).
  1-3: intros; simpl in *; unfold outbox_before in *; lia.
  apply list_elem_of_omap. exists (oid', o'). rewrite list_elem_of_filter, elem_heap_scan.
  simpl. rewrite He'. split_and!; [|done|done]. by apply Is_true_true, outbox_claimable_true.
Qed.

Lemma selectNextPending_None locked now db :
  selectNextPendingOutboxSQL locked now db = None ->
  forall oid o, outbox db !! oid = Some o -> ob_status o = "pending" ->
    ob_next_attempt_at o <= now -> known db (ob_event_id o) -> oid ∈ locked.
Proof.
  unfold selectNextPendingOutboxSQL. rewrite first_by_None. intros H oid o Ho Hp Hd [e He].
  destruct (decide (oid ∈ locked)) as [|Hl]; [done|]. exfalso.
  eassert (_ ∈ @nil (string * OutboxRow * (string * EventRow))) as Hin; [|by apply not_elem_of_nil in Hin].
  rewrite <- H. apply list_elem_of_omap. exists (oid, o). rewrite list_elem_of_filter, elem_heap_scan.
  simpl. rewrite He. split_and!; [|done|done]. by apply Is_true_true, outbox_claimable_true.
Qed.

(** ** Every statement preserves the schema invariant *)

Lemma insert_event_ok id row db :
  schema_ok db -> events db !! id = None -> uuid_in id = Some id ->
  (forall k, ev_idempotency_key row = Some k -> event_by_key (ev_source row) k db = None) ->
  schema_ok (set_events (<[id := row]> (events db)) db).
Proof.
  intros Hok Hn Hu Hk.
  assert (Hkey : forall i e k, events db !! i = Some e -> ev_source e = ev_source row ->
            ev_idempotency_key e = Some k -> ev_idempotency_key row <> Some k).
  { intros i e k He Hs Hke Hkr. specialize (Hk k Hkr). rewrite event_by_key_None in Hk.
    by eapply Hk. }
  assert (Hmono : forall i, is_Some (events db !! i) -> is_Some (<[id:=row]> (events db) !! i)).
  { intros i Hi. apply lookup_insert_is_Some. destruct (decide (id = i)); auto. }
  schema_solve Hok.
  1,2: exfalso; by eapply Hkey.
  - destruct (K8 _ H). split; eauto.
  - destruct (K9 _ _ H). split; eauto.
Qed.

Lemma insertEventWithoutKey_ok n now et src p h db a db' :
  schema_ok db -> insertEventWithoutIdempotencyKeySQL (uuid_v4 n) now et src p h db = Ok (a, db') ->
  schema_ok db'.
Proof.
  intros Hok H. unfold insertEventWithoutIdempotencyKeySQL in H. destruct (jsonb_in p); [|done].
  destruct (insert_event_row _ _ db) as [db1|] eqn:E; simplify_eq/=.
  apply insert_event_row_inv in E as [E ->]. apply insert_event_ok; auto using uuid_v4_canonical.
  done.
Qed.

Lemma insertEventWithKey_ok n now et src p k h db a db' :
  schema_ok db -> insertEventWithIdempotencyKeySQL (uuid_v4 n) now et src p k h db = Ok (a, db') ->
  schema_ok db'.
Proof.
  intros Hok H. unfold insertEventWithIdempotencyKeySQL in H. destruct (jsonb_in p); [|done].
  destruct (event_by_key src k db) eqn:Ek; [by simplify_eq|].
  destruct (insert_event_row _ _ db) as [db1|] eqn:E; simplify_eq/=.
  apply insert_event_row_inv in E as [E ->]. apply insert_event_ok; auto using uuid_v4_canonical.
  simpl. intros k' ?. by simplify_eq.
Qed.

Lemma insertOutbox_ok n now e db db' :
  schema_ok db -> insertOutboxSQL (uuid_v4 n) now e db = Ok db' -> schema_ok db'.
Proof.
  intros Hok H. apply insertOutbox_inv in H as (u & Hu & Hkn & Hun & Hn & ->).
  schema_solve Hok.
  - apply uuid_v4_canonical.
  - exfalso. eapply Hun; eauto.
  - exfalso. eapply Hun; eauto.
  - unfold outbox_row_ok. simpl. split; [lia|]. by left.
Qed.

Lemma insertHistory_ok now e st d db db' :
  schema_ok db -> insertHistorySQL now e st d db = Ok db' -> schema_ok db'.
Proof.
  intros Hok H. apply insertHistory_inv in H as (u & d' & Hu & Hd & Hkn & ->). schema_solve Hok.
Qed.

Lemma insertAttempt_ok e n o c er t1 t2 db db' :
  schema_ok db -> insertAttemptSQL e n o c er t1 t2 db = Ok db' -> schema_ok db'.
Proof.
  intros Hok H. apply insertAttempt_inv in H as (u & Hu & Hkn & Hn & ->). schema_solve Hok.
Qed.

Lemma upsertDlq_ok now e sid n er db db' :
  schema_ok db -> upsertDlqSQL now e sid n er "OPEN" db = Ok db' -> schema_ok db'.
Proof.
  intros Hok H. apply upsertDlq_inv in H as (u & Hu & Hkn & Hn & ->). schema_solve Hok.
  split; [done|]. unfold dlq_row_ok. simpl. split; [done|]. by left.
Qed.

Lemma updateDlqStatus_ok now e db n db' :
  schema_ok db -> updateDlqStatusSQL now e "REDRIVEN" db = Ok (n, db') -> schema_ok db'.
Proof.
  intros Hok H. apply updateDlqStatus_inv in H as (u & Hu & [(-> & -> & _)|(r & -> & Hr & ->)]); [done|].
  schema_solve Hok. destruct (K9 _ _ Hr) as [? [? _]]. split; [done|].
  unfold dlq_row_ok. simpl. split; [done|]. right. eauto.
Qed.

Lemma update_outbox_ok id f db n db' :
  schema_ok db -> update_outbox id f db = Ok (n, db') ->
  (forall o o', outbox_row_ok o -> f o = Ok o' -> outbox_row_ok o' /\ ob_event_id o' = ob_event_id o) ->
  schema_ok db'.
Proof.
  intros Hok H Hf.
  apply update_outbox_inv in H as (u & Hu & [(-> & -> & _)|(o & o' & -> & Ho & Hfo & ->)]); [done|].
  destruct (Hf o o') as [Hrow Hev]; [by eapply so_outbox_rows|done|].
  schema_solve Hok; rewrite ?Hev in *; eauto.
Qed.

Lemma markOutboxPublished_ok now id db n db' :
  schema_ok db -> markOutboxPublishedSQL now id db = Ok (n, db') -> schema_ok db'.
Proof.
  intros Hok H. eapply update_outbox_ok; [done..|]. intros o o' [Ho _] ?. simplify_eq/=.
  split; [|done]. unfold outbox_row_ok. simpl. split; [done|]. right. eauto.
Qed.

Lemma rescheduleOutbox_ok now id d er db n db' :
  schema_ok db -> rescheduleOutboxAfterFailureSQL now id d er db = Ok (n, db') -> schema_ok db'.
Proof.
  intros Hok H. eapply update_outbox_ok; [done..|]. intros o o' [Ho _] Hf. simpl in Hf.
  destruct (int32_ok (ob_attempt_count o + 1)) eqn:E; simplify_eq/=.
  unfold int32_ok in E. rail_bool. split; [|done]. unfold outbox_row_ok. simpl.
  split; [lia|]. by left.
Qed.

End Facts.

#[export] Hint Resolve empty_db_ok insertEventWithoutKey_ok insertEventWithKey_ok insertOutbox_ok
  insertHistory_ok insertAttempt_ok upsertDlq_ok updateDlqStatus_ok markOutboxPublished_ok
  rescheduleOutbox_ok : rail.
