(* ===== verification/RedisServer.v ===== *)
(** * RedisServer: the interface of the Redis server

    The commands the program sends, over a server state [R] it cannot see, with
    the documented effect of each command as laws on observations: the
    entries of a stream, the entries a consumer group has not been handed
    ([undelivered]) or has been handed and not acknowledged ([pending]), whether
    its position is beyond the end of the stream ([ahead]), and the members of a
    sorted set with their scores.  The worker, the publisher and
    the HTTP handlers are verified against this interface; [SimRedis] of the file
    Simulation is an executable server that satisfies it. *)

From S2P Require Import Prelude.

(** Field/value pairs of a stream entry; [redis.XMessage]. *)
Abbreviation fields := (gmap string string).

Record XMessage := mkXMessage { ID : string; Values : fields }.

#[global] Instance XMessage_eq_dec : EqDecision XMessage.
Proof. solve_decision. Defined.

(** ** Commands and observations *)

Class RedisCmds (R : Type) := {
  stream : R -> string -> list XMessage;
  has_group : R -> string -> string -> bool;
  undelivered : R -> string -> string -> gset string;
  pending : R -> string -> string -> gset string;
  (** the group was set to an id after every id of the stream so far: entries that
      are added below it are not handed to it *)
  ahead : R -> string -> string -> bool;
  zset : R -> string -> gmap string Z;
  (** [XADD key * field value ...] at a server time in milliseconds *)
  xadd : Z -> string -> fields -> R -> string * R;
  (** [XGROUP CREATE key group 0 MKSTREAM]: false when the group exists *)
  xgroup_create : string -> string -> R -> bool * R;
  (** [XGROUP SETID key group id]: an error text, or none *)
  xgroup_setid : string -> string -> string -> R -> option string * R;
  (** [XREADGROUP GROUP group consumer COUNT n STREAMS key >] *)
  xreadgroup : Z -> string -> string -> string -> nat -> R -> list XMessage * R;
  (** [XAUTOCLAIM key group consumer min-idle 0-0 COUNT n] *)
  xautoclaim : Z -> string -> string -> string -> Z -> nat -> R -> list XMessage * R;
  (** [XACK key group id] *)
  xack : string -> string -> string -> R -> R;
  (** [ZADD key score member] *)
  zadd : string -> Z -> string -> R -> R;
  (** [ZRANGEBYSCORE key -inf max LIMIT 0 n] *)
  zrangebyscore : string -> Z -> nat -> R -> list string;
  (** [ZREM key member]: the number of members removed *)
  zrem : string -> string -> R -> Z * R;
}.

Section Defs.
Context {R : Type} `{RedisCmds R}.

Definition stream_ids (r : R) (s : string) : list string := map ID (stream r s).

(** Entries the group will still be handed, for the first time or again. *)
Definition outstanding (r : R) (s g : string) : gset string := undelivered r s g ∪ pending r s g.

(** A command that leaves streams, groups and sorted sets as they are, except
    what is named. *)
Definition same_streams (r r' : R) : Prop := forall s, stream r' s = stream r s.
Definition same_groups (r r' : R) : Prop :=
  forall s g, has_group r' s g = has_group r s g /\ ahead r' s g = ahead r s g /\
              undelivered r' s g = undelivered r s g /\ pending r' s g = pending r s g.
Definition same_zsets (r r' : R) : Prop := forall k, zset r' k = zset r k.

(** One entry of a group is no longer pending. *)
Definition acknowledged (s g id : string) (r r' : R) : Prop :=
  same_streams r r' /\ same_zsets r r' /\
  (forall s' g', has_group r' s' g' = has_group r s' g' /\ ahead r' s' g' = ahead r s' g') /\
  (forall s' g', undelivered r' s' g' = undelivered r s' g') /\
  (forall s' g', pending r' s' g' = if decide (s' = s /\ g' = g) then pending r s' g' ∖ {[id]} else pending r s' g').

(** A sorted set has a member with a score. *)
Definition zadded (k : string) (sc : Z) (m : string) (r r' : R) : Prop :=
  same_streams r r' /\ same_groups r r' /\
  (forall k', zset r' k' = if decide (k' = k) then <[m := sc]> (zset r k) else zset r k').
End Defs.

(** ** Documented behaviour *)

Class RedisLaws (R : Type) `{RedisCmds R} := {
  xadd_fresh : forall now s v r id r', xadd now s v r = (id, r') ->
    id <> "" /\ id ∉ stream_ids r s;
  xadd_stream : forall now s v r id r', xadd now s v r = (id, r') ->
    forall s', stream r' s' = if decide (s' = s) then stream r s ++ [mkXMessage id v] else stream r s';
  xadd_groups : forall now s v r id r', xadd now s v r = (id, r') ->
    forall s' g, has_group r' s' g = has_group r s' g /\ pending r' s' g = pending r s' g /\
      undelivered r s' g ⊆ undelivered r' s' g /\
      (ahead r s' g = false -> ahead r' s' g = false /\
       undelivered r' s' g =
         if decide (s' = s /\ has_group r s g = true) then {[id]} ∪ undelivered r s' g
         else undelivered r s' g);
  xadd_zsets : forall now s v r id r', xadd now s v r = (id, r') -> same_zsets r r';

  xgroup_create_spec : forall s g r b r', xgroup_create s g r = (b, r') ->
    b = negb (has_group r s g) /\ same_streams r r' /\ same_zsets r r' /\
    (b = false -> r' = r) /\
    (forall s' g', has_group r' s' g' = has_group r s' g' || bool_decide (s' = s /\ g' = g)) /\
    (b = true -> undelivered r' s g = list_to_set (stream_ids r s) /\ pending r' s g = ∅ /\ ahead r' s g = false) /\
    (forall s' g', (s' <> s \/ g' <> g) ->
       undelivered r' s' g' = undelivered r s' g' /\ pending r' s' g' = pending r s' g' /\
       ahead r' s' g' = ahead r s' g');

  (** the group will be handed entries of the stream after [id], whether or not it
      was handed them before; what is pending stays so *)
  xgroup_setid_frame : forall s g id r e r', xgroup_setid s g id r = (e, r') ->
    same_streams r r' /\ same_zsets r r' /\
    (forall s' g', has_group r' s' g' = has_group r s' g' /\ pending r' s' g' = pending r s' g') /\
    (forall s' g', (s' <> s \/ g' <> g) ->
       undelivered r' s' g' = undelivered r s' g' /\ ahead r' s' g' = ahead r s' g') /\
    (is_Some e -> r' = r) /\ (e = None -> undelivered r' s g ⊆ list_to_set (stream_ids r s));
  xgroup_setid_start : forall s g id r e r', xgroup_setid s g id r = (e, r') -> id ∈ ["0"; "0-0"; "$"] ->
    (e = None <-> has_group r s g = true) /\
    (e = None -> ahead r' s g = false /\
       undelivered r' s g = if decide (id = "$") then ∅ else list_to_set (stream_ids r s));

  xreadgroup_msgs : forall now s g c n r ms r', xreadgroup now s g c n r = (ms, r') ->
    (length ms <= n)%nat /\ (forall m, m ∈ ms -> m ∈ stream r s /\ ID m ∈ undelivered r s g);
  xreadgroup_frame : forall now s g c n r ms r', xreadgroup now s g c n r = (ms, r') ->
    same_streams r r' /\ same_zsets r r' /\
    (forall s' g', has_group r' s' g' = has_group r s' g' /\ ahead r' s' g' = ahead r s' g') /\
    (forall s' g', (s' <> s \/ g' <> g) ->
       undelivered r' s' g' = undelivered r s' g' /\ pending r' s' g' = pending r s' g');
  xreadgroup_move : forall now s g c n r ms r', xreadgroup now s g c n r = (ms, r') ->
    undelivered r' s g = undelivered r s g ∖ list_to_set (map ID ms) /\
    pending r' s g = pending r s g ∪ list_to_set (map ID ms);

  xautoclaim_msgs : forall now s g c idle n r ms r', xautoclaim now s g c idle n r = (ms, r') ->
    (length ms <= n)%nat /\ (forall m, m ∈ ms -> m ∈ stream r s /\ ID m ∈ pending r s g);
  xautoclaim_frame : forall now s g c idle n r ms r', xautoclaim now s g c idle n r = (ms, r') ->
    same_streams r r' /\ same_zsets r r' /\ same_groups r r';

  xack_frame : forall s g id r, acknowledged s g id r (xack s g id r);
  zadd_spec : forall k sc m r, zadded k sc m r (zadd k sc m r);

  zrangebyscore_spec : forall k mx n r m, m ∈ zrangebyscore k mx n r ->
    exists sc, zset r k !! m = Some sc /\ sc <= mx;
  zrangebyscore_limit : forall k mx n r, (length (zrangebyscore k mx n r) <= n)%nat;
  (** a nonempty due set is not reported empty *)
  zrangebyscore_due : forall k mx n r m sc, (0 < n)%nat -> zset r k !! m = Some sc -> sc <= mx ->
    zrangebyscore k mx n r <> [];

  zrem_spec : forall k m r c r', zrem k m r = (c, r') ->
    same_streams r r' /\ same_groups r r' /\
    c = (if decide (is_Some (zset r k !! m)) then 1 else 0) /\
    (forall k', zset r' k' = if decide (k' = k) then delete m (zset r k) else zset r k');
}.
