(* ===== verification/World.v ===== *)
(** * World: the state the components share, and faults

    The world holds the committed database, the transaction the running
    operation has open (its private view of the tables and its [now()]), the
    Redis server, the clock, and what the environment will answer: a list of
    [reply]s, one per call to PostgreSQL or Redis, each saying whether the call
    works, fails without effect, or takes effect but reports an error (a lost
    reply), how much time it takes, and how often the Redis client sent the
    command before; and the answers of webhook destinations.  A theorem that quantifies over worlds quantifies over all
    fault schedules: once the list is used up calls work and take no time.  A
    crash of the process is a schedule in which every remaining call of the
    operation fails without effect. *)

From S2P Require Import Prelude GoStrings GoErrors Json Database RedisServer.

(** ** Environment answers *)

Inductive fault :=
| NoFault
| FailBefore (text : string)
| FailAfter (text : string).

(** [rp_resent]: how many times the Redis client had sent the command before, each
    time with effect and with its reply lost.  [rp_rows]: how many rows of a query
    arrive before its connection breaks. *)
Record reply := mkReplyFull { rp_fault : fault; rp_elapsed : N; rp_resent : nat; rp_rows : nat }.

Definition mkReply (f : fault) (elapsed : N) : reply := mkReplyFull f elapsed 0 0.

(** The answer to one request on the wire: none, because the connection was lost
    while it was waited for, or because of another error, or a response with its
    [Location] header (empty when there is none). *)
Inductive http_reply :=
| HttpConnectionLost (text : string)
| HttpTransportError (text : string)
| HttpResponse (statusCode : Z) (status location : string).

Record http_request := mkHttpRequest {
  rq_method : string; rq_url : string; rq_body : string; rq_idempotency_key : option string;
}.

(** An open transaction: its view of the tables, and [now()], the time it
    began, in microseconds. *)
Record Tx := mkTx { tx_db : DB; tx_now : Z }.

Record World (R : Type) := mkWorld {
  w_db : DB;
  w_tx : option Tx;
  w_locked : gset string;
  w_uuid : nat;
  w_redis : R;
  w_now : Z;
  w_env : list reply;
  w_http : list http_reply;
  w_sent : list http_request;
}.
Arguments mkWorld {R}.
Arguments w_db {R}.
Arguments w_tx {R}.
Arguments w_locked {R}.
Arguments w_uuid {R}.
Arguments w_redis {R}.
Arguments w_now {R}.
Arguments w_env {R}.
Arguments w_http {R}.
Arguments w_sent {R}.

(** ** Client libraries

    [http.NewRequest(POST, url, body)]: [Some] error when the URL does not
    parse; [url.Parse] of a [Location] relative to a URL; and [go-redis]'s encoding
    of an XADD value. *)
Class NetClients := {
  new_request_error : string -> option error;
  resolve_location : string -> string -> option string;
  redis_arg : json -> option string;
  redis_arg_str : forall s, redis_arg (JStr s) = Some s;
}.

Section World.
Context {PG : Postgres} {R : Type}.
Abbreviation W := (World R).

Definition with_db (x : DB) (w : W) : W :=
  mkWorld x (w_tx w) (w_locked w) (w_uuid w) (w_redis w) (w_now w) (w_env w) (w_http w) (w_sent w).
Definition with_tx (x : option Tx) (w : W) : W :=
  mkWorld (w_db w) x (w_locked w) (w_uuid w) (w_redis w) (w_now w) (w_env w) (w_http w) (w_sent w).
Definition with_uuid (x : nat) (w : W) : W :=
  mkWorld (w_db w) (w_tx w) (w_locked w) x (w_redis w) (w_now w) (w_env w) (w_http w) (w_sent w).
Definition with_redis (x : R) (w : W) : W :=
  mkWorld (w_db w) (w_tx w) (w_locked w) (w_uuid w) x (w_now w) (w_env w) (w_http w) (w_sent w).
Definition with_clock (t : Z) (e : list reply) (w : W) : W :=
  mkWorld (w_db w) (w_tx w) (w_locked w) (w_uuid w) (w_redis w) t e (w_http w) (w_sent w).
Definition with_http (h : list http_reply) (q : list http_request) (w : W) : W :=
  mkWorld (w_db w) (w_tx w) (w_locked w) (w_uuid w) (w_redis w) (w_now w) (w_env w) h q.

Definition M (A : Type) : Type := GoM error W A.

(** ** Calls *)

(** Take the next reply: time passes, and the fault it carries is returned. *)
Definition next_reply (w : W) : fault * W :=
  match w_env w with
  | [] => (NoFault, w)
  | r :: rs => (rp_fault r, with_clock (w_now w + Z.of_N (rp_elapsed r)) rs w)
  end.

(** A call to a server, subject to the next fault. *)
Definition external {A} (op : M A) : M A :=
  fun w => let '(f, w1) := next_reply w in
           match f with
           | NoFault => op w1
           | FailBefore t => (Err (ErrorString t), w1)
           | FailAfter t => (Err (ErrorString t), (op w1).2)
           end.

(** [time.Now()], in nanoseconds *)
Definition time_now : M Z := fun w => (Ok (w_now w), w).

Definition micros (ns : Z) : Z := ns / 1000.

(** ** Transactions *)

(** [pool.BeginTx]: an error leaves no transaction open. *)
Definition begin_tx : M unit :=
  fun w => match external (fun w => (Ok tt, with_tx (Some (mkTx (w_db w) (micros (w_now w)))) w)) w with
           | (Ok _, w') => (Ok tt, w')
           | (Err e, w') => (Err e, with_tx None w')
           end.

(** A statement inside the open transaction: on success the view changes. *)
Definition tx_stmt {A} (stmt : Z -> DB -> res error (A * DB)) : M A :=
  external (fun w =>
    match w_tx w with
    | None => (Err (ErrorString "tx is closed"), w)
    | Some t => match stmt (tx_now t) (tx_db t) with
                | Ok (a, db') => (Ok a, with_tx (Some (mkTx db' (tx_now t))) w)
                | Err e => (Err e, w)
                end
    end).

(** A statement that evaluates [uuid_generate_v4()] for its row; the value is
    consumed whether or not the statement succeeds. *)
Definition tx_stmt_uuid {A} (stmt : string -> Z -> DB -> res error (A * DB)) : M A :=
  fun w => tx_stmt (stmt (uuid_v4 (w_uuid w))) (with_uuid (S (w_uuid w)) w).

(** [tx.Commit] makes the view the committed database. *)
Definition commit_tx : M unit :=
  external (fun w => match w_tx w with
                     | None => (Err (ErrorString "tx is closed"), w)
                     | Some t => (Ok tt, with_tx None (with_db (tx_db t) w))
                     end).

(** [tx.Rollback]: the view is dropped, also when the call itself fails (the
    connection is closed then). *)
Definition rollback_tx : M unit :=
  fun w => let '(r, w') := external (fun w => (Ok tt, w)) w in (r, with_tx None w').

(** [defer tx.Rollback(ctx)]: after a commit there is no view left to drop. *)
Definition deferred_rollback {A} (body : M A) : M A :=
  defer (fun w => (Ok tt, with_tx None w)) body.

(** A query on the pool: one statement against the committed tables. *)
Definition pool_query {A} (query : Z -> DB -> res error A) : M A :=
  external (fun w => (query (micros (w_now w)) (w_db w), w)).

(** A query on the pool whose rows are read one after the other: those that arrive,
    and the error that ends them when the connection breaks. *)
Definition pool_rows {A} (query : Z -> DB -> res error (list A)) : M (list A * option error) :=
  fun w0 =>
    let n := match w_env w0 with [] => 0%nat | r :: _ => rp_rows r end in
    let '(f, w) := next_reply w0 in
    match f, query (micros (w_now w)) (w_db w) with
    | FailBefore t, _ => (Err (ErrorString t), w)
    | _, Err e => (Err e, w)
    | NoFault, Ok rows => (Ok (rows, None), w)
    | FailAfter t, Ok rows => (Ok (take n rows, Some (ErrorString t)), w)
    end.

(** ** Redis commands *)

(** [go-redis] with its default options sends a command whose reply is lost up to
    three more times. *)
Definition MaxRedisRetries : nat := 3.

(** The server runs a command [S n] times; the client sees the last answer. *)
Fixpoint run_again {A} (n : nat) (cmd : R -> A * R) (r : R) : A * R :=
  match n with
  | O => cmd r
  | S n => run_again n cmd (cmd r).2
  end.

Definition resent (w : W) : nat :=
  match w_env w with [] => 0 | r :: _ => min MaxRedisRetries (rp_resent r) end.

Definition redis_cmd {A} (cmd : Z -> R -> A * R) : M A :=
  fun w0 => external (fun w => let '(a, r') := run_again (resent w0) (cmd (w_now w / 1000000)) (w_redis w) in
                               (Ok a, with_redis r' w)) w0.

(** [client.XAdd]: the server refuses an entry without fields. *)
Definition XAdd `{RedisCmds R} (key : string) (values : fields) : M string :=
  if decide (values = ∅) then external (gerr (ErrorString "ERR wrong number of arguments for 'xadd' command"))
  else redis_cmd (fun now r => xadd now key values r).

(** [client.XGroupSetID] *)
Definition XGroupSetID `{RedisCmds R} (key group start : string) : M unit :=
  let! e := redis_cmd (fun _ r => xgroup_setid key group start r) in
  match e with Some text => gerr (ErrorString text) | None => gret tt end.

(** ** Cancellation of a context

    The context of a background loop is cancelled at the instant [cancel_at], or
    never. *)

Definition ctx_done (cancel_at : option Z) : M bool :=
  fun w => (Ok (match cancel_at with Some t => t <=? w_now w | None => false end), w).

(** [waitForContext]: whether the timer fires before the cancellation. *)
Definition waitForContext (cancel_at : option Z) (delay : Z) : M bool :=
  fun w =>
    let fires := w_now w + Z.max 0 delay in
    match cancel_at with
    | Some t => if fires <? t then (Ok true, with_clock fires (w_env w) w)
                else (Ok false, with_clock (Z.max (w_now w) t) (w_env w) w)
    | None => (Ok true, with_clock fires (w_env w) w)
    end.

(** ** Webhook destinations *)

(** [Request.isReplayable]: what the transport sends again on a new connection. *)
Definition isReplayable (req : http_request) : bool :=
  String.eqb (rq_method req) "GET" || match rq_idempotency_key req with Some _ => true | None => false end.

(** [redirectBehavior]: 301, 302 and 303 turn the request into a GET without a
    body, 307 and 308 repeat the first request's body.  The header is kept. *)
Definition redirectBehavior (code : Z) (body : string) (req : http_request) (url : string) : option http_request :=
  if existsb (Z.eqb code) [301; 302; 303] then Some (mkHttpRequest "GET" url "" (rq_idempotency_key req))
  else if existsb (Z.eqb code) [307; 308] then Some (mkHttpRequest (rq_method req) url body (rq_idempotency_key req))
  else None.

(** What is sent next after a response: nothing, an error, or a redirect;
    [defaultCheckRedirect] stops after ten requests. *)
Definition redirect {NC : NetClients} (made : nat) (body : string) (req : http_request) (code : Z) (location : string)
    : res error (option http_request) :=
  match redirectBehavior code body req location with
  | None => Ok None
  | Some _ =>
      if String.eqb location "" then Ok None else
      match resolve_location (rq_url req) location with
      | None => Err (ErrorString ("failed to parse Location header " +:+ location))
      | Some url => if (10 <=? made)%nat then Err (ErrorString "stopped after 10 redirects")
                    else Ok (redirectBehavior code body req url)
      end
  end.

(** The requests of one [client.Do]: the result, what went over the wire, and the
    answers that are left; with none left the connection is refused. *)
Fixpoint http_exchange {NC : NetClients} (made : nat) (body : string) (req : http_request) (answers : list http_reply)
    : res error (Z * string) * list http_request * list http_reply :=
  match answers with
  | [] => (Err (ErrorString "connection refused"), [req], [])
  | HttpTransportError t :: rest => (Err (ErrorString t), [req], rest)
  | HttpConnectionLost t :: rest =>
      if isReplayable req
      then let '(r, sent, unread) := http_exchange made body req rest in (r, req :: sent, unread)
      else (Err (ErrorString t), [req], rest)
  | HttpResponse code status location :: rest =>
      match redirect made body req code location with
      | Err e => (Err e, [req], rest)
      | Ok None => (Ok (code, status), [req], rest)
      | Ok (Some req') =>
          let '(r, sent, unread) := http_exchange (S made) body req' rest in (r, req :: sent, unread)
      end
  end.

(** [client.Do(req)] *)
Definition http_do {NC : NetClients} (req : http_request) : M (Z * string) :=
  fun w => let '(r, sent, unread) := http_exchange 1 (rq_body req) req (w_http w) in
           (r, with_http unread (w_sent w ++ sent) w).
End World.
