(* ===== verification/Migrations.v ===== *)
(** * Migrations: applying the schema ([migrations/migrate.go])

    The SQL files are embedded in the program; running one is the server's doing,
    a parameter on an abstract schema.  The table [schema_migrations] records
    which have been applied.  Calls to the server follow a schedule of faults, as
    in the file World. *)

From S2P Require Import Prelude GoStrings GoErrors Json Database RedisServer World.

Module Migrations.

Section Migrations.
(** The schema, and the effect of a text of SQL on it. *)
Context {S : Type} (run_sql : string -> S -> res error S).
(** [//go:embed *.sql]: the files by name. *)
Context (migrationFiles : gmap string string).

(** The database: the schema, and the rows of [schema_migrations] once that
    table exists. *)
Record MigDB := mkMigDB { mg_schema : S; mg_applied : option (gset string) }.

Record MigWorld := mkMigWorld { m_db : MigDB; m_tx : option MigDB; m_env : list fault }.

Abbreviation M := (GoM error MigWorld).

Definition call {A} (op : M A) : M A := fun w =>
  match m_env w with
  | [] => op w
  | f :: fs =>
      let w1 := mkMigWorld (m_db w) (m_tx w) fs in
      match f with
      | NoFault => op w1
      | FailBefore t => (Err (ErrorString t), w1)
      | FailAfter t => (Err (ErrorString t), (op w1).2)
      end
  end.

Definition set_tx (t : option MigDB) (w : MigWorld) : MigWorld := mkMigWorld (m_db w) t (m_env w).
Definition set_db (d : MigDB) (w : MigWorld) : MigWorld := mkMigWorld d (m_tx w) (m_env w).

(** [CREATE TABLE IF NOT EXISTS schema_migrations] *)
Definition create_table : M unit :=
  call (fun w => (Ok tt, set_db (mkMigDB (mg_schema (m_db w)) (Some (default ∅ (mg_applied (m_db w))))) w)).

(** [SELECT filename FROM schema_migrations], and [rows.Next] to the end: the
    rows may stop coming. *)
Definition list_applied : M (gset string) :=
  call (fun w => match mg_applied (m_db w) with
                 | Some l => (Ok l, w)
                 | None => (Err (sql_error "relation schema_migrations does not exist"), w)
                 end).
Definition read_applied (rows : gset string) : M (gset string) := call (gret rows).

(** [pool.Begin] *)
Definition begin_mig : M unit := fun w =>
  match call (fun w => (Ok tt, set_tx (Some (m_db w)) w)) w with
  | (Ok _, w') => (Ok tt, w')
  | (Err e, w') => (Err e, set_tx None w')
  end.

Definition in_mig_tx (f : MigDB -> res error MigDB) : M unit :=
  call (fun w => match m_tx w with
                 | None => (Err (ErrorString "tx is closed"), w)
                 | Some d => match f d with
                             | Ok d' => (Ok tt, set_tx (Some d') w)
                             | Err e => (Err e, w)
                             end
                 end).

Definition exec_file (sql : string) (d : MigDB) : res error MigDB :=
  res_bind (run_sql sql (mg_schema d)) (fun s => Ok (mkMigDB s (mg_applied d))).

(** [INSERT INTO schema_migrations (filename) VALUES ($1)] *)
Definition insert_applied (name : string) (d : MigDB) : res error MigDB :=
  match mg_applied d with
  | None => Err (sql_error "relation schema_migrations does not exist")
  | Some l => if bool_decide (name ∈ l)
              then Err (sql_error "duplicate key value violates unique constraint")
              else Ok (mkMigDB (mg_schema d) (Some ({[name]} ∪ l)))
  end.

Definition commit_mig : M unit :=
  call (fun w => match m_tx w with
                 | None => (Err (ErrorString "tx is closed"), w)
                 | Some d => (Ok tt, set_tx None (set_db d w))
                 end).

(** [fs.Glob(migrationFiles, "*.sql")] and [sort.Strings]; the pattern is well
    formed, so that [Glob] reports no error. *)
Definition string_le (a b : string) : Prop := String.leb a b = true.
#[global] Instance string_le_dec : RelDecision string_le.
Proof. intros a b. unfold string_le. apply _. Defined.

Definition migrationNames : list string :=
  merge_sort string_le (filter (fun n => HasSuffix n ".sql" = true) (elements (dom migrationFiles))).

Definition applyOne (name : string) : M unit :=
  match migrationFiles !! name with
  | None => gerr (wrapf ("read migration " +:+ name) (ErrorString "file does not exist"))
  | Some sql =>
      let! _ := wrap_err (wrapf ("begin migration " +:+ name)) begin_mig in
      defer (fun w => (Ok tt, set_tx None w)) (
        let! _ := wrap_err (wrapf ("apply migration " +:+ name)) (in_mig_tx (exec_file sql)) in
        let! _ := wrap_err (wrapf ("record migration " +:+ name)) (in_mig_tx (insert_applied name)) in
        wrap_err (wrapf ("commit migration " +:+ name)) commit_mig)
  end.

Fixpoint apply_all (applied : gset string) (names : list string) : M unit :=
  match names with
  | [] => gret tt
  | name :: rest =>
      if bool_decide (name ∈ applied) then apply_all applied rest
      else let! _ := applyOne name in apply_all applied rest
  end.

Definition Apply : M unit :=
  let! _ := wrap_err (wrapf "create schema_migrations table") create_table in
  let! rows := wrap_err (wrapf "list applied migrations") list_applied in
  let! applied := wrap_err (wrapf "read applied migrations") (read_applied rows) in
  apply_all applied migrationNames.

(** ** Specification *)

(** The schema after the files [names], run one after the other. *)
Fixpoint run_files (names : list string) (s : S) : res error S :=
  match names with
  | [] => Ok s
  | n :: rest => res_bind (run_sql (default "" (migrationFiles !! n)) s) (run_files rest)
  end.

(** The database is the initial schema with exactly the first [k] files of a list
    run, and exactly these recorded. *)
Definition first_files (names : list string) (s0 : S) (k : nat) (d : MigDB) : Prop :=
  (k <= length names)%nat /\
  run_files (take k names) s0 = Ok (mg_schema d) /\
  default ∅ (mg_applied d) = list_to_set (take k names).

Abbreviation at_version := (first_files migrationNames).

(** The order of file names: byte by byte, a prefix first *)
Fixpoint bytes_lt (a b : list ascii) : Prop :=
  match a, b with
  | x :: a', y :: b' => (N_of_ascii x < N_of_ascii y)%N \/ x = y /\ bytes_lt a' b'
  | [], _ :: _ => True
  | _, [] => False
  end.

(** All the files whose name ends in [.sql], and only these, each once and in the
    order of their names *)
Definition inventory (names : list string) : Prop :=
  (forall n, n ∈ names <-> is_Some (migrationFiles !! n) /\ exists stem, n = stem +:+ ".sql") /\
  StronglySorted (fun a b => bytes_lt (chars a) (chars b)) names.

Lemma migrationNames_elem n : n ∈ migrationNames -> is_Some (migrationFiles !! n).
Proof.
  unfold migrationNames. rewrite merge_sort_Permutation, list_elem_of_filter, elem_of_elements, elem_of_dom.
  by intros [].
Qed.

Lemma migrationNames_lookup k n : migrationNames !! k = Some n -> is_Some (migrationFiles !! n).
Proof. intros Hn. eapply migrationNames_elem, list_elem_of_lookup_2, Hn. Qed.

Lemma migrationNames_nodup : NoDup migrationNames.
Proof. unfold migrationNames. rewrite merge_sort_Permutation. apply NoDup_filter, NoDup_elements. Qed.

(** *** The names are the inventory *)

Lemma bytes_lt_trans a b c : bytes_lt a b -> bytes_lt b c -> bytes_lt a c.
Proof.
  revert b c. induction a as [|x a IH]; intros [|y b] [|z c]; simpl; try done.
  intros [Hx|[-> Hx]] [Hy|[-> Hy]]; [left; lia|left; lia|left; lia|right; eauto].
Qed.

Lemma bytes_lt_irrefl a : ~ bytes_lt a a.
Proof. induction a as [|x a IH]; simpl; [auto|]. intros [?|[_ ?]]; [lia|auto]. Qed.

Lemma string_le_bytes a b : string_le a b <-> a = b \/ bytes_lt (chars a) (chars b).
Proof.
  unfold string_le, String.leb. revert b. induction a as [|x a IH]; intros [|y b]; simpl; [naive_solver..|].
  unfold Ascii.compare. destruct (N.compare_spec (N_of_ascii x) (N_of_ascii y)) as [He|Hl|Hg].
  - apply (f_equal ascii_of_N) in He. rewrite !ascii_N_embedding in He. subst y. rewrite IH.
    split; [intros [->|?]; auto|intros [[= ->]|[?|[_ ?]]]; auto; lia].
  - split; [auto|done].
  - split; [done|]. intros [[= -> ->]|[?|[-> _]]]; lia.
Qed.

#[local] Instance string_le_trans : Transitive string_le.
Proof.
  intros a b c. rewrite !string_le_bytes. intros [->|Hab] [->|Hbc]; auto. right. by eapply bytes_lt_trans.
Qed.
#[local] Instance string_le_antisymm : AntiSymm (=) string_le.
Proof. intros a b. apply String.leb_antisym. Qed.
#[local] Instance string_le_total : Total string_le.
Proof. intros a b. apply String.leb_total. Qed.

Lemma inventory_names names : inventory names -> names = migrationNames.
Proof.
  intros [Hin Hs]. apply (StronglySorted_unique string_le).
  - clear Hin. induction Hs as [|n l _ IH Hn]; constructor; [done|]. eapply Forall_impl; [exact Hn|].
    intros m Hm. apply string_le_bytes. auto.
  - apply StronglySorted_merge_sort; apply _.
  - apply NoDup_Permutation; [|apply migrationNames_nodup|].
    + clear - Hs. induction Hs as [|n l _ IH Hn]; constructor; [|done]. intros Hin.
      rewrite Forall_forall in Hn. by eapply bytes_lt_irrefl, Hn.
    + intros n. rewrite Hin. unfold migrationNames. rewrite merge_sort_Permutation, list_elem_of_filter, elem_of_elements, elem_of_dom.
      rewrite HasSuffix_spec. tauto.
Qed.

Lemma run_files_snoc l n s s' : run_files l s = Ok s' ->
  run_files (l ++ [n]) s = run_sql (default "" (migrationFiles !! n)) s'.
Proof.
  revert s. induction l as [|x l IH]; intros s Hs; simpl in *; simplify_eq.
  - by destruct (run_sql _ _).
  - destruct (run_sql _ s) as [s1|]; simpl in *; [by apply IH|done].
Qed.

(** ** Triples

    Assertions are about the committed database and the open transaction; an
    operation that reports an error leaves the second postcondition. *)

Abbreviation assertion := (MigDB -> option MigDB -> Prop).
Definition holds (P : assertion) (w : MigWorld) : Prop := P (m_db w) (m_tx w).

Definition triple {A} (P : assertion) (m : M A) (Q : A -> assertion) (E : assertion) : Prop :=
  forall w, holds P w ->
    match m w with (Ok a, w') => holds (Q a) w' | (Err _, w') => holds E w' end.

Lemma triple_bind {A B} P (m : M A) (k : A -> M B) Q R E :
  triple P m Q E -> (forall a, triple (Q a) (k a) R E) -> triple P (gbind m k) R E.
Proof.
  intros Hm Hk w Hw. unfold gbind. specialize (Hm w Hw). destruct (m w) as [[a|e] w']; [|done].
  by apply Hk.
Qed.

Lemma triple_wrap {A} P f (m : M A) Q E : triple P m Q E -> triple P (wrap_err f m) Q E.
Proof. intros Hm w Hw. unfold wrap_err. specialize (Hm w Hw). by destruct (m w) as [[a|e] w']. Qed.

(** A fault loses the reply of the call, or the call. *)
Lemma triple_call {A} P (op : M A) Q (E : assertion) :
  triple P op Q E -> (forall d t, P d t -> E d t) -> (forall a d t, Q a d t -> E d t) ->
  triple P (call op) Q E.
Proof.
  intros Hop HP HQ w Hw. unfold call. destruct (m_env w) as [|[|t|t] fs]; [by apply Hop| | |];
    set (w1 := mkMigWorld _ _ fs); assert (holds P w1) as Hw1 by exact Hw.
  - by apply Hop.
  - by apply HP.
  - specialize (Hop w1 Hw1). destruct (op w1) as [[a|e] w']; simpl; [by eapply HQ|done].
Qed.

Lemma triple_conseq {A} (P P' E E' : assertion) (m : M A) Q Q' :
  triple P m Q E -> (forall d t, P' d t -> P d t) -> (forall a d t, Q a d t -> Q' a d t) ->
  (forall d t, E d t -> E' d t) -> triple P' m Q' E'.
Proof.
  intros Hm HP HQ HE w Hw. specialize (Hm w (HP _ _ Hw)).
  destruct (m w) as [[a|e] w']; [by apply HQ|by apply HE].
Qed.

(** A statement of the open transaction. *)
Lemma triple_in_mig_tx P f (Q E : assertion) :
  (forall d t, P d t -> E d t) -> (forall d t, Q d t -> E d t) ->
  (forall d t t', P d (Some t) -> f t = Ok t' -> Q d (Some t')) ->
  triple P (in_mig_tx f) (fun _ => Q) E.
Proof.
  intros HP HQ Hf. apply triple_call; [|done|intros _; exact HQ].
  intros w Hw. destruct (m_tx w) as [t|] eqn:Ht; [|by apply HP].
  destruct (f t) as [t'|e] eqn:Hft; [|by apply HP].
  red. simpl. eapply Hf; [|exact Hft]. red in Hw. by rewrite Ht in Hw.
Qed.

Lemma begin_triple (P : MigDB -> Prop) :
  triple (fun d t => P d /\ t = None) begin_mig (fun _ d t => P d /\ t = Some d) (fun d t => P d /\ t = None).
Proof.
  assert (triple (fun d t => P d /\ t = None) (call (fun w => (Ok tt, set_tx (Some (m_db w)) w)))
    (fun _ d t => P d /\ t = Some d) (fun d _ => P d)) as Hc.
  { apply triple_call; [|naive_solver..]. by intros w [Hw _]. }
  intros w Hw. specialize (Hc w Hw). unfold begin_mig. by destruct (call _ w) as [[a|e] w'].
Qed.

(** ** One migration *)

Section Versions.
Context (s0 : S).

(** The table exists, and the database is at version [k]. *)
Definition migrated (k : nat) (d : MigDB) : Prop := at_version s0 k d /\ is_Some (mg_applied d).

Definition between (k : nat) : assertion := fun d _ => migrated k d \/ migrated (k + 1) d.

Lemma migrated_next k name d t t' s :
  migrated k d -> migrationNames !! k = Some name ->
  run_sql (default "" (migrationFiles !! name)) (mg_schema d) = Ok s ->
  t = mkMigDB s (mg_applied d) -> insert_applied name t = Ok t' -> migrated (k + 1) t'.
Proof.
  intros [(Hk & Hrun & Happ) [l Hl]] Hname Hs -> Hins. unfold insert_applied in Hins.
  rewrite Hl in Happ, Hins. simpl in *. case_bool_decide; simplify_eq/=.
  apply lookup_lt_Some in Hname as Hlt. split; [|by eexists].
  unfold at_version. rewrite Nat.add_1_r, (take_S_r _ _ _ Hname). simpl. split_and!; [lia| |].
  - by rewrite (run_files_snoc _ _ _ _ Hrun).
  - rewrite list_to_set_app_L. set_solver.
Qed.

(** The body of the transaction: the file and its record commit together. *)
Lemma applyOne_body k name sql :
  migrationNames !! k = Some name -> migrationFiles !! name = Some sql ->
  triple (fun d t => migrated k d /\ t = Some d)
    (let! _ := wrap_err (wrapf ("apply migration " +:+ name)) (in_mig_tx (exec_file sql)) in
     let! _ := wrap_err (wrapf ("record migration " +:+ name)) (in_mig_tx (insert_applied name)) in
     wrap_err (wrapf ("commit migration " +:+ name)) commit_mig)
    (fun _ d _ => migrated (k + 1) d) (between k).
Proof.
  intros Hname Hsql.
  eapply (triple_bind _ _ _ (fun _ d t => migrated k d /\
      exists s, run_sql sql (mg_schema d) = Ok s /\ t = Some (mkMigDB s (mg_applied d)))).
  { apply triple_wrap, triple_in_mig_tx; [by left; naive_solver..|].
    intros d t t' [Hd [= ->]] Hf. split; [done|]. unfold exec_file in Hf.
    destruct (run_sql sql _) as [s|]; simplify_eq/=. eauto. }
  intros _. eapply (triple_bind _ _ _ (fun _ d t => migrated k d /\ exists t', t = Some t' /\ migrated (k + 1) t')).
  { apply triple_wrap, triple_in_mig_tx; [by left; naive_solver..|].
    intros d t t' [Hd (s & Hs & [= ->])] Hf. split; [done|]. eexists; split; [done|].
    eapply migrated_next; [done..| |done|exact Hf]. by rewrite Hsql. }
  intros _. apply triple_wrap, triple_call; [|by left; naive_solver|by right].
  intros w (Hw & t' & Ht & Ht'). rewrite Ht. exact Ht'.
Qed.

Lemma applyOne_triple k name :
  migrationNames !! k = Some name ->
  triple (fun d t => migrated k d /\ t = None) (applyOne name)
    (fun _ d t => migrated (k + 1) d /\ t = None) (fun d t => between k d t /\ t = None).
Proof.
  intros Hname. unfold applyOne.
  destruct (migrationNames_lookup k name Hname) as [sql Hsql].
  rewrite Hsql.
  apply (triple_bind _ _ _ (fun _ d t => migrated k d /\ t = Some d)).
  { apply triple_wrap. eapply triple_conseq; [apply (begin_triple (migrated k))|done..|].
    intros d t [Hd ->]. split; [by left|done]. }
  intros _ w Hw. unfold defer. pose proof (applyOne_body k name sql Hname Hsql w Hw) as Hbody.
  destruct (gbind _ _ w) as [[a|e] w']; done.
Qed.

(** ** All of them *)

Abbreviation all := (length migrationNames).

Definition somewhere_after (k : nat) : assertion := fun d t =>
  (exists k', (k <= k')%nat /\ migrated k' d) /\ t = None.

Lemma apply_all_skip applied l rest :
  Forall (.∈ applied) l -> apply_all applied (l ++ rest) = apply_all applied rest.
Proof. induction 1 as [|n l Hn _ IH]; simpl; [done|]. by rewrite bool_decide_eq_true_2. Qed.

(** The files already applied are passed over. *)
Lemma apply_all_resume k :
  apply_all (list_to_set (take k migrationNames)) migrationNames =
  apply_all (list_to_set (take k migrationNames)) (drop k migrationNames).
Proof.
  set (applied := list_to_set _). rewrite <- (take_drop k migrationNames) at 1.
  apply apply_all_skip, Forall_forall. intros n Hn. by apply elem_of_list_to_set.
Qed.

Lemma name_not_applied k j name :
  (k <= j)%nat -> migrationNames !! j = Some name -> name ∉@{gset string} list_to_set (take k migrationNames).
Proof.
  intros Hkj Hj. rewrite elem_of_list_to_set. intros (i & Hi)%list_elem_of_lookup.
  apply lookup_take_Some in Hi as [Hi Hik].
  pose proof (NoDup_lookup _ _ _ _ migrationNames_nodup Hi Hj). lia.
Qed.

Lemma apply_all_triple k n : forall j,
  (k <= j)%nat -> (j + n = all)%nat ->
  triple (fun d t => migrated j d /\ t = None)
    (apply_all (list_to_set (take k migrationNames)) (drop j migrationNames))
    (fun _ d t => migrated all d /\ t = None) (somewhere_after j).
Proof.
  induction n as [|n IH]; intros j Hkj Hn.
  - rewrite drop_ge by lia. intros w Hw. simpl. by replace j with all in Hw by lia.
  - destruct (lookup_lt_is_Some_2 migrationNames j) as [name Hname]; [lia|].
    rewrite (drop_S _ _ _ Hname). simpl. rewrite bool_decide_eq_false_2 by by eapply name_not_applied.
    eapply triple_bind.
    + eapply triple_conseq; [by apply applyOne_triple|done..|].
      intros d t [[Hd|Hd] ->]; split; try done; eexists; (split; [|exact Hd]); lia.
    + intros u; cbv beta; clear u. replace (Datatypes.S j) with (j + 1)%nat by lia.
      eapply triple_conseq; [apply (IH (j + 1)%nat)|..]; [lia|lia|done|done|].
      intros d t [(k' & Hk' & Hd) ->]. split; [|done]. exists k'. split; [lia|done].
Qed.

Definition at_or_after (k : nat) : assertion := fun d t =>
  (exists k', (k <= k')%nat /\ at_version s0 k' d) /\ t = None.

Lemma at_or_after_refl k d t : at_version s0 k d -> t = None -> at_or_after k d t.
Proof. intros ? ->. split; [|done]. by exists k. Qed.

Lemma Apply_triple k :
  triple (fun d t => at_version s0 k d /\ t = None) Apply
    (fun _ d t => migrated all d /\ t = None)
    (at_or_after k).
Proof.
  assert (forall d t, migrated k d /\ t = None -> at_or_after k d t) as Hback.
  { intros d t [[? _] ?]. by apply at_or_after_refl. }
  unfold Apply. eapply (triple_bind _ _ _ (fun _ d t => migrated k d /\ t = None)).
  { apply triple_wrap, triple_call; [|intros d t []; by apply at_or_after_refl|by intros _].
    intros w [(? & ? & Ha) Ht]. split; [|done]. split; [|by eexists]. done. }
  intros _. eapply (triple_bind _ _ _ (fun l d t => l = list_to_set (take k migrationNames) /\ migrated k d /\ t = None)).
  { apply triple_wrap, triple_call; [|by auto|by intros l d t [_ ?]; auto].
    intros w [[Hv [l Hl]] Ht]. rewrite Hl. split; [|done].
    destruct Hv as (_ & _ & Ha). by rewrite Hl in Ha. }
  intros rows. eapply (triple_bind _ _ _ (fun l d t => l = list_to_set (take k migrationNames) /\ migrated k d /\ t = None)).
  { apply triple_wrap, triple_call; [|by intros d t [_ ?]; auto|by intros l d t [_ ?]; auto]. by intros w. }
  intros applied w (-> & Hm & Ht). assert (k <= all)%nat as Hk by (destruct Hm as [[? _] _]; done).
  rewrite apply_all_resume.
  pose proof (apply_all_triple k (all - k) k (le_n _) ltac:(lia) w (conj Hm Ht)) as Ha.
  destruct (apply_all _ _ w) as [[a|e] w']; [done|].
  destruct Ha as [(k' & ? & [? _]) ?]. split; [|done]. eauto.
Qed.

(** ** Runs without faults *)

Lemma run_files_app l1 l2 s : run_files (l1 ++ l2) s = res_bind (run_files l1 s) (run_files l2).
Proof. revert s. induction l1 as [|n l1 IH]; intros s; simpl; [done|]. destruct (run_sql _ s); [apply IH|done]. Qed.

Lemma applyOne_ok k name w s :
  m_env w = [] -> m_tx w = None -> migrated k (m_db w) -> migrationNames !! k = Some name ->
  run_sql (default "" (migrationFiles !! name)) (mg_schema (m_db w)) = Ok s ->
  exists d, applyOne name w = (Ok tt, mkMigWorld d None []) /\ mg_schema d = s.
Proof.
  intros He Ht [(_ & _ & Happ) [l Hl]] Hname Hs. destruct w as [d t e]; simpl in *; subst.
  destruct (migrationNames_lookup k name Hname) as [sql Hsql].
  rewrite Hsql in Hs. rewrite Hl in Happ. simpl in *.
  exists (mkMigDB s (Some ({[name]} ∪ l))). split; [|done].
  unfold applyOne, begin_mig, commit_mig, in_mig_tx, call, wrap_err, gbind, defer, set_tx, set_db, exec_file, insert_applied.
  rewrite Hsql. simpl. rewrite Hs. simpl. rewrite Hl. simpl.
  rewrite bool_decide_eq_false_2; [done|]. rewrite Happ. by apply (name_not_applied k k).
Qed.

Lemma apply_all_ok k n : forall j w s,
  (k <= j)%nat -> (j + n = all)%nat -> m_env w = [] -> m_tx w = None -> migrated j (m_db w) ->
  run_files (drop j migrationNames) (mg_schema (m_db w)) = Ok s ->
  exists d, apply_all (list_to_set (take k migrationNames)) (drop j migrationNames) w = (Ok tt, mkMigWorld d None []).
Proof.
  induction n as [|n IH]; intros j w s Hkj Hn He Ht Hm Hrun.
  - rewrite drop_ge by lia. exists (m_db w). destruct w; simpl in *; by subst.
  - destruct (lookup_lt_is_Some_2 migrationNames j) as [name Hname]; [lia|].
    rewrite (drop_S _ _ _ Hname) in Hrun |- *. simpl in *.
    rewrite bool_decide_eq_false_2 by by eapply name_not_applied.
    destruct (run_sql _ _) as [s1|] eqn:Hs1; simpl in Hrun; [|done].
    destruct (applyOne_ok j name w s1) as (d1 & H1 & Hd1); [done..|].
    pose proof (applyOne_triple j name Hname w (conj Hm Ht)) as Hm1.
    unfold gbind. rewrite H1 in Hm1 |- *. destruct Hm1 as [Hm1 _].
    replace (Datatypes.S j) with (j + 1)%nat in * by lia.
    eapply IH; simpl; [lia|lia|done|done|exact Hm1|by rewrite Hd1].
Qed.

Lemma Apply_ok k w s :
  m_env w = [] -> m_tx w = None -> at_version s0 k (m_db w) -> run_files migrationNames s0 = Ok s ->
  exists d, Apply w = (Ok tt, mkMigWorld d None []).
Proof.
  intros He Ht Hv Hrun. destruct w as [d t e]; simpl in *; subst.
  pose proof Hv as (Hk & Hpre & Happ).
  set (d1 := mkMigDB (mg_schema d) (Some (default ∅ (mg_applied d)))).
  assert (Apply (mkMigWorld d None []) =
    apply_all (list_to_set (take k migrationNames)) (drop k migrationNames) (mkMigWorld d1 None [])) as ->.
  { unfold Apply, wrap_err, gbind, create_table, list_applied, read_applied, call; simpl.
    subst d1. by rewrite Happ, apply_all_resume. }
  rewrite <- (take_drop k migrationNames), run_files_app, Hpre in Hrun. simpl in Hrun.
  eapply (apply_all_ok k (all - k)); [done|lia|done|done| |exact Hrun].
  split; [|by eexists]. done.
Qed.

Lemma Apply_again d :
  migrated all d -> Apply (mkMigWorld d None []) = (Ok tt, mkMigWorld d None []).
Proof.
  intros [(_ & _ & Happ) [l Hl]]. destruct d as [sc ap]; simpl in *; subst. simpl in *. subst.
  unfold Apply, wrap_err, gbind, create_table, list_applied, read_applied, call; simpl.
  by rewrite apply_all_resume, drop_ge.
Qed.

(** C20: applying the migrations runs every file exactly once, in order, whatever
    fails.  Let [names] be the files whose name ends in .sql, in the order of their
    names byte by byte.  From a database that is the initial schema with the first
    [k] of them run and recorded, [Apply] — under every schedule of failed calls and
    lost replies — ends with the first [k'] run, one after the other, exactly these
    recorded, [k <= k'], and no transaction open; it never leaves a file run and not
    recorded, or recorded and not run.  When it reports success all files have been
    run. *)
Theorem migrations_exactly_once names k w r w' :
  inventory names -> first_files names s0 k (m_db w) -> m_tx w = None -> Apply w = (r, w') ->
  m_tx w' = None /\
  exists k', (k <= k')%nat /\ first_files names s0 k' (m_db w') /\ (r = Ok tt -> k' = length names).
Proof.
  intros ->%inventory_names Hv Ht HA. pose proof (Apply_triple k w (conj Hv Ht)) as H. rewrite HA in H.
  destruct r as [[]|e].
  - destruct H as [[H _] ?]. split; [done|]. exists all. split_and!; [|done..]. by destruct Hv.
  - destruct H as [(k' & ? & ?) ?]. split; [done|]. by exists k'.
Qed.

(** Without faults, and if the files run on the initial schema, [Apply]
    returns: from any prefix of the migrations it ends with all of them run and
    recorded, and a second [Apply] changes nothing. *)
Theorem migrations_complete k w s :
  m_env w = [] -> m_tx w = None -> at_version s0 k (m_db w) -> run_files migrationNames s0 = Ok s ->
  exists w', Apply w = (Ok tt, w') /\ mg_schema (m_db w') = s /\
    mg_applied (m_db w') = Some (list_to_set migrationNames) /\ Apply w' = (Ok tt, w').
Proof.
  intros He Ht Hv Hrun. destruct (Apply_ok k w s) as [d Hd]; [done..|].
  pose proof (Apply_triple k w (conj Hv Ht)) as H. rewrite Hd in H. destruct H as [Hm _].
  exists (mkMigWorld d None []). split; [done|]. pose proof Hm as [(_ & Hs & Ha) [l Hl]]. simpl in *.
  rewrite firstn_all in Hs, Ha. rewrite Hl in Ha |- *. simpl in Ha. subst.
  split_and!; [congruence|done|by apply Apply_again].
Qed.

End Versions.

End Migrations.

(** ** Witnesses: two files, the schema a log of the texts run *)

Definition log_sql (sql : string) (s : list string) : res error (list string) := Ok (s ++ [sql]).
Definition two_files : gmap string string :=
  {["002_b.sql" := "ALTER TABLE events"; "001_a.sql" := "CREATE TABLE events"]}.
Definition fresh (env : list fault) : MigWorld :=
  mkMigWorld (S := list string) (mkMigDB [] None) None env.

(** The second commit's reply is lost. *)
Definition lost_commit : list fault := repeat NoFault 10 ++ [FailAfter "connection reset"].

Lemma two_files_inventory : inventory two_files ["001_a.sql"; "002_b.sql"].
Proof.
  split; cycle 1.
  { apply SSorted_cons; [apply SSorted_cons; [apply SSorted_nil|apply Forall_nil; exact I]|].
    apply Forall_singleton. simpl. do 2 (right; split; [reflexivity|]). left. reflexivity. }
  intros n. unfold two_files. rewrite !elem_of_cons, elem_of_nil. split.
  - intros [->|[->|[]]]; (split; [vm_compute; eauto|]); [by exists "001_a"|by exists "002_b"].
  - intros [Hn _]. rewrite lookup_insert_is_Some, lookup_singleton_is_Some in Hn. naive_solver.
Qed.

Lemma migrations_exactly_once_witness :
  exists w', Apply log_sql two_files (fresh lost_commit) =
    (Err (wrapf "commit migration 002_b.sql" (ErrorString "connection reset")), w') /\
  mg_schema (m_db w') = ["CREATE TABLE events"; "ALTER TABLE events"] /\
  m_tx w' = None /\
  exists k', (0 <= k')%nat /\ first_files log_sql two_files ["001_a.sql"; "002_b.sql"] [] k' (m_db w') /\
    (Err (A := unit) (wrapf "commit migration 002_b.sql" (ErrorString "connection reset")) = Ok tt -> k' = 2%nat).
Proof.
  eexists. split; [vm_compute; reflexivity|]. split; [reflexivity|].
  apply (migrations_exactly_once log_sql two_files [] ["001_a.sql"; "002_b.sql"] 0 (fresh lost_commit));
    [exact two_files_inventory|split_and!; vm_compute; [lia|reflexivity..]|reflexivity|vm_compute; reflexivity].
Defined.

Lemma migrations_complete_witness :
  exists w', Apply log_sql two_files (fresh []) = (Ok tt, w') /\
    mg_schema (m_db w') = ["CREATE TABLE events"; "ALTER TABLE events"] /\
    mg_applied (m_db w') = Some (list_to_set (migrationNames two_files)) /\
    Apply log_sql two_files w' = (Ok tt, w').
Proof.
  apply (migrations_complete log_sql two_files [] 0 (fresh []));
    [reflexivity|reflexivity|split_and!; vm_compute; [lia|reflexivity..]|vm_compute; reflexivity].
Defined.
End Migrations.
