(* ===== verification/Simulation.v ===== *)
(** * Simulation: executable servers and client libraries

    The program is verified against interfaces of PostgreSQL, Redis, the
    network clients and the formatting functions of Go's library.  Here is an
    executable instance of each, with its laws proved: the interfaces are
    satisfiable, and the definitions of the components run on it. *)

From S2P Require Import Prelude GoStrings GoErrors GoTime Utf8 Json Database RedisServer World.

(** ** Formatting *)

(** Printable ASCII is quoted as it is; numbers keep their literal. *)
#[global] Instance SimStrconv : Strconv := {
  Quote := fun s => String dq s +:+ String dq "";
  float64_text := fun s => Some s;
  json_error_text := fun _ => "invalid JSON";
}.

#[global] Instance SimNet : NetClients := {
  new_request_error := fun url => if Contains url "://" then None else Some (ErrorString "invalid url");
  resolve_location := fun base loc => if Contains loc "://" then Some loc else None;
  redis_arg := fun v => match v with
                        | JStr s | JNum s => Some s
                        | JBool b => Some (if b then "1" else "0")
                        | _ => None
                        end;
  redis_arg_str := fun _ => eq_refl;
}.

(** The process runs in UTC. *)
#[global] Instance SimZone : LocalZone := { time_json := utc_time_json }.

(** ** PostgreSQL *)

Definition lower_list (l : list ascii) : list ascii := map lower_ascii l.

Definition lower_hex (c : ascii) : bool :=
  is_digit c || ((97 <=? byte_val c) && (byte_val c <=? 102))%N.

(** 8-4-4-4-12 hexadecimal digits *)
Definition uuid_shape (l : list ascii) : bool :=
  (length l =? 36)%nat &&
  forallb (fun ic => if bool_decide (ic.1 ∈ [8; 13; 18; 23]%nat) then Ascii.eqb ic.2 "-"
                     else lower_hex ic.2) (imap pair l).

Definition sim_uuid_in (s : string) : option string :=
  let l := lower_list (chars s) in
  if uuid_shape l then Some (String.string_of_list_ascii l) else None.

Lemma lower_ascii_idemp c : lower_ascii (lower_ascii c) = lower_ascii c.
Proof. destruct c as [[] [] [] [] [] [] [] []]; reflexivity. Qed.

Lemma lower_list_idemp l : lower_list (lower_list l) = lower_list l.
Proof. unfold lower_list. induction l as [|c l IH]; simpl; [done|]. by rewrite lower_ascii_idemp, IH. Qed.

Lemma sim_uuid_canonical s u : sim_uuid_in s = Some u -> sim_uuid_in u = Some u.
Proof.
  unfold sim_uuid_in, chars. destruct (uuid_shape _) eqn:E; intros ?; simplify_eq.
  rewrite String.list_ascii_of_string_of_list_ascii, lower_list_idemp. by rewrite E.
Qed.

Lemma sim_uuid_text s u : sim_uuid_in s = Some u ->
  Forall (fun c => c ∈ String.list_ascii_of_string "0123456789abcdef-") (String.list_ascii_of_string u).
Proof.
  unfold sim_uuid_in. destruct (uuid_shape _) eqn:E; intros ?; simplify_eq.
  rewrite String.list_ascii_of_string_of_list_ascii. apply Forall_lookup. intros i c Hc.
  unfold uuid_shape in E. apply andb_true_iff in E as [_ E]. rewrite forallb_forall in E.
  assert (Hin : In (i, c) (imap pair (lower_list (chars s)))).
  { apply list_elem_of_In, elem_of_lookup_imap. eauto. }
  apply E in Hin. simpl in Hin. apply list_elem_of_In.
  destruct (bool_decide _); [apply Ascii.eqb_eq in Hin as ->; vm_compute; tauto|].
  destruct c as [[] [] [] [] [] [] [] []]; try discriminate Hin; vm_compute; tauto.
Qed.

Lemma sim_uuid_length s u : sim_uuid_in s = Some u -> String.length u = 36%nat.
Proof.
  unfold sim_uuid_in, uuid_shape. destruct (length _ =? 36)%nat eqn:E; [|done]. intros Hu.
  apply Nat.eqb_eq in E. case_match; simplify_eq. by rewrite string_of_list_length.
Qed.

Definition hex_nibble (n : N) (i : N) : ascii := hex_digit (N.land (N.shiftr n (4 * i)) 15).

Definition sim_uuid_v4 (n : nat) : string :=
  String.string_of_list_ascii
    (chars "00000000-0000-4000-8000-" ++
     map (hex_nibble (N.of_nat n)) [11; 10; 9; 8; 7; 6; 5; 4; 3; 2; 1; 0]%N).

Lemma hex_nibble_ok n i : lower_ascii (hex_nibble n i) = hex_nibble n i /\ lower_hex (hex_nibble n i) = true.
Proof.
  unfold hex_nibble. assert (N.land (N.shiftr n (4 * i)) 15 < 16)%N as H.
  { change 15%N with (N.ones 4). rewrite N.land_ones. by apply N.mod_lt. }
  revert H. generalize (N.land (N.shiftr n (4 * i)) 15). intros x Hx.
  assert (x ∈ [0; 1; 2; 3; 4; 5; 6; 7; 8; 9; 10; 11; 12; 13; 14; 15]%N) as Hin.
  { rewrite !elem_of_cons. lia. }
  rewrite !elem_of_cons in Hin. destruct_or! Hin; subst; try done. by apply not_elem_of_nil in Hin.
Qed.

Lemma sim_uuid_v4_canonical n : sim_uuid_in (sim_uuid_v4 n) = Some (sim_uuid_v4 n).
Proof.
  unfold sim_uuid_in, sim_uuid_v4, chars. rewrite !String.list_ascii_of_string_of_list_ascii.
  unfold lower_list. rewrite map_app. cbn [map].
  rewrite !(proj1 (hex_nibble_ok (N.of_nat n) _)).
  pose proof (fun i => proj2 (hex_nibble_ok (N.of_nat n) i)) as H.
  set (h := hex_nibble (N.of_nat n)) in *. clearbody h.
  unfold uuid_shape. simpl. by rewrite !H.
Qed.

(** JSON is stored as it was written. *)
Definition sim_jsonb_in (s : string) : option string :=
  match parse s with Some _ => Some s | None => None end.

Lemma sim_jsonb_canonical s t : sim_jsonb_in s = Some t -> sim_jsonb_in t = Some t.
Proof. unfold sim_jsonb_in. destruct (parse s) eqn:E; intros ?; simplify_eq. by rewrite E. Qed.

Lemma sim_jsonb_json s t : sim_jsonb_in s = Some t -> is_Some (parse t).
Proof. unfold sim_jsonb_in. destruct (parse s) eqn:E; intros ?; simplify_eq. by rewrite E. Qed.

#[global] Instance SimPostgres : Postgres := {
  uuid_in := sim_uuid_in;
  uuid_in_canonical := sim_uuid_canonical;
  uuid_in_text := sim_uuid_text;
  uuid_in_length := sim_uuid_length;
  uuid_v4 := sim_uuid_v4;
  uuid_v4_canonical := sim_uuid_v4_canonical;
  jsonb_in := sim_jsonb_in;
  jsonb_in_canonical := sim_jsonb_canonical;
  jsonb_in_json := sim_jsonb_json;
  heap_scan := fun A m => map_to_list m;
  heap_scan_perm := fun A m => Permutation_refl _;
}.

(** ** Redis *)

(** A group is the entries it has not been handed and the ones it has. *)
Record SimRedis := mkSimRedis {
  sm_streams : gmap string (list XMessage);
  sm_groups : gmap (string * string) (gset string * gset string);
  sm_zsets : gmap string (gmap string Z);
}.

Definition empty_redis : SimRedis := mkSimRedis ∅ ∅ ∅.

Definition sim_stream (r : SimRedis) (s : string) : list XMessage := default [] (sm_streams r !! s).
Definition sim_group (r : SimRedis) (s g : string) : gset string * gset string :=
  default (∅, ∅) (sm_groups r !! (s, g)).
Definition sim_zset (r : SimRedis) (k : string) : gmap string Z := default ∅ (sm_zsets r !! k).

Definition sim_xadd (now : Z) (s : string) (v : fields) (r : SimRedis) : string * SimRedis :=
  let id := fresh ("" :: map ID (sim_stream r s)) in
  (id, mkSimRedis (<[s := sim_stream r s ++ [mkXMessage id v]]> (sm_streams r))
         (map_imap (fun sg up => Some (if decide (sg.1 = s) then ({[id]} ∪ up.1, up.2) else up))
            (sm_groups r))
         (sm_zsets r)).

Definition sim_xgroup_create (s g : string) (r : SimRedis) : bool * SimRedis :=
  match sm_groups r !! (s, g) with
  | Some _ => (false, r)
  | None => (true, mkSimRedis (sm_streams r)
                     (<[(s, g) := (list_to_set (map ID (sim_stream r s)), ∅)]> (sm_groups r))
                     (sm_zsets r))
  end.

(** The ids after [id] in a stream's order *)
Fixpoint ids_after (id : string) (ids : list string) : option (list string) :=
  match ids with
  | [] => None
  | i :: rest => if String.eqb i id then Some rest else ids_after id rest
  end.

Definition sim_xgroup_setid (s g id : string) (r : SimRedis) : option string * SimRedis :=
  match sm_groups r !! (s, g) with
  | None => (Some "NOGROUP No such consumer group", r)
  | Some (_, p) =>
      let ids := map ID (sim_stream r s) in
      let next := if bool_decide (id ∈ ["0"; "0-0"]) then Some ids
                  else if String.eqb id "$" then Some [] else ids_after id ids in
      match next with
      | None => (Some "ERR Invalid stream ID", r)
      | Some l => (None, mkSimRedis (sm_streams r) (<[(s, g) := (list_to_set l, p)]> (sm_groups r)) (sm_zsets r))
      end
  end.

Definition sim_xreadgroup (s g : string) (n : nat) (r : SimRedis) : list XMessage * SimRedis :=
  match sm_groups r !! (s, g) with
  | None => ([], r)
  | Some (u, p) =>
      let ms := take n (filter (fun m => ID m ∈ u) (sim_stream r s)) in
      let ids := list_to_set (map ID ms) in
      (ms, mkSimRedis (sm_streams r) (<[(s, g) := (u ∖ ids, p ∪ ids)]> (sm_groups r)) (sm_zsets r))
  end.

Definition sim_xautoclaim (s g : string) (n : nat) (r : SimRedis) : list XMessage * SimRedis :=
  (take n (filter (fun m => ID m ∈ (sim_group r s g).2) (sim_stream r s)), r).

Definition sim_xack (s g id : string) (r : SimRedis) : SimRedis :=
  match sm_groups r !! (s, g) with
  | None => r
  | Some (u, p) => mkSimRedis (sm_streams r) (<[(s, g) := (u, p ∖ {[id]})]> (sm_groups r)) (sm_zsets r)
  end.

Definition sim_zadd (k : string) (sc : Z) (m : string) (r : SimRedis) : SimRedis :=
  mkSimRedis (sm_streams r) (sm_groups r) (<[k := <[m := sc]> (sim_zset r k)]> (sm_zsets r)).

Definition score_le (a b : string * Z) : Prop := a.2 <= b.2.
#[global] Instance score_le_dec : RelDecision score_le.
Proof. intros a b. unfold score_le. apply _. Defined.

Definition sim_zrangebyscore (k : string) (mx : Z) (n : nat) (r : SimRedis) : list string :=
  take n (map fst (filter (fun ms => ms.2 <= mx) (merge_sort score_le (map_to_list (sim_zset r k))))).

Definition sim_zrem (k m : string) (r : SimRedis) : Z * SimRedis :=
  (if decide (is_Some (sim_zset r k !! m)) then 1 else 0,
   mkSimRedis (sm_streams r) (sm_groups r) (<[k := delete m (sim_zset r k)]> (sm_zsets r))).

#[global] Instance SimRedisCmds : RedisCmds SimRedis := {
  stream := sim_stream;
  has_group := fun r s g => bool_decide (is_Some (sm_groups r !! (s, g)));
  undelivered := fun r s g => (sim_group r s g).1;
  pending := fun r s g => (sim_group r s g).2;
  ahead := fun _ _ _ => false;
  zset := sim_zset;
  xadd := sim_xadd;
  xgroup_create := sim_xgroup_create;
  xgroup_setid := sim_xgroup_setid;
  xreadgroup := fun _ s g _ n => sim_xreadgroup s g n;
  xautoclaim := fun _ s g _ _ n => sim_xautoclaim s g n;
  xack := sim_xack;
  zadd := sim_zadd;
  zrangebyscore := sim_zrangebyscore;
  zrem := sim_zrem;
}.

(** Observations of an updated map. *)
Ltac sim_lookup :=
  unfold sim_stream, sim_group, sim_zset in *; simpl in *;
  repeat match goal with
    | |- context [<[?i := _]> ?m !! ?j] =>
        destruct (decide (i = j)); [subst; rewrite lookup_insert_eq|rewrite lookup_insert_ne by done]
    end; simpl.

Lemma sim_xadd_fresh now s v r id r' : sim_xadd now s v r = (id, r') -> id <> "" /\ id ∉ stream_ids r s.
Proof.
  unfold sim_xadd. intros ?; simplify_eq.
  pose proof (infinite_is_fresh ("" :: map ID (sim_stream r s))) as Hf.
  rewrite elem_of_cons in Hf. unfold stream_ids. simpl. tauto.
Qed.

Lemma sim_xadd_stream now s v r id r' : sim_xadd now s v r = (id, r') ->
  forall s', stream r' s' = if decide (s' = s) then stream r s ++ [mkXMessage id v] else stream r s'.
Proof. unfold sim_xadd. intros ? s'; simplify_eq. simpl. case_decide; sim_lookup; try done; congruence. Qed.

Lemma sim_xadd_groups now s v r id r' : sim_xadd now s v r = (id, r') ->
  forall s' g, has_group r' s' g = has_group r s' g /\ pending r' s' g = pending r s' g /\
    undelivered r s' g ⊆ undelivered r' s' g /\
    (ahead r s' g = false -> ahead r' s' g = false /\
     undelivered r' s' g =
       if decide (s' = s /\ has_group r s g = true) then {[id]} ∪ undelivered r s' g
       else undelivered r s' g).
Proof.
  unfold sim_xadd. intros ? s' g; simplify_eq. simpl. unfold sim_group. simpl.
  rewrite map_lookup_imap. destruct (sm_groups r !! (s', g)) as [[u p]|] eqn:E; simpl.
  - destruct (decide (s' = s)) as [->|Hne]; simpl; (split_and!; [done|done|set_solver|]); intros _; (split; [done|]).
    + rewrite decide_True; [done|]. split; [done|]. rewrite E. by apply bool_decide_eq_true.
    + rewrite decide_False by tauto. done.
  - split_and!; try done. intros _. split; [done|]. rewrite decide_False; [done|]. intros [-> Hg]. rewrite E in Hg. done.
Qed.

Lemma sim_xgroup_create_spec s g r b r' : sim_xgroup_create s g r = (b, r') ->
  b = negb (has_group r s g) /\ same_streams r r' /\ same_zsets r r' /\
  (b = false -> r' = r) /\
  (forall s' g', has_group r' s' g' = has_group r s' g' || bool_decide (s' = s /\ g' = g)) /\
  (b = true -> undelivered r' s g = list_to_set (stream_ids r s) /\ pending r' s g = ∅ /\ ahead r' s g = false) /\
  (forall s' g', (s' <> s \/ g' <> g) ->
     undelivered r' s' g' = undelivered r s' g' /\ pending r' s' g' = pending r s' g' /\
     ahead r' s' g' = ahead r s' g').
Proof.
  unfold sim_xgroup_create. destruct (sm_groups r !! (s, g)) as [up|] eqn:E; intros ?; simplify_eq; simpl.
  - rewrite E. split_and!; try done. intros s' g'.
    destruct (decide (s' = s /\ g' = g)) as [[-> ->]|Hn].
    + rewrite E. done.
    + rewrite (bool_decide_eq_false_2 (s' = s /\ g' = g)) by done. by rewrite orb_false_r.
  - rewrite E. split_and!; try done.
    + intros s' g'. destruct (decide (s' = s /\ g' = g)) as [[-> ->]|Hn].
      * rewrite lookup_insert_eq, (bool_decide_eq_true_2 (s = s /\ g = g)) by done.
        rewrite orb_true_r. by apply bool_decide_eq_true.
      * rewrite lookup_insert_ne by (intros ?; simplify_eq; tauto).
        rewrite (bool_decide_eq_false_2 (s' = s /\ g' = g)) by done. by rewrite orb_false_r.
    + intros _. unfold sim_group. simpl. by rewrite lookup_insert_eq.
    + intros s' g' Hn. unfold sim_group. simpl.
      rewrite lookup_insert_ne by (intros ?; simplify_eq; naive_solver). done.
Qed.

Lemma ids_after_subset id ids l : ids_after id ids = Some l -> forall x, x ∈ l -> x ∈ ids.
Proof.
  induction ids as [|i ids IH]; simpl; [done|]. destruct (String.eqb i id); intros ? x Hx; simplify_eq; set_solver.
Qed.

Lemma sim_xgroup_setid_frame s g id r e r' : sim_xgroup_setid s g id r = (e, r') ->
  same_streams r r' /\ same_zsets r r' /\
  (forall s' g', has_group r' s' g' = has_group r s' g' /\ pending r' s' g' = pending r s' g') /\
  (forall s' g', (s' <> s \/ g' <> g) ->
     undelivered r' s' g' = undelivered r s' g' /\ ahead r' s' g' = ahead r s' g') /\
  (is_Some e -> r' = r) /\ (e = None -> undelivered r' s g ⊆ list_to_set (stream_ids r s)).
Proof.
  unfold sim_xgroup_setid. destruct (sm_groups r !! (s, g)) as [[u p]|] eqn:E.
  2:{ intros ?; simplify_eq. by split_and!. }
  destruct (if bool_decide _ then _ else _) as [l|] eqn:El; intros ?; simplify_eq; [|by split_and!].
  simpl. unfold sim_group. simpl. split_and!; try done.
  - intros s' g'. destruct (decide ((s, g) = (s', g'))) as [[= <- <-]|Hn];
      [rewrite lookup_insert_eq, E; done|by rewrite lookup_insert_ne].
  - intros s' g' Hn. rewrite lookup_insert_ne by (intros ?; simplify_eq; naive_solver). done.
  - intros _. rewrite lookup_insert_eq. simpl. intros x. rewrite !elem_of_list_to_set. unfold stream_ids. simpl.
    destruct (bool_decide _); [by simplify_eq|]. destruct (String.eqb id "$"); simplify_eq; [set_solver|].
    by eapply ids_after_subset.
Qed.

Lemma sim_xgroup_setid_start s g id r e r' : sim_xgroup_setid s g id r = (e, r') -> id ∈ ["0"; "0-0"; "$"] ->
  (e = None <-> has_group r s g = true) /\
  (e = None -> ahead r' s g = false /\ undelivered r' s g = if decide (id = "$") then ∅ else list_to_set (stream_ids r s)).
Proof.
  intros HS Hid. unfold sim_xgroup_setid in HS. simpl. unfold sim_group, stream_ids. simpl.
  destruct (sm_groups r !! (s, g)) as [[u p]|] eqn:E; [|by simplify_eq].
  apply list_elem_of_In in Hid. simpl in Hid. destruct_or! Hid; subst; try done; simplify_eq/=;
    rewrite lookup_insert_eq; done.
Qed.

Lemma take_elem_filter {A} (P : A -> Prop) `{forall x, Decision (P x)} n (l : list A) x :
  x ∈ take n (filter P l) -> P x /\ x ∈ l.
Proof. intros Hx. by apply take_elem, list_elem_of_filter in Hx. Qed.

Lemma sim_xreadgroup_msgs s g n r ms r' : sim_xreadgroup s g n r = (ms, r') ->
  (length ms <= n)%nat /\ (forall m, m ∈ ms -> m ∈ stream r s /\ ID m ∈ undelivered r s g).
Proof.
  unfold sim_xreadgroup. simpl. unfold sim_group.
  destruct (sm_groups r !! (s, g)) as [[u p]|] eqn:E; intros ?; simplify_eq; simpl.
  - split; [rewrite length_take; lia|]. intros m Hm. apply take_elem_filter in Hm. tauto.
  - split; [lia|]. intros m Hm. by apply not_elem_of_nil in Hm.
Qed.

Lemma sim_xreadgroup_frame s g n r ms r' : sim_xreadgroup s g n r = (ms, r') ->
  same_streams r r' /\ same_zsets r r' /\
  (forall s' g', has_group r' s' g' = has_group r s' g' /\ ahead r' s' g' = ahead r s' g') /\
  (forall s' g', (s' <> s \/ g' <> g) ->
     undelivered r' s' g' = undelivered r s' g' /\ pending r' s' g' = pending r s' g').
Proof.
  unfold sim_xreadgroup. simpl. unfold sim_group.
  destruct (sm_groups r !! (s, g)) as [[u p]|] eqn:E; intros ?; simplify_eq; simpl; [|done].
  split_and!; try done.
  - intros s' g'. destruct (decide ((s, g) = (s', g'))) as [<-|Hn].
    + rewrite lookup_insert_eq, E. by rewrite !bool_decide_eq_true_2.
    + by rewrite lookup_insert_ne.
  - intros s' g' Hn. rewrite lookup_insert_ne by (intros ?; simplify_eq; naive_solver). done.
Qed.

Lemma sim_xreadgroup_move s g n r ms r' : sim_xreadgroup s g n r = (ms, r') ->
  undelivered r' s g = undelivered r s g ∖ list_to_set (map ID ms) /\
  pending r' s g = pending r s g ∪ list_to_set (map ID ms).
Proof.
  unfold sim_xreadgroup. simpl. unfold sim_group.
  destruct (sm_groups r !! (s, g)) as [[u p]|] eqn:E; intros ?; simplify_eq; simpl.
  - by rewrite lookup_insert_eq.
  - rewrite E. simpl. split; apply leibniz_equiv; set_solver.
Qed.

Lemma sim_xautoclaim_msgs s g n r ms r' : sim_xautoclaim s g n r = (ms, r') ->
  (length ms <= n)%nat /\ (forall m, m ∈ ms -> m ∈ stream r s /\ ID m ∈ pending r s g).
Proof.
  unfold sim_xautoclaim. intros ?; simplify_eq. split; [rewrite length_take; lia|].
  intros m Hm. apply take_elem_filter in Hm. simpl. tauto.
Qed.

Lemma sim_xack_frame s g id r : acknowledged s g id r (sim_xack s g id r).
Proof.
  unfold acknowledged, sim_xack. destruct (sm_groups r !! (s, g)) as [[u p]|] eqn:E; simpl; unfold sim_group; simpl.
  - assert (Hl : forall s' g', (s' = s /\ g' = g) \/ (s, g) <> (s', g')).
    { intros s' g'. destruct (decide ((s, g) = (s', g'))); [left; naive_solver|by right]. }
    split_and!; try done; intros s' g'; destruct (Hl s' g') as [[-> ->]|Hn];
      rewrite ?lookup_insert_eq, ?lookup_insert_ne, ?E, ?decide_True by done; try done.
    rewrite decide_False; [done|naive_solver].
  - split_and!; try done. intros s' g'. case_decide as Hd; [|done]. destruct Hd as [-> ->].
    rewrite E. simpl. apply leibniz_equiv. set_solver.
Qed.

Lemma sim_zadd_spec k sc m r : zadded k sc m r (sim_zadd k sc m r).
Proof. split_and!; try done. intros k'. simpl. case_decide; sim_lookup; try done; congruence. Qed.

Lemma elem_zrange k mx r m :
  m ∈ map fst (filter (fun ms => ms.2 <= mx) (merge_sort score_le (map_to_list (sim_zset r k)))) <->
  exists sc, sim_zset r k !! m = Some sc /\ sc <= mx.
Proof.
  rewrite list_elem_of_fmap. setoid_rewrite list_elem_of_filter. setoid_rewrite merge_sort_Permutation.
  split.
  - intros ([m' sc] & -> & Hle & Hin). apply elem_of_map_to_list in Hin. eauto.
  - intros (sc & Hm & Hle). exists (m, sc). by rewrite elem_of_map_to_list.
Qed.

Lemma sim_zrangebyscore_spec k mx n r m : m ∈ sim_zrangebyscore k mx n r ->
  exists sc, zset r k !! m = Some sc /\ sc <= mx.
Proof.
  intros Hm. apply elem_zrange. unfold sim_zrangebyscore in Hm.
  by apply take_elem in Hm.
Qed.

Lemma sim_zrangebyscore_due k mx n r m sc : (0 < n)%nat -> zset r k !! m = Some sc -> sc <= mx ->
  sim_zrangebyscore k mx n r <> [].
Proof.
  intros Hn Hm Hle. assert (Hin : exists sc, sim_zset r k !! m = Some sc /\ sc <= mx) by eauto.
  apply elem_zrange in Hin. unfold sim_zrangebyscore. destruct n as [|n]; [lia|].
  destruct (map fst _); [by apply not_elem_of_nil in Hin|done].
Qed.

Lemma sim_zrem_spec k m r c r' : sim_zrem k m r = (c, r') ->
  same_streams r r' /\ same_groups r r' /\
  c = (if decide (is_Some (zset r k !! m)) then 1 else 0) /\
  (forall k', zset r' k' = if decide (k' = k) then delete m (zset r k) else zset r k').
Proof.
  unfold sim_zrem. intros ?; simplify_eq. split_and!; try done.
  intros k'. simpl. case_decide; sim_lookup; try done; congruence.
Qed.

#[global] Instance SimRedisLaws : RedisLaws SimRedis := {
  xadd_fresh := sim_xadd_fresh;
  xadd_stream := sim_xadd_stream;
  xadd_groups := sim_xadd_groups;
  xadd_zsets := fun now s v r id r' H => ltac:(unfold xadd in H; simpl in H; unfold sim_xadd in H;
                                               intros k; simplify_eq; reflexivity);
  xgroup_create_spec := sim_xgroup_create_spec;
  xgroup_setid_frame := sim_xgroup_setid_frame;
  xgroup_setid_start := sim_xgroup_setid_start;
  xreadgroup_msgs := fun _ s g _ n => sim_xreadgroup_msgs s g n;
  xreadgroup_frame := fun _ s g _ n => sim_xreadgroup_frame s g n;
  xreadgroup_move := fun _ s g _ n => sim_xreadgroup_move s g n;
  xautoclaim_msgs := fun _ s g _ _ n => sim_xautoclaim_msgs s g n;
  xautoclaim_frame := fun now s g c idle n r ms r' H => ltac:(unfold xautoclaim in H; simpl in H;
     unfold sim_xautoclaim in H; simplify_eq; repeat split);
  xack_frame := sim_xack_frame;
  zadd_spec := sim_zadd_spec;
  zrangebyscore_spec := sim_zrangebyscore_spec;
  zrangebyscore_limit := fun k mx n r => ltac:(simpl; unfold sim_zrangebyscore; rewrite length_take; lia);
  zrangebyscore_due := sim_zrangebyscore_due;
  zrem_spec := sim_zrem_spec;
}.

(** ** A world to run on *)

(** An empty database and an empty Redis, at a given time, with given answers of
    the environment. *)
Definition sim_world (db : DB) (r : SimRedis) (now : Z) (env : list reply) (http : list http_reply)
    : World SimRedis :=
  mkWorld db None ∅ 0 r now env http [].
