(* ===== verification/WorldFacts.v ===== *)
(** * WorldFacts: how calls, statements and transactions change the world

    Inversion lemmas that say, for each primitive and every fault, what the
    world can be afterwards; the components' proofs are case analyses with
    them. *)

From S2P Require Import Prelude GoStrings GoErrors Json Database RedisServer World.

Section Facts.
Context {PG : Postgres} {R : Type}.
Abbreviation W := (World R).
Abbreviation M := (M (R:=R)).
Implicit Types w : W.

(** ** Frames *)

Ltac frame := split_and!; simpl; intros; try done; try congruence; try lia; eauto.

(** Nothing but the clock, the unused replies and the UUID counter differ. *)
Definition quiet (w w' : W) : Prop :=
  w_db w' = w_db w /\ w_tx w' = w_tx w /\ w_locked w' = w_locked w /\ w_redis w' = w_redis w /\
  w_http w' = w_http w /\ w_sent w' = w_sent w /\ w_now w <= w_now w'.

(** As [quiet], but the view of the open transaction may differ. *)
Definition in_tx (w w' : W) : Prop :=
  w_db w' = w_db w /\ w_locked w' = w_locked w /\ w_redis w' = w_redis w /\
  w_http w' = w_http w /\ w_sent w' = w_sent w /\ w_now w <= w_now w'.

(** As [in_tx], but Redis may differ too. *)
Definition redis_only (w w' : W) : Prop :=
  w_db w' = w_db w /\ w_tx w' = w_tx w /\ w_locked w' = w_locked w /\ w_now w <= w_now w'.

#[global] Instance quiet_preorder : PreOrder quiet.
Proof. split; [intros w|intros w1 w2 w3]; unfold quiet; intuition (congruence || lia). Qed.

#[global] Instance in_tx_preorder : PreOrder in_tx.
Proof. split; [intros w|intros w1 w2 w3]; unfold in_tx; intuition (congruence || lia). Qed.

#[global] Instance redis_only_preorder : PreOrder redis_only.
Proof. split; [intros w|intros w1 w2 w3]; unfold redis_only; intuition (congruence || lia). Qed.

Lemma quiet_in_tx w w' : quiet w w' -> in_tx w w'.
Proof. unfold quiet, in_tx. naive_solver. Qed.

Lemma quiet_redis_only w w' : quiet w w' -> redis_only w w'.
Proof. unfold quiet, redis_only. naive_solver. Qed.

(** ** Replies *)

Lemma next_reply_quiet w f w1 : next_reply w = (f, w1) -> quiet w w1.
Proof.
  unfold next_reply. destruct (w_env w) as [|r rs]; intros ?; simplify_eq; [reflexivity|].
  unfold quiet; simpl. split_and!; try done. lia.
Qed.

Lemma next_reply_env w f w1 : next_reply w = (f, w1) -> w_env w1 = tl (w_env w).
Proof. unfold next_reply. destruct (w_env w) eqn:E; intros ?; simplify_eq/=; by rewrite ?E. Qed.

(** A call either fails before its effect, or runs (and may then still report
    an error). *)
Lemma external_inv {A} (op : M A) w r w' :
  external op w = (r, w') ->
  exists w1, quiet w w1 /\
    ((exists t, r = Err (ErrorString t) /\ w' = w1) \/
     op w1 = (r, w') \/
     (exists t, r = Err (ErrorString t) /\ w' = (op w1).2)).
Proof.
  unfold external. destruct (next_reply w) as [f w1] eqn:E.
  apply next_reply_quiet in E. exists w1. split; [done|].
  destruct f; simplify_eq; naive_solver.
Qed.

(** With no fault scheduled a call just runs. *)
Lemma external_no_env {A} (op : M A) w : w_env w = [] -> external op w = op w.
Proof. unfold external, next_reply. by intros ->. Qed.

(** ** Statements and transactions *)

Lemma begin_tx_inv w r w' :
  begin_tx w = (r, w') ->
  in_tx w w' /\
  (r = Ok tt -> exists now, w_tx w' = Some (mkTx (w_db w) now)) /\
  (forall e, r = Err e -> w_tx w' = None).
Proof.
  unfold begin_tx. destruct (external _ w) as [r1 w1] eqn:E. intros H.
  apply external_inv in E as (w0 & (E1 & E2 & E3 & E4 & E5 & E6 & E7) & E).
  destruct E as [(t & -> & ->)|[E|(t & -> & ->)]]; simplify_eq/=; unfold in_tx; frame.
  eexists. by rewrite E1.
Qed.

Lemma tx_stmt_inv {A} (stmt : Z -> DB -> res error (A * DB)) w r w' :
  tx_stmt stmt w = (r, w') ->
  in_tx w w' /\ w_uuid w' = w_uuid w /\
  (forall a, r = Ok a -> exists t db', w_tx w = Some t /\ stmt (tx_now t) (tx_db t) = Ok (a, db') /\
                         w_tx w' = Some (mkTx db' (tx_now t))).
Proof.
  assert (Hu : forall w f w1, next_reply w = (f, w1) -> w_uuid w1 = w_uuid w).
  { intros v f v1. unfold next_reply. destruct (w_env v); intros ?; by simplify_eq. }
  unfold tx_stmt, external. destruct (next_reply w) as [f w1] eqn:E.
  pose proof (Hu _ _ _ E) as Huu. apply next_reply_quiet in E.
  destruct f; simpl; intros H.
  2: { simplify_eq. split_and!; [by apply quiet_in_tx|done|done]. }
  all: destruct E as (E1 & E2 & E3 & E4 & E5 & E6 & E7);
    destruct (w_tx w1) as [t|] eqn:Et; simplify_eq/=;
    [destruct (stmt (tx_now t) (tx_db t)) as [[a db']|e] eqn:Es; simplify_eq/=|];
    unfold in_tx; simpl; split_and!; try done; naive_solver.
Qed.

Lemma tx_stmt_uuid_inv {A} (stmt : string -> Z -> DB -> res error (A * DB)) w r w' :
  tx_stmt_uuid stmt w = (r, w') ->
  in_tx w w' /\ w_uuid w' = S (w_uuid w) /\
  (forall a, r = Ok a -> exists t db', w_tx w = Some t /\
     stmt (uuid_v4 (w_uuid w)) (tx_now t) (tx_db t) = Ok (a, db') /\
     w_tx w' = Some (mkTx db' (tx_now t))).
Proof.
  unfold tx_stmt_uuid. intros H. apply tx_stmt_inv in H as (H1 & H2 & H3). simpl in *.
  split_and!; [|done|done]. unfold in_tx in *. naive_solver.
Qed.

Lemma commit_tx_inv w r w' :
  commit_tx w = (r, w') ->
  w_locked w' = w_locked w /\ w_redis w' = w_redis w /\ w_http w' = w_http w /\
  w_sent w' = w_sent w /\ w_now w <= w_now w' /\
  (w_db w' = w_db w \/ exists t, w_tx w = Some t /\ w_db w' = tx_db t) /\
  (r = Ok tt -> exists t, w_tx w = Some t /\ w_db w' = tx_db t).
Proof.
  intros H. apply external_inv in H as (w1 & (E1 & E2 & E3 & E4 & E5 & E6 & E7) & H).
  destruct H as [(t & -> & ->)|[H|(t & -> & ->)]].
  - naive_solver.
  - destruct (w_tx w1) eqn:Et; simplify_eq/=; naive_solver.
  - destruct (w_tx w1) eqn:Et; simpl; naive_solver.
Qed.

Lemma rollback_tx_inv w r w' :
  rollback_tx w = (r, w') -> in_tx w w' /\ w_tx w' = None.
Proof.
  unfold rollback_tx. destruct (external _ w) as [r1 w1] eqn:E. intros ?; simplify_eq.
  apply external_inv in E as (w0 & (E1 & E2 & E3 & E4 & E5 & E6 & E7) & E).
  destruct E as [(t & -> & ->)|[E|(t & -> & ->)]]; simplify_eq/=; unfold in_tx; frame.
Qed.

Lemma deferred_rollback_inv {A} (body : M A) w r w' :
  deferred_rollback body w = (r, w') ->
  exists w1, body w = (r, w1) /\ w' = with_tx None w1.
Proof.
  unfold deferred_rollback, defer. destruct (body w) as [r1 w1] eqn:E. intros ?; simplify_eq. eauto.
Qed.

Lemma pool_query_inv {A} (q : Z -> DB -> res error A) w r w' :
  pool_query q w = (r, w') ->
  quiet w w' /\ (forall a, r = Ok a -> exists now, q now (w_db w) = Ok a).
Proof.
  intros H. apply external_inv in H as (w1 & Hq & [(t & -> & ->)|[H|(t & -> & ->)]]); simplify_eq/=.
  - naive_solver.
  - split; [done|]. intros a Ha. exists (micros (w_now w')).
    destruct Hq as (Hdb & _). by rewrite <- Hdb.
  - naive_solver.
Qed.

(** All rows arrive, or the first of them and an error. *)
Lemma pool_rows_inv {A} (q : Z -> DB -> res error (list A)) w r w' :
  pool_rows q w = (r, w') ->
  quiet w w' /\ w_env w' = tl (w_env w) /\
  (forall rows e, r = Ok (rows, e) -> exists now all n, q now (w_db w) = Ok all /\ rows = take n all /\
     (e = None -> rows = all)).
Proof.
  unfold pool_rows. destruct (next_reply w) as [f w1] eqn:E. pose proof (next_reply_env _ _ _ E) as Htl.
  apply next_reply_quiet in E. intros H.
  destruct (q (micros (w_now w1)) (w_db w1)) as [all|] eqn:Eq; cycle 1; [by destruct f; simplify_eq|].
  assert (w' = w1) as -> by (destruct f; by simplify_eq).
  split_and!; [done..|]. intros rows e ->. destruct E as (E1 & _). rewrite <- E1.
  destruct f; simplify_eq.
  - exists (micros (w_now w1)), rows, (length rows). split_and!; [done|by rewrite take_ge|done].
  - eexists _, all, _. by split_and!.
Qed.

(** A transaction around a body that talks to the database only: what is
    committed is the view the body left, when it succeeded; otherwise nothing
    changed. *)
Definition tx_result {A} (body : M A) (w : W) (a : A) (db' : DB) : Prop :=
  exists now w1 w2 t, w_tx w1 = Some (mkTx (w_db w) now) /\ in_tx w w1 /\
    body w1 = (Ok a, w2) /\ w_tx w2 = Some t /\ tx_db t = db'.

Lemma tx_stmt_in_tx {A} (stmt : Z -> DB -> res error (A * DB)) : keeps in_tx (tx_stmt stmt).
Proof. intros w. destruct (tx_stmt stmt w) as [r w'] eqn:E. by apply tx_stmt_inv in E as (? & _). Qed.

Lemma tx_stmt_uuid_in_tx {A} (stmt : string -> Z -> DB -> res error (A * DB)) :
  keeps in_tx (tx_stmt_uuid stmt).
Proof. intros w. destruct (tx_stmt_uuid stmt w) as [r w'] eqn:E. by apply tx_stmt_uuid_inv in E as (? & _). Qed.

(** The end of a transaction: a body that talks to the database only, then the
    commit. *)
Lemma tx_commit_inv {A B} (body : M A) (f : A -> B) g w r w' :
  keeps in_tx body ->
  (let! a := body in let! _ := wrap_err g commit_tx in gret (f a)) w = (r, w') ->
  w_locked w' = w_locked w /\ w_redis w' = w_redis w /\ w_http w' = w_http w /\
  w_sent w' = w_sent w /\ w_now w <= w_now w' /\
  (w_db w' = w_db w \/
   exists a w2 t, body w = (Ok a, w2) /\ w_tx w2 = Some t /\ w_db w' = tx_db t) /\
  (forall b, r = Ok b ->
   exists a w2 t, body w = (Ok a, w2) /\ w_tx w2 = Some t /\ w_db w' = tx_db t /\ b = f a).
Proof.
  intros Hk H. specialize (Hk w).
  apply gbind_inv in H as [(a & w2 & Hb & H)|(e & Hb & ->)]; rewrite Hb in Hk; simpl in Hk;
    destruct Hk as (J1 & J2 & J3 & J4 & J5 & J6).
  - unfold gbind, wrap_err in H. destruct (commit_tx w2) as [rc w3] eqn:Ec.
    apply commit_tx_inv in Ec as (C1 & C2 & C3 & C4 & C5 & C6 & C7).
    assert (w' = w3) as -> by (destruct rc; unfold gret in H; by simplify_eq/=).
    split_and!; try congruence; try lia.
    + destruct C6 as [C6|(t & Ht & C6)]; [left; congruence|right; eauto 10].
    + intros b ->. destruct rc as [[]|]; unfold gret in H; simplify_eq/=.
      destruct C7 as (t & Ht & C7); [done|]. eauto 10.
  - split_and!; try congruence; try lia; try done. by left.
Qed.

(** ** Redis *)

(** The server ran a command once, or up to four times in a row when the client
    lost the replies; the last answer is [a]. *)
Definition repeats {A} (cmd : Z -> R -> A * R) (r : R) (a : A) (r' : R) : Prop :=
  exists now n, (n <= MaxRedisRetries)%nat /\ run_again n (cmd now) r = (a, r').

Lemma repeats_once {A} (cmd : Z -> R -> A * R) now r a r' : cmd now r = (a, r') -> repeats cmd r a r'.
Proof. intros Hc. exists now, 0%nat. split; [lia|done]. Qed.

(** A relation that every run of the command is in. *)
Lemma repeats_keeps {A} (cmd : Z -> R -> A * R) (P : R -> R -> Prop) `{!PreOrder P} r a r' :
  (forall now r a r', cmd now r = (a, r') -> P r r') -> repeats cmd r a r' -> P r r'.
Proof.
  intros Hc (now & n & _ & Hr). revert r Hr. induction n as [|n IH]; intros r Hr; simpl in Hr; [by eapply Hc|].
  transitivity (cmd now r).2; [|by apply IH]. destruct (cmd now r) as [a0 r0] eqn:E. by eapply Hc.
Qed.

(** An invariant that every run of the command keeps. *)
Lemma repeats_inv {A} (cmd : Z -> R -> A * R) (I : R -> Prop) r a r' :
  (forall now r a r', I r -> cmd now r = (a, r') -> I r') -> repeats cmd r a r' -> I r -> I r'.
Proof.
  intros Hc Hr. assert (PreOrder (fun r r' => I r -> I r')) by (split; [by intros ?|intros ?; naive_solver]).
  eapply (repeats_keeps cmd (fun r r' => I r -> I r')); [|exact Hr]. intros now r1 a1 r2 He Hi. by eapply Hc.
Qed.

(** The last run, and a state before it that the earlier ones lead to. *)
Lemma repeats_last {A} (cmd : Z -> R -> A * R) r a r' (P : R -> R -> Prop) `{!PreOrder P} :
  (forall now r a r', cmd now r = (a, r') -> P r r') -> repeats cmd r a r' ->
  exists now r1, P r r1 /\ cmd now r1 = (a, r').
Proof.
  intros Hc (now & n & _ & Hr). exists now. revert r Hr. induction n as [|n IH]; intros r Hr; simpl in Hr; [by exists r|].
  destruct (cmd now r) as [a0 r0] eqn:E. apply IH in Hr as (r1 & Hp & Hr). exists r1. split; [|done].
  transitivity r0; [by eapply Hc|done].
Qed.

(** No command is sent twice. *)
Definition sent_once (w : W) : Prop := Forall (fun r => rp_resent r = 0%nat) (w_env w).

Lemma sent_once_resent w : sent_once w -> resent w = 0%nat.
Proof. unfold sent_once, resent. destruct (w_env w); [done|]. intros H. inversion H; subst. by rewrite H2. Qed.

(** A command ran or it did not; if it reported success it ran. *)
Lemma redis_cmd_inv {A} (cmd : Z -> R -> A * R) w r w' :
  redis_cmd cmd w = (r, w') ->
  w_db w' = w_db w /\ w_tx w' = w_tx w /\ w_locked w' = w_locked w /\
  w_http w' = w_http w /\ w_sent w' = w_sent w /\ w_now w <= w_now w' /\
  ((exists t, r = Err (ErrorString t) /\ w_redis w' = w_redis w) \/
   (exists a, repeats cmd (w_redis w) a (w_redis w') /\
              (r = Ok a \/ exists t, r = Err (ErrorString t)))).
Proof.
  intros H. apply external_inv in H as (w1 & (E1 & E2 & E3 & E4 & E5 & E6 & E7) & H).
  assert (Hn : (resent w <= MaxRedisRetries)%nat) by (unfold resent; destruct (w_env w); lia).
  destruct H as [(t & -> & ->)|H]; [naive_solver|].
  destruct (run_again (resent w) (cmd (w_now w1 / 1000000)) (w_redis w1)) as [a r1] eqn:Ec.
  assert (Hr : repeats cmd (w_redis w) a r1) by (rewrite <- E4; by exists (w_now w1 / 1000000), (resent w)).
  destruct H as [H|(t & -> & ->)]; simplify_eq/=; split_and!; try done; right; exists a; naive_solver.
Qed.

(** The same when no command is sent twice. *)
Lemma redis_cmd_once {A} (cmd : Z -> R -> A * R) w r w' :
  sent_once w -> redis_cmd cmd w = (r, w') ->
  sent_once w' /\
  ((exists t, r = Err (ErrorString t) /\ w_redis w' = w_redis w) \/
   (exists now a, cmd now (w_redis w) = (a, w_redis w') /\ (r = Ok a \/ exists t, r = Err (ErrorString t)))).
Proof.
  intros Hs Hc. unfold redis_cmd, external in Hc. rewrite (sent_once_resent w Hs) in Hc. simpl in Hc.
  destruct (next_reply w) as [f w1] eqn:E. pose proof (next_reply_quiet _ _ _ E) as (_ & _ & _ & E4 & _).
  apply next_reply_env in E. assert (Hs1 : sent_once w1).
  { unfold sent_once in *. rewrite E. by destruct Hs. }
  destruct (cmd (w_now w1 / 1000000) (w_redis w1)) as [a r1] eqn:Ec. rewrite E4 in Ec.
  destruct f; simplify_eq/=; (split; [done|]); [right; eauto 6|left; eauto|right; eauto 7].
Qed.

Lemma XAdd_inv `{RedisCmds R} key v w r w' :
  XAdd key v w = (r, w') ->
  w_db w' = w_db w /\ w_tx w' = w_tx w /\ w_locked w' = w_locked w /\
  w_http w' = w_http w /\ w_sent w' = w_sent w /\ w_now w <= w_now w' /\
  ((exists t, r = Err (ErrorString t) /\ w_redis w' = w_redis w) \/
   (exists id, repeats (fun now => xadd now key v) (w_redis w) id (w_redis w') /\
               (r = Ok id \/ exists t, r = Err (ErrorString t)))).
Proof.
  unfold XAdd. case_decide; [|apply redis_cmd_inv].
  intros Hx. apply external_inv in Hx as (w1 & (E1 & E2 & E3 & E4 & E5 & E6 & E7) & Hx).
  destruct Hx as [(t & -> & ->)|[Hx|(t & -> & ->)]]; unfold gerr in *; simplify_eq/=;
    split_and!; try done; left; eauto.
Qed.

(** ** Runs without faults *)

Lemma begin_tx_exec w :
  w_env w = [] -> begin_tx w = (Ok tt, with_tx (Some (mkTx (w_db w) (micros (w_now w)))) w).
Proof. intros He. unfold begin_tx. by rewrite external_no_env. Qed.

Lemma tx_stmt_exec {A} (stmt : Z -> DB -> res error (A * DB)) w t a db' :
  w_env w = [] -> w_tx w = Some t -> stmt (tx_now t) (tx_db t) = Ok (a, db') ->
  tx_stmt stmt w = (Ok a, with_tx (Some (mkTx db' (tx_now t))) w).
Proof. intros He Ht Hs. unfold tx_stmt. rewrite external_no_env by done. by rewrite Ht, Hs. Qed.

Lemma tx_stmt_uuid_exec {A} (stmt : string -> Z -> DB -> res error (A * DB)) w t a db' :
  w_env w = [] -> w_tx w = Some t -> stmt (uuid_v4 (w_uuid w)) (tx_now t) (tx_db t) = Ok (a, db') ->
  tx_stmt_uuid stmt w = (Ok a, with_tx (Some (mkTx db' (tx_now t))) (with_uuid (S (w_uuid w)) w)).
Proof. intros He Ht Hs. unfold tx_stmt_uuid. by apply tx_stmt_exec. Qed.

Lemma commit_tx_exec w t :
  w_env w = [] -> w_tx w = Some t -> commit_tx w = (Ok tt, with_tx None (with_db (tx_db t) w)).
Proof. intros He Ht. unfold commit_tx. rewrite external_no_env by done. by rewrite Ht. Qed.

Lemma pool_query_exec {A} (q : Z -> DB -> res error A) w :
  w_env w = [] -> pool_query q w = (q (micros (w_now w)) (w_db w), w).
Proof. intros He. unfold pool_query. by rewrite external_no_env. Qed.

Lemma redis_cmd_exec {A} (cmd : Z -> R -> A * R) w a r' :
  w_env w = [] -> cmd (w_now w / 1000000) (w_redis w) = (a, r') ->
  redis_cmd cmd w = (Ok a, with_redis r' w).
Proof. intros He Hc. unfold redis_cmd, resent. rewrite external_no_env, He by done. simpl. by rewrite Hc. Qed.

Lemma XAdd_exec `{RedisCmds R} key v w id r' :
  w_env w = [] -> v <> ∅ -> xadd (w_now w / 1000000) key v (w_redis w) = (id, r') ->
  XAdd key v w = (Ok id, with_redis r' w).
Proof. intros He Hv Hx. unfold XAdd. rewrite decide_False by done. by apply redis_cmd_exec. Qed.

Lemma wrap_err_ok {A} f (m : M A) w a w' : m w = (Ok a, w') -> wrap_err f m w = (Ok a, w').
Proof. unfold wrap_err. by intros ->. Qed.

(** ** Invariants of the tables

    [pres I]: if [I] holds of the committed tables and of the view of the open
    transaction, it still does. *)

Definition db_inv (I : DB -> Prop) (w : W) : Prop :=
  I (w_db w) /\ forall t, w_tx w = Some t -> I (tx_db t).

Definition pres (I : DB -> Prop) (w w' : W) : Prop := db_inv I w -> db_inv I w'.

#[global] Instance pres_preorder I : PreOrder (pres I).
Proof. split; unfold pres; [intros w|intros w1 w2 w3]; auto. Qed.

Section Pres.
Context (I : DB -> Prop).

Lemma pres_same w w' : w_db w' = w_db w -> w_tx w' = w_tx w -> pres I w w'.
Proof. unfold pres, db_inv. by intros -> ->. Qed.

Lemma pres_quiet w w' : quiet w w' -> pres I w w'.
Proof. intros (? & ? & _). by apply pres_same. Qed.

Lemma keeps_external {A} (op : M A) : keeps (pres I) op -> keeps (pres I) (external op).
Proof.
  intros Hop w. destruct (external op w) as [r w'] eqn:E.
  apply external_inv in E as (w1 & Hq & [(t & -> & ->)|[E|(t & -> & ->)]]); simpl.
  - by apply pres_quiet.
  - etransitivity; [by apply pres_quiet|]. specialize (Hop w1). by rewrite E in Hop.
  - etransitivity; [by apply pres_quiet|]. apply Hop.
Qed.

Lemma keeps_begin_tx : keeps (pres I) begin_tx.
Proof.
  intros w [H1 H2]. destruct (begin_tx w) as [r w'] eqn:E. apply begin_tx_inv in E as ((Hdb & _) & Ho & He).
  simpl. split; [by rewrite Hdb|]. destruct r as [[]|e].
  - destruct Ho as [now ->]; [done|]. intros t ?. by simplify_eq.
  - rewrite (He e) by done. done.
Qed.

Lemma keeps_tx_stmt {A} (stmt : Z -> DB -> res error (A * DB)) :
  (forall now db a db', I db -> stmt now db = Ok (a, db') -> I db') -> keeps (pres I) (tx_stmt stmt).
Proof.
  intros Hs. apply keeps_external. intros w. destruct (w_tx w) as [t|] eqn:Et; [|by apply pres_same].
  destruct (stmt (tx_now t) (tx_db t)) as [[a db']|] eqn:Es; [|by apply pres_same].
  intros [H1 H2]. split; simpl; [done|]. intros t' ?. simplify_eq/=. eauto.
Qed.

Lemma keeps_tx_stmt_uuid {A} (stmt : string -> Z -> DB -> res error (A * DB)) :
  (forall n now db a db', I db -> stmt (uuid_v4 n) now db = Ok (a, db') -> I db') ->
  keeps (pres I) (tx_stmt_uuid stmt).
Proof.
  intros Hs w. unfold tx_stmt_uuid. etransitivity; [|apply keeps_tx_stmt; eauto].
  by apply pres_same.
Qed.

Lemma keeps_commit_tx : keeps (pres I) commit_tx.
Proof.
  apply keeps_external. intros w. destruct (w_tx w) as [t|] eqn:Et; [|by apply pres_same].
  intros [H1 H2]. split; simpl; [auto|done].
Qed.

Lemma pres_drop_tx w : pres I w (with_tx None w).
Proof. intros [H1 H2]. by split. Qed.

Lemma keeps_deferred_rollback {A} (body : M A) : keeps (pres I) body -> keeps (pres I) (deferred_rollback body).
Proof. intros Hb. apply keeps_defer; [apply _| |done]. intros w. apply pres_drop_tx. Qed.

Lemma keeps_rollback_tx : keeps (pres I) rollback_tx.
Proof.
  intros w. unfold rollback_tx.
  assert (keeps (pres I) (external (fun w : W => (Ok tt, w)))) as Hk.
  { apply keeps_external. intros v. by apply pres_same. }
  specialize (Hk w). destruct (external _ w) as [r w']. simpl in *.
  etransitivity; [done|apply pres_drop_tx].
Qed.

Lemma keeps_pool_query {A} (q : Z -> DB -> res error A) : keeps (pres I) (pool_query q).
Proof. apply keeps_external. intros w. by apply pres_same. Qed.

Lemma keeps_redis_cmd {A} (cmd : Z -> R -> A * R) : keeps (pres I) (redis_cmd cmd).
Proof.
  intros w. apply (keeps_external (fun w1 => let '(a, r') := run_again (resent w) (cmd _) _ in _)).
  intros w1. destruct (run_again _ _ _). by apply pres_same.
Qed.

Lemma keeps_XAdd `{RedisCmds R} key values : keeps (pres I) (XAdd key values).
Proof.
  unfold XAdd. case_decide; [|apply keeps_redis_cmd].
  apply keeps_external. intros w. by apply pres_same.
Qed.

Lemma keeps_http_do `{NetClients} req : keeps (pres I) (http_do req).
Proof. intros w. unfold http_do. repeat case_match; by apply pres_same. Qed.

Lemma keeps_pool_rows {A} (q : Z -> DB -> res error (list A)) : keeps (pres I) (pool_rows q).
Proof.
  intros w. destruct (pool_rows q w) as [r w'] eqn:E. apply pool_rows_inv in E as (Hq & _). by apply pres_quiet.
Qed.

Lemma keeps_time_now : keeps (pres I) time_now.
Proof. intros w. by apply pres_same. Qed.

Lemma keeps_ctx_done c : keeps (pres I) (ctx_done c).
Proof. intros w. by apply pres_same. Qed.

Lemma keeps_waitForContext c d : keeps (pres I) (waitForContext c d).
Proof. intros w. unfold waitForContext. repeat case_match; by apply pres_same. Qed.

(** A call that starts without an open transaction keeps the invariant of the
    committed tables. *)
Lemma keeps_run {A} (m : M A) w r w' :
  keeps (pres I) m -> m w = (r, w') -> w_tx w = None -> I (w_db w) -> I (w_db w').
Proof. intros Hk Hm Htx Hi. specialize (Hk w). rewrite Hm in Hk. apply Hk. split; [done|]. by rewrite Htx. Qed.
End Pres.

(** ** Reads

    [unchanged]: the tables, the open transaction and Redis are as they were. *)

Definition unchanged (w w' : W) : Prop :=
  w_db w' = w_db w /\ w_tx w' = w_tx w /\ w_redis w' = w_redis w.

#[global] Instance unchanged_preorder : PreOrder unchanged.
Proof. split; unfold unchanged; [intros w|intros w1 w2 w3]; naive_solver congruence. Qed.

Lemma unchanged_external {A} (op : M A) : keeps unchanged op -> keeps unchanged (external op).
Proof.
  intros Hop w. destruct (external op w) as [r w'] eqn:E.
  apply external_inv in E as (w1 & (E1 & E2 & _ & E4 & _) & [(t & -> & ->)|[E|(t & -> & ->)]]); simpl;
    [done|..]; specialize (Hop w1); rewrite ?E in Hop; unfold unchanged in *; naive_solver congruence.
Qed.

Lemma unchanged_pool_query {A} (q : Z -> DB -> res error A) : keeps unchanged (pool_query q).
Proof. apply unchanged_external. by intros w. Qed.

Lemma unchanged_pool_rows {A} (q : Z -> DB -> res error (list A)) : keeps unchanged (pool_rows q).
Proof.
  intros w. destruct (pool_rows q w) as [r w'] eqn:E. apply pool_rows_inv in E as ((? & ? & _ & ? & _) & _). done.
Qed.

(** ** Where a sentinel can come from

    [never t m]: no error of [m] has the sentinel [t] in its chain. *)

Definition never {A} (t : sentinel) (m : M A) : Prop :=
  forall w e, (m w).1 = Err e -> errors_Is e t = false.

Definition sql_never {A} (t : sentinel) (r : res error A) : Prop :=
  forall e, r = Err e -> errors_Is e t = false.

Section Never.
Context (t : sentinel).

Lemma never_absurd {A} (m : M A) w e w' :
  m w = (Err e, w') -> errors_Is e t = true -> never t m -> False.
Proof. intros Hm He Hn. specialize (Hn w e). rewrite Hm in Hn. by rewrite Hn in He. Qed.

Lemma never_ret {A} (a : A) : never t (gret a).
Proof. done. Qed.

Lemma never_lift {A} (r : res error A) : sql_never t r -> never t (lift_res r : M A).
Proof. intros Hr w e. apply Hr. Qed.

Lemma never_err {A} e : errors_Is e t = false -> never t (gerr e : M A).
Proof. intros He w e' H. unfold gerr in H. by simplify_eq/=. Qed.

Lemma never_bind {A B} (m : M A) (k : A -> M B) : never t m -> (forall a, never t (k a)) -> never t (gbind m k).
Proof.
  intros Hm Hk w e. unfold gbind. specialize (Hm w). destruct (m w) as [[a|e'] w']; [apply Hk|].
  simpl. intros ?. simplify_eq. by apply Hm.
Qed.

Lemma never_wrapf {A} p (m : M A) : never t m -> never t (wrap_err (wrapf p) m).
Proof.
  intros Hm w e. unfold wrap_err. specialize (Hm w). destruct (m w) as [[a|e'] w']; simpl in *; [done|].
  intros ?. simplify_eq. rewrite errors_Is_wrapf. by apply Hm.
Qed.

Lemma never_catch {A} (m : M A) : never t (catch m).
Proof. intros w e. unfold catch. by destruct (m w). Qed.

Lemma never_bind_catch {A B} (m : M A) (k : res error A -> M B) :
  never t m -> (forall r, sql_never t r -> never t (k r)) -> never t (gbind (catch m) k).
Proof.
  intros Hm Hk w e. unfold gbind, catch. specialize (Hm w). destruct (m w) as [r w']. apply Hk.
  intros e' ->. by apply Hm.
Qed.

Lemma never_defer {A} (m : M A) : never t m -> never t (deferred_rollback m).
Proof. intros Hm w e. unfold deferred_rollback, defer. specialize (Hm w). destruct (m w). apply Hm. Qed.

Lemma never_external {A} (op : M A) : never t op -> never t (external op).
Proof.
  intros Hop w e He. destruct (external op w) as [r w'] eqn:E. simpl in He. subst r.
  apply external_inv in E as (w1 & _ & [(x & H & _)|[H|(x & H & _)]]); simplify_eq; [done| |done].
  eapply Hop. by rewrite H.
Qed.

Lemma never_begin_tx : never t begin_tx.
Proof.
  intros w e. unfold begin_tx.
  assert (never t (external (fun w : W => (Ok tt, with_tx (Some (mkTx (w_db w) (micros (w_now w)))) w)))) as Hn
    by by apply never_external.
  specialize (Hn w). destruct (external _ w) as [[]]; simpl in *; naive_solver.
Qed.

Lemma never_commit_tx : never t commit_tx.
Proof. apply never_external. intros w e. destruct (w_tx w); simpl; intros; by simplify_eq. Qed.

Lemma never_tx_stmt {A} (stmt : Z -> DB -> res error (A * DB)) :
  (forall now db, sql_never t (stmt now db)) -> never t (tx_stmt stmt).
Proof.
  intros Hs. apply never_external. intros w e. destruct (w_tx w) as [x|]; simpl; [|by intros; simplify_eq].
  specialize (Hs (tx_now x) (tx_db x)).
  destruct (stmt _ _) as [[a db]|e']; simpl; intros; simplify_eq. by apply Hs.
Qed.

Lemma never_tx_stmt_uuid {A} (stmt : string -> Z -> DB -> res error (A * DB)) :
  (forall id now db, sql_never t (stmt id now db)) -> never t (tx_stmt_uuid stmt).
Proof. intros Hs w. by apply never_tx_stmt. Qed.

Lemma never_redis_cmd {A} (cmd : Z -> R -> A * R) : never t (redis_cmd cmd).
Proof.
  intros w. apply (never_external (fun w1 => let '(a, r') := run_again (resent w) (cmd _) _ in _)).
  intros w1 e. by destruct (run_again _ _ _).
Qed.

Lemma never_XAdd `{RedisCmds R} key v : never t (XAdd key v).
Proof.
  unfold XAdd. case_decide; [|apply never_redis_cmd]. apply never_external. intros w e ?. by simplify_eq/=.
Qed.

Lemma never_pool_query {A} (q : Z -> DB -> res error A) :
  (forall now db, sql_never t (q now db)) -> never t (pool_query q).
Proof. intros Hq. apply never_external. intros w e. apply Hq. Qed.
End Never.

End Facts.

#[export] Hint Resolve tx_stmt_in_tx tx_stmt_uuid_in_tx unchanged_pool_query unchanged_pool_rows : rail.
#[export] Hint Resolve keeps_begin_tx keeps_commit_tx keeps_deferred_rollback keeps_rollback_tx
  keeps_pool_query keeps_pool_rows keeps_redis_cmd keeps_XAdd keeps_http_do keeps_time_now keeps_ctx_done
  keeps_waitForContext : rail.
#[export] Hint Extern 5 (keeps _ (tx_stmt _)) => apply keeps_tx_stmt : rail.
#[export] Hint Extern 5 (keeps _ (tx_stmt_uuid _)) => apply keeps_tx_stmt_uuid : rail.

(** Walk through a computation and show that each of its calls keeps the
    relation; calls are closed with the hints, other goals are left. *)
Ltac keeps_step :=
  match goal with
  | |- keeps _ (match ?x with _ => _ end) => destruct x
  | |- keeps _ (gbind _ _) => apply keeps_bind; [apply _| |intros ?]
  | |- keeps _ (gret _) => apply keeps_ret; apply _
  | |- keeps _ (gerr _) => apply keeps_err; apply _
  | |- keeps _ (lift_res _) => apply keeps_lift; apply _
  | |- keeps _ (catch _) => apply keeps_catch
  | |- keeps _ (wrap_err _ _) => apply keeps_wrap
  | |- keeps _ (deferred_rollback _) => apply keeps_deferred_rollback
  | |- keeps _ (let _ := _ in _) => cbv zeta
  | |- keeps _ _ => solve [eauto 2 with rail]
  end.
Ltac keeps_all := repeat keeps_step.

#[export] Hint Resolve never_redis_cmd never_XAdd : rail.
#[export] Hint Resolve never_ret never_begin_tx never_commit_tx never_catch : rail.

(** The same walk for [never]; statements are unfolded to their error texts. *)
Ltac sql_never_all :=
  intros; unfold sql_never, res_bind; intros ?;
  repeat (case_match; try done); intros; simplify_eq; try done.
Ltac never_step :=
  match goal with
  | |- never _ (match ?x with _ => _ end) => destruct x
  | |- never _ (gbind _ _) => apply never_bind; [|intros ?]
  | |- never _ (gret _) => apply never_ret
  | |- never _ (gerr _) => apply never_err; reflexivity
  | |- never _ (catch _) => apply never_catch
  | |- never _ (wrap_err (wrapf _) _) => apply never_wrapf
  | |- never _ (deferred_rollback _) => apply never_defer
  | |- never _ (let _ := _ in _) => cbv zeta
  | |- never _ (tx_stmt _) => apply never_tx_stmt
  | |- never _ (tx_stmt_uuid _) => apply never_tx_stmt_uuid
  | |- never _ (pool_query _) => apply never_pool_query
  | |- never _ (lift_res _) => apply never_lift
  | |- never _ _ => solve [eauto 2 with rail]
  end.
Ltac never_all := repeat never_step.
