(* ===== verification/RedisFacts.v ===== *)
(** * RedisFacts: what the commands of the Redis client leave on the server

    The client may send a command more than once ([repeats]).  For each command
    the program sends, the laws of [RedisLaws] give its effect when it is: a
    scheduled member and an acknowledgement are the same as sent once, an added
    entry may be there several times. *)

From S2P Require Import Prelude RedisServer World WorldFacts.

Section RedisFacts.
Context {R : Type} `{RedisLaws R}.
Implicit Types r : R.

(** ** Growth *)

(** Streams, groups and sorted sets keep what they hold. *)
Definition redis_grows (r r' : R) : Prop :=
  (forall s, stream r s `prefix_of` stream r' s) /\
  (forall s g, has_group r' s g = has_group r s g /\ undelivered r s g ⊆ undelivered r' s g /\
               pending r' s g = pending r s g /\ (ahead r s g = false -> ahead r' s g = false)) /\
  (forall k m, is_Some (zset r k !! m) -> is_Some (zset r' k !! m)).

#[global] Instance redis_grows_preorder : PreOrder redis_grows.
Proof.
  split; [intros r; split_and!; auto|]. intros r1 r2 r3 (S1 & G1 & Z1) (S2 & G2 & Z2). split_and!.
  - intros s. by transitivity (stream r2 s).
  - intros s g. destruct (G2 s g) as (-> & Hu2 & -> & Ha2), (G1 s g) as (-> & Hu & -> & Ha).
    split_and!; [done|set_solver|done|auto].
  - auto.
Qed.

Lemma redis_grows_refl r : redis_grows r r.
Proof. reflexivity. Qed.

Lemma grows_ids r r' s id : redis_grows r r' -> id ∈ stream_ids r s -> id ∈ stream_ids r' s.
Proof. intros (Hs & _) Hin. destruct (Hs s) as [k Hk]. unfold stream_ids in *. rewrite Hk, map_app. set_solver. Qed.

(** ** Members and acknowledgements *)

Lemma zadded_grows k sc m r r' : zadded k sc m r r' -> redis_grows r r'.
Proof.
  intros (Hs & Hg & Hz). split_and!.
  - intros s. by rewrite Hs.
  - intros s g. destruct (Hg s g) as (-> & -> & -> & ->). done.
  - intros k' m' Hm. rewrite Hz. case_decide; [subst|done]. apply lookup_insert_is_Some.
    destruct (decide (m = m')); auto.
Qed.

Lemma zadded_member k sc m r r' : zadded k sc m r r' -> zset r' k !! m = Some sc.
Proof. intros (_ & _ & ->). by rewrite decide_True, lookup_insert_eq. Qed.

Lemma zadded_again k sc m r r1 r2 : zadded k sc m r r1 -> zadded k sc m r1 r2 -> zadded k sc m r r2.
Proof.
  intros (S1 & G1 & Z1) (S2 & G2 & Z2). split_and!.
  - intros s. by rewrite S2.
  - intros s g. destruct (G2 s g) as (-> & -> & -> & ->). apply G1.
  - intros k'. rewrite Z2, !Z1. case_decide; [|done]. by rewrite decide_True, insert_insert_eq.
Qed.

Lemma acknowledged_again s g id r r1 r2 :
  acknowledged s g id r r1 -> acknowledged s g id r1 r2 -> acknowledged s g id r r2.
Proof.
  intros (S1 & Z1 & G1 & U1 & P1) (S2 & Z2 & G2 & U2 & P2). split_and!.
  - intros s'. by rewrite S2.
  - intros k. by rewrite Z2.
  - intros s' g'. destruct (G2 s' g') as [-> ->]. apply G1.
  - intros s' g'. by rewrite U2.
  - intros s' g'. rewrite P2, P1. case_decide; [|done]. apply leibniz_equiv. set_solver.
Qed.

(** A command whose effect is the same when it runs again. *)
Lemma repeats_idempotent {A} (cmd : Z -> R -> A * R) (E : R -> R -> Prop) r a r' :
  (forall now r, E r (cmd now r).2) -> (forall r r1 r2, E r r1 -> E r1 r2 -> E r r2) ->
  repeats cmd r a r' -> E r r'.
Proof.
  intros He Ht (now & n & _ & Hr). revert r Hr. induction n as [|n IH]; intros r Hr; simpl in Hr.
  - specialize (He now r). by rewrite Hr in He.
  - eapply Ht; [apply (He now)|by apply IH].
Qed.

Lemma zadd_repeats k sc m r a r' : repeats (fun _ r => (tt, zadd k sc m r)) r a r' -> zadded k sc m r r'.
Proof. apply repeats_idempotent; [intros _ r0; apply zadd_spec|apply zadded_again]. Qed.

Lemma xack_repeats s g id r a r' : repeats (fun _ r => (tt, xack s g id r)) r a r' -> acknowledged s g id r r'.
Proof. apply repeats_idempotent; [intros _ r0; apply xack_frame|apply acknowledged_again]. Qed.

(** A member is removed; the last answer may be 0 all the same. *)
Definition removed (k m : string) (r r' : R) : Prop :=
  same_streams r r' /\ same_groups r r' /\
  (forall k', zset r' k' = if decide (k' = k) then delete m (zset r k) else zset r k').

Lemma zrem_repeats k m r c r' : repeats (fun _ => zrem k m) r c r' ->
  removed k m r r' /\ (c <> 0 -> is_Some (zset r k !! m)).
Proof.
  intros Hr. assert (Hm : removed k m r r').
  { revert Hr. apply repeats_idempotent.
    - intros _ r0. destruct (zrem k m r0) as [c0 r1] eqn:E. apply zrem_spec in E as (? & ? & _ & ?). done.
    - intros r0 r1 r2 (S1 & G1 & Z1) (S2 & G2 & Z2). split_and!.
      + intros s. by rewrite S2.
      + intros s g. destruct (G2 s g) as (-> & -> & -> & ->). apply G1.
      + intros k'. rewrite Z2, !Z1. case_decide; [|done]. by rewrite decide_True, delete_delete_eq. }
  split; [done|]. intros Hc. destruct Hr as (now & n & _ & Hr). revert r Hr Hm. induction n as [|n IH]; intros r Hr Hm; simpl in Hr.
  - apply zrem_spec in Hr as (_ & _ & -> & _). by case_decide.
  - destruct (zrem k m r) as [c0 r1] eqn:E. apply zrem_spec in E as (_ & _ & _ & Hz). simpl in Hr.
    assert (Hgone : zset r1 k !! m = None) by (rewrite Hz, decide_True by done; apply lookup_delete_eq).
    exfalso. assert (Hr1 : exists n, run_again n (zrem k m) r1 = (c, r')) by eauto. clear - Hr1 Hgone Hc H0.
    destruct Hr1 as [n Hr]. revert r1 Hr Hgone. induction n as [|n IH]; intros r1 Hr Hgone; simpl in Hr.
    + apply zrem_spec in Hr as (_ & _ & -> & _). case_decide as Hd; [|done]. rewrite Hgone in Hd. by destruct Hd.
    + destruct (zrem k m r1) as [c1 r2] eqn:E. apply zrem_spec in E as (_ & _ & _ & Hz). eapply IH; [exact Hr|].
      simpl. rewrite Hz, decide_True by done. apply lookup_delete_eq.
Qed.

(** ** Entries *)

Lemma xadd_grows now s v r id r' : xadd now s v r = (id, r') -> redis_grows r r'.
Proof.
  intros Hx. split_and!.
  - intros s'. rewrite (xadd_stream _ _ _ _ _ _ Hx). case_decide; [subst; by eexists|done].
  - intros s' g. destruct (xadd_groups _ _ _ _ _ _ Hx s' g) as (-> & -> & Hu & Ha). split_and!; [done|done|done|].
    intros Hh. by destruct (Ha Hh).
  - intros k m Hm. by rewrite (xadd_zsets _ _ _ _ _ _ Hx).
Qed.

(** [XADD] by the client: the entry is there once or several times, the last time
    with the id that is reported. *)
Definition added (s : string) (v : fields) (r : R) (id : string) (r' : R) : Prop :=
  repeats (fun now => xadd now s v) r id r'.

Lemma added_grows s v r id r' : added s v r id r' -> redis_grows r r'.
Proof. apply repeats_keeps; [apply _|]. intros now r1 i r2. apply xadd_grows. Qed.

Lemma added_zsets s v r id r' : added s v r id r' -> same_zsets r r'.
Proof.
  apply repeats_keeps.
  - split; [intros x k; done|]. intros x y z H1 H2 k. by rewrite H2.
  - intros now r1 i r2. apply xadd_zsets.
Qed.

Lemma added_entry s v r id r' :
  added s v r id r' ->
  id <> "" /\ id ∉ stream_ids r s /\ mkXMessage id v ∈ stream r' s /\
  (forall g, has_group r s g = true -> ahead r s g = false -> id ∈ undelivered r' s g).
Proof.
  intros Ha. destruct (repeats_last _ _ _ _ redis_grows (fun now r1 i r2 => xadd_grows now s v r1 i r2) Ha)
    as (now & r1 & Hg & Hx). destruct (xadd_fresh _ _ _ _ _ _ Hx) as [Hne Hfr]. split_and!; [done| | |].
  - intros Hin. by apply Hfr, (grows_ids r).
  - rewrite (xadd_stream _ _ _ _ _ _ Hx), decide_True by done. set_solver.
  - intros g Hh Ha1. destruct Hg as (_ & Hg & _), (Hg s g) as (Hh1 & _ & _ & Hah).
    destruct (xadd_groups _ _ _ _ _ _ Hx s g) as (_ & _ & _ & Hun). destruct (Hun (Hah Ha1)) as [_ ->].
    rewrite decide_True by (split; congruence). set_solver.
Qed.

(** The stream: one to four copies at its end. *)
Lemma added_stream s v r id r' :
  added s v r id r' -> exists ids, (1 <= length ids <= 4)%nat /\
    forall s', stream r' s' = if decide (s' = s) then stream r s ++ map (fun i => mkXMessage i v) ids else stream r s'.
Proof.
  intros (now & n & Hn & Hr). change 4%nat with (S MaxRedisRetries).
  assert (exists ids, length ids = S n /\ forall s', stream r' s' =
    if decide (s' = s) then stream r s ++ map (fun i => mkXMessage i v) ids else stream r s') as (ids & Hl & Hs); [|exists ids; split; [lia|done]].
  clear Hn. revert r Hr. induction n as [|n IH]; intros r Hr; simpl in Hr.
  - exists [id]. split; [done|]. intros s'. by rewrite (xadd_stream _ _ _ _ _ _ Hr).
  - destruct (xadd now s v r) as [i r1] eqn:E. apply IH in Hr as (ids & Hl & Hs). exists (i :: ids).
    split; [simpl; lia|]. intros s'. rewrite Hs, !(xadd_stream _ _ _ _ _ _ E), (decide_True (P := s = s)) by done.
    case_decide; [|done]. by rewrite <- app_assoc.
Qed.

Lemma added_ids s v r id r' s' : added s v r id r' -> NoDup (stream_ids r s') -> NoDup (stream_ids r' s').
Proof.
  apply (repeats_inv _ (fun r => NoDup (stream_ids r s'))). intros now r1 i r2 Hn Hx.
  unfold stream_ids in *. rewrite (xadd_stream _ _ _ _ _ _ Hx). case_decide as Hs; [|done]. subst.
  rewrite map_app. apply NoDup_app. split_and!; [done| |apply NoDup_singleton].
  intros x Hx1 ->%list_elem_of_singleton. by destruct (xadd_fresh _ _ _ _ _ _ Hx) as [_ ?].
Qed.

End RedisFacts.
