(* ===== verification/Operations.v ===== *)
(** * Operations: the operational store ([internal/operations/store.go])

    Status history, delivery attempts and dead-letter records of events: the
    recorder the delivery worker calls, the reads behind the HTTP API, and the
    redrive of a dead-lettered event. *)

From S2P Require Import Prelude GoStrings GoErrors GoTime Json Database DatabaseFacts RedisServer.
From S2P Require Import World WorldFacts RedisFacts.

Module Operations.

(** ** Constants *)

Definition StatusStored := "STORED".
Definition StatusPendingPublication := "PENDING_PUBLICATION".
Definition StatusPublished := "PUBLISHED".
Definition StatusProcessing := "PROCESSING".
Definition StatusRetrying := "RETRYING".
Definition StatusDelivered := "DELIVERED".
Definition StatusDeadLettered := "DEAD_LETTERED".
Definition StatusRedriven := "REDRIVEN".

Definition DeliveryOutcomeSucceeded := "SUCCESS".
Definition DeliveryOutcomeFailed := "FAILED".

Definition DLQStatusOpen := "OPEN".
Definition DLQStatusRedriven := "REDRIVEN".

(** ** Data *)

(** [*pgxpool.Pool], [*Store]: a nil pointer is [None]. *)
Inductive Pool := ThePool.
Record Store := mkStore { pool : option Pool }.

Record EventMetadata := mkEventMetadata {
  EventID : string; EventType : string; Source : string; Payload : string; CreatedAt : Z;
}.

Record StatusHistoryEntry := mkStatusHistoryEntry {
  Status : string; Details : string; EntryCreatedAt : Z;
}.

Record DeliveryAttempt := mkDeliveryAttempt {
  AttemptNumber : Z; Outcome : string; ResponseCode : option Z; AttemptError : option string;
  StartedAt : Z; CompletedAt : Z;
}.

Record EventStatus_ := mkEventStatus {
  es_Event : EventMetadata; es_CurrentStatus : string;
  es_History : list StatusHistoryEntry; es_DeliveryAttempts : list DeliveryAttempt;
}.

Record DLQRecord := mkDLQRecord {
  dr_EventID : string; dr_EventType : string; dr_Source : string; dr_AttemptCount : Z;
  dr_LastError : option string; dr_Status : string; dr_DeadLetteredAt : Z;
  dr_RedrivenAt : option Z; dr_OriginalStreamID : string;
}.

Record DLQDetail_ := mkDLQDetail {
  dd_Event : EventMetadata; dd_Record : DLQRecord;
  dd_History : list StatusHistoryEntry; dd_DeliveryAttempts : list DeliveryAttempt;
}.

Record MetricsSummary_ := mkMetricsSummary {
  TotalEvents : Z; PendingPublication : Z; Delivered : Z; Retrying : Z; OpenDLQ : Z; Redriven : Z;
}.

Record RedriveResult := mkRedriveResult { rr_EventID : string; rr_Status : string; rr_StreamID : string }.

Record ProcessingRecord := mkProcessingRecord { pr_EventID : string; pr_StreamID : string; pr_Retry : Z }.

Record DeliveryAttemptRecord := mkDeliveryAttemptRecord {
  da_EventID : string; da_StreamID : string; da_AttemptNumber : Z; da_ResponseCode : option Z;
  da_Error : option error; da_StartedAt : Z; da_CompletedAt : Z;
}.

Record RetryingRecord := mkRetryingRecord {
  rt_Attempt : DeliveryAttemptRecord; rt_NextRetry : Z; rt_ScheduledAt : Z;
}.

Record DeadLetterRecord := mkDeadLetterRecord {
  dl_Attempt : DeliveryAttemptRecord; dl_OriginalStreamID : string;
}.

(** ** Helpers without effects *)

(** [map[string]any] details, [None] being the nil map; the result of
    [json.Marshal] on strings and integers cannot be an error. *)
Definition marshalDetails (details : option (list (string * json))) : string :=
  marshal (JObj (obj_of_list (default [] details))).

Definition JInt (z : Z) : json := JNum (Itoa z).

Definition errorString (err : option error) : option string :=
  match err with
  | None => None
  | Some e => let message := TrimSpace (error_text e) in
              if String.eqb message "" then None else Some message
  end.

Section Store.
Context {SC : Strconv} {PG : Postgres} {R : Type}.
Abbreviation M := (M (R:=R)).

Definition require_pool {A} (s : option Store) (body : M A) : M A :=
  match s with
  | Some {| pool := Some _ |} => body
  | _ => gerr (ErrorString "operations store pool is required")
  end.

(** ** Writes *)

Definition InsertStatusHistory (eventID status : string)
    (details : option (list (string * json))) : M unit :=
  wrap_err (wrapf ("insert status " +:+ status +:+ " for event " +:+ eventID))
    (tx_stmt (fun now db =>
       res_bind (insertHistorySQL now eventID status (marshalDetails details) db)
                (fun db' => Ok (tt, db')))).

Definition insertDeliveryAttempt (record : DeliveryAttemptRecord) (outcome : string) : M unit :=
  wrap_err (wrapf ("insert delivery attempt for event " +:+ da_EventID record))
    (tx_stmt (fun _ db =>
       res_bind (insertAttemptSQL (da_EventID record) (da_AttemptNumber record) outcome
                   (da_ResponseCode record) (errorString (da_Error record))
                   (micros (da_StartedAt record)) (micros (da_CompletedAt record)) db)
                (fun db' => Ok (tt, db')))).

Definition inTransaction (fn : M unit) : M unit :=
  let! _ := wrap_err (wrapf "begin operations transaction") begin_tx in
  deferred_rollback (
    let! _ := fn in
    wrap_err (wrapf "commit operations transaction") commit_tx).

Definition RecordProcessing (s : option Store) (record : ProcessingRecord) : M unit :=
  require_pool s (inTransaction (
    InsertStatusHistory (pr_EventID record) StatusProcessing
      (Some [("stream_id", JStr (pr_StreamID record)); ("retry", JInt (pr_Retry record))]))).

Definition RecordDelivered (s : option Store) (record : DeliveryAttemptRecord) : M unit :=
  require_pool s (inTransaction (
    let! _ := insertDeliveryAttempt record DeliveryOutcomeSucceeded in
    InsertStatusHistory (da_EventID record) StatusDelivered
      (Some [("stream_id", JStr (da_StreamID record));
             ("retry", JInt (wrap64 (da_AttemptNumber record - 1)))]))).

Definition RecordRetrying (s : option Store) (record : RetryingRecord) : M unit :=
  let attempt := rt_Attempt record in
  require_pool s (inTransaction (
    let! _ := insertDeliveryAttempt attempt DeliveryOutcomeFailed in
    InsertStatusHistory (da_EventID attempt) StatusRetrying
      (Some [("stream_id", JStr (da_StreamID attempt));
             ("retry", JInt (wrap64 (da_AttemptNumber attempt - 1)));
             ("next_retry", JInt (rt_NextRetry record));
             ("scheduled_at", JStr (rfc3339nano (rt_ScheduledAt record)))]))).

Definition RecordDeadLettered (s : option Store) (record : DeadLetterRecord) : M unit :=
  let attempt := dl_Attempt record in
  require_pool s (
    let originalStreamID := TrimSpace (dl_OriginalStreamID record) in
    let originalStreamID := if String.eqb originalStreamID "" then da_StreamID attempt
                            else originalStreamID in
    inTransaction (
      let! _ := insertDeliveryAttempt attempt DeliveryOutcomeFailed in
      let! _ := wrap_err (wrapf ("upsert DLQ record for event " +:+ da_EventID attempt))
                  (tx_stmt (fun now db =>
                     res_bind (upsertDlqSQL now (da_EventID attempt) originalStreamID
                                 (da_AttemptNumber attempt) (errorString (da_Error attempt))
                                 DLQStatusOpen db)
                              (fun db' => Ok (tt, db')))) in
      InsertStatusHistory (da_EventID attempt) StatusDeadLettered
        (Some [("stream_id", JStr (da_StreamID attempt));
               ("retry", JInt (wrap64 (da_AttemptNumber attempt - 1)))]))).

(** ** Reads *)

(** The [queryer] a read runs on: the pool, or the open transaction. *)
Inductive queryer := OnPool | OnTx.

Definition run_query {A} (q : queryer) (query : DB -> res error A) : M A :=
  match q with
  | OnPool => pool_query (fun _ db => query db)
  | OnTx => tx_stmt (fun _ db => res_bind (query db) (fun a => Ok (a, db)))
  end.

(** [$1::uuid] *)
Definition cast_uuid (s : string) : res error string :=
  match uuid_in s with
  | Some u => Ok u
  | None => Err (sql_error "invalid input syntax for type uuid")
  end.

Definition fetchEvent (q : queryer) (eventID : string) : M EventMetadata :=
  let! r := catch (run_query q (fun db =>
              res_bind (cast_uuid eventID) (fun u => Ok (pair u <$> events db !! u)))) in
  match r with
  | Ok (Some (id, row)) =>
      gret (mkEventMetadata id (ev_event_type row) (ev_source row) (ev_payload row)
              (ev_created_at row * 1000))
  | Ok None => gerr (Sentinel ErrEventNotFound)
  | Err e => gerr (wrapf ("fetch event " +:+ eventID) e)
  end.

(** [ORDER BY created_at ASC, id ASC] *)
Definition history_le (a b : HistoryRow) : Prop :=
  h_created_at a < h_created_at b \/ (h_created_at a = h_created_at b /\ h_id a <= h_id b).
#[global] Instance history_le_dec : RelDecision history_le.
Proof. intros a b. unfold history_le. apply _. Defined.

(** [ORDER BY started_at ASC, id ASC] *)
Definition attempt_le (a b : AttemptRow) : Prop :=
  at_started_at a < at_started_at b \/ (at_started_at a = at_started_at b /\ at_id a <= at_id b).
#[global] Instance attempt_le_dec : RelDecision attempt_le.
Proof. intros a b. unfold attempt_le. apply _. Defined.

Definition history_rows (u : string) (db : DB) : list HistoryRow :=
  merge_sort history_le (filter (fun h => h_event_id h = u) (status_history db)).

Definition attempt_rows (u : string) (db : DB) : list AttemptRow :=
  merge_sort attempt_le (filter (fun a => at_event_id a = u) (delivery_attempts db)).

Definition fetchStatusHistory (q : queryer) (eventID : string) : M (list StatusHistoryEntry) :=
  wrap_err (wrapf ("fetch status history for event " +:+ eventID))
    (run_query q (fun db => res_bind (cast_uuid eventID) (fun u =>
       Ok (map (fun h => mkStatusHistoryEntry (h_status h) (h_details h) (h_created_at h * 1000))
             (history_rows u db))))).

Definition fetchDeliveryAttempts (q : queryer) (eventID : string) : M (list DeliveryAttempt) :=
  wrap_err (wrapf ("fetch delivery attempts for event " +:+ eventID))
    (run_query q (fun db => res_bind (cast_uuid eventID) (fun u =>
       Ok (map (fun a => mkDeliveryAttempt (at_attempt_number a) (at_outcome a) (at_response_code a)
                           (at_error a) (at_started_at a * 1000) (at_completed_at a * 1000))
             (attempt_rows u db))))).

Definition EventStatus (s : option Store) (eventID : string) : M EventStatus_ :=
  require_pool s (
    let! event := fetchEvent OnPool eventID in
    let! history := fetchStatusHistory OnPool eventID in
    let! attempts := fetchDeliveryAttempts OnPool eventID in
    let currentStatus := match last history with Some h => Status h | None => "" end in
    gret (mkEventStatus event currentStatus history attempts)).

Definition scanDLQRecord (id : string) (d : DlqRow) (e : EventRow) : DLQRecord :=
  mkDLQRecord id (ev_event_type e) (ev_source e) (dq_attempt_count d) (dq_last_error d)
    (dq_status d) (dq_dead_lettered_at d * 1000) ((fun t => t * 1000) <$> dq_redriven_at d)
    (dq_original_stream_id d).

(** [ORDER BY dead_lettered_at DESC, event_id DESC]; a [uuid] sorts as its
    canonical text does. *)
Definition dlq_le (a b : DLQRecord) : Prop :=
  dr_DeadLetteredAt b < dr_DeadLetteredAt a \/
  (dr_DeadLetteredAt a = dr_DeadLetteredAt b /\ String.leb (dr_EventID b) (dr_EventID a) = true).
#[global] Instance dlq_le_dec : RelDecision dlq_le.
Proof. intros a b. unfold dlq_le. apply _. Defined.

Definition dlq_rows (status : string) (db : DB) : list DLQRecord :=
  merge_sort dlq_le
    (omap (fun r => match events db !! r.1 with
                    | Some e => Some (scanDLQRecord r.1 r.2 e)
                    | None => None
                    end)
       (filter (fun r => dq_status r.2 = status) (heap_scan (dlq_records db)))).

Definition ListDLQ (s : option Store) (status : string) (limit : Z)
    : M (list DLQRecord) :=
  require_pool s (
    if negb (String.eqb status DLQStatusOpen) && negb (String.eqb status DLQStatusRedriven)
    then gerr (ErrorString ("unsupported DLQ status " +:+ Quote status))
    else if (limit <? 1) || (200 <? limit)
    then gerr (ErrorString "DLQ limit must be between 1 and 200")
    else wrap_err (wrapf "list DLQ records")
           (pool_query (fun _ db => Ok (take (Z.to_nat limit) (dlq_rows status db))))).

Definition DLQDetail (s : option Store) (eventID : string) : M DLQDetail_ :=
  require_pool s (
    let! r := pool_query (fun _ db => res_bind (cast_uuid eventID) (fun u =>
                Ok (match dlq_records db !! u, events db !! u with
                    | Some d, Some e => Some (scanDLQRecord u d e)
                    | _, _ => None
                    end))) in
    match r with
    | None => gerr (Sentinel ErrDLQNotFound)
    | Some record =>
        let! event := fetchEvent OnPool eventID in
        let! history := fetchStatusHistory OnPool eventID in
        let! attempts := fetchDeliveryAttempts OnPool eventID in
        gret (mkDLQDetail event record history attempts)
    end).

(** [DISTINCT ON (event_id) ... ORDER BY event_id, created_at DESC, id DESC]:
    the status of the newest history row of each event that has one. *)
Definition latest_status (db : DB) (u : string) : option string :=
  h_status <$> last (history_rows u db).

Definition history_events (db : DB) : gset string :=
  list_to_set (map h_event_id (status_history db)).

Definition count_latest (status : string) (db : DB) : Z :=
  Z.of_nat (length (filter (fun u => latest_status db u = Some status)
                      (elements (history_events db)))).

Definition count_rows {A} (P : A -> bool) (m : gmap string A) : Z :=
  Z.of_nat (length (filter (fun r => P r.2 = true) (map_to_list m))).

Definition MetricsSummary (s : option Store) : M MetricsSummary_ :=
  require_pool s (
    wrap_err (wrapf "read metrics summary")
      (pool_query (fun _ db => Ok (mkMetricsSummary
         (Z.of_nat (size (events db)))
         (count_rows (fun r => String.eqb (ob_status r) "pending") (outbox db))
         (count_latest StatusDelivered db)
         (count_latest StatusRetrying db)
         (count_rows (fun r => String.eqb (dq_status r) DLQStatusOpen) (dlq_records db))
         (count_rows (fun r => String.eqb (dq_status r) DLQStatusRedriven) (dlq_records db)))))).

(** ** Redrive *)

Definition redrive_values (event : EventMetadata) : fields :=
  list_to_map [("event_id", EventID event); ("event_type", EventType event);
               ("source", Source event); ("payload", Payload event); ("retry", "0");
               ("created_at", rfc3339 (CreatedAt event)); ("redrive", "1")].

(** After the entry is sent: mark the record, record the history, commit. *)
Definition redrive_mark (eventID streamID : string) : M RedriveResult :=
  let! affected := wrap_err (wrapf ("mark DLQ record redriven for event " +:+ eventID))
                     (tx_stmt (fun now db => updateDlqStatusSQL now eventID DLQStatusRedriven db)) in
  if negb (affected =? 1) then
    gerr (ErrorString ("mark DLQ record redriven for event " +:+ eventID +:+
                       " affected " +:+ Itoa affected +:+ " rows"))
  else
  let! _ := InsertStatusHistory eventID StatusRedriven (Some [("stream_id", JStr streamID)]) in
  let! _ := wrap_err (wrapf ("commit redrive event " +:+ eventID)) commit_tx in
  gret (mkRedriveResult eventID DLQStatusRedriven streamID).

Definition RedriveDLQ (s : option Store) (eventID : string) (publish : option (fields -> M string))
    : M RedriveResult :=
  require_pool s (
    match publish with
    | None => gerr (ErrorString "redrive publisher is required")
    | Some publish =>
        let! _ := wrap_err (wrapf "begin redrive transaction") begin_tx in
        deferred_rollback (
          let! dlqStatus := wrap_err (wrapf ("lock DLQ record for event " +:+ eventID))
                              (run_query OnTx (selectDlqStatusSQL eventID)) in
          match dlqStatus with
          | None => gerr (Sentinel ErrDLQNotFound)
          | Some dlqStatus =>
              if negb (String.eqb dlqStatus DLQStatusOpen) then gerr (Sentinel ErrDLQNotOpen) else
              let! event := fetchEvent OnTx eventID in
              let! streamID := wrap_err (wrapf ("publish redrive event " +:+ eventID))
                                 (publish (redrive_values event)) in
              redrive_mark eventID streamID
          end)
    end).

End Store.

(** ** Effects of the writes *)

Section Facts.
Context {SC : Strconv} {PG : Postgres} {R : Type}.
Abbreviation M := (M (R:=R)).
Abbreviation W := (World R).
Implicit Types w : W.

(** A row appended to the history, or to the attempts. *)
Definition add_history (now : Z) (e st d : string) (db : DB) : DB :=
  set_history (status_history db ++
    [mkHistoryRow (Z.of_nat (length (status_history db)) + 1) e st d now]) db.

Definition add_attempt (e : string) (r : DeliveryAttemptRecord) (outcome : string) (db : DB) : DB :=
  set_attempts (delivery_attempts db ++
    [mkAttemptRow (Z.of_nat (length (delivery_attempts db)) + 1) e (da_AttemptNumber r) outcome
       (da_ResponseCode r) (errorString (da_Error r)) (micros (da_StartedAt r))
       (micros (da_CompletedAt r))]) db.

Lemma InsertStatusHistory_inv e st d w r w' :
  InsertStatusHistory e st d w = (r, w') ->
  in_tx w w' /\ w_uuid w' = w_uuid w /\
  (r = Ok tt -> exists t u j, w_tx w = Some t /\ uuid_in e = Some u /\ known (tx_db t) u /\
     jsonb_in (marshalDetails d) = Some j /\
     w_tx w' = Some (mkTx (add_history (tx_now t) u st j (tx_db t)) (tx_now t))).
Proof.
  unfold InsertStatusHistory, wrap_err. destruct (tx_stmt _ w) as [r1 w1] eqn:E. intros ?; simplify_eq.
  apply tx_stmt_inv in E as (H1 & H2 & H3). split_and!; [done..|].
  destruct r1 as [[]|]; [|done]. intros _. destruct (H3 tt eq_refl) as (t & db' & Ht & Hs & Ht').
  destruct (insertHistorySQL _ _ _ _ _) as [db1|] eqn:Ei; simplify_eq/=.
  apply insertHistory_inv in Ei as (u & j & Hu & Hj & Hk & ->). exists t, u, j. by split_and!.
Qed.

Lemma history_exec e st w t j :
  w_env w = [] -> w_tx w = Some t -> uuid_in e = Some e -> known (tx_db t) e ->
  btrim_blank st = false -> jsonb_in (marshalDetails None) = Some j ->
  InsertStatusHistory e st None w =
    (Ok tt, with_tx (Some (mkTx (add_history (tx_now t) e st j (tx_db t)) (tx_now t))) w).
Proof.
  intros He Ht Hu [row Hrow] Hb Hj. apply wrap_err_ok, tx_stmt_exec; [done..|].
  unfold insertHistorySQL. by rewrite Hu, Hj, Hb, Hrow.
Qed.

Lemma insertDeliveryAttempt_inv rec outcome w r w' :
  insertDeliveryAttempt rec outcome w = (r, w') ->
  in_tx w w' /\ w_uuid w' = w_uuid w /\
  (r = Ok tt -> exists t u, w_tx w = Some t /\ uuid_in (da_EventID rec) = Some u /\
     known (tx_db t) u /\ 0 < da_AttemptNumber rec /\
     w_tx w' = Some (mkTx (add_attempt u rec outcome (tx_db t)) (tx_now t))).
Proof.
  unfold insertDeliveryAttempt, wrap_err. destruct (tx_stmt _ w) as [r1 w1] eqn:E. intros ?; simplify_eq.
  apply tx_stmt_inv in E as (H1 & H2 & H3). split_and!; [done..|].
  destruct r1 as [[]|]; [|done]. intros _. destruct (H3 tt eq_refl) as (t & db' & Ht & Hs & Ht').
  destruct (insertAttemptSQL _ _ _ _ _ _ _ _) as [db1|] eqn:Ei; simplify_eq/=.
  apply insertAttempt_inv in Ei as (u & Hu & Hk & Hn & ->). exists t, u. by split_and!.
Qed.

Lemma inTransaction_inv fn w r w' :
  keeps in_tx fn -> inTransaction fn w = (r, w') ->
  w_tx w' = None /\ w_locked w' = w_locked w /\ w_redis w' = w_redis w /\
  w_http w' = w_http w /\ w_sent w' = w_sent w /\ w_now w <= w_now w' /\
  (w_db w' = w_db w \/ tx_result fn w tt (w_db w')) /\
  (r = Ok tt -> tx_result fn w tt (w_db w')).
Proof.
  intros Hfn H. unfold inTransaction in H. apply gbind_inv in H as [(a & w1 & Hb & H)|(e & Hb & ->)].
  - apply wrap_err_inv_ok in Hb. destruct a. apply begin_tx_inv in Hb as (Hin & Ho & _).
    destruct Ho as [now Ht]; [done|]. apply deferred_rollback_inv in H as (w2 & H & ->). simpl.
    destruct Hin as (I1 & I2 & I3 & I4 & I5 & I6).
    apply gbind_inv in H as [([] & w3 & Hf & H)|(e & Hf & ->)].
    + pose proof (Hfn w1) as Hk. rewrite Hf in Hk. destruct Hk as (J1 & J2 & J3 & J4 & J5 & J6). simpl in *.
      unfold wrap_err in H. destruct (commit_tx w3) as [rc w4] eqn:Ec. simplify_eq/=.
      apply commit_tx_inv in Ec as (C1 & C2 & C3 & C4 & C5 & C6 & C7).
      assert (Hres : forall t, w_tx w3 = Some t -> w_db w2 = tx_db t -> tx_result fn w tt (w_db w2)).
      { intros t Ht3 Hdb. exists now, w1, w3, t. rewrite Hdb. unfold in_tx. by split_and!. }
      split_and!; try done; try congruence; try lia.
      * destruct C6 as [C6|(t & Ht3 & Hdb)]; [left; congruence|right; eauto].
      * intros Hr. destruct C7 as (t & Ht3 & Hdb); [by destruct rc as [[]|]|eauto].
    + pose proof (Hfn w1) as Hk. rewrite Hf in Hk. destruct Hk as (J1 & J2 & J3 & J4 & J5 & J6). simpl in *.
      split_and!; try done; try congruence; try lia. left. congruence.
  - unfold wrap_err in Hb. destruct (begin_tx w) as [rb wb] eqn:Eb. simplify_eq/=.
    apply begin_tx_inv in Eb as ((I1 & I2 & I3 & I4 & I5 & I6) & _ & He).
    destruct rb as [|e']; [done|]. rewrite (He e') by done.
    split_and!; try done; try congruence; try lia. by left.
Qed.

Lemma InsertStatusHistory_in_tx e st d : keeps in_tx (InsertStatusHistory e st d : M unit).
Proof. unfold InsertStatusHistory. keeps_all. Qed.

Lemma insertDeliveryAttempt_in_tx r o : keeps in_tx (insertDeliveryAttempt r o : M unit).
Proof. unfold insertDeliveryAttempt. keeps_all. Qed.

(** What a call that records something changes: the committed tables only. *)
Definition db_only (w w' : W) : Prop :=
  w_tx w' = None /\ w_locked w' = w_locked w /\ w_redis w' = w_redis w /\
  w_http w' = w_http w /\ w_sent w' = w_sent w /\ w_now w <= w_now w'.

(** The recorded facts, as relations between the tables before and after. *)
Definition processed (p : ProcessingRecord) (db db' : DB) : Prop :=
  exists now u j, uuid_in (pr_EventID p) = Some u /\ known db u /\
    db' = add_history now u StatusProcessing j db.

Definition delivered (a : DeliveryAttemptRecord) (db db' : DB) : Prop :=
  exists now u j, uuid_in (da_EventID a) = Some u /\ known db u /\ 0 < da_AttemptNumber a /\
    db' = add_history now u StatusDelivered j (add_attempt u a DeliveryOutcomeSucceeded db).

Definition retrying (x : RetryingRecord) (db db' : DB) : Prop :=
  let a := rt_Attempt x in
  exists now u j, uuid_in (da_EventID a) = Some u /\ known db u /\ 0 < da_AttemptNumber a /\
    db' = add_history now u StatusRetrying j (add_attempt u a DeliveryOutcomeFailed db).

Definition dead_letter_stream_id (x : DeadLetterRecord) : string :=
  let o := TrimSpace (dl_OriginalStreamID x) in
  if String.eqb o "" then da_StreamID (dl_Attempt x) else o.

Definition dead_lettered (x : DeadLetterRecord) (db db' : DB) : Prop :=
  let a := dl_Attempt x in
  exists now u j, uuid_in (da_EventID a) = Some u /\ known db u /\ 0 < da_AttemptNumber a /\
    db' = add_history now u StatusDeadLettered j
            (set_dlq (<[u := mkDlqRow (dead_letter_stream_id x) (da_AttemptNumber a)
                               (errorString (da_Error a)) DLQStatusOpen now None now]>
                        (dlq_records db))
               (add_attempt u a DeliveryOutcomeFailed db)).

(** A recording call: the fact is recorded, or nothing is; on success it is
    recorded. *)
Definition records (m : M unit) (effect : DB -> DB -> Prop) : Prop :=
  forall w r w', w_tx w = None -> m w = (r, w') ->
    db_only w w' /\
    (w_db w' = w_db w \/ effect (w_db w) (w_db w')) /\
    (r = Ok tt -> effect (w_db w) (w_db w')).

Lemma records_require_pool s m effect : records m effect -> records (require_pool s m) effect.
Proof.
  intros Hm w r w' Hw H. unfold require_pool in H.
  destruct s as [[[p|]]|]; [by eapply Hm|..]; unfold gerr in H; simplify_eq/=;
    unfold db_only; split_and!; auto; try done; lia.
Qed.

Lemma records_inTransaction fn effect :
  keeps in_tx fn -> (forall w db', tx_result fn w tt db' -> effect (w_db w) db') ->
  records (inTransaction fn) effect.
Proof.
  intros Hk He w r w' Hw H.
  apply inTransaction_inv in H as (T1 & T2 & T3 & T4 & T5 & T6 & T7 & T8); [|done].
  unfold db_only. split_and!; try done; [|by auto].
  destruct T7; [by left|right; auto].
Qed.

Lemma RecordProcessing_records s p : records (RecordProcessing s p) (processed p).
Proof.
  apply records_require_pool, records_inTransaction; [apply InsertStatusHistory_in_tx|].
  intros w db' (now & w1 & w2 & t & Ht & (Hdb & _) & Hi & Ht2 & <-).
  apply InsertStatusHistory_inv in Hi as (_ & _ & Hi).
  destruct Hi as (t1 & u & j & Ht1 & Hu & Hk & _ & Ht2'); [done|]. simplify_eq/=.
  unfold processed. eauto 6.
Qed.

Lemma RecordDelivered_records s a : records (RecordDelivered s a) (delivered a).
Proof.
  apply records_require_pool, records_inTransaction.
  { keeps_all; [apply insertDeliveryAttempt_in_tx|apply InsertStatusHistory_in_tx]. }
  intros w db' (now & w1 & w2 & t & Ht & (Hdb & _) & Hi & Ht2 & <-).
  apply gbind_inv_ok in Hi as ([] & w3 & Ha & Hi).
  apply insertDeliveryAttempt_inv in Ha as (_ & _ & Ha).
  apply InsertStatusHistory_inv in Hi as (_ & _ & Hi).
  destruct Ha as (t1 & u & Ht1 & Hu & Hk & Hn & Ht3); [done|].
  destruct Hi as (t4 & u' & j & Ht4 & Hu' & Hk' & _ & Ht2'); [done|]. simplify_eq/=.
  unfold delivered. eauto 8.
Qed.

Lemma RecordRetrying_records s x : records (RecordRetrying s x) (retrying x).
Proof.
  apply records_require_pool, records_inTransaction.
  { keeps_all; [apply insertDeliveryAttempt_in_tx|apply InsertStatusHistory_in_tx]. }
  intros w db' (now & w1 & w2 & t & Ht & (Hdb & _) & Hi & Ht2 & <-).
  apply gbind_inv_ok in Hi as ([] & w3 & Ha & Hi).
  apply insertDeliveryAttempt_inv in Ha as (_ & _ & Ha).
  apply InsertStatusHistory_inv in Hi as (_ & _ & Hi).
  destruct Ha as (t1 & u & Ht1 & Hu & Hk & Hn & Ht3); [done|].
  destruct Hi as (t4 & u' & j & Ht4 & Hu' & Hk' & _ & Ht2'); [done|]. simplify_eq/=.
  unfold retrying. eauto 8.
Qed.

Lemma RecordDeadLettered_records s x : records (RecordDeadLettered s x) (dead_lettered x).
Proof.
  apply records_require_pool, records_inTransaction.
  { keeps_all; [apply insertDeliveryAttempt_in_tx|apply InsertStatusHistory_in_tx]. }
  intros w db' (now & w1 & w2 & t & Ht & (Hdb & _) & Hi & Ht2 & <-).
  apply gbind_inv_ok in Hi as ([] & w3 & Ha & Hi). apply gbind_inv_ok in Hi as ([] & w5 & Hd & Hi).
  apply insertDeliveryAttempt_inv in Ha as (_ & _ & Ha).
  apply InsertStatusHistory_inv in Hi as (_ & _ & Hi).
  apply wrap_err_inv_ok, tx_stmt_inv in Hd as (_ & _ & Hd).
  destruct Ha as (t1 & u & Ht1 & Hu & Hk & Hn & Ht3); [done|].
  destruct (Hd tt eq_refl) as (t5 & db5 & Ht5 & Hs & Ht5').
  destruct (upsertDlqSQL _ _ _ _ _ _ _) as [db6|] eqn:Eu; simplify_eq/=.
  apply upsertDlq_inv in Eu as (u6 & Hu6 & Hk6 & Hn6 & ->).
  destruct Hi as (t4 & u' & j & Ht4 & Hu' & Hk' & _ & Ht2'); [done|]. simplify_eq/=.
  unfold dead_lettered. eauto 10.
Qed.

(** ** The schema survives every write *)

Lemma InsertStatusHistory_schema e st d : keeps (pres schema_ok) (InsertStatusHistory e st d : M unit).
Proof.
  unfold InsertStatusHistory. keeps_all. apply keeps_tx_stmt. intros now db [] db' Hok Hs.
  destruct (insertHistorySQL _ _ _ _ _) as [db1|] eqn:E; simplify_eq/=. eauto 2 with rail.
Qed.

Lemma insertDeliveryAttempt_schema r o : keeps (pres schema_ok) (insertDeliveryAttempt r o : M unit).
Proof.
  unfold insertDeliveryAttempt. keeps_all. apply keeps_tx_stmt. intros now db [] db' Hok Hs.
  destruct (insertAttemptSQL _ _ _ _ _ _ _ _) as [db1|] eqn:E; simplify_eq/=. eauto 2 with rail.
Qed.

Lemma inTransaction_schema fn : keeps (pres schema_ok) fn -> keeps (pres schema_ok) (inTransaction fn : M unit).
Proof. intros Hf. unfold inTransaction. keeps_all. Qed.

Lemma require_pool_schema {A} s (m : M A) : keeps (pres schema_ok) m -> keeps (pres schema_ok) (require_pool s m).
Proof. intros Hm. unfold require_pool. keeps_all. Qed.

Lemma run_query_schema {A} q (query : DB -> res error A) : keeps (pres schema_ok) (run_query q query : M A).
Proof.
  destruct q; simpl; [eauto with rail|]. apply keeps_tx_stmt. intros now db a db' Hok Hs.
  destruct (query db); by simplify_eq/=.
Qed.

End Facts.

#[export] Hint Resolve InsertStatusHistory_schema insertDeliveryAttempt_schema inTransaction_schema
  require_pool_schema run_query_schema : rail.

Section Schema.
Context {SC : Strconv} {PG : Postgres} {R : Type}.
Abbreviation M := (M (R:=R)).

Lemma Record_schema s :
  (forall p, keeps (pres schema_ok) (RecordProcessing s p : M unit)) /\
  (forall a, keeps (pres schema_ok) (RecordDelivered s a : M unit)) /\
  (forall x, keeps (pres schema_ok) (RecordRetrying s x : M unit)) /\
  (forall x, keeps (pres schema_ok) (RecordDeadLettered s x : M unit)).
Proof.
  split_and!; intros x; [unfold RecordProcessing|unfold RecordDelivered|unfold RecordRetrying
    |unfold RecordDeadLettered]; cbv zeta; apply require_pool_schema, inTransaction_schema; keeps_all.
  apply keeps_tx_stmt. intros now db [] db' Hok Hs. destruct (upsertDlqSQL _ _ _ _ _ _ _) as [db1|] eqn:E; simplify_eq/=.
  eauto 2 with rail.
Qed.

Lemma fetchEvent_schema q e : keeps (pres schema_ok) (fetchEvent q e : M EventMetadata).
Proof. unfold fetchEvent. keeps_all. Qed.

Lemma RedriveDLQ_schema s e (publish : fields -> M string) :
  (forall v, keeps (pres schema_ok) (publish v)) ->
  keeps (pres schema_ok) (RedriveDLQ s e (Some publish) : M RedriveResult).
Proof.
  intros Hp. unfold RedriveDLQ, redrive_mark. apply require_pool_schema. keeps_all; eauto using fetchEvent_schema with rail.
Qed.

End Schema.

(** ** Redrive *)

(** What the publisher of a redrive promises: it changes Redis only, and
    reports an id when it has sent the entry. *)
Class RedriveSender {R : Type} (publish : fields -> M (R:=R) string) (sent : fields -> R -> R -> Prop) : Prop := {
  redrive_frame : forall v w r w', publish v w = (r, w') -> redis_only w w';
  redrive_effect : forall v w r w', publish v w = (r, w') ->
    w_redis w' = w_redis w \/ sent v (w_redis w) (w_redis w');
  redrive_sent : forall v w id w', publish v w = (Ok id, w') -> sent v (w_redis w) (w_redis w');
  (** its errors are not the store's *)
  redrive_errors : forall v t, never t (publish v);
}.

#[global] Instance XAdd_RedriveSender {PG : Postgres} {R} `{RedisCmds R} s :
  RedriveSender (XAdd (R:=R) s) (fun v r r' => exists id, added s v r id r').
Proof.
  split; [..|intros v t; apply never_XAdd];
    intros v w r w' Hx; apply XAdd_inv in Hx as (X1 & X2 & X3 & X4 & X5 & X6 & X7).
  - by unfold redis_only.
  - destruct X7 as [(t & _ & X7)|(id & X7 & _)]; eauto.
  - destruct X7 as [(t & ? & X7)|(id & X7 & _)]; [done|]. eauto.
Qed.

Section Redrive.
Context {SC : Strconv} {PG : Postgres} {R : Type} (publish : fields -> M (R:=R) string)
        (sent : fields -> R -> R -> Prop) `{!RedriveSender publish sent}.
Abbreviation M := (M (R:=R)).
Abbreviation W := (World R).
Implicit Types w : W.

(** The stored event as a redrive sends it. *)
Definition event_metadata (u : string) (row : EventRow) : EventMetadata :=
  mkEventMetadata u (ev_event_type row) (ev_source row) (ev_payload row) (ev_created_at row * 1000).

(** The record is marked redriven and the history says so. *)
Definition redriven (now : Z) (u : string) (d : DlqRow) (db db' : DB) : Prop :=
  exists j, db' = add_history now u StatusRedriven j
    (set_dlq (<[u := mkDlqRow (dq_original_stream_id d) (dq_attempt_count d) (dq_last_error d)
                       DLQStatusRedriven (dq_dead_lettered_at d) (Some now) now]> (dlq_records db)) db).

(** The record that a redrive may act on. *)
Definition open_record (eventID u : string) (d : DlqRow) (row : EventRow) (db : DB) : Prop :=
  uuid_in eventID = Some u /\ dlq_records db !! u = Some d /\ dq_status d = DLQStatusOpen /\
  events db !! u = Some row.

Lemma run_query_tx_inv {A} (q : DB -> res error A) w r w' :
  run_query OnTx q w = (r, w') ->
  in_tx w w' /\ (forall a, r = Ok a -> exists t, w_tx w = Some t /\ w_tx w' = Some t /\ q (tx_db t) = Ok a).
Proof.
  intros Hq. apply tx_stmt_inv in Hq as (H1 & _ & H3). split; [done|]. intros a Ha.
  destruct (H3 a Ha) as (t & db' & Ht & Hs & Ht'). exists t. destruct t as [db now].
  simpl in *. destruct (q db) as [a'|]; simplify_eq/=. done.
Qed.

Lemma fetchEvent_tx_inv e w r w' :
  fetchEvent OnTx e w = (r, w') ->
  in_tx w w' /\ (forall ev, r = Ok ev -> exists t u row, w_tx w = Some t /\ w_tx w' = Some t /\
    uuid_in e = Some u /\ events (tx_db t) !! u = Some row /\ ev = event_metadata u row).
Proof.
  unfold fetchEvent, gbind, catch. destruct (run_query OnTx _ w) as [rq w1] eqn:Eq.
  apply run_query_tx_inv in Eq as [Hi Hq]. intros Hf.
  assert (w' = w1) as -> by (destruct rq as [[[]|]|]; unfold gret, gerr in Hf; by simplify_eq).
  split; [done|]. intros ev ->. destruct rq as [o|]; [|by unfold gerr in Hf].
  destruct (Hq o eq_refl) as (t & Ht & Ht' & Hs). unfold cast_uuid in Hs.
  destruct (uuid_in e) as [u|]; simplify_eq/=. destruct (events (tx_db t) !! u) as [row|] eqn:Er;
    unfold gret, gerr in Hf; simplify_eq/=. exists t, u, row. done.
Qed.

Lemma redrive_mark_inv e u d streamID now w r w' :
  w_tx w = Some (mkTx (w_db w) now) -> uuid_in e = Some u -> dlq_records (w_db w) !! u = Some d ->
  redrive_mark e streamID w = (r, w') ->
  w_locked w' = w_locked w /\ w_redis w' = w_redis w /\
  (w_db w' = w_db w \/ redriven now u d (w_db w) (w_db w')) /\
  (forall x, r = Ok x -> x = mkRedriveResult e DLQStatusRedriven streamID /\ redriven now u d (w_db w) (w_db w')).
Proof.
  intros Ht Hu Hd H. apply gbind_inv in H as [(n & w1 & H1 & H)|(er & H1 & ->)]; cycle 1.
  { unfold wrap_err in H1. destruct (tx_stmt _ w) as [r1 w1] eqn:E. simplify_eq/=.
    apply tx_stmt_inv in E as ((I1 & I2 & I3 & _) & _). split_and!; auto. done. }
  apply wrap_err_inv_ok, tx_stmt_inv in H1 as ((I1 & I2 & I3 & _) & _ & H1).
  destruct (H1 n eq_refl) as (t & db' & Ht1 & Hs & Ht1'). simplify_eq/=. clear H1.
  destruct (negb (n =? 1)); [unfold gerr in H; simplify_eq; split_and!; auto; done|].
  apply updateDlqStatus_inv in Hs as (u' & Hu' & Hs). simplify_eq.
  destruct Hs as [(_ & _ & Hn)|(d' & _ & Hd' & ->)]; [congruence|]. simplify_eq.
  eapply (tx_commit_inv _ (fun _ => mkRedriveResult e DLQStatusRedriven streamID)) in H
    as (C1 & C2 & _ & _ & _ & C6 & C7); [|apply InsertStatusHistory_in_tx].
  assert (Hb : forall w2 t, InsertStatusHistory e StatusRedriven (Some [("stream_id", JStr streamID)]) w1 = (Ok tt, w2) ->
     w_tx w2 = Some t -> redriven now u d (w_db w) (tx_db t)).
  { intros w2 t Hi Ht2. apply InsertStatusHistory_inv in Hi as (_ & _ & Hi).
    destruct Hi as (t3 & u3 & j & Ht3 & Hu3 & _ & _ & Ht3'); [done|]. simplify_eq/=. by exists j. }
  split_and!; [congruence|congruence|..].
  - destruct C6 as [C6|([] & w2 & t & Hi & Ht2 & ->)]; [left; congruence|right; eauto].
  - intros x Hx. destruct (C7 x Hx) as ([] & w2 & t & Hi & Ht2 & -> & ->). eauto.
Qed.

(** What a redrive may leave behind. *)
Inductive redrive_outcome (eventID : string) (w w' : W) : res error RedriveResult -> Prop :=
| redrive_done now u d row streamID :
    open_record eventID u d row (w_db w) -> redriven now u d (w_db w) (w_db w') ->
    sent (redrive_values (event_metadata u row)) (w_redis w) (w_redis w') ->
    redrive_outcome eventID w w' (Ok (mkRedriveResult eventID DLQStatusRedriven streamID))
| redrive_refused e :
    w_db w' = w_db w -> w_redis w' = w_redis w -> redrive_outcome eventID w w' (Err e)
| redrive_sent_only u d row e :
    open_record eventID u d row (w_db w) -> w_db w' = w_db w ->
    sent (redrive_values (event_metadata u row)) (w_redis w) (w_redis w') -> redrive_outcome eventID w w' (Err e)
| redrive_unreported now u d row e :
    open_record eventID u d row (w_db w) -> redriven now u d (w_db w) (w_db w') ->
    sent (redrive_values (event_metadata u row)) (w_redis w) (w_redis w') -> redrive_outcome eventID w w' (Err e).

(** From the open record on. *)
Lemma redrive_publish_cases e u d now w1 ev w2 r w3 :
  w_tx w1 = Some (mkTx (w_db w1) now) -> uuid_in e = Some u -> dlq_records (w_db w1) !! u = Some d ->
  dq_status d = DLQStatusOpen -> fetchEvent OnTx e w1 = (Ok ev, w2) ->
  (let! streamID := wrap_err (wrapf ("publish redrive event " +:+ e)) (publish (redrive_values ev)) in
   redrive_mark e streamID) w2 = (r, w3) ->
  w_locked w3 = w_locked w1 /\ redrive_outcome e w1 w3 r.
Proof.
  intros Ht Hu Hd Hst Hf H. apply fetchEvent_tx_inv in Hf as ((I1 & I2 & I3 & _) & Hf).
  destruct (Hf ev eq_refl) as (t & u' & row & Ht1 & Ht2 & Hu' & Hrow & ->). clear Hf. simplify_eq/=.
  assert (Ho : open_record e u d row (w_db w1)) by done.
  apply gbind_inv in H as [(sid & w4 & Hp & H)|(er & Hp & ->)]; unfold wrap_err in Hp;
    destruct (publish _ w2) as [rp wp] eqn:Ep; simplify_eq/=;
    pose proof (redrive_frame _ _ _ _ Ep) as (F1 & F2 & F3 & F4); pose proof (redrive_effect _ _ _ _ Ep) as Fe;
    rewrite I3 in Fe; cycle 1.
  { split; [congruence|]. destruct Fe as [Fe|Fe]; [eapply redrive_refused|eapply redrive_sent_only]; try done; congruence. }
  destruct rp as [sid'|]; simplify_eq/=. apply redrive_sent in Ep. rewrite I3 in Ep. clear Fe.
  apply (redrive_mark_inv e u d sid now) in H as (M1 & M2 & M3 & M4); [|congruence|done|by rewrite F1, I1].
  rewrite F1, I1 in M3, M4. rewrite <- M2 in Ep. split; [congruence|]. destruct r as [x|er].
  - destruct (M4 x eq_refl) as [-> M]. by eapply redrive_done.
  - destruct M3 as [M3|M3]; [by eapply redrive_sent_only|by eapply redrive_unreported].
Qed.

Lemma redrive_outcome_frame e w w1 w3 w' r :
  w_db w1 = w_db w -> w_redis w1 = w_redis w -> w_db w' = w_db w3 -> w_redis w' = w_redis w3 ->
  redrive_outcome e w1 w3 r -> redrive_outcome e w w' r.
Proof.
  intros E1 E2 E3 E4 H. destruct H; rewrite E1, E2, <- E3, <- E4 in *;
    [by eapply redrive_done|by eapply redrive_refused|by eapply redrive_sent_only|by eapply redrive_unreported].
Qed.

Lemma redrive_cases s e w r w' :
  w_tx w = None -> RedriveDLQ s e (Some publish) w = (r, w') ->
  w_tx w' = None /\ w_locked w' = w_locked w /\ redrive_outcome e w w' r.
Proof.
  intros Hw H. unfold RedriveDLQ, require_pool in H.
  destruct s as [[[p|]]|]; [|unfold gerr in H; simplify_eq; split_and!; [done..|by apply redrive_refused]..].
  apply gbind_inv in H as [([] & w1 & Hb & H)|(er & Hb & ->)]; cycle 1.
  { unfold wrap_err in Hb. destruct (begin_tx w) as [rb wb] eqn:Eb. simplify_eq/=.
    apply begin_tx_inv in Eb as ((I1 & I2 & I3 & _) & _ & He). destruct rb as [|e']; [done|].
    split_and!; [by eapply He|done|]. by apply redrive_refused. }
  apply wrap_err_inv_ok, begin_tx_inv in Hb as ((I1 & I2 & I3 & _) & Ho & _).
  destruct Ho as [now Ht]; [done|]. rewrite <- I1 in Ht.
  apply deferred_rollback_inv in H as (w2 & H & ->). simpl. split; [done|].
  enough (w_locked w2 = w_locked w1 /\ redrive_outcome e w1 w2 r) as [L1 L2].
  { split; [congruence|]. eapply redrive_outcome_frame; [| | | |exact L2]; done. }
  apply gbind_inv in H as [(st & w3 & Hq & H)|(er & Hq & ->)]; unfold wrap_err in Hq;
    destruct (run_query OnTx _ w1) as [rq wq] eqn:Eq; simplify_eq/=;
    apply run_query_tx_inv in Eq as ((J1 & J2 & J3 & _) & Hq); cycle 1.
  { split; [done|]. by apply redrive_refused. }
  destruct rq as [st'|]; simplify_eq/=. destruct (Hq st eq_refl) as (t & Ht1 & Ht3 & Hs). simplify_eq/=.
  unfold selectDlqStatusSQL in Hs. destruct (uuid_in e) as [u|] eqn:Hu; simplify_eq.
  destruct (dlq_records (w_db w1) !! u) as [d|] eqn:Hd; simpl in H;
    [|unfold gerr in H; simplify_eq; split; [done|by apply redrive_refused]].
  destruct (String.eqb_spec (dq_status d) DLQStatusOpen) as [Hst|]; simpl in H;
    [|unfold gerr in H; simplify_eq; split; [done|by apply redrive_refused]].
  apply gbind_inv in H as [(ev & w4 & Hf & H)|(er & Hf & ->)].
  - eapply redrive_publish_cases in H as [L1 L2]; [|rewrite J1; done|done|by rewrite J1|done|done].
    split; [congruence|]. eapply redrive_outcome_frame; [| | | |exact L2]; done.
  - apply fetchEvent_tx_inv in Hf as ((K1 & K2 & K3 & _) & _). split; [congruence|]. apply redrive_refused; congruence.
Qed.

Lemma fetchEvent_never t q e : t <> ErrEventNotFound -> never t (fetchEvent q e : M EventMetadata).
Proof.
  intros Ht. apply never_bind_catch.
  - unfold run_query, cast_uuid. destruct q; never_all; sql_never_all.
  - intros [[[id row]|]|e'] Hr; [by apply never_ret|..]; apply never_err.
    + apply bool_decide_eq_false. congruence.
    + rewrite errors_Is_wrapf. by apply Hr.
Qed.

(** The refusals of a redrive name their reason, and change nothing. *)
Lemma redrive_refusal s e w er w' t :
  w_tx w = None -> RedriveDLQ s e (Some publish) w = (Err er, w') ->
  t = ErrDLQNotFound \/ t = ErrDLQNotOpen -> errors_Is er t = true ->
  exists u, uuid_in e = Some u /\ w_db w' = w_db w /\ w_redis w' = w_redis w /\
    match dlq_records (w_db w) !! u with
    | None => t = ErrDLQNotFound
    | Some d => t = ErrDLQNotOpen /\ dq_status d <> DLQStatusOpen
    end.
Proof.
  intros Hw H Ht He. unfold RedriveDLQ, require_pool in H.
  destruct s as [[[p|]]|]; [|unfold gerr in H; simplify_eq; done..].
  apply gbind_inv in H as [([] & w1 & Hb & H)|(e' & Hb & ?)]; simplify_eq;
    [|exfalso; eapply never_absurd; [exact Hb|exact He|never_all]].
  apply wrap_err_inv_ok, begin_tx_inv in Hb as ((I1 & I2 & I3 & _) & Ho & _).
  destruct Ho as [now Htx]; [done|]. apply deferred_rollback_inv in H as (w2 & H & ->). simpl.
  apply gbind_inv in H as [(st & w3 & Hq & H)|(e' & Hq & ?)]; simplify_eq.
  2: { exfalso. eapply never_absurd; [exact Hq|exact He|]. unfold run_query, selectDlqStatusSQL.
       never_all; sql_never_all. }
  apply wrap_err_inv_ok, run_query_tx_inv in Hq as ((J1 & J2 & J3 & _) & Hq).
  destruct (Hq st eq_refl) as (tx & Ht1 & Ht3 & Hs). simplify_eq/=.
  unfold selectDlqStatusSQL in Hs. destruct (uuid_in e) as [u|] eqn:Hu; simplify_eq. exists u.
  destruct (dlq_records (w_db w) !! u) as [d|] eqn:Hd; simpl in H.
  - destruct (String.eqb_spec (dq_status d) DLQStatusOpen) as [Hst|]; simpl in H.
    + exfalso. eapply never_absurd; [exact H|exact He|].
      unfold redrive_mark, InsertStatusHistory, updateDlqStatusSQL, insertHistorySQL.
      destruct Ht as [-> | ->]; never_all; try apply redrive_errors; try by apply fetchEvent_never.
      all: sql_never_all.
    + unfold gerr in H. simplify_eq. split_and!; try congruence.
      destruct Ht as [-> | ->]; [|done]. by apply bool_decide_eq_true in He.
  - unfold gerr in H. simplify_eq. split_and!; try congruence.
    destruct Ht as [-> | ->]; [done|]. by apply bool_decide_eq_true in He.
Qed.


End Redrive.

(** ** Reads *)

#[global] Instance history_le_total : Total history_le.
Proof. intros a b. unfold history_le. lia. Qed.
#[global] Instance history_le_trans : Transitive history_le.
Proof. intros a b c. unfold history_le. lia. Qed.
#[global] Instance dlq_le_total : Total dlq_le.
Proof.
  intros a b. unfold dlq_le. destruct (String.leb_total (dr_EventID a) (dr_EventID b)) as [H|H];
    rewrite H; destruct (Z.lt_total (dr_DeadLetteredAt a) (dr_DeadLetteredAt b)); naive_solver lia.
Qed.

Section Reads.
Context {SC : Strconv} {PG : Postgres} {R : Type}.
Abbreviation M := (M (R:=R)).
Abbreviation W := (World R).
Implicit Types w : W.

Lemma history_rows_elem u db h : h ∈ history_rows u db <-> h ∈ status_history db /\ h_event_id h = u.
Proof. unfold history_rows. rewrite merge_sort_Permutation, list_elem_of_filter. tauto. Qed.

Lemma history_rows_sorted u db : StronglySorted history_le (history_rows u db).
Proof. apply StronglySorted_merge_sort; apply _. Qed.

Lemma strongly_sorted_last {A} (le : A -> A -> Prop) `{!Reflexive le} l x y :
  StronglySorted le l -> last l = Some x -> y ∈ l -> le y x.
Proof.
  intros Hs Hl Hy. apply last_Some in Hl as [l' ->]. apply elem_of_app in Hy as [Hy|Hy%list_elem_of_singleton].
  - apply StronglySorted_app in Hs as (Hs & _ & _). apply Hs; [done|set_solver].
  - by subst.
Qed.

(** The newest history row of an event. *)
Lemma latest_status_spec db u st :
  latest_status db u = Some st <->
  exists h, h ∈ status_history db /\ h_event_id h = u /\ h_status h = st /\
    last (history_rows u db) = Some h /\
    forall h', h' ∈ status_history db -> h_event_id h' = u -> history_le h' h.
Proof.
  assert (Reflexive history_le) as Hrefl by (intros h; unfold history_le; lia).
  unfold latest_status. rewrite fmap_Some. split.
  - intros (h & Hl & ->). exists h. pose proof Hl as Hin. apply last_Some_elem_of, history_rows_elem in Hin as [H1 H2].
    split_and!; try done. intros h' H3 H4.
    eapply strongly_sorted_last; [done|apply history_rows_sorted|done|by apply history_rows_elem].
  - intros (h & _ & _ & <- & Hl & _). eauto.
Qed.

Lemma require_pool_ok_inv {A} s (m : M A) w a w' :
  require_pool s m w = (Ok a, w') -> m w = (Ok a, w').
Proof. unfold require_pool. by destruct s as [[[p|]]|]. Qed.

Lemma fetchEvent_pool_inv e w ev w' :
  fetchEvent OnPool e w = (Ok ev, w') ->
  w_db w' = w_db w /\ exists u row, uuid_in e = Some u /\ events (w_db w) !! u = Some row /\ ev = event_metadata u row.
Proof.
  unfold fetchEvent, gbind, catch, run_query. destruct (pool_query _ w) as [rq w1] eqn:Eq.
  apply pool_query_inv in Eq as [(Hdb & _) Hq]. intros Hf.
  destruct rq as [[[u row]|]|]; unfold gret, gerr in Hf; simplify_eq. split; [done|].
  destruct (Hq _ eq_refl) as (now & Hs). unfold cast_uuid in Hs. destruct (uuid_in e) as [u'|]; simplify_eq/=.
  destruct (events (w_db w) !! u') as [row'|] eqn:Er; simplify_eq/=. eauto 10.
Qed.

Lemma run_query_pool_inv {A} f (q : DB -> res error A) w a w' :
  wrap_err f (run_query OnPool q) w = (Ok a, w') -> w_db w' = w_db w /\ q (w_db w) = Ok a.
Proof.
  intros Hq%wrap_err_inv_ok. apply pool_query_inv in Hq as [(Hdb & _) Hq].
  destruct (Hq _ eq_refl) as (_ & Hs). done.
Qed.

Lemma EventStatus_inv s e w st w' :
  EventStatus s e w = (Ok st, w') ->
  w_db w' = w_db w /\
  exists u row, uuid_in e = Some u /\ events (w_db w) !! u = Some row /\
    es_Event st = event_metadata u row /\
    es_History st = map (fun h => mkStatusHistoryEntry (h_status h) (h_details h) (h_created_at h * 1000))
                      (history_rows u (w_db w)) /\
    (forall h, h ∈ history_rows u (w_db w) <-> h ∈ status_history (w_db w) /\ h_event_id h = u) /\
    StronglySorted history_le (history_rows u (w_db w)) /\
    es_CurrentStatus st = default "" (latest_status (w_db w) u) /\
    es_DeliveryAttempts st = map (fun a => mkDeliveryAttempt (at_attempt_number a) (at_outcome a)
      (at_response_code a) (at_error a) (at_started_at a * 1000) (at_completed_at a * 1000)) (attempt_rows u (w_db w)).
Proof.
  intros H%require_pool_ok_inv. apply gbind_inv_ok in H as (ev & w1 & H1 & H).
  apply gbind_inv_ok in H as (hs & w2 & H2 & H). apply gbind_inv_ok in H as (ats & w3 & H3 & H).
  unfold gret in H. simplify_eq/=. apply fetchEvent_pool_inv in H1 as (D1 & u & row & Hu & Hrow & ->).
  apply run_query_pool_inv in H2 as (D2 & H2). apply run_query_pool_inv in H3 as (D3 & H3).
  unfold cast_uuid in H2. rewrite Hu, D1 in H2. unfold cast_uuid in H3. rewrite Hu, D2, D1 in H3. simplify_eq/=. split; [congruence|].
  exists u, row. split_and!; try done; [apply history_rows_elem|apply history_rows_sorted|].
  unfold latest_status. rewrite fmap_last. by destruct (last (history_rows u (w_db w))).
Qed.

(** The status of an event is its newest: an answer describes the stored
    event, its history is complete and in order of time (ties in order of
    insertion), and the current status is that of the last entry; reading changes
    no table. *)
Theorem event_status_current s e w st w' :
  EventStatus s e w = (Ok st, w') ->
  w_db w' = w_db w /\
  exists u row, uuid_in e = Some u /\ events (w_db w) !! u = Some row /\
    es_Event st = event_metadata u row /\
    es_History st = map (fun h => mkStatusHistoryEntry (h_status h) (h_details h) (h_created_at h * 1000))
                      (history_rows u (w_db w)) /\
    (forall h, h ∈ history_rows u (w_db w) <-> h ∈ status_history (w_db w) /\ h_event_id h = u) /\
    StronglySorted history_le (history_rows u (w_db w)) /\
    es_CurrentStatus st = default "" (latest_status (w_db w) u).
Proof.
  intros H. apply EventStatus_inv in H as (Hdb & u & row & H1 & H2 & H3 & H4 & H5 & H6 & H7 & _). eauto 15.
Qed.

Lemma dlq_rows_elem status db rec :
  rec ∈ dlq_rows status db <->
  exists u d e, dlq_records db !! u = Some d /\ dq_status d = status /\ events db !! u = Some e /\
    rec = scanDLQRecord u d e.
Proof.
  unfold dlq_rows. rewrite merge_sort_Permutation, list_elem_of_omap. split.
  - intros ([u d] & Hf & He). apply list_elem_of_filter in Hf as [Hst Hin]. rewrite elem_heap_scan in Hin.
    simpl in *. destruct (events db !! u) as [e|] eqn:Ee; simplify_eq. eauto 10.
  - intros (u & d & e & Hd & Hst & He & ->). exists (u, d). rewrite list_elem_of_filter, elem_heap_scan.
    simpl. by rewrite He.
Qed.

(** A page of dead letters is the newest [limit] records of that status, in
    descending order of time (ties by event id): every entry is such a record,
    and the page is a prefix of the sorted list of all of them.  A status other
    than OPEN or REDRIVEN and a limit outside 1..200 are refused. *)
Theorem list_dlq_page s status limit w r w' :
  ListDLQ s status limit w = (r, w') ->
  w_db w' = w_db w /\
  (forall l, r = Ok l ->
     (status = DLQStatusOpen \/ status = DLQStatusRedriven) /\ 1 <= limit <= 200 /\
     exists all, l = take (Z.to_nat limit) all /\ Sorted dlq_le all /\
       forall rec, rec ∈ all <-> exists u d e, dlq_records (w_db w) !! u = Some d /\ dq_status d = status /\
         events (w_db w) !! u = Some e /\ rec = scanDLQRecord u d e).
Proof.
  intros H. assert (Hdb : w_db w' = w_db w).
  { unfold ListDLQ, require_pool, gerr in H. repeat case_match; simplify_eq; try done.
    unfold wrap_err in *. destruct (pool_query _ w) as [rq w1] eqn:Eq.
    apply pool_query_inv in Eq as [(Hdb & _) _]. by simplify_eq. }
  split; [done|]. intros l ->. apply require_pool_ok_inv in H.
  destruct (negb _ && negb _) eqn:Es; [done|]. destruct (_ || _) eqn:El; [done|]. rail_bool.
  apply wrap_err_inv_ok, pool_query_inv in H as [_ Hq]. destruct (Hq _ eq_refl) as (now & Hs). simplify_eq.
  split_and!; [|lia|lia|].
  - destruct (String.eqb_spec status DLQStatusOpen), (String.eqb_spec status DLQStatusRedriven); auto. done.
  - exists (dlq_rows status (w_db w)). split_and!; [done|apply Sorted_merge_sort; apply _|apply dlq_rows_elem].
Qed.

(** Counting by two predicates that exclude each other. *)
Lemma filter_disjoint_length {A} (P Q : A -> Prop) `{forall x, Decision (P x), forall x, Decision (Q x)} l :
  (forall x, x ∈ l -> P x -> ~ Q x) -> (length (filter P l) + length (filter Q l) <= length l)%nat.
Proof.
  induction l as [|x l IH]; simpl; intros Hd; [lia|].
  assert (Hl : forall y, y ∈ l -> P y -> ~ Q y) by (intros; apply Hd; [by right|done]).
  specialize (IH Hl). specialize (Hd x ltac:(left)).
  rewrite !filter_cons. repeat case_decide; simpl; try lia. exfalso. by apply Hd.
Qed.

Lemma filter_partition_length {A} (P Q : A -> Prop) `{forall x, Decision (P x), forall x, Decision (Q x)} l :
  (forall x, x ∈ l -> P x -> ~ Q x) -> (forall x, x ∈ l -> P x \/ Q x) ->
  (length (filter P l) + length (filter Q l) = length l)%nat.
Proof.
  induction l as [|x l IH]; simpl; intros Hd He; [lia|].
  assert (Hl : forall y, y ∈ l -> P y -> ~ Q y) by (intros; apply Hd; [by right|done]).
  specialize (IH Hl ltac:(intros; apply He; by right)). specialize (Hd x ltac:(left)). specialize (He x ltac:(left)).
  rewrite !filter_cons. repeat case_decide; simpl; try lia; exfalso; naive_solver.
Qed.

(** The summary adds up: every event is counted once, an event is not counted
    as delivered and as retrying at the same time, every dead-letter record is
    counted as open or as redriven, and the pending count does not exceed the
    number of outbox rows. *)
Theorem metrics_consistent s w m w' :
  schema_ok (w_db w) -> MetricsSummary s w = (Ok m, w') ->
  w_db w' = w_db w /\ TotalEvents m = Z.of_nat (size (events (w_db w))) /\
  0 <= Delivered m /\ 0 <= Retrying m /\ Delivered m + Retrying m <= TotalEvents m /\
  OpenDLQ m + Redriven m = Z.of_nat (size (dlq_records (w_db w))) /\
  0 <= PendingPublication m <= Z.of_nat (size (outbox (w_db w))).
Proof.
  intros Hok H%require_pool_ok_inv. apply wrap_err_inv_ok, pool_query_inv in H as [(Hdb & _) Hq].
  destruct (Hq _ eq_refl) as (now & Hs). simplify_eq/=. clear Hq.
  set (db := w_db w) in *. split_and!; [done|done|unfold count_latest; lia..| | |unfold count_rows; lia|].
  - unfold count_latest. rewrite <- Nat2Z.inj_add. apply inj_le.
    etransitivity; [apply filter_disjoint_length|].
    + intros u _ -> ?. done.
    + change (size (history_events db) <= size (events db))%nat.
      rewrite <- (size_dom (D:=gset string)). apply subseteq_size.
      intros u Hu. apply elem_of_list_to_set, list_elem_of_fmap in Hu as (h & -> & Hh).
      apply elem_of_dom. by apply (so_history_event _ Hok).
  - unfold count_rows. rewrite <- Nat2Z.inj_add, filter_partition_length; [by rewrite length_map_to_list| |].
    + intros [u d] _ Ho%String.eqb_eq Hr%String.eqb_eq. simpl in *. rewrite Ho in Hr. done.
    + intros [u d] Hin. apply elem_of_map_to_list in Hin. simpl.
      destruct (so_dlq _ Hok _ _ Hin) as (_ & _ & [[-> _]|[-> _]]); auto.
  - unfold count_rows. apply inj_le. rewrite length_filter. by rewrite length_map_to_list.
Qed.

End Reads.
End Operations.
