(* ===== verification/Ingestion.v ===== *)
(** * Ingestion: idempotent persistence of events
    ([internal/ingestion/store.go], [internal/ingestion/request_hash.go])

    An accepted request stores the event, its outbox row and the first two
    history entries in one transaction; an idempotency key makes a repeated
    request return the stored event, and a different request under the same key
    a conflict. *)

From S2P Require Import Prelude GoStrings GoErrors GoTime Json Sha256 Database DatabaseFacts.
From S2P Require Import RedisServer World WorldFacts Simulation Operations.
Import Operations.

Module Ingestion.

Record EventInput := mkEventInput { in_EventType : string; in_Source : string; in_Payload : string }.
Record PersistResult := mkPersistResult { res_EventID : string; Created : bool }.

(** ** The request hash *)

(** [json.Marshal(requestHashInput{...})]: the fields in declaration order. *)
Definition canonical_request (eventType source : string) (payload : json) : string :=
  "{" +:+ marshal (JStr "event_type") +:+ ":" +:+ marshal (JStr eventType) +:+ "," +:+
  marshal (JStr "source") +:+ ":" +:+ marshal (JStr source) +:+ "," +:+
  marshal (JStr "payload") +:+ ":" +:+ marshal payload +:+ "}".

(** The single JSON value a payload text holds ([decoder.Decode] twice). *)
Definition decode_single {SC : Strconv} (payload : string) : res error json :=
  if String.eqb (TrimSpace payload) "" then
    Err (ErrorString "payload must contain exactly one JSON value")
  else match decode (chars payload) with
  | DecEOF => Err (wrapf "invalid payload JSON" (Sentinel ioEOF))
  | DecError => Err (wrapf "invalid payload JSON" (ErrorString (json_error_text payload)))
  | DecValue v rest =>
      match decode rest with
      | DecValue _ _ => Err (ErrorString "payload must contain exactly one JSON value")
      | DecError => Err (wrapf "invalid trailing JSON content"
                          (ErrorString (json_error_text (String.string_of_list_ascii rest))))
      | DecEOF => Ok v
      end
  end.

Definition computeRequestHash {SC : Strconv} (eventType source payload : string) : res error string :=
  res_bind (decode_single payload)
    (fun v => Ok (sha256_hex (canonical_request eventType source v))).

Definition validateExistingRequestHash (existing : option string) (incoming : string)
    : res error unit :=
  match existing with
  | None => Err (wrap_suffix ": existing request hash is missing" (Sentinel ErrIdempotencyConflict))
  | Some h => if String.eqb h incoming then Ok tt
              else Err (wrap_suffix ": existing request hash differs" (Sentinel ErrIdempotencyConflict))
  end.

Section Persist.
Context {SC : Strconv} {PG : Postgres} {R : Type}.
Abbreviation M := (M (R:=R)).

(** ** Persistence *)

Definition insertOutboxForEvent (eventID : string) : M unit :=
  let! _ := wrap_err (wrapf ("insert outbox row for event " +:+ eventID))
              (tx_stmt_uuid (fun id now db =>
                 res_bind (insertOutboxSQL id now eventID db) (fun db' => Ok (tt, db')))) in
  let! _ := InsertStatusHistory eventID StatusStored None in
  let! _ := InsertStatusHistory eventID StatusPendingPublication None in
  gret tt.

Definition insertEventWithoutKeyWithOutbox (req : EventInput) (requestHash : string) : M PersistResult :=
  let! eventID := wrap_err (wrapf "insert event without idempotency key")
                    (tx_stmt_uuid (fun id now db =>
                       insertEventWithoutIdempotencyKeySQL id now (in_EventType req) (in_Source req)
                         (in_Payload req) requestHash db)) in
  let! _ := insertOutboxForEvent eventID in
  gret (mkPersistResult eventID true).

Definition existingEventIDForMatchingRequestHash (source idempotencyKey incomingHash : string)
    : M string :=
  let! row := wrap_err (wrapf "lookup existing event for idempotency key")
                (let! r := run_query OnTx (fun db =>
                             Ok (selectEventByIdempotencyKeySQL source idempotencyKey db)) in
                 match r with
                 | None => gerr (Sentinel pgxErrNoRows)
                 | Some row => gret row
                 end) in
  let '(eventID, existingHashValue, existingHashValid) := row in
  let existingHash := if existingHashValid : bool then Some existingHashValue else None in
  let! _ := wrap_err (wrap_suffix (" for source " +:+ Quote source +:+ " event " +:+ eventID))
              (lift_res (validateExistingRequestHash existingHash incomingHash)) in
  gret eventID.

Definition PersistEventWithOutbox (req : EventInput) (idempotencyKey : string) : M PersistResult :=
  let normalizedKey := TrimSpace idempotencyKey in
  let! requestHash := wrap_err (wrapf "compute request hash")
                        (lift_res (computeRequestHash (in_EventType req) (in_Source req)
                                     (in_Payload req))) in
  let! _ := wrap_err (wrapf "begin persist event transaction") begin_tx in
  deferred_rollback (
    if String.eqb normalizedKey "" then
      let! result := insertEventWithoutKeyWithOutbox req requestHash in
      let! _ := wrap_err (wrapf "commit new event without idempotency key") commit_tx in
      gret result
    else
      let! inserted := wrap_err (wrapf "insert event with idempotency key")
                         (tx_stmt_uuid (fun id now db =>
                            insertEventWithIdempotencyKeySQL id now (in_EventType req) (in_Source req)
                              (in_Payload req) normalizedKey requestHash db)) in
      match inserted with
      | Some eventID =>
          let! _ := insertOutboxForEvent eventID in
          let! _ := wrap_err (wrapf "commit new event with idempotency key") commit_tx in
          gret (mkPersistResult eventID true)
      | None =>
          let! eventID := existingEventIDForMatchingRequestHash (in_Source req) normalizedKey
                            requestHash in
          let! _ := wrap_err (wrapf "commit existing idempotent event lookup") commit_tx in
          gret (mkPersistResult eventID false)
      end).

End Persist.

(** ** What a persisted request changes *)

Section Facts.
Context {SC : Strconv} {PG : Postgres} {R : Type}.
Abbreviation M := (M (R:=R)).
Abbreviation W := (World R).
Implicit Types w : W.

(** The tables with the event, its outbox row and its first two history rows
    added. *)
Definition add_event (id oid : string) (now : Z) (row : EventRow) (j : string) (db : DB) : DB :=
  add_history now id StatusPendingPublication j
    (add_history now id StatusStored j
       (set_outbox (<[oid := mkOutboxRow id "pending" 0 now None None now now]> (outbox db))
          (set_events (<[id := row]> (events db)) db))).

(** [key] is the normalized idempotency key, [None] for a blank one. *)
Definition ingested (req : EventInput) (key : option string) (hash id : string) (db db' : DB) : Prop :=
  exists oid now p j,
    uuid_in id = Some id /\ uuid_in oid = Some oid /\
    events db !! id = None /\ outbox db !! oid = None /\
    (forall oid o, outbox db !! oid = Some o -> ob_event_id o <> id) /\
    (forall k, key = Some k -> event_by_key (in_Source req) k db = None) /\
    jsonb_in (in_Payload req) = Some p /\
    db' = add_event id oid now
            (mkEventRow (in_EventType req) (in_Source req) p now key (Some hash)) j db.

Definition norm_key (idempotencyKey : string) : option string :=
  let k := TrimSpace idempotencyKey in if String.eqb k "" then None else Some k.

Lemma insertOutboxForEvent_in_tx e : keeps in_tx (insertOutboxForEvent e : M unit).
Proof. unfold insertOutboxForEvent. keeps_all; apply InsertStatusHistory_in_tx. Qed.

Lemma insertOutboxForEvent_inv e w w' :
  insertOutboxForEvent e w = (Ok tt, w') ->
  exists t u oid j, w_tx w = Some t /\ uuid_in e = Some u /\ uuid_in oid = Some oid /\
    (forall oid o, outbox (tx_db t) !! oid = Some o -> ob_event_id o <> u) /\
    outbox (tx_db t) !! oid = None /\
    w_tx w' = Some (mkTx (add_history (tx_now t) u StatusPendingPublication j
                    (add_history (tx_now t) u StatusStored j
                      (set_outbox (<[oid := mkOutboxRow u "pending" 0 (tx_now t) None None
                                              (tx_now t) (tx_now t)]> (outbox (tx_db t)))
                         (tx_db t)))) (tx_now t)).
Proof.
  intros H. apply gbind_inv_ok in H as ([] & w1 & H1 & H). apply gbind_inv_ok in H as ([] & w2 & H2 & H).
  apply gbind_inv_ok in H as ([] & w3 & H3 & H). unfold gret in H. simplify_eq.
  apply wrap_err_inv_ok, tx_stmt_uuid_inv in H1 as (_ & _ & H1).
  apply InsertStatusHistory_inv in H2 as (_ & _ & H2). apply InsertStatusHistory_inv in H3 as (_ & _ & H3).
  destruct (H1 tt eq_refl) as (t & db1 & Ht & Hs & Ht1).
  destruct (insertOutboxSQL _ _ _ _) as [db2|] eqn:Ei; simplify_eq/=.
  apply insertOutbox_inv in Ei as (u & Hu & Hk & Hun & Hn & ->).
  destruct H2 as (t2 & u2 & j2 & Ht2 & Hu2 & Hk2 & Hj2 & Ht2'); [done|].
  destruct H3 as (t3 & u3 & j3 & Ht3 & Hu3 & Hk3 & Hj3 & Ht3'); [done|]. simplify_eq/=.
  exists t, u, (uuid_v4 (w_uuid w)), j2. split_and!; auto using uuid_v4_canonical.
Qed.

Lemma existingEventID_inv src k h w r w' :
  existingEventIDForMatchingRequestHash src k h w = (r, w') ->
  in_tx w w' /\
  (forall id, r = Ok id -> exists t e, w_tx w = Some t /\ w_tx w' = Some t /\
     event_by_key src k (tx_db t) = Some (id, e) /\ ev_request_hash e = Some h).
Proof.
  intros H. unfold existingEventIDForMatchingRequestHash in H.
  split.
  - match type of H with ?m w = _ => assert (keeps in_tx m) as Hk end.
    { keeps_all. }
    specialize (Hk w). by rewrite H in Hk.
  - intros id ->. apply gbind_inv_ok in H as (row & w1 & H1 & H).
    apply wrap_err_inv_ok, gbind_inv_ok in H1 as (q & w2 & H1 & H2).
    apply tx_stmt_inv in H1 as (_ & _ & H1). destruct (H1 q eq_refl) as (t & db' & Ht & Hs & Ht').
    simplify_eq/=. unfold selectEventByIdempotencyKeySQL in H2.
    destruct (event_by_key src k (tx_db t)) as [[id' e]|] eqn:Ek; [|done].
    unfold gret in H2. simplify_eq/=.
    apply gbind_inv_ok in H as ([] & w3 & H3 & H). unfold gret in H. simplify_eq/=.
    apply wrap_err_inv_ok in H3. unfold lift_res, validateExistingRequestHash in H3.
    destruct t as [tdb tnow]. simpl in *.
    destruct (ev_request_hash e) as [h'|] eqn:Eh; simpl in H3.
    + destruct (String.eqb_spec h' h); simplify_eq. eauto 10.
    + done.
Qed.

(** The event row, then the outbox row and history, in one view. *)
Lemma ingested_intro req key hash n p db now w2 w3 t :
  events db !! uuid_v4 n = None -> jsonb_in (in_Payload req) = Some p ->
  (forall k, key = Some k -> event_by_key (in_Source req) k db = None) ->
  w_tx w2 = Some (mkTx (set_events (<[uuid_v4 n := mkEventRow (in_EventType req) (in_Source req) p
                                       now key (Some hash)]> (events db)) db) now) ->
  insertOutboxForEvent (uuid_v4 n) w2 = (Ok tt, w3) -> w_tx w3 = Some t ->
  ingested req key hash (uuid_v4 n) db (tx_db t).
Proof.
  intros Hn Hp Hk Ht2 Hi Ht3.
  apply insertOutboxForEvent_inv in Hi as (t2 & u & oid & j & Ht2' & Hu & Hoid & Hun & Hno & Ht3').
  rewrite uuid_v4_canonical in Hu. simplify_eq/=.
  exists oid, now, p, j. split_and!; auto using uuid_v4_canonical.
Qed.

Lemma insertEventWithoutKey_inv req hash w x w' db now :
  w_tx w = Some (mkTx db now) -> insertEventWithoutKeyWithOutbox req hash w = (Ok x, w') ->
  forall t, w_tx w' = Some t -> Created x = true /\ ingested req None hash (res_EventID x) db (tx_db t).
Proof.
  intros Ht H t Ht'. apply gbind_inv_ok in H as (id & w1 & H1 & H). apply gbind_inv_ok in H as ([] & w2 & H2 & H).
  unfold gret in H. simplify_eq/=. split; [done|].
  apply wrap_err_inv_ok, tx_stmt_uuid_inv in H1 as (_ & _ & H1).
  destruct (H1 id eq_refl) as (t1 & db1 & Ht1 & Hs & Ht1'). simplify_eq/=.
  unfold insertEventWithoutIdempotencyKeySQL in Hs. destruct (jsonb_in (in_Payload req)) as [p|] eqn:Ep; [|done].
  destruct (insert_event_row _ _ _) as [db2|] eqn:Ei; simplify_eq/=.
  apply insert_event_row_inv in Ei as [Hn ->]. by eapply ingested_intro.
Qed.

Lemma insertEventWithKey_inv req k hash w1 id w2 w3 t db now :
  w_tx w1 = Some (mkTx db now) ->
  tx_stmt_uuid (fun id now db => insertEventWithIdempotencyKeySQL id now (in_EventType req)
     (in_Source req) (in_Payload req) k hash db) w1 = (Ok (Some id), w2) ->
  insertOutboxForEvent id w2 = (Ok tt, w3) -> w_tx w3 = Some t ->
  ingested req (Some k) hash id db (tx_db t).
Proof.
  intros Ht H1 H2 Ht'. apply tx_stmt_uuid_inv in H1 as (_ & _ & H1).
  destruct (H1 _ eq_refl) as (t1 & db1 & Ht1 & Hs & Ht1'). simplify_eq/=.
  unfold insertEventWithIdempotencyKeySQL in Hs. destruct (jsonb_in (in_Payload req)) as [p|] eqn:Ep; [|done].
  destruct (event_by_key _ _ _) eqn:Ek; [done|].
  destruct (insert_event_row _ _ _) as [db2|] eqn:Ei; simplify_eq/=.
  apply insert_event_row_inv in Ei as [Hn ->]. eapply ingested_intro; eauto. intros k' ?. by simplify_eq.
Qed.

Lemma insertEventWithKey_conflict req k hash w1 w2 db now :
  w_tx w1 = Some (mkTx db now) ->
  tx_stmt_uuid (fun id now db => insertEventWithIdempotencyKeySQL id now (in_EventType req)
     (in_Source req) (in_Payload req) k hash db) w1 = (Ok None, w2) ->
  w_tx w2 = Some (mkTx db now).
Proof.
  intros Ht H1. apply tx_stmt_uuid_inv in H1 as (_ & _ & H1).
  destruct (H1 _ eq_refl) as (t1 & db1 & Ht1 & Hs & Ht1'). simplify_eq/=.
  unfold insertEventWithIdempotencyKeySQL in Hs. destruct (jsonb_in (in_Payload req)) as [p|] eqn:Ep; [|done].
  destruct (event_by_key _ _ _) eqn:Ek; [by simplify_eq|].
  by destruct (insert_event_row _ _ _) as [db2|] eqn:Ei.
Qed.

Lemma insertEventWithoutKey_in_tx req hash :
  keeps in_tx (insertEventWithoutKeyWithOutbox req hash : M PersistResult).
Proof. unfold insertEventWithoutKeyWithOutbox. keeps_all. apply insertOutboxForEvent_in_tx. Qed.

(** The world after the transaction, whatever its outcome. *)
Definition tx_frame (w w' : W) : Prop :=
  w_tx w' = None /\ w_locked w' = w_locked w /\ w_redis w' = w_redis w /\
  w_http w' = w_http w /\ w_sent w' = w_sent w /\ w_now w <= w_now w'.

(** What the body of the transaction leaves of the tables, committed or not. *)
Definition persisted (req : EventInput) (key : option string) (hash : string) (db db' : DB)
    (r : res error PersistResult) : Prop :=
  (db' = db \/ exists id, ingested req key hash id db db') /\
  (forall x, r = Ok x ->
     if Created x then ingested req key hash (res_EventID x) db db'
     else db' = db /\ exists k e, key = Some k /\
          event_by_key (in_Source req) k db = Some (res_EventID x, e) /\ ev_request_hash e = Some hash).

Definition moved (w w' : W) : Prop :=
  w_locked w' = w_locked w /\ w_redis w' = w_redis w /\
  w_http w' = w_http w /\ w_sent w' = w_sent w /\ w_now w <= w_now w'.

Lemma keyless_cases req hash g w r w' now :
  w_tx w = Some (mkTx (w_db w) now) ->
  (let! result := insertEventWithoutKeyWithOutbox req hash in
   let! _ := wrap_err g commit_tx in gret result) w = (r, w') ->
  moved w w' /\ persisted req None hash (w_db w) (w_db w') r.
Proof.
  intros Ht H.
  apply tx_commit_inv in H as (C1 & C2 & C3 & C4 & C5 & C6 & C7); [|apply insertEventWithoutKey_in_tx].
  split; [by split_and!|split].
  - destruct C6 as [C6|(x & w3 & t & Hx & Ht3 & C6)]; [by left|right].
    eapply insertEventWithoutKey_inv in Hx as [_ Hx]; [|done..]. rewrite C6. eauto.
  - intros x Hx. destruct (C7 x Hx) as (x' & w3 & t & Hx' & Ht3 & C8 & ->).
    eapply insertEventWithoutKey_inv in Hx' as [-> Hx']; [|done..]. by rewrite C8.
Qed.

Lemma keyed_new_cases req k hash g w id w1 r w' now :
  w_tx w = Some (mkTx (w_db w) now) ->
  tx_stmt_uuid (fun id now db => insertEventWithIdempotencyKeySQL id now (in_EventType req)
     (in_Source req) (in_Payload req) k hash db) w = (Ok (Some id), w1) ->
  (let! _ := insertOutboxForEvent id in
   let! _ := wrap_err g commit_tx in gret (mkPersistResult id true)) w1 = (r, w') ->
  moved w w' /\ persisted req (Some k) hash (w_db w) (w_db w') r.
Proof.
  intros Ht H1 H. pose proof (tx_stmt_uuid_inv _ _ _ _ H1) as ((J1 & J2 & J3 & J4 & J5 & J6) & _).
  apply (tx_commit_inv (insertOutboxForEvent id) (fun _ => mkPersistResult id true)) in H
    as (C1 & C2 & C3 & C4 & C5 & C6 & C7); [|apply insertOutboxForEvent_in_tx].
  split; [unfold moved; split_and!; try congruence; lia|split].
  - destruct C6 as [C6|([] & w4 & t & Hx & Ht4 & C6)]; [left; congruence|right].
    exists id. rewrite C6. by eapply insertEventWithKey_inv.
  - intros x Hx. destruct (C7 x Hx) as ([] & w4 & t & Hx' & Ht4 & C8 & ->).
    simpl. rewrite C8. by eapply insertEventWithKey_inv.
Qed.

Lemma keyed_taken_cases req k hash g w w1 r w' now :
  w_tx w = Some (mkTx (w_db w) now) ->
  tx_stmt_uuid (fun id now db => insertEventWithIdempotencyKeySQL id now (in_EventType req)
     (in_Source req) (in_Payload req) k hash db) w = (Ok None, w1) ->
  (let! eventID := existingEventIDForMatchingRequestHash (in_Source req) k hash in
   let! _ := wrap_err g commit_tx in gret (mkPersistResult eventID false)) w1 = (r, w') ->
  moved w w' /\ persisted req (Some k) hash (w_db w) (w_db w') r.
Proof.
  intros Ht H1 H. pose proof (tx_stmt_uuid_inv _ _ _ _ H1) as ((J1 & J2 & J3 & J4 & J5 & J6) & _).
  apply insertEventWithKey_conflict with (db := w_db w) (now := now) in H1; [|done].
  apply (tx_commit_inv (existingEventIDForMatchingRequestHash (in_Source req) k hash)
           (fun id => mkPersistResult id false)) in H as (C1 & C2 & C3 & C4 & C5 & C6 & C7); cycle 1.
  { intros v. destruct (existingEventIDForMatchingRequestHash _ _ _ v) as [rv v'] eqn:Ev.
    by apply existingEventID_inv in Ev as [? _]. }
  assert (Hex : forall a w4 t, existingEventIDForMatchingRequestHash (in_Source req) k hash w1
            = (Ok a, w4) -> w_tx w4 = Some t -> tx_db t = w_db w /\ exists e,
            event_by_key (in_Source req) k (w_db w) = Some (a, e) /\ ev_request_hash e = Some hash).
  { intros a w4 t Ha Ht4. apply existingEventID_inv in Ha as [_ Ha].
    destruct (Ha a eq_refl) as (t' & e & Ht' & Ht4' & He & Hh). simplify_eq/=. eauto. }
  split; [unfold moved; split_and!; try congruence; lia|split].
  - left. destruct C6 as [C6|(a & w4 & t & Hx & Ht4 & C6)]; [congruence|].
    destruct (Hex _ _ _ Hx Ht4) as [? _]. congruence.
  - intros x Hx. destruct (C7 x Hx) as (a & w4 & t & Hx' & Ht4 & C8 & ->).
    destruct (Hex _ _ _ Hx' Ht4) as [? (e & ? & ?)]. simpl. split; [congruence|]. eauto.
Qed.

(** Persisting a request, on every path and under every fault. *)
Lemma persist_outcome req key w r w' :
  w_tx w = None -> PersistEventWithOutbox req key w = (r, w') ->
  tx_frame w w' /\
  ((w_db w' = w_db w /\ is_ok r = false) \/
   exists hash, computeRequestHash (in_EventType req) (in_Source req) (in_Payload req) = Ok hash /\
     persisted req (norm_key key) hash (w_db w) (w_db w') r).
Proof.
  intros Hw H. unfold PersistEventWithOutbox in H. unfold norm_key. cbv zeta in H.
  destruct (computeRequestHash _ _ _) as [hash|eh] eqn:Eh; cycle 1.
  { unfold gbind, wrap_err, lift_res in H. simplify_eq/=. unfold tx_frame. split_and!; auto; lia. }
  unfold gbind at 1 in H. unfold wrap_err at 1, lift_res in H. simpl in H.
  apply gbind_inv in H as [([] & w1 & Hb & H)|(e & Hb & ->)]; cycle 1.
  { unfold wrap_err in Hb. destruct (begin_tx w) as [rb wb] eqn:Eb. simplify_eq/=.
    apply begin_tx_inv in Eb as ((I1 & I2 & I3 & I4 & I5 & I6) & _ & He).
    destruct rb as [|e']; [done|]. unfold tx_frame. rewrite (He e') by done. by split_and!; auto. }
  apply wrap_err_inv_ok, begin_tx_inv in Hb as ((I1 & I2 & I3 & I4 & I5 & I6) & Ho & _).
  destruct Ho as [now Ht]; [done|]. apply deferred_rollback_inv in H as (w2 & H & ->).
  rewrite <-I1 in Ht |- *. unfold tx_frame. simpl.
  assert (Hm : moved w1 w2 -> w_locked w2 = w_locked w /\ w_redis w2 = w_redis w /\
                 w_http w2 = w_http w /\ w_sent w2 = w_sent w /\ w_now w <= w_now w2).
  { intros (M1 & M2 & M3 & M4 & M5). split_and!; try congruence. lia. }
  destruct (String.eqb (TrimSpace key) "").
  - eapply keyless_cases in H as [Hv H]; [|done]. eauto 10.
  - apply gbind_inv in H as [(ins & w3 & H1 & H)|(e & H1 & ->)]; cycle 1.
    { unfold wrap_err in H1. destruct (tx_stmt_uuid _ w1) as [r3 w3] eqn:E3.
      apply tx_stmt_uuid_inv in E3 as ((J1 & J2 & J3 & J4 & J5 & J6) & _). simplify_eq/=.
      split_and!; try congruence; try lia. left. split; [congruence|done]. }
    apply wrap_err_inv_ok in H1. destruct ins as [id|].
    + eapply keyed_new_cases in H as [Hv H]; [|done..]. eauto 10.
    + eapply keyed_taken_cases in H as [Hv H]; [|done..]. eauto 10.
Qed.

Lemma persist_cases req key w r w' :
  w_tx w = None -> PersistEventWithOutbox req key w = (r, w') ->
  tx_frame w w' /\
  (w_db w' = w_db w \/
   exists hash id, computeRequestHash (in_EventType req) (in_Source req) (in_Payload req) = Ok hash /\
     ingested req (norm_key key) hash id (w_db w) (w_db w')) /\
  (forall x, r = Ok x -> exists hash,
     computeRequestHash (in_EventType req) (in_Source req) (in_Payload req) = Ok hash /\
     if Created x then ingested req (norm_key key) hash (res_EventID x) (w_db w) (w_db w')
     else w_db w' = w_db w /\ exists k e, norm_key key = Some k /\
          event_by_key (in_Source req) k (w_db w) = Some (res_EventID x, e) /\
          ev_request_hash e = Some hash).
Proof.
  intros Hw H. apply persist_outcome in H as [Hf [[Hdb Hr]|(hash & Hh & Hd & Hx)]]; [| |done].
  - split_and!; [done|by left|]. by intros x ->.
  - split_and!; [done|destruct Hd as [|[id Hd]]; eauto|]. intros x ->. exists hash. split; [done|]. by apply Hx.
Qed.

(** ** Conflicts *)

Lemma insertOutboxForEvent_never t e : never t (insertOutboxForEvent e : M unit).
Proof.
  unfold insertOutboxForEvent, InsertStatusHistory, insertOutboxSQL, insertHistorySQL.
  never_all; sql_never_all.
Qed.

Lemma existingEventID_conflict src k h w e w' db now :
  w_tx w = Some (mkTx db now) ->
  existingEventIDForMatchingRequestHash src k h w = (Err e, w') ->
  errors_Is e ErrIdempotencyConflict = true ->
  w_db w' = w_db w /\ exists id row, event_by_key src k db = Some (id, row) /\ ev_request_hash row <> Some h.
Proof.
  intros Ht H He. split; [by apply existingEventID_inv in H as [(? & _) _]|].
  unfold existingEventIDForMatchingRequestHash in H.
  apply gbind_inv in H as [(row & w1 & H1 & H)|(e' & H1 & ?)]; simplify_eq; cycle 1.
  { exfalso. eapply never_absurd; [exact H1|exact He|]. unfold run_query. never_all; sql_never_all. }
  apply wrap_err_inv_ok, gbind_inv_ok in H1 as (q & w2 & H1 & H2).
  apply tx_stmt_inv in H1 as (_ & _ & H1). destruct (H1 q eq_refl) as (t & db' & Ht' & Hs & _).
  simplify_eq/=. unfold selectEventByIdempotencyKeySQL in H2.
  destruct (event_by_key src k db) as [[id row']|] eqn:Ek; [|done].
  unfold gret in H2. simplify_eq/=. exists id, row'. split; [done|]. intros Hr. rewrite Hr in H. simpl in H.
  unfold gbind, wrap_err, lift_res, validateExistingRequestHash in H. by rewrite String.eqb_refl in H.
Qed.

Lemma decode_single_never p : sql_never ErrIdempotencyConflict (decode_single p).
Proof. unfold decode_single. sql_never_all. Qed.

(** A conflict is reported only for a key whose event has another hash, and
    changes nothing. *)
Lemma persist_conflict req key w e w' :
  w_tx w = None -> PersistEventWithOutbox req key w = (Err e, w') ->
  errors_Is e ErrIdempotencyConflict = true ->
  w_db w' = w_db w /\ exists k id row hash, norm_key key = Some k /\
    event_by_key (in_Source req) k (w_db w) = Some (id, row) /\
    computeRequestHash (in_EventType req) (in_Source req) (in_Payload req) = Ok hash /\
    ev_request_hash row <> Some hash.
Proof.
  intros Hw H He. unfold PersistEventWithOutbox in H. unfold norm_key. cbv zeta in H.
  destruct (computeRequestHash _ _ _) as [hash|eh] eqn:Eh; cycle 1.
  { unfold gbind, wrap_err, lift_res in H. simplify_eq/=. unfold computeRequestHash in Eh.
    destruct (decode_single _) eqn:Ed; simplify_eq/=. by rewrite (decode_single_never _ _ Ed) in He. }
  unfold gbind at 1 in H. unfold wrap_err at 1, lift_res in H. simpl in H.
  apply gbind_inv in H as [([] & w1 & Hb & H)|(e' & Hb & ?)]; simplify_eq; cycle 1.
  { exfalso. eapply never_absurd; [exact Hb|exact He|never_all]. }
  apply wrap_err_inv_ok, begin_tx_inv in Hb as ((I1 & _) & Ho & _).
  destruct Ho as [now Ht]; [done|]. apply deferred_rollback_inv in H as (w2 & H & ->). simpl.
  destruct (String.eqb (TrimSpace key) "").
  { exfalso. eapply never_absurd; [exact H|exact He|].
    unfold insertEventWithoutKeyWithOutbox, insertEventWithoutIdempotencyKeySQL, insert_event_row.
    never_all; try apply insertOutboxForEvent_never; sql_never_all. }
  apply gbind_inv in H as [(ins & w3 & H1 & H)|(e' & H1 & ?)]; simplify_eq; cycle 1.
  { exfalso. eapply never_absurd; [exact H1|exact He|].
    unfold insertEventWithIdempotencyKeySQL, insert_event_row. never_all; sql_never_all. }
  apply wrap_err_inv_ok in H1. pose proof (tx_stmt_uuid_inv _ _ _ _ H1) as ((J1 & _) & _).
  destruct ins as [id|].
  { exfalso. eapply never_absurd; [exact H|exact He|]. never_all. apply insertOutboxForEvent_never. }
  apply insertEventWithKey_conflict with (db := w_db w) (now := now) in H1; [|done].
  apply gbind_inv in H as [(eid & w4 & _ & H)|(e' & H & ?)]; simplify_eq.
  - apply gbind_inv in H as [([] & w5 & _ & H)|(e' & H & ?)]; simplify_eq.
    exfalso. eapply never_absurd; [exact H|exact He|never_all].
  - eapply existingEventID_conflict in H as (Hdb & id & row & Hk & Hr); [|done..].
    split; [congruence|]. eauto 10.
Qed.

(** ** Theorems *)

(** The tables relate each event to exactly one outbox row (unique by the
    schema): every accepted event has its publication intent stored. *)
Definition outbox_complete (db : DB) : Prop :=
  forall id, known db id -> exists oid o, outbox db !! oid = Some o /\ ob_event_id o = id.

Lemma add_event_schema id oid now row j db :
  schema_ok db -> uuid_in id = Some id -> uuid_in oid = Some oid ->
  events db !! id = None -> outbox db !! oid = None ->
  (forall oid o, outbox db !! oid = Some o -> ob_event_id o <> id) ->
  (forall k, ev_idempotency_key row = Some k -> event_by_key (ev_source row) k db = None) ->
  schema_ok (add_event id oid now row j db).
Proof.
  intros Hok Hid Hoid Hn Hno Hun Hk. pose proof (insert_event_ok id row db Hok Hn Hid Hk) as Hok1.
  set (db1 := set_events (<[id:=row]> (events db)) db) in *.
  assert (known db1 id) as Hkn by (unfold known; simpl; rewrite lookup_insert_eq; eauto).
  change (schema_ok (add_history now id StatusPendingPublication j (add_history now id StatusStored j
    (set_outbox (<[oid := mkOutboxRow id "pending" 0 now None None now now]> (outbox db1)) db1)))).
  change (outbox db) with (outbox db1) in *. clearbody db1. clear Hok Hk Hn.
  unfold add_history. schema_solve Hok1.
  1,2: exfalso; eapply Hun; eauto.
  split; simpl; [lia|]. by left.
Qed.

Lemma ingested_schema req key hash id db db' :
  schema_ok db -> ingested req key hash id db db' -> schema_ok db'.
Proof.
  intros Hok (oid & now & p & j & H1 & H2 & H3 & H4 & H5 & H6 & H7 & ->). by apply add_event_schema.
Qed.

Lemma ingested_outbox_complete req key hash id db db' :
  outbox_complete db -> ingested req key hash id db db' -> outbox_complete db'.
Proof.
  intros Hc (oid & now & p & j & H1 & H2 & H3 & H4 & H5 & H6 & H7 & ->) e He.
  unfold known in He. simpl in *. destruct (decide (e = id)) as [->|Hne].
  - eexists oid, _. by rewrite lookup_insert_eq.
  - rewrite lookup_insert_ne in He by done. destruct (Hc e He) as (oid' & o & Ho & Heq).
    exists oid', o. rewrite lookup_insert_ne; [done|]. intros ->. congruence.
Qed.

(** The stored event of a request. *)
Lemma ingested_event req key hash id db db' :
  ingested req key hash id db db' ->
  exists e, events db' !! id = Some e /\ ev_source e = in_Source req /\
    ev_idempotency_key e = key /\ ev_request_hash e = Some hash.
Proof.
  intros (oid & now & p & j & H1 & H2 & H3 & H4 & H5 & H6 & H7 & ->). simpl.
  eexists. rewrite lookup_insert_eq. split_and!; done.
Qed.

(** A successful answer names a stored event of that source, key and request. *)
Lemma persist_ok_stored req key w x w' hash :
  w_tx w = None -> PersistEventWithOutbox req key w = (Ok x, w') ->
  computeRequestHash (in_EventType req) (in_Source req) (in_Payload req) = Ok hash ->
  exists e, events (w_db w') !! res_EventID x = Some e /\ ev_source e = in_Source req /\
    ev_idempotency_key e = norm_key key /\ ev_request_hash e = Some hash.
Proof.
  intros Hw H Hh. apply persist_cases in H as (_ & _ & H); [|done].
  destruct (H x eq_refl) as (hash' & Hh' & Hx). rewrite Hh in Hh'. injection Hh' as <-.
  destruct (Created x); [exact (ingested_event _ _ _ _ _ _ Hx)|].
  destruct Hx as (Hdb & k & e & Hk & He & Hr). apply event_by_key_Some in He as (He & Hs & Hke).
  exists e. rewrite Hdb, Hk. done.
Qed.

(** A later request under a key that is taken, on every path: nothing is stored,
    and an answer names the event that holds the key. *)
Lemma persist_taken_key req key k w r w' id e :
  w_tx w = None -> schema_ok (w_db w) -> norm_key key = Some k ->
  events (w_db w) !! id = Some e -> ev_source e = in_Source req -> ev_idempotency_key e = Some k ->
  PersistEventWithOutbox req key w = (r, w') ->
  w_db w' = w_db w /\
  (forall x, r = Ok x -> x = mkPersistResult id false /\
     exists hash, ev_request_hash e = Some hash /\
       computeRequestHash (in_EventType req) (in_Source req) (in_Payload req) = Ok hash).
Proof.
  intros Hw Hok Hk He Hs Hke H. pose proof (event_by_key_found _ _ _ _ Hok He Hke) as Hf.
  rewrite Hs in Hf. apply persist_cases in H as (_ & Hd & Hr); [|done].
  assert (Hno : forall hash i db', ~ ingested req (norm_key key) hash i (w_db w) db').
  { intros hash i db' (oid & now & p & j & _ & _ & _ & _ & _ & H6 & _).
    specialize (H6 k Hk). congruence. }
  split; [destruct Hd as [|(h & i & _ & Hi)]; [done|by apply Hno in Hi]|].
  intros x Hx. destruct (Hr x Hx) as (hash & Hh & Hc). destruct x as [i []]; simpl in *.
  - by apply Hno in Hc.
  - destruct Hc as (_ & k' & e' & Hk' & He' & Hrh). simplify_eq. eauto.
Qed.

(** ** Runs without faults *)

Lemma norm_key_Some key k : norm_key key = Some k -> TrimSpace key = k /\ String.eqb k "" = false.
Proof. unfold norm_key. destruct (String.eqb (TrimSpace key) "") eqn:E; intros; by simplify_eq. Qed.

(** What the call answers when the key is taken. *)
Definition taken_answer (source id hash : string) (e : EventRow) : res error PersistResult :=
  match res_map_err (wrap_suffix (" for source " +:+ Quote source +:+ " event " +:+ id))
          (validateExistingRequestHash (ev_request_hash e) hash) with
  | Ok _ => Ok (mkPersistResult id false)
  | Err e => Err e
  end.

Lemma persist_taken_exec req key k w hash p id e :
  w_env w = [] -> w_tx w = None -> norm_key key = Some k ->
  computeRequestHash (in_EventType req) (in_Source req) (in_Payload req) = Ok hash ->
  jsonb_in (in_Payload req) = Some p ->
  event_by_key (in_Source req) k (w_db w) = Some (id, e) ->
  (PersistEventWithOutbox req key w).1 = taken_answer (in_Source req) id hash e.
Proof.
  intros He Hw Hk Hh Hp Hf. apply norm_key_Some in Hk as [Hk Hb].
  unfold PersistEventWithOutbox. rewrite Hh, Hk, Hb. cbv zeta.
  unfold gbind at 1, wrap_err at 1, lift_res at 1. cbn [res_map_err].
  rewrite (gbind_ok _ _ _ _ _ (wrap_err_ok _ _ _ _ _ (begin_tx_exec w He))).
  unfold deferred_rollback, defer.
  erewrite gbind_ok; [|apply wrap_err_ok, tx_stmt_uuid_exec; [done|done|];
    unfold insertEventWithIdempotencyKeySQL; simpl; by rewrite Hp, Hf]. simpl.
  unfold existingEventIDForMatchingRequestHash. rewrite gbind_assoc.
  erewrite gbind_ok; [|apply wrap_err_ok; erewrite gbind_ok;
    [|unfold run_query; apply tx_stmt_exec; [done|done|simpl; unfold selectEventByIdempotencyKeySQL;
      by rewrite Hf]]; reflexivity]. simpl.
  rewrite gbind_assoc. unfold taken_answer.
  assert ((if bool_decide (is_Some (ev_request_hash e)) then Some (default "" (ev_request_hash e)) else None)
          = ev_request_hash e) as -> by (destruct (ev_request_hash e); by simpl).
  destruct (validateExistingRequestHash _ _) as [[]|err] eqn:Ev; simpl.
  - erewrite gbind_ok; [|apply wrap_err_ok; unfold lift_res; reflexivity].
    unfold gbind at 1, gret at 1.
    erewrite gbind_ok; [|by apply wrap_err_ok, commit_tx_exec]. done.
  - unfold gbind, wrap_err, lift_res. done.
Qed.

(** The outbox row and the first history of an event just inserted. *)
Lemma insertOutboxForEvent_exec e w t j :
  w_env w = [] -> w_tx w = Some t -> uuid_in e = Some e -> known (tx_db t) e ->
  (forall oid o, outbox (tx_db t) !! oid = Some o -> ob_event_id o <> e) ->
  outbox (tx_db t) !! uuid_v4 (w_uuid w) = None -> jsonb_in (marshalDetails None) = Some j ->
  exists w', insertOutboxForEvent e w = (Ok tt, w') /\ w_env w' = [] /\ is_Some (w_tx w').
Proof.
  intros He Ht Hu Hk Hun Hn Hj. eexists. unfold insertOutboxForEvent.
  erewrite gbind_ok; [|apply wrap_err_ok, tx_stmt_uuid_exec; [done..|]].
  2: { unfold insertOutboxSQL. rewrite Hu. destruct Hk as [row ->].
       rewrite (proj2 (outbox_by_event_None e (tx_db t)) Hun), Hn. reflexivity. }
  erewrite gbind_ok; [|by eapply history_exec]. erewrite gbind_ok; [|by eapply history_exec].
  unfold gret. simpl. split_and!; eauto.
Qed.

(** The generated ids are unused, and the server accepts the literals. *)
Record server_ready (w : W) : Prop := {
  sr_event_id : events (w_db w) !! uuid_v4 (w_uuid w) = None;
  sr_outbox_id : outbox (w_db w) !! uuid_v4 (S (w_uuid w)) = None;
  sr_details : is_Some (jsonb_in (marshalDetails None));
}.

Lemma persist_new_exec req key w hash p :
  w_env w = [] -> w_tx w = None -> schema_ok (w_db w) -> server_ready w ->
  computeRequestHash (in_EventType req) (in_Source req) (in_Payload req) = Ok hash ->
  jsonb_in (in_Payload req) = Some p ->
  (forall k, norm_key key = Some k -> event_by_key (in_Source req) k (w_db w) = None) ->
  (PersistEventWithOutbox req key w).1 = Ok (mkPersistResult (uuid_v4 (w_uuid w)) true).
Proof.
  intros He Hw Hok [Hid Hoid [j Hj]] Hh Hp Hfree. unfold norm_key in Hfree.
  unfold PersistEventWithOutbox. rewrite Hh. cbv zeta.
  unfold gbind at 1, wrap_err at 1, lift_res at 1. cbn [res_map_err].
  rewrite (gbind_ok _ _ _ _ _ (wrap_err_ok _ _ _ _ _ (begin_tx_exec w He))).
  unfold deferred_rollback, defer.
  assert (Hun : forall oid o, outbox (w_db w) !! oid = Some o -> ob_event_id o <> uuid_v4 (w_uuid w)).
  { intros oid o Ho Heq. destruct (so_outbox_event _ Hok _ _ Ho) as [x Hx]. congruence. }
  assert (Hout : forall w1 db, w_tx w1 = Some (mkTx db (micros (w_now w))) -> w_env w1 = [] -> w_uuid w1 = S (w_uuid w) -> outbox db = outbox (w_db w) ->
            known db (uuid_v4 (w_uuid w)) ->
            exists w', insertOutboxForEvent (uuid_v4 (w_uuid w)) w1 = (Ok tt, w') /\
                       w_env w' = [] /\ is_Some (w_tx w')).
  { intros w1 db Ht1 Hw1 Hu1 Hdb Hkn. eapply insertOutboxForEvent_exec; simpl; eauto using uuid_v4_canonical;
      simpl; rewrite ?Hdb, ?Hu1; eauto. }
  destruct (String.eqb (TrimSpace key) "") eqn:Ek.
  - unfold insertEventWithoutKeyWithOutbox. rewrite gbind_assoc.
    erewrite gbind_ok; [|apply wrap_err_ok, tx_stmt_uuid_exec; [done|done|];
      unfold insertEventWithoutIdempotencyKeySQL, insert_event_row; simpl; by rewrite Hp, Hid].
    rewrite gbind_assoc. edestruct Hout as (w2 & E2 & He2 & [t2 Ht2]); cycle 5.
    { rewrite (gbind_ok _ _ _ _ _ E2). unfold gbind at 1, gret at 1.
      erewrite gbind_ok; [|by eapply wrap_err_ok, commit_tx_exec]. done. }
    all: simpl; try done. unfold known. simpl. by rewrite lookup_insert_eq.
  - erewrite gbind_ok; [|apply wrap_err_ok, tx_stmt_uuid_exec; [done|done|];
      unfold insertEventWithIdempotencyKeySQL, insert_event_row; simpl;
      by rewrite Hp, (Hfree _ eq_refl), Hid].
    edestruct Hout as (w2 & E2 & He2 & [t2 Ht2]); cycle 5.
    { rewrite (gbind_ok _ _ _ _ _ E2).
      erewrite gbind_ok; [|by eapply wrap_err_ok, commit_tx_exec]. done. }
    all: simpl; try done. unfold known. simpl. by rewrite lookup_insert_eq.
Qed.

(** C24: Whatever PostgreSQL answers at each step, and whichever replies are lost,
    a request leaves the tables as they were or adds exactly its event, one
    pending outbox row and the STORED and PENDING_PUBLICATION history rows;
    an answer that reports a new event implies they are all there.  No
    transaction stays open, and the constraints of the schema and the pairing of
    every event with an outbox row survive. *)
Theorem persist_atomic req key w r w' :
  w_tx w = None -> schema_ok (w_db w) -> outbox_complete (w_db w) ->
  PersistEventWithOutbox req key w = (r, w') ->
  tx_frame w w' /\
  (w_db w' = w_db w \/
   exists hash id, computeRequestHash (in_EventType req) (in_Source req) (in_Payload req) = Ok hash /\
     ingested req (norm_key key) hash id (w_db w) (w_db w')) /\
  (forall id, r = Ok (mkPersistResult id true) -> exists hash,
     ingested req (norm_key key) hash id (w_db w) (w_db w')) /\
  schema_ok (w_db w') /\ outbox_complete (w_db w').
Proof.
  intros Hw Hok Hc H. apply persist_cases in H as (Hf & Hd & Hr); [|done].
  split_and!; [done|done|..].
  - intros id Hx. destruct (Hr _ Hx) as (hash & _ & Hi). by exists hash.
  - destruct Hd as [->|(h & i & _ & Hi)]; [done|by eapply ingested_schema].
  - destruct Hd as [->|(h & i & _ & Hi)]; [done|by eapply ingested_outbox_complete].
Qed.

(** With servers that answer, a well-formed request under an unused (or
    blank) key is accepted: the call returns a new event id, and the tables hold
    the event with its outbox row and history. *)
Theorem persist_creates req key w hash p :
  w_env w = [] -> w_tx w = None -> schema_ok (w_db w) -> server_ready w ->
  computeRequestHash (in_EventType req) (in_Source req) (in_Payload req) = Ok hash ->
  jsonb_in (in_Payload req) = Some p ->
  (forall k, norm_key key = Some k -> event_by_key (in_Source req) k (w_db w) = None) ->
  exists id w', PersistEventWithOutbox req key w = (Ok (mkPersistResult id true), w') /\
    ingested req (norm_key key) hash id (w_db w) (w_db w').
Proof.
  intros He Hw Hok Hsr Hh Hp Hfree. pose proof (persist_new_exec req key w hash p He Hw Hok Hsr Hh Hp Hfree) as Hx.
  destruct (PersistEventWithOutbox req key w) as [r w'] eqn:E. simpl in Hx. subst r.
  do 2 eexists. split; [done|]. apply persist_cases in E as (_ & _ & Hr); [|done].
  destruct (Hr _ eq_refl) as (hash' & Hh' & Hi). rewrite Hh in Hh'. by injection Hh' as <-.
Qed.

(** C10: Idempotency.  Once a request under a key has been answered, and as long
    as stored events stay stored, any later request of that source under that
    key stores nothing, under every fault; if it is answered, the answer is the
    first event and the two requests have the same hash.  With servers that
    answer, it is answered exactly when the hashes agree, and is otherwise
    refused as an idempotency conflict. *)
Theorem persist_idempotent req key k w x w' req2 key2 w2 r2 w2' :
  w_tx w = None -> norm_key key = Some k -> PersistEventWithOutbox req key w = (Ok x, w') ->
  w_tx w2 = None -> schema_ok (w_db w2) -> events (w_db w') ⊆ events (w_db w2) ->
  in_Source req2 = in_Source req -> norm_key key2 = Some k ->
  PersistEventWithOutbox req2 key2 w2 = (r2, w2') ->
  w_db w2' = w_db w2 /\
  (forall y, r2 = Ok y -> y = mkPersistResult (res_EventID x) false /\
     computeRequestHash (in_EventType req2) (in_Source req2) (in_Payload req2) =
     computeRequestHash (in_EventType req) (in_Source req) (in_Payload req)) /\
  (forall hash2 p, w_env w2 = [] -> jsonb_in (in_Payload req2) = Some p ->
     computeRequestHash (in_EventType req2) (in_Source req2) (in_Payload req2) = Ok hash2 ->
     (computeRequestHash (in_EventType req) (in_Source req) (in_Payload req) = Ok hash2 /\
      r2 = Ok (mkPersistResult (res_EventID x) false)) \/
     (computeRequestHash (in_EventType req) (in_Source req) (in_Payload req) <> Ok hash2 /\
      exists e, r2 = Err e /\ errors_Is e ErrIdempotencyConflict = true)).
Proof.
  intros Hw Hk H Hw2 Hok2 Hsub Hsrc Hk2 H2.
  destruct (proj2 (proj2 (persist_cases _ _ _ _ _ Hw H)) x eq_refl) as (hash & Hh & _).
  destruct (persist_ok_stored _ _ _ _ _ _ Hw H Hh) as (e & He & Hse & Hke & Hhe).
  rewrite Hk in Hke. pose proof (lookup_weaken _ _ _ _ He Hsub) as He2.
  assert (Hse2 : ev_source e = in_Source req2) by congruence.
  pose proof (persist_taken_key _ _ _ _ _ _ _ _ Hw2 Hok2 Hk2 He2 Hse2 Hke H2) as [Hdb Hans].
  split_and!; [done|..].
  - intros y Hy. destruct (Hans y Hy) as (-> & h2 & Hh2 & Hc2). split; [done|]. congruence.
  - intros hash2 p Henv Hp Hh2. pose proof (event_by_key_found _ _ _ _ Hok2 He2 Hke) as Hf.
    rewrite Hse2 in Hf. pose proof (persist_taken_exec _ _ _ _ _ _ _ _ Henv Hw2 Hk2 Hh2 Hp Hf) as Hr.
    rewrite H2 in Hr. simpl in Hr. unfold taken_answer, validateExistingRequestHash in Hr.
    rewrite Hhe in Hr. rewrite Hh. destruct (String.eqb_spec hash hash2) as [->|Hne].
    + by left.
    + right. split; [congruence|]. subst r2. eexists. split; [done|reflexivity].
Qed.

End Facts.

(** ** Runs *)

Definition sample_request : EventInput := mkEventInput "order.created" "shop" "{ }".
Definition sample_request2 : EventInput := mkEventInput "order.cancelled" "shop" "{ }".

(** The second call to the database loses its reply. *)
Definition sample_faults : list reply := [mkReply NoFault 5; mkReply (FailAfter "timeout") 7].

Lemma persist_atomic_witness :
  (PersistEventWithOutbox sample_request " k1 " (sim_world empty_db empty_redis 0 sample_faults [])).1
    = Err (wrapf "insert event with idempotency key" (ErrorString "timeout")) /\
  schema_ok (w_db (PersistEventWithOutbox sample_request " k1 "
               (sim_world empty_db empty_redis 0 sample_faults [])).2).
Proof.
  split; [vm_compute; reflexivity|].
  destruct (PersistEventWithOutbox sample_request " k1 " _) as [r w'] eqn:E.
  apply (persist_atomic (R:=SimRedis) sample_request " k1 " (sim_world empty_db empty_redis 0 sample_faults [])
           _ _ eq_refl empty_db_ok) in E; [tauto|].
  intros id [row Hrow]. discriminate Hrow.
Defined.

Lemma persist_creates_witness : exists id w',
  PersistEventWithOutbox sample_request " k1 " (sim_world empty_db empty_redis 0 [] [])
    = (Ok (mkPersistResult id true), w') /\ exists hash,
  ingested sample_request (Some "k1") hash id empty_db (w_db w').
Proof.
  edestruct (persist_creates (R:=SimRedis) sample_request " k1 " (sim_world empty_db empty_redis 0 [] []))
    as (id & w' & H1 & H2); [reflexivity|reflexivity|apply empty_db_ok| | | | |eauto].
  - split; [reflexivity|reflexivity|vm_compute; eauto].
  - vm_compute. reflexivity.
  - vm_compute. reflexivity.
  - intros k _. reflexivity.
Defined.

(** The second request differs from the first and is refused. *)
Lemma persist_idempotent_witness : exists e,
  (PersistEventWithOutbox sample_request2 "k1"
     (PersistEventWithOutbox sample_request " k1 " (sim_world empty_db empty_redis 0 [] [])).2).1 = Err e /\
  errors_Is e ErrIdempotencyConflict = true.
Proof.
  set (w1 := sim_world empty_db empty_redis 0 [] []).
  destruct (PersistEventWithOutbox sample_request " k1 " w1) as [r w1'] eqn:E. simpl.
  destruct (PersistEventWithOutbox sample_request2 "k1" w1') as [r2 w2'] eqn:E2. simpl.
  pose proof (persist_cases _ _ _ _ _ (eq_refl : w_tx w1 = None) E) as ((Hf & _) & Hd & _).
  assert (r = Ok (mkPersistResult "00000000-0000-4000-8000-000000000000" true)) as ->.
  { change r with (r, w1').1. rewrite <- E. vm_compute. reflexivity. }
  assert (w_env w1' = []) as Henv.
  { change w1' with (Ok (E:=error) (mkPersistResult "00000000-0000-4000-8000-000000000000" true), w1').2.
    rewrite <- E. vm_compute. reflexivity. }
  assert (Hok : schema_ok (w_db w1')).
  { destruct Hd as [->|(h & i & _ & Hi)]; [apply empty_db_ok|].
    eapply ingested_schema; [apply empty_db_ok|done]. }
  edestruct (persist_idempotent sample_request " k1 " "k1" w1 _ w1' sample_request2 "k1" w1' r2 w2'
    eq_refl eq_refl E Hf Hok (reflexivity _) eq_refl eq_refl E2) as (_ & _ & H).
  edestruct H as [[Hh _]|[_ He]]; [exact Henv|..]; [vm_compute; reflexivity|vm_compute; reflexivity| |exact He].
  exfalso. vm_compute in Hh. discriminate.
Defined.

End Ingestion.
