(* ===== verification/Samples.v ===== *)
(** * Samples: concrete worlds the runs of the components start from *)

From S2P Require Import Prelude GoStrings GoErrors Json Database DatabaseFacts RedisServer World.
From S2P Require Import WorldFacts RedisFacts Simulation Operations Ingestion.
Import Operations Ingestion.

(** A database that one accepted request has been stored in. *)
Definition stored_run := PersistEventWithOutbox sample_request "" (sim_world empty_db empty_redis 0 [] []).
Definition stored_db : DB := Eval vm_compute in w_db stored_run.2.
Definition stored_id : string := sim_uuid_v4 0.
Definition stored_outbox_id : string := sim_uuid_v4 1.
Definition stored_row : OutboxRow := mkOutboxRow stored_id "pending" 0 0 None None 0 0.

Lemma persist_schema req key (w : World SimRedis) :
  w_tx w = None -> schema_ok (w_db w) -> schema_ok (w_db (PersistEventWithOutbox req key w).2).
Proof.
  intros Hw Hok. destruct (PersistEventWithOutbox req key w) as [r w'] eqn:E.
  destruct (persist_cases _ _ _ _ _ Hw E) as (_ & [Hd|(h & i & _ & Hi)] & _); simpl; [by rewrite Hd|].
  by eapply ingested_schema.
Qed.

Lemma stored_db_ok : schema_ok stored_db.
Proof.
  assert (stored_db = w_db stored_run.2) as -> by (vm_compute; reflexivity).
  apply persist_schema; [done|apply empty_db_ok].
Qed.

(** The same request twice, one second later *)
Definition stored_twice_run :=
  PersistEventWithOutbox sample_request "" (with_uuid 2 (sim_world stored_db empty_redis 1000000000 [] [])).
Definition stored_twice_db : DB := Eval vm_compute in w_db stored_twice_run.2.

Lemma stored_twice_db_ok : schema_ok stored_twice_db.
Proof.
  assert (stored_twice_db = w_db stored_twice_run.2) as -> by (vm_compute; reflexivity).
  apply persist_schema; [done|apply stored_db_ok].
Qed.

(** ** Runs of the operational store *)

Definition the_store : option Store := Some (mkStore (Some ThePool)).

(** The stored event after its delivery was given up. *)
Definition dead_letter : DeadLetterRecord :=
  mkDeadLetterRecord (mkDeliveryAttemptRecord stored_id "1-0" 4 (Some 503)
    (Some (ErrorString "Service Unavailable")) 1000000 2000000) "1-0".
Definition dead_run := RecordDeadLettered the_store dead_letter (sim_world stored_db empty_redis 3000000 [] []).
Definition dead_db : DB := Eval vm_compute in w_db dead_run.2.

Lemma dead_db_ok : schema_ok dead_db.
Proof.
  assert (dead_db = w_db dead_run.2) as -> by (vm_compute; reflexivity).
  refine (proj1 (proj2 (proj2 (proj2 (Record_schema (R:=SimRedis) the_store))) dead_letter
    (sim_world stored_db empty_redis 3000000 [] []) _)).
  split; [apply stored_db_ok|done].
Qed.


Lemma event_status_current_witness : exists st w',
  EventStatus the_store stored_id (sim_world dead_db empty_redis 0 [] []) = (Ok st, w') /\
  es_CurrentStatus st = StatusDeadLettered /\ w_db w' = dead_db.
Proof.
  destruct (EventStatus the_store stored_id (sim_world dead_db empty_redis 0 [] [])) as [r w'] eqn:E.
  assert (Hr : is_ok (r, w').1 = true) by (rewrite <- E; vm_compute; reflexivity).
  destruct r as [st|]; [|done]. exists st, w'. split; [done|].
  destruct (event_status_current _ _ _ _ _ E) as (Hdb & u & row & Hu & _ & _ & _ & _ & _ & Hc).
  split; [|exact Hdb]. rewrite Hc. vm_compute in Hu. injection Hu as <-. vm_compute. reflexivity.
Defined.

Lemma list_dlq_page_witness : exists l w',
  ListDLQ the_store DLQStatusOpen 50 (sim_world dead_db empty_redis 0 [] []) = (Ok l, w') /\
  map dr_EventID l = [stored_id] /\ w_db w' = dead_db.
Proof.
  destruct (ListDLQ the_store DLQStatusOpen 50 (sim_world dead_db empty_redis 0 [] [])) as [r w'] eqn:E.
  destruct (list_dlq_page _ _ _ _ _ _ E) as (Hdb & _).
  assert (Hr : match (r, w').1 with Ok l => map dr_EventID l = [stored_id] | Err _ => False end)
    by (rewrite <- E; vm_compute; reflexivity).
  destruct r as [l|]; [|done]. exists l, w'. split_and!; done.
Defined.

Lemma metrics_consistent_witness : exists m w',
  MetricsSummary the_store (sim_world dead_db empty_redis 0 [] []) = (Ok m, w') /\
  OpenDLQ m + Redriven m = 1 /\ TotalEvents m = 1.
Proof.
  destruct (MetricsSummary the_store (sim_world dead_db empty_redis 0 [] [])) as [r w'] eqn:E.
  assert (Hr : is_ok (r, w').1 = true) by (rewrite <- E; vm_compute; reflexivity).
  destruct r as [m|]; [|done]. exists m, w'. split; [done|].
  destruct (metrics_consistent the_store (sim_world dead_db empty_redis 0 [] []) m w' dead_db_ok E)
    as (_ & Ht & _ & _ & _ & Hd & _). split; [rewrite Hd|rewrite Ht]; vm_compute; reflexivity.
Defined.
