(* ===== verification/IngestionSpec.v ===== *)
(** * IngestionSpec: what ingestion promises, and that it keeps the promise

    The abstract store is a map of events and a map from (source, idempotency
    key) to the event first stored under it; a request is one atomic step of it,
    and a request that failed may or may not have happened.  [PersistEventWithOutbox]
    with its transactions, retried or not and under every fault, refines it. *)

From S2P Require Import Prelude GoStrings GoErrors Database DatabaseFacts RedisServer World WorldFacts Simulation.
From S2P Require Import Operations Ingestion Samples.
Import Operations Ingestion.

Module IngestionSpec.

(** ** The abstract store *)

Record IdemStore := mkIdemStore {
  st_events : gmap string (string * string * string);
  st_keys : gmap (string * string) (string * option string);
}.

Definition empty_store : IdemStore := mkIdemStore ∅ ∅.

Inductive answer := Answered (id : string) (created : bool) | Conflict | Failed.

Definition store_add (req : EventInput) (key : option string) (p hash id : string) (s : IdemStore) : IdemStore :=
  mkIdemStore (<[id := (in_EventType req, in_Source req, p)]> (st_events s))
    (match key with Some k => <[(in_Source req, k) := (id, Some hash)]> (st_keys s) | None => st_keys s end).

Section Spec.
Context {SC : Strconv} {PG : Postgres}.

Definition request_hash (req : EventInput) : res error string :=
  computeRequestHash (in_EventType req) (in_Source req) (in_Payload req).

(** A new event: a fresh id, and a key that is not taken *)
Definition can_add (req : EventInput) (key : option string) (p hash id : string) (s : IdemStore) : Prop :=
  request_hash req = Ok hash /\ jsonb_in (in_Payload req) = Some p /\ st_events s !! id = None /\
  forall k, key = Some k -> st_keys s !! (in_Source req, k) = None.

Inductive spec_step (req : EventInput) (key : option string) : answer -> IdemStore -> IdemStore -> Prop :=
| spec_created p hash id s :
    can_add req key p hash id s -> spec_step req key (Answered id true) s (store_add req key p hash id s)
| spec_repeated k id hash s :
    key = Some k -> request_hash req = Ok hash -> st_keys s !! (in_Source req, k) = Some (id, Some hash) ->
    spec_step req key (Answered id false) s s
| spec_conflict k id hash h s :
    key = Some k -> request_hash req = Ok hash -> st_keys s !! (in_Source req, k) = Some (id, h) -> h <> Some hash ->
    spec_step req key Conflict s s
| spec_failed s : spec_step req key Failed s s
| spec_unreported p hash id s :
    can_add req key p hash id s -> spec_step req key Failed s (store_add req key p hash id s).

Inductive spec_run : list (EventInput * string) -> list answer -> IdemStore -> IdemStore -> Prop :=
| run_nil s : spec_run [] [] s s
| run_cons req key a reqs answers s1 s2 s3 :
    spec_step req (norm_key key) a s1 s2 -> spec_run reqs answers s2 s3 ->
    spec_run ((req, key) :: reqs) (a :: answers) s1 s3.

(** ** Consequences of the specification *)

(** A key once given stays with its event. *)
Lemma spec_step_keys req key a s s' sk v :
  spec_step req key a s s' -> st_keys s !! sk = Some v -> st_keys s' !! sk = Some v.
Proof.
  assert (forall p hash id, can_add req key p hash id s -> st_keys s !! sk = Some v ->
    st_keys (store_add req key p hash id s) !! sk = Some v) as Hadd.
  { intros p hash id (_ & _ & _ & Hk) Hv. simpl. destruct key as [k|]; [|done].
    rewrite lookup_insert_ne; [done|]. intros <-. by rewrite (Hk k eq_refl) in Hv. }
  destruct 1; eauto.
Qed.

Lemma spec_run_keys reqs answers s s' sk v :
  spec_run reqs answers s s' -> st_keys s !! sk = Some v -> st_keys s' !! sk = Some v.
Proof. induction 1; [done|]. intros Hv. eauto using spec_step_keys. Qed.

(** An answer names the event of its key, with the hash of the request. *)
Lemma spec_step_answer req k id b s s' :
  spec_step req (Some k) (Answered id b) s s' ->
  exists hash, request_hash req = Ok hash /\ st_keys s' !! (in_Source req, k) = Some (id, Some hash).
Proof.
  intros Hs. inversion Hs as [p hash id' s1 Hc|k' id' hash s1 Hk Hh Hl| | |]; simplify_eq.
  - destruct Hc as (Hh & _). exists hash. split; [done|]. simpl. by rewrite lookup_insert_eq.
  - eauto.
Qed.

Lemma spec_run_answers reqs answers s s' :
  spec_run reqs answers s s' ->
  forall i req key k id b, reqs !! i = Some (req, key) -> norm_key key = Some k -> answers !! i = Some (Answered id b) ->
  exists hash, request_hash req = Ok hash /\ st_keys s' !! (in_Source req, k) = Some (id, Some hash).
Proof.
  induction 1 as [|req key a reqs answers s1 s2 s3 Hstep Hrun IH]; [done|].
  intros [|i] req' key' k id b Hr Hk Ha; simplify_eq/=; [|by eapply IH].
  rewrite Hk in Hstep. destruct (spec_step_answer _ _ _ _ _ _ Hstep) as (hash & Hh & Hl).
  exists hash. split; [done|]. by eapply spec_run_keys.
Qed.
End Spec.

(** ** Refinement *)

Section Refinement.
Context {SC : Strconv} {PG : Postgres} {R : Type}.
Abbreviation W := (World R).
Implicit Types w : W.

Definition answer_of (r : res error PersistResult) : answer :=
  match r with
  | Ok x => Answered (res_EventID x) (Created x)
  | Err e => if errors_Is e ErrIdempotencyConflict then Conflict else Failed
  end.

(** Requests one after the other, in the world each leaves behind *)
Fixpoint serve (reqs : list (EventInput * string)) (w : W) : list answer * W :=
  match reqs with
  | [] => ([], w)
  | (req, key) :: rest =>
      let '(r, w1) := PersistEventWithOutbox req key w in
      let '(answers, w2) := serve rest w1 in (answer_of r :: answers, w2)
  end.

(** The tables hold the events and the keys of the abstract store. *)
Record represents (s : IdemStore) (db : DB) : Prop := {
  rep_schema : schema_ok db;
  rep_events : forall id, st_events s !! id =
    (fun e => (ev_event_type e, ev_source e, ev_payload e)) <$> events db !! id;
  rep_keys : forall src k, st_keys s !! (src, k) =
    (fun ie => (ie.1, ev_request_hash ie.2)) <$> event_by_key src k db;
}.

Lemma represents_empty : represents empty_store empty_db.
Proof.
  split; [apply empty_db_ok|done|]. intros src k.
  assert (event_by_key src k empty_db = None) as ->; [|done]. by apply event_by_key_None.
Qed.

(** The row found for a key after an insertion *)
Lemma event_by_key_insert src k id row db db' :
  schema_ok db -> schema_ok db' -> events db' = <[id := row]> (events db) -> events db !! id = None ->
  event_by_key src k db' =
    if decide (ev_source row = src /\ ev_idempotency_key row = Some k) then Some (id, row) else event_by_key src k db.
Proof.
  intros Hok Hok' He Hn. destruct (decide _) as [[<- Hk]|Hne].
  { apply event_by_key_found; [done| |done]. by rewrite He, lookup_insert_eq. }
  destruct (event_by_key src k db) as [[i e]|] eqn:E.
  - apply event_by_key_Some in E as (Hi & <- & Hke). apply event_by_key_found; [done| |done].
    rewrite He, lookup_insert_ne; [done|]. intros ->. by rewrite Hn in Hi.
  - rewrite event_by_key_None in E |- *. intros i e Hi Hs Hk. rewrite He in Hi.
    apply lookup_insert_Some in Hi as [[-> ->]|[_ Hi]]; [by apply Hne|by eapply E].
Qed.

(** A row for a request, with a fresh id and an unused key, is a new event of the
    store. *)
Lemma insert_refines req key hash id p now s db db' :
  represents s db -> request_hash req = Ok hash -> jsonb_in (in_Payload req) = Some p ->
  events db !! id = None -> (forall k, key = Some k -> event_by_key (in_Source req) k db = None) ->
  schema_ok db' ->
  events db' = <[id := mkEventRow (in_EventType req) (in_Source req) p now key (Some hash)]> (events db) ->
  can_add req key p hash id s /\ represents (store_add req key p hash id s) db'.
Proof.
  intros [Hok Hev Hke] Hh Hp Hn Hk Hok' He. split.
  - split_and!; [done|done|by rewrite Hev, Hn|]. intros k ->. rewrite Hke, Hk; done.
  - split; [done| |].
    + intros i. simpl. rewrite He. destruct (decide (i = id)) as [->|Hne]; [by rewrite !lookup_insert_eq|].
      rewrite !lookup_insert_ne by done. apply Hev.
    + intros src k. rewrite (event_by_key_insert src k id _ db db' Hok Hok' He Hn). simpl.
      destruct key as [k0|]; cycle 1.
      { rewrite decide_False by (intros [_ ?]; done). apply Hke. }
      destruct (decide (in_Source req = src /\ Some k0 = Some k)) as [[<- [= <-]]|Hne]; [by rewrite lookup_insert_eq|].
      rewrite lookup_insert_ne; [apply Hke|]. intros [= <- <-]. by apply Hne.
Qed.

(** A stored request is a new event of the store. *)
Lemma ingested_refines req key hash id s db db' :
  represents s db -> request_hash req = Ok hash -> ingested req key hash id db db' ->
  exists p, can_add req key p hash id s /\ represents (store_add req key p hash id s) db'.
Proof.
  intros Hrep Hh Hi. pose proof (ingested_schema _ _ _ _ _ _ (rep_schema _ _ Hrep) Hi) as Hok'.
  destruct Hi as (oid & now & p & j & _ & _ & Hn & _ & _ & Hk & Hp & Hdb). exists p.
  eapply insert_refines; eauto. by rewrite Hdb.
Qed.

Lemma persist_refines req key w r w' s :
  w_tx w = None -> represents s (w_db w) -> PersistEventWithOutbox req key w = (r, w') ->
  w_tx w' = None /\ exists s', spec_step req (norm_key key) (answer_of r) s s' /\ represents s' (w_db w').
Proof.
  intros Hw Hrep HP. pose proof (persist_cases _ _ _ _ _ Hw HP) as ((Htx & _) & Hdb & Hok). split; [done|].
  destruct r as [x|e]; unfold answer_of.
  - destruct (Hok x eq_refl) as (hash & Hh & Hc). destruct (Created x).
    + destruct (ingested_refines _ _ _ _ _ _ _ Hrep Hh Hc) as (p & Hadd & Hrep'). eauto using spec_step.
    + destruct Hc as (-> & k & row & Hk & Hby & Hr). exists s. split; [|done].
      eapply spec_repeated; [done|exact Hh|]. by rewrite (rep_keys _ _ Hrep), Hby, <- Hr.
  - destruct (errors_Is e ErrIdempotencyConflict) eqn:Ee.
    + destruct (persist_conflict _ _ _ _ _ Hw HP Ee) as (-> & k & id & row & hash & Hk & Hby & Hh & Hne).
      exists s. split; [|done]. eapply spec_conflict; [done|exact Hh| |exact Hne].
      by rewrite (rep_keys _ _ Hrep), Hby.
    + destruct Hdb as [->|(hash & id & Hh & Hi)]; [eauto using spec_step|].
      destruct (ingested_refines _ _ _ _ _ _ _ Hrep Hh Hi) as (p & Hadd & Hrep'). eauto using spec_step.
Qed.

Lemma serve_refines reqs : forall w answers w' s,
  w_tx w = None -> represents s (w_db w) -> serve reqs w = (answers, w') ->
  exists s', spec_run reqs answers s s' /\ represents s' (w_db w').
Proof.
  induction reqs as [|[req key] reqs IH]; intros w answers w' s Hw Hrep HS; simpl in HS.
  { simplify_eq. eauto using spec_run. }
  destruct (PersistEventWithOutbox req key w) as [r w1] eqn:HP. destruct (serve reqs w1) as [rest w2] eqn:HS'. simplify_eq.
  destruct (persist_refines _ _ _ _ _ _ Hw Hrep HP) as (Hw1 & s1 & Hstep & Hrep1).
  destruct (IH _ _ _ _ Hw1 Hrep1 HS') as (s' & Hrun & Hrep'). eauto using spec_run.
Qed.

(** C14: ingestion refines an idempotent store.  Any sequence of requests, retries
    included, with any failures of PostgreSQL and lost replies, is answered as the
    abstract store answers it when every request is one atomic step and a failed
    one happened or did not, and the tables represent the store it ends in.  So
    any two answered requests of one source under one key name the same event and
    have the same hash, however many attempts failed in between. *)
Theorem ingestion_refines reqs w answers w' s :
  w_tx w = None -> represents s (w_db w) -> serve reqs w = (answers, w') ->
  (exists s', spec_run reqs answers s s' /\ represents s' (w_db w')) /\
  forall i j req1 key1 req2 key2 k id1 id2 b1 b2,
    reqs !! i = Some (req1, key1) -> reqs !! j = Some (req2, key2) ->
    in_Source req1 = in_Source req2 -> norm_key key1 = Some k -> norm_key key2 = Some k ->
    answers !! i = Some (Answered id1 b1) -> answers !! j = Some (Answered id2 b2) ->
    id1 = id2 /\ request_hash req1 = request_hash req2.
Proof.
  intros Hw Hrep HS. destruct (serve_refines _ _ _ _ _ Hw Hrep HS) as (s' & Hrun & Hrep'). split; [eauto|].
  intros i j req1 key1 req2 key2 k id1 id2 b1 b2 H1 H2 Hsrc Hk1 Hk2 Ha1 Ha2.
  destruct (spec_run_answers _ _ _ _ Hrun _ _ _ _ _ _ H1 Hk1 Ha1) as (h1 & Hh1 & Hl1).
  destruct (spec_run_answers _ _ _ _ Hrun _ _ _ _ _ _ H2 Hk2 Ha2) as (h2 & Hh2 & Hl2).
  rewrite Hsrc, Hl2 in Hl1. simplify_eq. by rewrite Hh1, Hh2.
Qed.

End Refinement.

(** The commit of the first attempt is not reported; the retry finds the event. *)
Lemma ingestion_refines_witness :
  let reqs := [(sample_request, "k1"); (sample_request, "k1")] in
  let w := sim_world empty_db empty_redis 0 (repeat (mkReply NoFault 1) 5 ++ [mkReply (FailAfter "conn reset") 1]) [] in
  let run := serve reqs w in
  run.1 = [Failed; Answered stored_id false] /\
  exists s', spec_run reqs run.1 empty_store s' /\ represents s' (w_db run.2).
Proof.
  cbv zeta. set (w := sim_world _ _ _ _ _). split; [vm_compute; reflexivity|].
  destruct (serve _ w) as [answers w'] eqn:E.
  exact (proj1 (ingestion_refines _ w answers w' empty_store eq_refl represents_empty E)).
Defined.

End IngestionSpec.
