(* ===== verification/Interleaving.v ===== *)
(** * Interleaving: requests that overlap, statement by statement

    [Ingestion] runs a request as one operation.  Here the same code is a program
    whose calls to PostgreSQL are visible ([persist_prog], shown equal to
    [PersistEventWithOutbox] when it runs alone), and a server executes the calls
    of any number of such programs in any order, with one transaction for each:
    READ COMMITTED, every statement sees what is committed and the rows of its own
    transaction, and an insertion that collides with an uncommitted row of another
    transaction waits until that one ends. *)

From S2P Require Import Prelude GoStrings GoErrors Json Database DatabaseFacts RedisServer World WorldFacts.
From S2P Require Import Simulation Operations Ingestion Samples.
Import Operations Ingestion.

Module Interleaving.

(** ** Programs *)

(** A call and what is done with its answer.  [generates] says whether the
    statement evaluates [uuid_generate_v4()]. *)
Inductive prog (X : Type) : Type :=
| Ret (r : res error X)
| Begin (k : res error unit -> prog X)
| Stmt {A : Type} (generates : bool) (stmt : string -> Z -> DB -> res error (A * DB))
    (k : res error A -> prog X)
| Commit (k : res error unit -> prog X)
| Rollback (k : prog X).
Arguments Ret {X} r.
Arguments Begin {X} k.
Arguments Stmt {X A} generates stmt k.
Arguments Commit {X} k.
Arguments Rollback {X} k.

Fixpoint pbind {X Y} (p : prog X) (f : X -> prog Y) : prog Y :=
  match p with
  | Ret (Ok x) => f x
  | Ret (Err e) => Ret (Err e)
  | Begin k => Begin (fun r => pbind (k r) f)
  | Stmt g s k => Stmt g s (fun r => pbind (k r) f)
  | Commit k => Commit (fun r => pbind (k r) f)
  | Rollback k => Rollback (pbind k f)
  end.

Fixpoint pwrap {X} (f : error -> error) (p : prog X) : prog X :=
  match p with
  | Ret r => Ret (res_map_err f r)
  | Begin k => Begin (fun r => pwrap f (k r))
  | Stmt g s k => Stmt g s (fun r => pwrap f (k r))
  | Commit k => Commit (fun r => pwrap f (k r))
  | Rollback k => Rollback (pwrap f k)
  end.

(** [defer tx.Rollback(ctx)] *)
Fixpoint pdefer {X} (p : prog X) : prog X :=
  match p with
  | Ret r => Rollback (Ret r)
  | Begin k => Begin (fun r => pdefer (k r))
  | Stmt g s k => Stmt g s (fun r => pdefer (k r))
  | Commit k => Commit (fun r => pdefer (k r))
  | Rollback k => Rollback (pdefer k)
  end.

Definition pstmt {A} (stmt : Z -> DB -> res error (A * DB)) : prog A := Stmt false (fun _ => stmt) Ret.
Definition pstmt_uuid {A} (stmt : string -> Z -> DB -> res error (A * DB)) : prog A := Stmt true stmt Ret.

Declare Scope prog_scope.
Delimit Scope prog_scope with prog.
#[local] Open Scope prog_scope.
Notation "'let?' x := m 'in' k" := (pbind m (fun x => k))
  (at level 10, x pattern, m at level 99, k at level 200) : prog_scope.

Section Programs.
Context {SC : Strconv} {PG : Postgres}.

Definition history_prog (eventID status : string) (details : option (list (string * json))) : prog unit :=
  pwrap (wrapf ("insert status " +:+ status +:+ " for event " +:+ eventID))
    (pstmt (fun now db =>
       res_bind (insertHistorySQL now eventID status (marshalDetails details) db)
                (fun db' => Ok (tt, db')))).

Definition outbox_prog (eventID : string) : prog unit :=
  let? _ := pwrap (wrapf ("insert outbox row for event " +:+ eventID))
              (pstmt_uuid (fun id now db =>
                 res_bind (insertOutboxSQL id now eventID db) (fun db' => Ok (tt, db')))) in
  let? _ := history_prog eventID StatusStored None in
  let? _ := history_prog eventID StatusPendingPublication None in
  Ret (Ok tt).

Definition keyless_prog (req : EventInput) (requestHash : string) : prog PersistResult :=
  let? eventID := pwrap (wrapf "insert event without idempotency key")
                    (pstmt_uuid (fun id now db =>
                       insertEventWithoutIdempotencyKeySQL id now (in_EventType req) (in_Source req)
                         (in_Payload req) requestHash db)) in
  let? _ := outbox_prog eventID in
  Ret (Ok (mkPersistResult eventID true)).

(** The row found is compared with the request. *)
Definition check_row (source incomingHash : string) (row : option (string * string * bool)) : res error string :=
  match row with
  | None => Err (wrapf "lookup existing event for idempotency key" (Sentinel pgxErrNoRows))
  | Some (eventID, existingHashValue, existingHashValid) =>
      let existingHash := if existingHashValid : bool then Some existingHashValue else None in
      match validateExistingRequestHash existingHash incomingHash with
      | Ok _ => Ok eventID
      | Err e => Err (wrap_suffix (" for source " +:+ Quote source +:+ " event " +:+ eventID) e)
      end
  end.

Definition lookup_prog (source idempotencyKey incomingHash : string) : prog string :=
  let? row := pwrap (wrapf "lookup existing event for idempotency key")
                (pstmt (fun _ db => Ok (selectEventByIdempotencyKeySQL source idempotencyKey db, db))) in
  Ret (check_row source incomingHash row).

(** From the insertion on *)
Definition tx_prog (req : EventInput) (normalizedKey requestHash : string) : prog PersistResult :=
  if String.eqb normalizedKey "" then
    let? result := keyless_prog req requestHash in
    let? _ := pwrap (wrapf "commit new event without idempotency key") (Commit Ret) in
    Ret (Ok result)
  else
    let? inserted := pwrap (wrapf "insert event with idempotency key")
                       (pstmt_uuid (fun id now db =>
                          insertEventWithIdempotencyKeySQL id now (in_EventType req) (in_Source req)
                            (in_Payload req) normalizedKey requestHash db)) in
    match inserted with
    | Some eventID =>
        let? _ := outbox_prog eventID in
        let? _ := pwrap (wrapf "commit new event with idempotency key") (Commit Ret) in
        Ret (Ok (mkPersistResult eventID true))
    | None =>
        let? eventID := lookup_prog (in_Source req) normalizedKey requestHash in
        let? _ := pwrap (wrapf "commit existing idempotent event lookup") (Commit Ret) in
        Ret (Ok (mkPersistResult eventID false))
    end.

Definition persist_prog (req : EventInput) (idempotencyKey : string) : prog PersistResult :=
  let? requestHash := pwrap (wrapf "compute request hash")
                        (Ret (computeRequestHash (in_EventType req) (in_Source req) (in_Payload req))) in
  let? _ := pwrap (wrapf "begin persist event transaction") (Begin Ret) in
  pdefer (tx_prog req (TrimSpace idempotencyKey) requestHash).

(** ** A program that runs alone *)

Context {R : Type}.
Abbreviation M := (M (R:=R)).
Abbreviation W := (World R).

Fixpoint alone {X} (p : prog X) : M X :=
  match p with
  | Ret r => lift_res r
  | Begin k => fun w => let '(r, w') := begin_tx w in alone (k r) w'
  | Stmt g s k => fun w =>
      let '(r, w') := (if g : bool then tx_stmt_uuid s else tx_stmt (s "")) w in alone (k r) w'
  | Commit k => fun w => let '(r, w') := commit_tx w in alone (k r) w'
  | Rollback k => fun w => alone k (with_tx None w)
  end.

(** Computations that agree on every world *)
Definition same {X} : relation (M X) := pointwise_relation W eq.

#[local] Instance same_equivalence X : Equivalence (@same X).
Proof. unfold same. apply _. Qed.

#[local] Instance gbind_same X Y :
  Proper (same ==> pointwise_relation X same ==> same) (@gbind error W X Y).
Proof. intros m m' Hm k k' Hk w. unfold gbind. rewrite Hm. destruct (m' w) as [[x|e] w']; [apply Hk|done]. Qed.

#[local] Instance wrap_same X f : Proper (same ==> same) (@wrap_err error W X f).
Proof. intros m m' Hm w. unfold wrap_err. by rewrite Hm. Qed.

#[local] Instance rollback_same X : Proper (same ==> same) (@deferred_rollback R X).
Proof. intros m m' Hm w. unfold deferred_rollback, defer. by rewrite Hm. Qed.

Ltac alone_calls IH :=
  intros w; simpl; try done;
  match goal with |- context [let '(_, _) := ?m in _] => destruct m as [r' w'] end; apply IH.

Lemma alone_bind {X Y} (p : prog X) (f : X -> prog Y) :
  same (alone (pbind p f)) (gbind (alone p) (fun x => alone (f x))).
Proof.
  induction p as [[x|e]|k IH|A g s k IH|k IH|k IH]; try done; unfold gbind.
  1-3: alone_calls IH.
  intros w. apply IH.
Qed.

Lemma alone_wrap {X} f (p : prog X) : same (alone (pwrap f p)) (wrap_err f (alone p)).
Proof.
  induction p as [r|k IH|A g s k IH|k IH|k IH]; try done; unfold wrap_err.
  1-3: alone_calls IH.
  intros w. apply IH.
Qed.

Lemma alone_defer {X} (p : prog X) : same (alone (pdefer p)) (deferred_rollback (alone p)).
Proof.
  induction p as [r|k IH|A g s k IH|k IH|k IH]; try done; unfold deferred_rollback, defer.
  1-3: alone_calls IH.
  intros w. apply IH.
Qed.

Lemma alone_stmt {A} (stmt : Z -> DB -> res error (A * DB)) : same (alone (pstmt stmt)) (tx_stmt stmt).
Proof. intros w. simpl. by destruct (tx_stmt stmt w). Qed.

Lemma alone_stmt_uuid {A} (stmt : string -> Z -> DB -> res error (A * DB)) :
  same (alone (pstmt_uuid stmt)) (tx_stmt_uuid stmt).
Proof. intros w. simpl. by destruct (tx_stmt_uuid stmt w). Qed.

Lemma alone_begin : same (alone (Begin Ret)) begin_tx.
Proof. intros w. simpl. by destruct (begin_tx w). Qed.

Lemma alone_commit : same (alone (Commit Ret)) commit_tx.
Proof. intros w. simpl. by destruct (commit_tx w). Qed.

(** Push [alone] through a program. *)
Ltac alone_all :=
  repeat (setoid_rewrite alone_bind || setoid_rewrite alone_wrap || setoid_rewrite alone_defer ||
          setoid_rewrite alone_stmt || setoid_rewrite alone_stmt_uuid || setoid_rewrite alone_begin ||
          setoid_rewrite alone_commit).

Lemma outbox_alone e : same (alone (outbox_prog e)) (insertOutboxForEvent e).
Proof. unfold outbox_prog, history_prog. alone_all. reflexivity. Qed.
#[local] Opaque outbox_prog.

Lemma keyless_alone req hash : same (alone (keyless_prog req hash)) (insertEventWithoutKeyWithOutbox req hash).
Proof. unfold keyless_prog. alone_all. setoid_rewrite outbox_alone. reflexivity. Qed.
#[local] Opaque keyless_prog.

Lemma lookup_alone src k hash :
  same (alone (lookup_prog src k hash)) (existingEventIDForMatchingRequestHash src k hash).
Proof.
  unfold lookup_prog, existingEventIDForMatchingRequestHash. alone_all. intros w. unfold gbind, wrap_err, run_query.
  destruct (tx_stmt _ w) as [[[[[id h] b]|]|e] w1]; simpl; try done. unfold lift_res.
  by destruct (validateExistingRequestHash _ _) as [[]|].
Qed.
#[local] Opaque lookup_prog.

Lemma tx_alone req k hash :
  same (alone (tx_prog req k hash)) (
    if String.eqb k "" then
      let! result := insertEventWithoutKeyWithOutbox req hash in
      let! _ := wrap_err (wrapf "commit new event without idempotency key") commit_tx in
      gret result
    else
      let! inserted := wrap_err (wrapf "insert event with idempotency key")
                         (tx_stmt_uuid (fun id now db =>
                            insertEventWithIdempotencyKeySQL id now (in_EventType req) (in_Source req)
                              (in_Payload req) k hash db)) in
      match inserted with
      | Some eventID =>
          let! _ := insertOutboxForEvent eventID in
          let! _ := wrap_err (wrapf "commit new event with idempotency key") commit_tx in
          gret (mkPersistResult eventID true)
      | None =>
          let! eventID := existingEventIDForMatchingRequestHash (in_Source req) k hash in
          let! _ := wrap_err (wrapf "commit existing idempotent event lookup") commit_tx in
          gret (mkPersistResult eventID false)
      end).
Proof.
  unfold tx_prog. destruct (String.eqb k "").
  - alone_all. setoid_rewrite keyless_alone. reflexivity.
  - alone_all. apply gbind_same; [reflexivity|]. intros [id|].
    + alone_all. setoid_rewrite outbox_alone. reflexivity.
    + alone_all. setoid_rewrite lookup_alone. reflexivity.
Qed.
#[local] Opaque tx_prog.

#[local] Transparent outbox_prog keyless_prog lookup_prog tx_prog.
End Programs.

(** ** Tables in layers

    What a transaction has written is a layer on top of what is committed; its
    rows replace those with the same key, and follow those of the append-only
    tables. *)

Definition layer (own db : DB) : DB :=
  mkDB (events own ∪ events db) (outbox own ∪ outbox db) (status_history db ++ status_history own)
    (delivery_attempts db ++ delivery_attempts own) (dlq_records own ∪ dlq_records db).

(** The rows of [m'] that are not in [m] *)
Definition changed {A} `{EqDecision A} (m m' : gmap string A) : gmap string A :=
  filter (fun kv => m !! kv.1 <> Some kv.2) m'.

Lemma changed_refl {A} `{EqDecision A} (m : gmap string A) : changed m m = ∅.
Proof. apply map_empty. intros i. apply map_lookup_filter_None. right. intros x Hx ?. by simpl in *. Qed.

Lemma changed_insert {A} `{EqDecision A} (m : gmap string A) k v :
  m !! k <> Some v -> changed m (<[k := v]> m) = {[k := v]}.
Proof.
  intros Hk. apply map_eq. intros i. unfold changed. destruct (decide (i = k)) as [->|Hne].
  - rewrite lookup_singleton_eq. apply map_lookup_filter_Some. by rewrite lookup_insert_eq.
  - rewrite lookup_singleton_ne by done. apply map_lookup_filter_None. right. intros x Hx. simpl.
    rewrite lookup_insert_ne in Hx by done. naive_solver.
Qed.

(** What a statement wrote, from the tables before and after it *)
Definition written (db db' : DB) : DB :=
  mkDB (changed (events db) (events db')) (changed (outbox db) (outbox db'))
    (drop (length (status_history db)) (status_history db'))
    (drop (length (delivery_attempts db)) (delivery_attempts db'))
    (changed (dlq_records db) (dlq_records db')).

(** The ids of history rows come from a sequence, which all transactions share. *)
Definition number_history (seq : Z) (db : DB) : DB :=
  set_history (imap (fun i h => mkHistoryRow (seq + Z.of_nat i + 1) (h_event_id h) (h_status h) (h_details h)
                                  (h_created_at h)) (status_history db)) db.

(** Two layers collide in a primary key or in a unique index. *)
Definition share_key {A} (m m' : gmap string A) : bool := negb (bool_decide (dom m ∩ dom m' = ∅)).

Definition any_pair {A} (same : A -> A -> bool) (m m' : gmap string A) : bool :=
  existsb (fun x => existsb (same x) (map snd (map_to_list m'))) (map snd (map_to_list m)).

Definition same_idempotency_key (a b : EventRow) : bool :=
  String.eqb (ev_source a) (ev_source b) &&
  match ev_idempotency_key a, ev_idempotency_key b with
  | Some k, Some k' => String.eqb k k'
  | _, _ => false
  end.

Definition collide (a b : DB) : bool :=
  share_key (events a) (events b) || any_pair same_idempotency_key (events a) (events b) ||
  share_key (outbox a) (outbox b) ||
  any_pair (fun x y => String.eqb (ob_event_id x) (ob_event_id y)) (outbox a) (outbox b) ||
  share_key (dlq_records a) (dlq_records b).

(** ** The server *)

Record OpenTx := mkOpenTx { own : DB; began : Z }.

Record Server := mkServer {
  sv_db : DB; sv_txs : gmap nat OpenTx; sv_uuid : nat; sv_seq : Z; sv_now : Z;
}.

Definition with_txs (txs : gmap nat OpenTx) (s : Server) : Server :=
  mkServer (sv_db s) txs (sv_uuid s) (sv_seq s) (sv_now s).

Section Server.
Context {SC : Strconv} {PG : Postgres}.

(** A statement of transaction [i]: [None] while it has to wait. *)
Definition statement {A} (i : nat) (generates : bool) (stmt : string -> Z -> DB -> res error (A * DB))
    (s : Server) : option (res error A * Server) :=
  match sv_txs s !! i with
  | None => Some (Err (ErrorString "tx is closed"), s)
  | Some t =>
      let id := if generates then uuid_v4 (sv_uuid s) else "" in
      let uuid := if generates then Datatypes.S (sv_uuid s) else sv_uuid s in
      let view := layer (own t) (sv_db s) in
      match stmt id (began t) view with
      | Err e => Some (Err e, mkServer (sv_db s) (sv_txs s) uuid (sv_seq s) (sv_now s))
      | Ok (a, db') =>
          let w := written view db' in
          let own' := layer (number_history (sv_seq s) w) (own t) in
          if existsb (fun jt => collide own' (own jt.2)) (map_to_list (delete i (sv_txs s))) then None
          else Some (Ok a, mkServer (sv_db s) (<[i := mkOpenTx own' (began t)]> (sv_txs s)) uuid
                             (sv_seq s + Z.of_nat (length (status_history w))) (sv_now s))
      end
  end.

Definition commit_of (i : nat) (s : Server) : res error unit * Server :=
  match sv_txs s !! i with
  | None => (Err (ErrorString "tx is closed"), s)
  | Some t => (Ok tt, mkServer (layer (own t) (sv_db s)) (delete i (sv_txs s)) (sv_uuid s) (sv_seq s) (sv_now s))
  end.

(** The next call of a program, with the fault the call meets: [None] when the
    program has returned or has to wait. *)
Definition exec {X} (i : nat) (f : fault) (p : prog X) (s : Server) : option (prog X * Server) :=
  match p with
  | Ret _ => None
  | Begin k =>
      match f with
      | NoFault => Some (k (Ok tt), with_txs (<[i := mkOpenTx empty_db (micros (sv_now s))]> (sv_txs s)) s)
      | FailBefore t | FailAfter t => Some (k (Err (ErrorString t)), s)
      end
  | Stmt g stmt k =>
      match f with
      | FailBefore t => Some (k (Err (ErrorString t)), s)
      | NoFault => '(r, s') ← statement i g stmt s; Some (k r, s')
      | FailAfter t => '(_, s') ← statement i g stmt s; Some (k (Err (ErrorString t)), s')
      end
  | Commit k =>
      match f with
      | FailBefore t => Some (k (Err (ErrorString t)), s)
      | NoFault => let '(r, s') := commit_of i s in Some (k r, s')
      | FailAfter t => Some (k (Err (ErrorString t)), (commit_of i s).2)
      end
  | Rollback k => Some (k, with_txs (delete i (sv_txs s)) s)
  end.

(** ** Overlapping requests *)

Inductive thread := Running (p : prog PersistResult) | Returned (r : res error PersistResult).

Inductive event :=
| Inv (i : nat)
| Res (i : nat).

Record Sys := mkSys {
  server : Server;
  threads : gmap nat (EventInput * string * thread);
  history : list event;
}.

Definition initial (db : DB) (uuid : nat) (seq now : Z) : Sys := mkSys (mkServer db ∅ uuid seq now) ∅ [].

(** Other components change rows of other tables, and of the outbox what does not
    identify a row. *)
Definition others_may (db db' : DB) : Prop :=
  schema_ok db' /\ events db' = events db /\
  forall oid, ob_event_id <$> outbox db' !! oid = ob_event_id <$> outbox db !! oid.

Inductive step (st : Sys) : Sys -> Prop :=
| step_invoke i req key :
    threads st !! i = None ->
    step st (mkSys (server st) (<[i := (req, key, Running (persist_prog req key))]> (threads st))
               (history st ++ [Inv i]))
| step_call i f req key p p' s' :
    threads st !! i = Some (req, key, Running p) -> exec i f p (server st) = Some (p', s') ->
    step st (mkSys s' (<[i := (req, key, Running p')]> (threads st)) (history st))
| step_return i req key r :
    threads st !! i = Some (req, key, Running (Ret r)) ->
    step st (mkSys (server st) (<[i := (req, key, Returned r)]> (threads st)) (history st ++ [Res i]))
| step_others db' now :
    others_may (sv_db (server st)) db' -> sv_now (server st) <= now ->
    step st (mkSys (mkServer db' (sv_txs (server st)) (sv_uuid (server st)) (sv_seq (server st)) now)
               (threads st) (history st)).

Inductive reachable (st0 : Sys) : Sys -> Prop :=
| reach_start : reachable st0 st0
| reach_step st st' : reachable st0 st -> step st st' -> reachable st0 st'.
(** A schedule, executed: [None] when one of its actions is not possible. *)
Inductive action :=
| Invoke (i : nat) (req : EventInput) (key : string)
| Call (i : nat) (f : fault)
| Return (i : nat).

Definition act (a : action) (st : Sys) : option Sys :=
  match a with
  | Invoke i req key =>
      match threads st !! i with
      | Some _ => None
      | None => Some (mkSys (server st) (<[i := (req, key, Running (persist_prog req key))]> (threads st))
                        (history st ++ [Inv i]))
      end
  | Call i f =>
      match threads st !! i with
      | Some (req, key, Running p) =>
          '(p', s') ← exec i f p (server st);
          Some (mkSys s' (<[i := (req, key, Running p')]> (threads st)) (history st))
      | _ => None
      end
  | Return i =>
      match threads st !! i with
      | Some (req, key, Running (Ret r)) =>
          Some (mkSys (server st) (<[i := (req, key, Returned r)]> (threads st)) (history st ++ [Res i]))
      | _ => None
      end
  end.

Definition run (schedule : list action) (st : Sys) : option Sys :=
  foldl (fun o a => o ≫= act a) (Some st) schedule.

Lemma act_step a st st' : act a st = Some st' -> step st st'.
Proof.
  destruct a as [i req key|i f|i]; simpl.
  - destruct (threads st !! i) eqn:E; [done|]. intros [= <-]. by constructor.
  - destruct (threads st !! i) as [[[req key] [p|r]]|] eqn:E; [|done..]. destruct (exec i f p (server st)) as [[p' s']|] eqn:Ee; [|done].
    intros [= <-]. by eapply step_call.
  - destruct (threads st !! i) as [[[req key] [[r| | | |]|r]]|] eqn:E; try done. intros [= <-]. by eapply step_return.
Qed.

Lemma run_reachable schedule st st' : run schedule st = Some st' -> reachable st st'.
Proof.
  revert st'. induction schedule as [|a l IH] using rev_ind; intros st'; unfold run.
  - intros [= <-]. constructor.
  - rewrite foldl_app. simpl. destruct (foldl _ _ l) as [st1|] eqn:E; [|done]. simpl. intros Ha.
    eapply reach_step; [by apply IH|by eapply act_step].
Qed.
End Server.

End Interleaving.
