(* ===== verification/Linearizable.v ===== *)
(** * Linearizable: overlapping requests are atomic

    The requests of [Interleaving], however their statements interleave with each
    other and with faults, are answered as if each had happened at one instant
    between its call and its return, in the idempotent store of [IngestionSpec]. *)

From S2P Require Import Prelude GoStrings GoErrors Json Database DatabaseFacts RedisServer World WorldFacts.
From S2P Require Import Simulation Operations Ingestion Samples IngestionSpec Interleaving.
Import Operations Ingestion IngestionSpec Interleaving.

Module Linearizable.

(** ** Order in a list *)

Definition before {A} (x y : A) (l : list A) : Prop := exists l1 l2 l3, l = l1 ++ x :: l2 ++ y :: l3.

Lemma before_app {A} (x y : A) l l' : before x y l -> before x y (l ++ l').
Proof. intros (l1 & l2 & l3 & ->). exists l1, l2, (l3 ++ l'). by rewrite <- !app_assoc, <- !app_comm_cons, <- !app_assoc. Qed.

Lemma before_snoc {A} (x y : A) l : x ∈ l -> before x y (l ++ [y]).
Proof.
  intros (l1 & l2 & ->)%list_elem_of_split. exists l1, l2, []. by rewrite <- app_assoc, <- app_comm_cons.
Qed.

Lemma before_snoc_inv {A} (x y z : A) l : before x y (l ++ [z]) -> before x y l \/ (y = z /\ x ∈ l).
Proof.
  intros (l1 & l2 & l3 & H). destruct l3 as [|c l3 _] using rev_ind.
  - right. replace (l1 ++ x :: l2 ++ [y]) with ((l1 ++ x :: l2) ++ [y]) in H by (by rewrite <- app_assoc).
    apply app_inj_tail in H as [-> <-]. split; [done|]. set_solver.
  - left. replace (l1 ++ x :: l2 ++ y :: l3 ++ [c]) with ((l1 ++ x :: l2 ++ y :: l3) ++ [c]) in H
      by (by rewrite <- !app_assoc, <- !app_comm_cons, <- !app_assoc).
    apply app_inj_tail in H as [-> _]. by exists l1, l2, l3.
Qed.

(** ** Layers *)

Lemma layer_assoc a b c : layer a (layer b c) = layer (layer a b) c.
Proof. unfold layer. simpl. by rewrite !(assoc_L (∪)), !(assoc_L (++)). Qed.

Lemma layer_empty_l c : layer empty_db c = c.
Proof. destruct c. unfold layer. simpl. by rewrite !(left_id_L ∅ (∪)), !(right_id_L [] (++)). Qed.

Lemma layer_empty_r c : layer c empty_db = c.
Proof. destruct c. unfold layer. simpl. by rewrite !(right_id_L ∅ (∪)). Qed.

(** What the three kinds of insertion write *)
Definition event_layer (id : string) (row : EventRow) : DB := mkDB {[id := row]} ∅ [] [] ∅.
Definition outbox_layer (oid : string) (o : OutboxRow) : DB := mkDB ∅ {[oid := o]} [] [] ∅.
Definition history_layer (h : HistoryRow) : DB := mkDB ∅ ∅ [h] [] ∅.

Lemma written_nothing db : written db db = empty_db.
Proof. unfold written. by rewrite !changed_refl, !drop_all. Qed.

Lemma written_event db id row :
  events db !! id = None -> written db (set_events (<[id := row]> (events db)) db) = event_layer id row.
Proof. intros Hn. unfold written. simpl. by rewrite changed_insert, !changed_refl, !drop_all by congruence. Qed.

Lemma written_outbox db oid o :
  outbox db !! oid = None -> written db (set_outbox (<[oid := o]> (outbox db)) db) = outbox_layer oid o.
Proof. intros Hn. unfold written. simpl. by rewrite changed_insert, !changed_refl, !drop_all by congruence. Qed.

Lemma written_history db h : written db (set_history (status_history db ++ [h]) db) = history_layer h.
Proof. unfold written. simpl. by rewrite !changed_refl, drop_app_length, drop_all. Qed.

Lemma layer_event id row db : layer (event_layer id row) db = set_events (<[id := row]> (events db)) db.
Proof.
  destruct db. unfold layer, set_events. simpl.
  by rewrite !(left_id_L ∅ (∪)), !(right_id_L [] (++)), insert_union_singleton_l.
Qed.

Lemma layer_outbox oid o db : layer (outbox_layer oid o) db = set_outbox (<[oid := o]> (outbox db)) db.
Proof.
  destruct db. unfold layer, set_outbox. simpl.
  by rewrite !(left_id_L ∅ (∪)), !(right_id_L [] (++)), insert_union_singleton_l.
Qed.

Lemma layer_history h db : layer (history_layer h) db = set_history (status_history db ++ [h]) db.
Proof. destruct db. unfold layer, set_history. simpl. by rewrite !(left_id_L ∅ (∪)), !(right_id_L [] (++)). Qed.

(** ** Collisions *)

Lemma share_key_false {A} (m m' : gmap string A) :
  share_key m m' = false <-> forall k, is_Some (m !! k) -> m' !! k = None.
Proof.
  unfold share_key. rewrite negb_false_iff, bool_decide_eq_true. split.
  - intros He k Hk. destruct (m' !! k) eqn:E; [|done]. exfalso.
    assert (k ∈ dom m ∩ dom m') as Hin; [|set_solver]. apply elem_of_intersection. rewrite !elem_of_dom. eauto.
  - intros H. apply set_eq. intros k. rewrite elem_of_intersection, !elem_of_dom. split; [|set_solver].
    intros [Hk [x Hx]]. specialize (H k Hk). congruence.
Qed.

Lemma any_pair_false {A} (f : A -> A -> bool) (m m' : gmap string A) :
  any_pair f m m' = false <-> forall i j x y, m !! i = Some x -> m' !! j = Some y -> f x y = false.
Proof.
  unfold any_pair. rewrite <- not_true_iff_false, existsb_exists. split.
  - intros H i j x y Hx Hy. apply not_true_iff_false. intros Hf. apply H.
    exists x. split; [apply in_map_iff; exists (i, x); by rewrite <- list_elem_of_In, elem_of_map_to_list|].
    apply existsb_exists. exists y. split; [|done].
    apply in_map_iff. exists (j, y). by rewrite <- list_elem_of_In, elem_of_map_to_list.
  - intros H (x & Hx & Hy). apply existsb_exists in Hy as (y & Hy & Hf).
    apply in_map_iff in Hx as ([i x'] & <- & Hx), Hy as ([j y'] & <- & Hy).
    rewrite <- list_elem_of_In, elem_of_map_to_list in Hx, Hy. simpl in Hf. by rewrite (H _ _ _ _ Hx Hy) in Hf.
Qed.

Record apart (a b : DB) : Prop := {
  ap_ids : forall id, is_Some (events a !! id) -> events b !! id = None;
  ap_keys : forall i j x y k, events a !! i = Some x -> events b !! j = Some y -> ev_source x = ev_source y ->
    ev_idempotency_key x = Some k -> ev_idempotency_key y <> Some k;
  ap_oids : forall oid, is_Some (outbox a !! oid) -> outbox b !! oid = None;
  ap_out : forall i j x y, outbox a !! i = Some x -> outbox b !! j = Some y -> ob_event_id x <> ob_event_id y;
}.

Lemma collide_false a b : collide a b = false -> apart a b.
Proof.
  unfold collide. rewrite !orb_false_iff. intros ((((H1 & H2) & H3) & H4) & _).
  rewrite share_key_false in H1. rewrite share_key_false in H3.
  rewrite any_pair_false in H2. rewrite any_pair_false in H4. split; [done| |done|].
  - intros i j x y k Hx Hy Hs Hk Hk'. specialize (H2 _ _ _ _ Hx Hy). unfold same_idempotency_key in H2.
    by rewrite Hs, Hk, Hk', !String.eqb_refl in H2.
  - intros i j x y Hx Hy He. specialize (H4 _ _ _ _ Hx Hy). simpl in H4. by rewrite He, String.eqb_refl in H4.
Qed.

Lemma apart_collide a b : apart a b -> dlq_records a = ∅ -> collide a b = false.
Proof.
  intros [H1 H2 H3 H4] Hd. unfold collide. rewrite !orb_false_iff. split_and!.
  - by apply share_key_false.
  - apply any_pair_false. intros i j x y Hx Hy. unfold same_idempotency_key.
    destruct (String.eqb_spec (ev_source x) (ev_source y)) as [Hs|]; [|done].
    destruct (ev_idempotency_key x) as [k|] eqn:Ex, (ev_idempotency_key y) as [k'|] eqn:Ey; try done.
    apply String.eqb_neq. intros ->. by eapply H2.
  - by apply share_key_false.
  - apply any_pair_false. intros i j x y Hx Hy. apply String.eqb_neq. by eapply H4.
  - apply share_key_false. intros k. rewrite Hd, lookup_empty. by intros [].
Qed.

Lemma apart_sym a b : apart a b -> apart b a.
Proof.
  intros [H1 H2 H3 H4]. split.
  - intros id Hb. destruct (events a !! id) eqn:E; [|done]. rewrite H1 in Hb by eauto. by destruct Hb.
  - intros i j x y k Hx Hy Hs Hk Hk'. by eapply H2.
  - intros id Hb. destruct (outbox a !! id) eqn:E; [|done]. rewrite H3 in Hb by eauto. by destruct Hb.
  - intros i j x y Hx Hy He. by eapply H4.
Qed.

Lemma apart_empty a : apart a empty_db.
Proof. split; simpl; intros; by rewrite ?lookup_empty in *. Qed.

(** ** Layers of open transactions *)

Section Sound.
Context {PG : Postgres}.

(** The rows of a transaction fit on the committed tables, and are new ones. *)
Record sound (own db : DB) : Prop := {
  sd_schema : schema_ok (layer own db);
  sd_ids : forall id, is_Some (events own !! id) -> events db !! id = None;
  sd_oids : forall oid, is_Some (outbox own !! oid) -> outbox db !! oid = None;
  sd_attempts : delivery_attempts own = [];
  sd_dlq : dlq_records own = ∅;
  sd_own : forall oid o, outbox own !! oid = Some o -> known own (ob_event_id o);
}.

Lemma layer_row {A} (m m' : gmap string A) k x : (m ∪ m') !! k = Some x -> m !! k = Some x \/ m' !! k = Some x.
Proof. rewrite lookup_union_Some_raw. naive_solver. Qed.

Lemma layer_known own db e : known (layer own db) e <-> known own e \/ known db e.
Proof. unfold known, layer. simpl. rewrite lookup_union_is_Some. done. Qed.

Lemma sound_empty db : schema_ok db -> sound empty_db db.
Proof. intros Hok. split; [by rewrite layer_empty_l|simpl; intros; by rewrite lookup_empty in *..|done|done|].
  simpl. intros oid o. by rewrite lookup_empty.
Qed.

(** The rows of a sound layer and of the tables below it are rows of both. *)
Lemma sound_event own db id e :
  sound own db -> events own !! id = Some e \/ events db !! id = Some e -> events (layer own db) !! id = Some e.
Proof.
  intros Hs [H|H]; [by apply lookup_union_Some_l|]. apply lookup_union_Some_raw. right. split; [|done].
  destruct (events own !! id) eqn:E; [|done]. rewrite (sd_ids _ _ Hs) in H; eauto. done.
Qed.

Lemma sound_outbox own db id o :
  sound own db -> outbox own !! id = Some o \/ outbox db !! id = Some o -> outbox (layer own db) !! id = Some o.
Proof.
  intros Hs [H|H]; [by apply lookup_union_Some_l|]. apply lookup_union_Some_raw. right. split; [|done].
  destruct (outbox own !! id) eqn:E; [|done]. rewrite (sd_oids _ _ Hs) in H; eauto. done.
Qed.

(** The rows another transaction commits leave a layer apart from them sound. *)
Lemma sound_commit own own' db : sound own db -> sound own' db -> apart own own' -> sound own (layer own' db).
Proof.
  intros Hs Hs' Hap. pose proof (apart_sym _ _ Hap) as Hap'.
  assert (Hkn : forall e, known (layer own db) e \/ known (layer own' db) e -> known (layer own (layer own' db)) e)
    by (intros e; rewrite !layer_known; tauto).
  assert (Hev : forall id e, events (layer own (layer own' db)) !! id = Some e ->
            events own !! id = Some e \/ events own' !! id = Some e \/ events db !! id = Some e)
    by (intros id e [?|[?|?]%layer_row]%layer_row; auto).
  assert (Hob : forall id o, outbox (layer own (layer own' db)) !! id = Some o ->
            outbox own !! id = Some o \/ outbox own' !! id = Some o \/ outbox db !! id = Some o)
    by (intros id e [?|[?|?]%layer_row]%layer_row; auto).
  pose proof (sound_event own db) as E1. pose proof (sound_event own' db) as E2.
  pose proof (sound_outbox own db) as O1. pose proof (sound_outbox own' db) as O2.
  destruct Hs as [Ho Hi Hq Ha Hd Hw] eqn:Es, Hs' as [Ho' Hi' Hq' Ha' Hd' Hw'] eqn:Es'. clear Es Es'.
  split; [|intros id Hid; apply lookup_union_None; by split; [apply Hap|apply Hi]
          |intros id Hid; apply lookup_union_None; by split; [apply Hap|apply Hq]|done|done|done].
  destruct Ho as [K1 K2 K3 K4 K5 K6 K7 K8 K9] eqn:E, Ho' as [L1 L2 L3 L4 L5 L6 L7 L8 L9] eqn:E'. clear E E'.
  split.
  - intros i j x y k Hx Hy Hsrc Hkx Hky. apply Hev in Hx as [Hx|[Hx|Hx]], Hy as [Hy|[Hy|Hy]];
      try (by eapply K1; eauto); try (by eapply L1; eauto); exfalso; by eapply ap_keys; eauto.
  - intros id. unfold known at 1. intros [e [He|[He|He]]%Hev]; [apply K2|apply L2|apply K2]; eexists; eauto.
  - intros oid o [H|[H|H]]%Hob; eauto.
  - intros oid o [H|[H|H]]%Hob; apply Hkn; eauto.
  - intros i j x y Hx Hy He. apply Hob in Hx as [Hx|[Hx|Hx]], Hy as [Hy|[Hy|Hy]];
      try (by eapply K5; eauto); try (by eapply L5; eauto); exfalso; by eapply ap_out; eauto.
  - intros oid o [H|[H|H]]%Hob; eauto.
  - simpl. intros h Hh. apply Hkn. rewrite !elem_of_app in Hh. destruct Hh as [[Hh|Hh]|Hh];
      [left; apply K7|right; apply L7|left; apply K7]; simpl; apply elem_of_app; auto.
  - simpl. rewrite Ha, Ha', !(right_id_L [] (++)). intros a Hat. destruct (K8 a) as [H1 H2]; [|auto].
    simpl. by rewrite Ha, (right_id_L [] (++)).
  - simpl. rewrite Hd, Hd', !(left_id_L ∅ (∪)). intros e d Hed. destruct (K9 e d) as [H1 H2]; [|auto].
    simpl. by rewrite Hd, (left_id_L ∅ (∪)).
Qed.

Lemma sound_others own db db' : sound own db -> others_may db db' -> sound own db'.
Proof.
  intros Hs (Hok' & He & Ho).
  assert (Hrow : forall oid o, outbox db' !! oid = Some o ->
            exists o', outbox db !! oid = Some o' /\ ob_event_id o' = ob_event_id o).
  { intros oid o H. specialize (Ho oid). rewrite H in Ho. simpl in Ho. symmetry in Ho.
    apply fmap_Some in Ho as (o' & H' & Heq). eauto. }
  assert (Hkn : forall e, known (layer own db') e <-> known (layer own db) e)
    by (intros e; rewrite !layer_known; unfold known; by rewrite He).
  pose proof (sound_outbox own db) as O1.
  destruct Hs as [K Hi Hq Ha Hd Hw] eqn:Es. clear Es.
  split; [|intros id Hid; rewrite He; auto| |done|done|done].
  2: { intros oid Hid. destruct (outbox db' !! oid) as [o|] eqn:E; [|done].
       apply Hrow in E as (o' & E & _). by rewrite (Hq _ Hid) in E. }
  pose proof K as [K1 K2 K3 K4 K5 K6 K7 K8 K9]. pose proof Hok' as [L1 L2 L3 L4 L5 L6 L7 L8 L9].
  assert (Hev : events (layer own db') = events (layer own db)) by (simpl; by rewrite He).
  split.
  - rewrite Hev. done.
  - intros id. rewrite Hkn. auto.
  - intros oid o [H|H]%layer_row; eauto.
  - intros oid o [H|H]%layer_row; apply Hkn; [eauto|]. apply Hrow in H as (o' & H & <-). eauto.
  - intros i j x y Hx Hy Heq.
    assert (Hin : forall k z, outbox (layer own db') !! k = Some z ->
              exists z', outbox (layer own db) !! k = Some z' /\ ob_event_id z' = ob_event_id z).
    { intros k z [H|H]%layer_row; [eauto|]. apply Hrow in H as (o' & H & ?). eauto. }
    apply Hin in Hx as (x' & Hx & Hx'), Hy as (y' & Hy & Hy'). eapply K5; [exact Hx|exact Hy|congruence].
  - intros oid o [H|H]%layer_row; eauto.
  - simpl. intros h [Hh|Hh]%elem_of_app.
    + apply layer_known. eauto.
    + apply Hkn, K7. simpl. apply elem_of_app. auto.
  - simpl. rewrite Ha, (right_id_L [] (++)). intros a Hat. destruct (L8 a Hat). split; [|done]. apply layer_known. auto.
  - simpl. rewrite Hd, (left_id_L ∅ (∪)). intros e d Hed. destruct (L9 e d Hed). split; [|done]. apply layer_known. auto.
Qed.
(** ** What a statement adds to its layer *)

Lemma sound_add_event own db id row :
  sound own db -> events (layer own db) !! id = None ->
  schema_ok (set_events (<[id := row]> (events (layer own db))) (layer own db)) ->
  sound (layer (event_layer id row) own) db.
Proof.
  intros [Hok Hi Hq Ha Hd Hw] Hn Hok'. apply lookup_union_None in Hn as [Hn Hn'].
  split; simpl; [by rewrite <- layer_assoc, layer_event| | |by rewrite Ha|by rewrite Hd|].
  - intros i Hid. rewrite lookup_union_is_Some in Hid. destruct Hid as [[x Hx]|Hid]; [|auto].
    apply lookup_singleton_Some in Hx as [<- _]. done.
  - intros i. rewrite (left_id_L ∅ (∪)). auto.
  - intros i o. rewrite (left_id_L ∅ (∪)). intros Hx. apply layer_known. eauto.
Qed.

Lemma sound_add_outbox own db oid o :
  sound own db -> outbox (layer own db) !! oid = None -> known own (ob_event_id o) ->
  schema_ok (set_outbox (<[oid := o]> (outbox (layer own db))) (layer own db)) ->
  sound (layer (outbox_layer oid o) own) db.
Proof.
  intros [Hok Hi Hq Ha Hd Hw] Hn Hko Hok'. apply lookup_union_None in Hn as [Hn Hn'].
  split; simpl; [by rewrite <- layer_assoc, layer_outbox| | |by rewrite Ha|by rewrite Hd|].
  - intros i. rewrite (left_id_L ∅ (∪)). auto.
  - intros i Hid. rewrite lookup_union_is_Some in Hid. destruct Hid as [[x Hx]|Hid]; [|auto].
    apply lookup_singleton_Some in Hx as [<- _]. done.
  - intros i x [Hx|Hx]%layer_row; apply layer_known; [|eauto]. apply lookup_singleton_Some in Hx as [_ <-]. auto.
Qed.

Lemma sound_add_history own db h :
  sound own db -> known (layer own db) (h_event_id h) -> sound (layer (history_layer h) own) db.
Proof.
  intros [Hok Hi Hq Ha Hd Hw] Hk.
  split; simpl; [|intros i; rewrite (left_id_L ∅ (∪)); auto..|by rewrite Ha|by rewrite Hd|].
  2: { intros i x. rewrite (left_id_L ∅ (∪)). intros Hx. apply layer_known. eauto. }
  rewrite <- layer_assoc, layer_history. revert Hk. generalize (layer own db), Hok. clear.
  intros db Hok Hk. schema_solve Hok.
Qed.
End Sound.

(** ** Where a program stands *)

(** An error that is not a conflict *)
Definition plain (e : error) : Prop := errors_Is e ErrIdempotencyConflict = false.

Definition fails (p : prog PersistResult) : Prop := exists e, p = Rollback (Ret (Err e)) /\ plain e.
Definition on_error {A} (k : res error A -> prog PersistResult) : Prop := forall e, plain e -> fails (k (Err e)).

Section Stages.
Context {SC : Strconv} {PG : Postgres}.

Definition outbox_stmt (e : string) : string -> Z -> DB -> res error (unit * DB) :=
  fun id now db => res_bind (insertOutboxSQL id now e db) (fun db' => Ok (tt, db')).
Definition history_stmt (e status : string) : string -> Z -> DB -> res error (unit * DB) :=
  fun _ now db => res_bind (insertHistorySQL now e status (marshalDetails None) db) (fun db' => Ok (tt, db')).
Definition lookup_stmt (source key : string) : string -> Z -> DB -> res error (option (string * string * bool) * DB) :=
  fun _ _ db => Ok (selectEventByIdempotencyKeySQL source key db, db).

(** About to commit, with the event new or found *)
Definition at_commit (id : string) (created : bool) (p : prog PersistResult) : Prop :=
  exists k, p = Commit k /\ k (Ok tt) = Rollback (Ret (Ok (mkPersistResult id created))) /\ on_error k.

Fixpoint at_history (id : string) (statuses : list string) (p : prog PersistResult) : Prop :=
  match statuses with
  | [] => at_commit id true p
  | status :: rest =>
      exists k, p = Stmt false (history_stmt id status) k /\ at_history id rest (k (Ok tt)) /\ on_error k
  end.

Definition at_outbox (id : string) (p : prog PersistResult) : Prop :=
  exists k, p = Stmt true (outbox_stmt id) k /\
    at_history id [StatusStored; StatusPendingPublication] (k (Ok tt)) /\ on_error k.

Definition at_lookup (source key hash : string) (p : prog PersistResult) : Prop :=
  exists k, p = Stmt false (lookup_stmt source key) k /\ on_error k /\
    forall row, match check_row source hash row with
                | Ok id => at_commit id false (k (Ok row))
                | Err e => k (Ok row) = Rollback (Ret (Err e))
                end.

Definition at_insert (req : EventInput) (key : option string) (hash : string) (p : prog PersistResult) : Prop :=
  match key with
  | None =>
      exists k, p = Stmt true (fun id now db => insertEventWithoutIdempotencyKeySQL id now (in_EventType req)
                                 (in_Source req) (in_Payload req) hash db) k /\
        (forall id, at_outbox id (k (Ok id))) /\ on_error k
  | Some key =>
      exists k, p = Stmt true (fun id now db => insertEventWithIdempotencyKeySQL id now (in_EventType req)
                                 (in_Source req) (in_Payload req) key hash db) k /\
        (forall id, at_outbox id (k (Ok (Some id)))) /\ at_lookup (in_Source req) key hash (k (Ok None)) /\ on_error k
  end.

Definition at_begin (req : EventInput) (key : option string) (p : prog PersistResult) : Prop :=
  exists hash k, request_hash req = Ok hash /\ p = Begin k /\ at_insert req key hash (k (Ok tt)) /\
    forall e, plain e -> exists e', k (Err e) = Ret (Err e') /\ plain e'.

Lemma plain_wrapf p e : plain e -> plain (wrapf p e).
Proof. unfold plain. by rewrite errors_Is_wrapf. Qed.

Lemma plain_text t : plain (ErrorString t).
Proof. done. Qed.
#[local] Hint Resolve plain_wrapf plain_text : core.

(** Run a program to its next call and check how it goes on after an error. *)
Ltac next_call :=
  simpl; eexists; split; [reflexivity|];
  repeat match goal with
    | |- _ /\ _ => split
    | |- on_error _ => unfold on_error, fails; intros; simpl; eauto
    | |- forall _, _ => intros ?
    | |- _ = Rollback _ => reflexivity
    end.

Lemma tx_stages req k hash :
  at_insert req (if String.eqb k "" then None else Some k) hash (pdefer (tx_prog req k hash)).
Proof.
  unfold tx_prog. destruct (String.eqb k "").
  - repeat next_call.
  - next_call; [repeat next_call|]. next_call.
    simpl. destruct (check_row _ _ _); simpl; [next_call|done].
Qed.

Lemma persist_stages req key :
  match request_hash req with
  | Ok _ => at_begin req (norm_key key) (persist_prog req key)
  | Err _ => exists e, persist_prog req key = Ret (Err e) /\ plain e
  end.
Proof.
  unfold persist_prog, request_hash. simpl. destruct (computeRequestHash _ _ _) as [hash|e] eqn:E; simpl.
  - exists hash. eexists. split; [done|]. split; [reflexivity|]. split; [apply tx_stages|].
    intros e He. simpl. eauto.
  - eexists. split; [reflexivity|]. apply plain_wrapf. unfold computeRequestHash in E.
    pose proof (decode_single_never (in_Payload req)) as Hn. unfold sql_never in Hn.
    destruct (decode_single (in_Payload req)) as [v|e']; simplify_eq/=. by apply Hn.
Qed.
End Stages.

(** ** One call of one request *)

Section Calls.
Context {SC : Strconv} {PG : Postgres}.
Implicit Types (sv : Server) (s : IdemStore).

(** The committed tables are the store, and the open transactions are apart. *)
Record fits sv s : Prop := {
  ft_rep : represents s (sv_db sv);
  ft_sound : forall i t, sv_txs sv !! i = Some t -> sound (own t) (sv_db sv);
  ft_apart : forall i j t u, i <> j -> sv_txs sv !! i = Some t -> sv_txs sv !! j = Some u -> apart (own t) (own u);
}.

(** An answer that leaves the store as it is *)
Inductive stutter (req : EventInput) (key : option string) s : answer -> Prop :=
| st_failed : stutter req key s Failed
| st_repeated k id hash :
    key = Some k -> request_hash req = Ok hash -> st_keys s !! (in_Source req, k) = Some (id, Some hash) ->
    stutter req key s (Answered id false)
| st_conflict k id hash h :
    key = Some k -> request_hash req = Ok hash -> st_keys s !! (in_Source req, k) = Some (id, h) -> h <> Some hash ->
    stutter req key s Conflict.

Lemma stutter_step req key s a : stutter req key s a -> spec_step req key a s s.
Proof. destruct 1; eauto using spec_step. Qed.

(** [la] is the answer of a request that has happened already. *)
Definition settled (req : EventInput) (key : option string) s (r : res error PersistResult) (la : option answer) : Prop :=
  match la with Some a => answer_of r = a | None => stutter req key s (answer_of r) end.

(** The transaction holds the event of the request. *)
Definition holds (req : EventInput) (key : option string) (id : string) (own : DB) : Prop :=
  exists hash p now, request_hash req = Ok hash /\ jsonb_in (in_Payload req) = Some p /\
    events own = {[id := mkEventRow (in_EventType req) (in_Source req) p now key (Some hash)]}.

Inductive phase (req : EventInput) (key : option string) s : option DB -> prog PersistResult -> option answer -> Prop :=
| ph_begin p : at_begin req key p -> phase req key s None p None
| ph_insert hash p : request_hash req = Ok hash -> at_insert req key hash p -> phase req key s (Some empty_db) p None
| ph_outbox id own p : holds req key id own -> outbox own = ∅ -> at_outbox id p -> phase req key s (Some own) p None
| ph_history id own statuses p :
    holds req key id own -> at_history id statuses p -> phase req key s (Some own) p None
| ph_lookup hash k p :
    request_hash req = Ok hash -> key = Some k -> at_lookup (in_Source req) k hash p ->
    phase req key s (Some empty_db) p None
| ph_found hash k id p :
    request_hash req = Ok hash -> key = Some k -> st_keys s !! (in_Source req, k) = Some (id, Some hash) ->
    at_commit id false p -> phase req key s (Some empty_db) p None
| ph_ending own r la : settled req key s r la -> phase req key s own (Rollback (Ret r)) la
| ph_ret r la : settled req key s r la -> phase req key s None (Ret r) la.

Definition keys_grow s s' : Prop := forall sk v, st_keys s !! sk = Some v -> st_keys s' !! sk = Some v.

Lemma phase_grows req key s s' o p la : keys_grow s s' -> phase req key s o p la -> phase req key s' o p la.
Proof.
  intros Hg. assert (forall r la, settled req key s r la -> settled req key s' r la) as Hs.
  { intros r [a|]; [done|]. simpl. destruct 1; eauto using stutter. }
  destruct 1; eauto using phase.
Qed.

Lemma plain_failed e : plain e -> answer_of (Err e) = Failed.
Proof. unfold plain, answer_of. by intros ->. Qed.

Lemma fails_phase req key s o p : fails p -> phase req key s o p None.
Proof. intros (e & -> & He). apply ph_ending. unfold settled. rewrite (plain_failed e He). constructor. Qed.

(** The transaction of [i] gets a new layer. *)
Lemma fits_own sv s i o b uuid seq now :
  fits sv s -> sound o (sv_db sv) -> (forall j u, j <> i -> sv_txs sv !! j = Some u -> apart o (own u)) ->
  fits (mkServer (sv_db sv) (<[i := mkOpenTx o b]> (sv_txs sv)) uuid seq now) s.
Proof.
  intros [Hr Hs Ha] Ho Hap. split; simpl; [done|..].
  - intros j t [[<- <-]|[_ Hj]]%lookup_insert_Some; [done|eauto].
  - intros j k t u Hne [[<- <-]|[Hj Ht]]%lookup_insert_Some [[<- <-]|[Hk Hu]]%lookup_insert_Some; simpl; eauto.
    + done.
    + by apply apart_sym, (Hap j).
Qed.

Lemma fits_delete sv s i : fits sv s -> fits (with_txs (delete i (sv_txs sv)) sv) s.
Proof.
  intros [Hr Hs Ha]. split; simpl; [done|..].
  - intros j t [_ Hj]%lookup_delete_Some. eauto.
  - intros j k t u Hne [_ Hj]%lookup_delete_Some [_ Hk]%lookup_delete_Some. eauto.
Qed.

Lemma existsb_collide_false o (m : gmap nat OpenTx) i :
  existsb (fun jt => collide o (own jt.2)) (map_to_list (delete i m)) = false ->
  forall j u, j <> i -> m !! j = Some u -> apart o (own u).
Proof.
  intros H j u Hne Hj. apply collide_false. apply not_true_iff_false. intros Hc.
  apply not_true_iff_false in H. apply H, existsb_exists. exists (j, u). split; [|done].
  apply list_elem_of_In, elem_of_map_to_list. by rewrite lookup_delete_ne.
Qed.

(** A statement that was executed *)
Lemma statement_inv {A} i g (stmt : string -> Z -> DB -> res error (A * DB)) sv r sv' t s :
  sv_txs sv !! i = Some t -> statement i g stmt sv = Some (r, sv') -> fits sv s ->
  let id := if g then uuid_v4 (sv_uuid sv) else "" in
  let view := layer (own t) (sv_db sv) in
  sv_db sv' = sv_db sv /\ (forall j, j <> i -> sv_txs sv' !! j = sv_txs sv !! j) /\
  match stmt id (began t) view with
  | Err e => r = Err e /\ fits sv' s /\ sv_txs sv' !! i = Some t
  | Ok (a, db') =>
      let own' := layer (number_history (sv_seq sv) (written view db')) (own t) in
      r = Ok a /\ (sound own' (sv_db sv) -> fits sv' s) /\ own <$> sv_txs sv' !! i = Some own'
  end.
Proof.
  intros Ht H Hf. unfold statement in H. rewrite Ht in H. cbv zeta in *.
  destruct (stmt _ _ _) as [[a db']|e].
  - destruct (existsb _ _) eqn:Ec; [done|]. simplify_eq/=. split; [done|]. split.
    { intros j Hj. by rewrite lookup_insert_ne. }
    split; [done|]. split; [|by rewrite lookup_insert_eq].
    intros Hs. apply fits_own; [done|done|]. by eapply existsb_collide_false.
  - simplify_eq/=. split_and!; try done. destruct Hf. by split.
Qed.
(** The call of a request changes nothing of the others; it happens, in the
    abstract store, now or not at all. *)
Definition moves (req : EventInput) (key : option string) (i : nat) sv s la sv' p' : Prop :=
  exists s' la',
    ((la' = la /\ s' = s) \/ (la = None /\ exists a, la' = Some a /\ spec_step req key a s s')) /\
    fits sv' s' /\ (forall j, j <> i -> sv_txs sv' !! j = sv_txs sv !! j) /\
    phase req key s' (own <$> sv_txs sv' !! i) p' la'.

Lemma moves_same req key i sv s sv' p' :
  fits sv' s -> (forall j, j <> i -> sv_txs sv' !! j = sv_txs sv !! j) ->
  phase req key s (own <$> sv_txs sv' !! i) p' None -> moves req key i sv s None sv' p'.
Proof. intros H1 H2 H3. exists s, None. split_and!; auto. Qed.

(** A statement moves its program, if it adds a sound layer to its transaction. *)
Lemma stmt_moves {A} req key i f sv s t g (stmt : string -> Z -> DB -> res error (A * DB)) k p' sv' :
  sv_txs sv !! i = Some t -> fits sv s -> exec i f (Stmt g stmt k) sv = Some (p', sv') -> on_error k ->
  (forall id now db, sql_never ErrIdempotencyConflict (stmt id now db)) ->
  (forall a db', let view := layer (own t) (sv_db sv) in
     stmt (if g then uuid_v4 (sv_uuid sv) else "") (began t) view = Ok (a, db') ->
     let own' := layer (number_history (sv_seq sv) (written view db')) (own t) in
     sound own' (sv_db sv) /\ phase req key s (Some own') (k (Ok a)) None) ->
  moves req key i sv s None sv' p'.
Proof.
  intros Ht Hf He Hk Hn Hok. unfold exec in He.
  assert (Hstmt : forall r sv1, statement i g stmt sv = Some (r, sv1) ->
    fits sv1 s /\ (forall j, j <> i -> sv_txs sv1 !! j = sv_txs sv !! j) /\
    phase req key s (own <$> sv_txs sv1 !! i) (k r) None).
  { intros r sv1 H. eapply statement_inv in H; [|done..]. cbv zeta in H. destruct H as (_ & Hfr & H).
    specialize (Hn (if g then uuid_v4 (sv_uuid sv) else "") (began t) (layer (own t) (sv_db sv))).
    destruct (stmt _ _ _) as [[a db']|e] eqn:E.
    - destruct H as (-> & Hs & Ho). destruct (Hok a db' E) as [Hso Hph]. rewrite Ho. auto.
    - destruct H as (-> & Hs & Ho). split_and!; [done|done|]. apply fails_phase, Hk. by apply Hn. }
  destruct f as [|text|text]; simpl in He.
  - apply bind_Some in He as ([r sv1] & H & He). simplify_eq. apply Hstmt in H as (? & ? & ?). by apply moves_same.
  - simplify_eq. apply moves_same; [done|done|]. by apply fails_phase, Hk.
  - apply bind_Some in He as ([r sv1] & H & He). simplify_eq. apply Hstmt in H as (? & ? & ?). apply moves_same; [done|done|].
    by apply fails_phase, Hk.
Qed.

Lemma holds_layer req key id o own :
  events o = ∅ -> holds req key id own -> holds req key id (layer o own).
Proof.
  intros Ho (hash & p & now & Hh & Hp & He). exists hash, p, now. simpl. by rewrite Ho, (left_id_L ∅ (∪)).
Qed.

Lemma holds_known req key id own : holds req key id own -> known own id.
Proof. intros (hash & p & now & _ & _ & He). unfold known. rewrite He, lookup_singleton_eq. eauto. Qed.

(** The event a transaction holds has the text of its id. *)
Lemma holds_uuid req key id own db : holds req key id own -> sound own db -> uuid_in id = Some id.
Proof.
  intros Hh Hs. apply (so_event_ids _ (sd_schema _ _ Hs)), layer_known. left. by eapply holds_known.
Qed.

Lemma sound_view own db : sound own db -> schema_ok (layer own db).
Proof. by destruct 1. Qed.

(** Inserting the event *)
Lemma insert_moves req key hash i f sv s t p p' sv' :
  request_hash req = Ok hash -> at_insert req key hash p ->
  sv_txs sv !! i = Some t -> own t = empty_db -> fits sv s -> exec i f p sv = Some (p', sv') ->
  moves req key i sv s None sv' p'.
Proof.
  intros Hh Hp Ht Ho Hf He. pose proof (ft_sound _ _ Hf _ _ Ht) as Hso. pose proof (sound_view _ _ Hso) as Hv.
  destruct key as [key|].
  - destruct Hp as (k & -> & Hnew & Hold & Hk). eapply stmt_moves; eauto.
    { intros. unfold insertEventWithIdempotencyKeySQL, insert_event_row. sql_never_all. }
    intros a db' view E. simpl in E. pose proof (insertEventWithKey_ok _ _ _ _ _ _ _ _ _ _ Hv E) as Hok'.
    unfold insertEventWithIdempotencyKeySQL in E. destruct (jsonb_in (in_Payload req)) as [pl|] eqn:Ep; [|done].
    destruct (event_by_key _ _ view) as [x|] eqn:Ek.
    + simplify_eq/=. rewrite written_nothing. change (number_history _ empty_db) with empty_db.
      rewrite layer_empty_l.
      split; [done|]. rewrite Ho. eapply ph_lookup; eauto.
    + destruct (insert_event_row _ _ _) as [db1|] eqn:Ei; simplify_eq/=. apply insert_event_row_inv in Ei as [Hn ->].
      rewrite written_event by done. change (number_history _ (event_layer ?i ?r)) with (event_layer i r).
      split; [by apply sound_add_event|]. eapply ph_outbox; [| |apply Hnew]; [|simpl; by rewrite Ho, (left_id_L ∅ (∪))].
      exists hash, pl, (began t). rewrite Ho, layer_empty_r. by split_and!.
  - destruct Hp as (k & -> & Hnew & Hk). eapply stmt_moves; eauto.
    { intros. unfold insertEventWithoutIdempotencyKeySQL, insert_event_row. sql_never_all. }
    intros a db' view E. simpl in E. pose proof (insertEventWithoutKey_ok _ _ _ _ _ _ _ _ _ Hv E) as Hok'.
    unfold insertEventWithoutIdempotencyKeySQL in E. destruct (jsonb_in (in_Payload req)) as [pl|] eqn:Ep; [|done].
    destruct (insert_event_row _ _ _) as [db1|] eqn:Ei; simplify_eq/=. apply insert_event_row_inv in Ei as [Hn ->].
    rewrite written_event by done. change (number_history _ (event_layer ?i ?r)) with (event_layer i r).
    split; [by apply sound_add_event|]. eapply ph_outbox; [| |apply Hnew]; [|simpl; by rewrite Ho, (left_id_L ∅ (∪))].
    exists hash, pl, (began t). rewrite Ho, layer_empty_r. by split_and!.
Qed.
Lemma outbox_moves req key id i f sv s t p p' sv' :
  holds req key id (own t) -> at_outbox id p ->
  sv_txs sv !! i = Some t -> fits sv s -> exec i f p sv = Some (p', sv') -> moves req key i sv s None sv' p'.
Proof.
  intros Hh (k & -> & Hnext & Hk) Ht Hf He. pose proof (ft_sound _ _ Hf _ _ Ht) as Hso.
  eapply stmt_moves; eauto; [intros; unfold outbox_stmt, insertOutboxSQL; sql_never_all|].
  intros a db' view E. unfold outbox_stmt in E.
  destruct (insertOutboxSQL _ _ _ _) as [db1|] eqn:Ei; simplify_eq/=.
  pose proof (insertOutbox_ok _ _ _ _ _ (sound_view _ _ Hso) Ei) as Hok'.
  apply insertOutbox_inv in Ei as (u & Hu & _ & _ & Hn & ->). rewrite written_outbox by done.
  rewrite (holds_uuid _ _ _ _ _ Hh Hso) in Hu. injection Hu as <-.
  change (number_history _ (outbox_layer ?x ?o)) with (outbox_layer x o).
  split; [apply sound_add_outbox; [done|done| |done]; by eapply holds_known|].
  apply (ph_history _ _ _ id _ [StatusStored; StatusPendingPublication]); [|exact Hnext].
  by apply holds_layer.
Qed.

Lemma history_moves req key id status rest i f sv s t p p' sv' :
  holds req key id (own t) -> at_history id (status :: rest) p ->
  sv_txs sv !! i = Some t -> fits sv s -> exec i f p sv = Some (p', sv') -> moves req key i sv s None sv' p'.
Proof.
  intros Hh (k & -> & Hnext & Hk) Ht Hf He. pose proof (ft_sound _ _ Hf _ _ Ht) as Hso.
  eapply stmt_moves; eauto; [intros; unfold history_stmt, insertHistorySQL; sql_never_all|].
  intros a db' view E. unfold history_stmt in E.
  destruct (insertHistorySQL _ _ _ _ _) as [db1|] eqn:Ei; simplify_eq/=.
  apply insertHistory_inv in Ei as (u & d & _ & _ & Hkn & ->). rewrite written_history.
  change (number_history ?q (history_layer ?h)) with
    (history_layer (mkHistoryRow (q + Z.of_nat 0 + 1) (h_event_id h) (h_status h) (h_details h) (h_created_at h))).
  split; [by apply sound_add_history|]. eapply ph_history; [|exact Hnext].
  by apply holds_layer.
Qed.

(** The row found for a key decides the answer. *)
Lemma check_row_cases source key hash db :
  match event_by_key source key db with
  | None => exists e, check_row source hash (selectEventByIdempotencyKeySQL source key db) = Err e /\ plain e
  | Some (id, row) =>
      if decide (ev_request_hash row = Some hash)
      then check_row source hash (selectEventByIdempotencyKeySQL source key db) = Ok id
      else exists e, check_row source hash (selectEventByIdempotencyKeySQL source key db) = Err e /\
             errors_Is e ErrIdempotencyConflict = true
  end.
Proof.
  unfold selectEventByIdempotencyKeySQL. destruct (event_by_key source key db) as [[id row]|]; [|by eexists].
  destruct (decide (ev_request_hash row = Some hash)) as [Hr|Hr].
  - rewrite Hr. simpl. by rewrite String.eqb_refl.
  - destruct (ev_request_hash row) as [h|]; simpl; [|by eexists].
    destruct (String.eqb_spec h hash); [congruence|by eexists].
Qed.

Lemma lookup_moves req key k hash i f sv s t p p' sv' :
  request_hash req = Ok hash -> key = Some k -> at_lookup (in_Source req) k hash p ->
  sv_txs sv !! i = Some t -> own t = empty_db -> fits sv s -> exec i f p sv = Some (p', sv') ->
  moves req key i sv s None sv' p'.
Proof.
  intros Hh Hkey (kk & -> & Hk & Hrow) Ht Ho Hf He. pose proof (ft_sound _ _ Hf _ _ Ht) as Hso.
  eapply stmt_moves; eauto; [intros; unfold lookup_stmt; sql_never_all|].
  intros a db' view E. unfold lookup_stmt in E. simplify_eq/=.
  rewrite written_nothing. change (number_history _ empty_db) with empty_db. rewrite layer_empty_l.
  split; [done|]. rewrite Ho, layer_empty_l. specialize (Hrow (selectEventByIdempotencyKeySQL (in_Source req) k (sv_db sv))).
  pose proof (check_row_cases (in_Source req) k hash (sv_db sv)) as Hc.
  pose proof (rep_keys _ _ (ft_rep _ _ Hf) (in_Source req) k) as Hst.
  destruct (event_by_key (in_Source req) k (sv_db sv)) as [[id row]|]; simpl in Hst.
  - destruct (decide (ev_request_hash row = Some hash)) as [Hr|Hr].
    + rewrite Hc in Hrow. eapply ph_found; eauto. by rewrite Hst, Hr.
    + destruct Hc as (e & Hc & Hcf). rewrite Hc in Hrow. rewrite Hrow. apply ph_ending. unfold settled, answer_of.
      rewrite Hcf. eapply st_conflict; eauto.
  - destruct Hc as (e & Hc & Hpl). rewrite Hc in Hrow. rewrite Hrow. apply ph_ending. unfold settled.
    rewrite plain_failed by done. constructor.
Qed.

(** ** Commit *)

Lemma fits_commit sv s s' i t :
  fits sv s -> sv_txs sv !! i = Some t -> represents s' (layer (own t) (sv_db sv)) -> fits (commit_of i sv).2 s'.
Proof.
  intros [Hr Hs Ha] Ht Hr'. unfold commit_of. rewrite Ht. split; simpl; [done|..].
  - intros j u [Hne Hj]%lookup_delete_Some. apply sound_commit; eauto.
  - intros j k u v Hne [_ Hj]%lookup_delete_Some [_ Hk]%lookup_delete_Some. eauto.
Qed.

Lemma commit_frame i sv t : sv_txs sv !! i = Some t ->
  commit_of i sv = (Ok tt, (commit_of i sv).2) /\ sv_txs (commit_of i sv).2 !! i = None /\
  forall j, j <> i -> sv_txs (commit_of i sv).2 !! j = sv_txs sv !! j.
Proof.
  intros Ht. unfold commit_of. rewrite Ht. simpl. split_and!; [done|by rewrite lookup_delete_eq|].
  intros j Hj. by rewrite lookup_delete_ne.
Qed.

(** The commit of a new event is the instant at which the request happens. *)
Lemma commit_new_moves req key id i f sv s t p p' sv' :
  holds req key id (own t) -> at_commit id true p ->
  sv_txs sv !! i = Some t -> fits sv s -> exec i f p sv = Some (p', sv') -> moves req key i sv s None sv' p'.
Proof.
  intros (hash & pl & now & Hh & Hp & Hev) (k & -> & Hok & Hk) Ht Hf He.
  pose proof (ft_sound _ _ Hf _ _ Ht) as Hso. pose proof (sound_view _ _ Hso) as Hv.
  destruct (commit_frame i sv t Ht) as (Hc & Hi & Hfr).
  assert (Hn : events (sv_db sv) !! id = None) by (apply (sd_ids _ _ Hso); rewrite Hev, lookup_singleton_eq; eauto).
  assert (exists p, can_add req key p hash id s /\ represents (store_add req key p hash id s) (layer (own t) (sv_db sv)))
    as (pl' & Hadd & Hrep).
  { exists pl. eapply insert_refines; [apply Hf|done|done|done| |done|].
    - intros k0 ->. apply event_by_key_None. intros j e Hj Hsrc Hke.
      assert (j = id) as ->; [|congruence].
      pose proof (lookup_singleton_eq id (mkEventRow (in_EventType req) (in_Source req) pl now (Some k0) (Some hash))) as Hm.
      rewrite <- Hev in Hm.
      exact (so_key_unique _ Hv j id e _ k0 (sound_event _ _ _ _ Hso (or_intror Hj))
               (sound_event _ _ _ _ Hso (or_introl Hm)) Hsrc Hke eq_refl).
    - simpl. rewrite Hev. by rewrite insert_union_singleton_l. }
  pose proof (fits_commit _ _ _ _ _ Hf Ht Hrep) as Hf'.
  destruct f as [|text|text]; simpl in He.
  - rewrite Hc in He. simplify_eq. eexists _, (Some (Answered id true)). split_and!; [right|exact Hf'|done|].
    + split; [done|]. eexists. split; [done|]. by apply spec_created.
    + rewrite Hok. by apply ph_ending.
  - simplify_eq. apply moves_same; [done|done|]. by apply fails_phase, Hk.
  - simplify_eq. eexists _, (Some Failed). split_and!; [right|exact Hf'|done|].
    + split; [done|]. eexists. split; [done|]. by eapply spec_unreported.
    + destruct (Hk (ErrorString text) eq_refl) as (e & -> & Hpl). apply ph_ending. by apply plain_failed.
Qed.

Lemma commit_found_moves req key k hash id i f sv s t p p' sv' :
  request_hash req = Ok hash -> key = Some k -> st_keys s !! (in_Source req, k) = Some (id, Some hash) ->
  at_commit id false p ->
  sv_txs sv !! i = Some t -> own t = empty_db -> fits sv s -> exec i f p sv = Some (p', sv') ->
  moves req key i sv s None sv' p'.
Proof.
  intros Hh Hkey Hst (kk & -> & Hok & Hk) Ht Ho Hf He. destruct (commit_frame i sv t Ht) as (Hc & Hi & Hfr).
  assert (Hf' : fits (commit_of i sv).2 s).
  { eapply fits_commit; [done|done|]. rewrite Ho, layer_empty_l. apply Hf. }
  destruct f as [|text|text]; simpl in He.
  - rewrite Hc in He. simplify_eq. apply moves_same; [done|done|]. rewrite Hok. apply ph_ending.
    eapply st_repeated; eauto.
  - simplify_eq. apply moves_same; [done|done|]. by apply fails_phase, Hk.
  - simplify_eq. apply moves_same; [done|done|]. by apply fails_phase, Hk.
Qed.

(** ** Every call *)

Lemma exec_moves req key i f sv s p la p' sv' :
  fits sv s -> phase req key s (own <$> sv_txs sv !! i) p la -> exec i f p sv = Some (p', sv') ->
  moves req key i sv s la sv' p'.
Proof.
  intros Hf Hp He. remember (own <$> sv_txs sv !! i) as o eqn:Eo.
  assert (Hopen : forall x, Some x = own <$> sv_txs sv !! i -> exists t, sv_txs sv !! i = Some t /\ own t = x).
  { intros x Hx. symmetry in Hx. apply fmap_Some in Hx as (t & Ht & ->). eauto. }
  destruct Hp as [p Hp|hash p Hh Hp|id x p Hh Hx Hp|id x sts p Hh Hp|hash k p Hh Hk Hp|hash k id p Hh Hk Hst Hp|x r la Hr|r la Hr].
  - destruct Hp as (hash & k & Hh & -> & Hins & Herr). destruct f as [|text|text]; simpl in He; simplify_eq.
    + apply moves_same; simpl.
      * apply fits_own; [done|apply sound_empty, (rep_schema _ _ (ft_rep _ _ Hf))|].
        intros j u _ _. apply apart_sym, apart_empty.
      * intros j Hj. by rewrite lookup_insert_ne.
      * rewrite lookup_insert_eq. by eapply ph_insert.
    + destruct (Herr (ErrorString text) eq_refl) as (e & -> & Hpl). apply moves_same; [done|done|]. rewrite <- Eo.
      apply ph_ret. unfold settled. rewrite plain_failed by done. constructor.
    + destruct (Herr (ErrorString text) eq_refl) as (e & -> & Hpl). apply moves_same; [done|done|]. rewrite <- Eo.
      apply ph_ret. unfold settled. rewrite plain_failed by done. constructor.
  - destruct (Hopen _ Eo) as (t & Ht & Ho). by eapply insert_moves.
  - destruct (Hopen _ Eo) as (t & Ht & <-). by eapply outbox_moves.
  - destruct (Hopen _ Eo) as (t & Ht & <-). destruct sts as [|st rest]; [by eapply commit_new_moves|by eapply history_moves].
  - destruct (Hopen _ Eo) as (t & Ht & Ho). by eapply lookup_moves.
  - destruct (Hopen _ Eo) as (t & Ht & Ho). by eapply commit_found_moves.
  - simpl in He. simplify_eq. exists s, la. split_and!; [by left|by apply fits_delete|simpl; intros j Hj; by rewrite lookup_delete_ne|].
    simpl. rewrite lookup_delete_eq. by apply ph_ret.
  - done.
Qed.
End Calls.

(** ** All requests *)

Section System.
Context {SC : Strconv} {PG : Postgres}.
Implicit Types (st : Sys) (s : IdemStore).

(** Requests in the order in which they happened, with their answers *)
Definition order : Type := list (nat * (EventInput * string) * answer).
Definition who (x : nat * (EventInput * string) * answer) : nat := x.1.1.

Definition order_says (lin : order) (i : nat) (la : option answer) : Prop :=
  match la with
  | Some a => exists rk, (i, rk, a) ∈ lin
  | None => i ∉ map who lin
  end.

Definition thread_ok st (lin : order) s (i : nat) (req : EventInput) (key : string) (th : thread) : Prop :=
  match th with
  | Running p => exists la, phase req (norm_key key) s (own <$> sv_txs (server st) !! i) p la /\ order_says lin i la
  | Returned r => sv_txs (server st) !! i = None /\ order_says lin i (Some (answer_of r))
  end.

Record simulated st (s0 : IdemStore) (lin : order) s : Prop := {
  sm_fits : fits (server st) s;
  sm_run : spec_run (map (fun x => x.1.2) lin) (map snd lin) s0 s;
  sm_nodup : NoDup (map who lin);
  sm_threads : forall i req key th, threads st !! i = Some (req, key, th) -> thread_ok st lin s i req key th;
  sm_order : forall i rk a, (i, rk, a) ∈ lin -> exists th, threads st !! i = Some (rk, th);
  sm_txs : forall i, is_Some (sv_txs (server st) !! i) -> exists rk p, threads st !! i = Some (rk, Running p);
  sm_inv : forall i, Inv i ∈ history st -> is_Some (threads st !! i);
  sm_res : forall i, Res i ∈ history st -> exists rk r, threads st !! i = Some (rk, Returned r);
  sm_realtime : forall i j, before (Res i) (Inv j) (history st) -> j ∈ map who lin -> before i j (map who lin);
}.

Lemma spec_run_snoc reqs answers s0 s req key a s' :
  spec_run reqs answers s0 s -> spec_step req (norm_key key) a s s' ->
  spec_run (reqs ++ [(req, key)]) (answers ++ [a]) s0 s'.
Proof. intros Hr Hs. induction Hr; simpl; eauto using spec_run. Qed.

(** [i] happens now: the order gets one entry more. *)
Lemma order_extend (lin : order) s0 s s' i req key a :
  spec_run (map (fun x => x.1.2) lin) (map snd lin) s0 s -> NoDup (map who lin) -> i ∉ map who lin ->
  spec_step req (norm_key key) a s s' ->
  let lin' := lin ++ [(i, (req, key), a)] in
  spec_run (map (fun x => x.1.2) lin') (map snd lin') s0 s' /\ NoDup (map who lin') /\
  order_says lin' i (Some a) /\ (forall j la, j <> i -> order_says lin j la -> order_says lin' j la).
Proof.
  intros Hr Hn Hi Hs. simpl. rewrite !map_app. simpl. split_and!.
  - by eapply spec_run_snoc.
  - apply NoDup_app. split_and!; [done| |apply NoDup_singleton]. intros x Hx ->%list_elem_of_singleton. done.
  - exists (req, key). set_solver.
  - intros j [b|] Hj; simpl; [intros (rk & H); exists rk; set_solver|]. rewrite map_app. simpl. set_solver.
Qed.

Lemma thread_ok_other st st' lin lin' s s' i j req key th :
  j <> i -> sv_txs (server st') !! j = sv_txs (server st) !! j -> keys_grow s s' ->
  (forall la, order_says lin j la -> order_says lin' j la) ->
  thread_ok st lin s j req key th -> thread_ok st' lin' s' j req key th.
Proof.
  intros Hne Ht Hg Ho. destruct th as [p|r]; simpl; rewrite Ht.
  - intros (la & Hp & Hl). exists la. split; [by eapply phase_grows|auto].
  - intros [H1 H2]. split; [done|]. by apply (Ho (Some _)).
Qed.
Lemma returned_in_order st s0 lin s i :
  simulated st s0 lin s -> Res i ∈ history st -> i ∈ map who lin.
Proof.
  intros Hs Hi. destruct (sm_res _ _ _ _ Hs _ Hi) as ([req key] & r & Ht).
  apply (sm_threads _ _ _ _ Hs) in Ht as (_ & rk & Hl). apply list_elem_of_fmap. by exists (i, rk, answer_of r).
Qed.

(** A running request moves or returns, and happens now or does not. *)
Lemma simulated_thread st s0 lin s i req key p sv' th' hist' s' lin' :
  simulated st s0 lin s -> threads st !! i = Some (req, key, Running p) ->
  fits sv' s' -> (forall j, j <> i -> sv_txs sv' !! j = sv_txs (server st) !! j) ->
  (is_Some (sv_txs sv' !! i) -> exists p', th' = Running p') ->
  ((lin' = lin /\ s' = s) \/
   (exists a, (i ∉ map who lin) /\ spec_step req (norm_key key) a s s' /\ lin' = lin ++ [(i, (req, key), a)])) ->
  (hist' = history st \/ (hist' = history st ++ [Res i] /\ exists r, th' = Returned r)) ->
  let st' := mkSys sv' (<[i := (req, key, th')]> (threads st)) hist' in
  thread_ok st' lin' s' i req key th' -> simulated st' s0 lin' s'.
Proof.
  intros Hs Ht Hf Hfr Htx Hlin Hh st' Hok.
  assert (Hg : keys_grow s s').
  { destruct Hlin as [[_ ->]|(a & _ & Hstep & _)]; [by intros ??|]. intros sk v. by apply (spec_step_keys _ _ _ _ _ _ _ Hstep). }
  assert (Hl : spec_run (map (fun x => x.1.2) lin') (map snd lin') s0 s' /\ NoDup (map who lin') /\
               (forall j la, j <> i -> order_says lin j la -> order_says lin' j la) /\
               (forall j rk a, (j, rk, a) ∈ lin' -> (j, rk, a) ∈ lin \/ (j = i /\ rk = (req, key)))).
  { destruct Hlin as [[-> ->]|(a & Hi & Hstep & ->)]; [by destruct Hs; split_and!; auto|].
    destruct (order_extend lin s0 s s' i req key a) as (H1 & H2 & H3 & H4); [apply Hs|apply Hs|done|done|].
    split_and!; [done|done|done|]. intros j rk b [H|H%list_elem_of_singleton]%elem_of_app; [auto|]. by simplify_eq; auto. }
  destruct Hl as (Hrun & Hnd & Hsays & Hmem).
  assert (Hkeep : forall e, e ∈ hist' -> e ∈ history st \/ (e = Res i /\ exists r, th' = Returned r)).
  { destruct Hh as [->|[-> Hr]]; [auto|]. intros e [H|H%list_elem_of_singleton]%elem_of_app; auto. }
  split; simpl; [done|done|done| | | | | |].
  - intros j rq ky th. rewrite lookup_insert_Some. intros [[<- [= <- <- <-]]|[Hne Hj]]; [done|].
    eapply thread_ok_other; [done| |exact Hg| |by apply (sm_threads _ _ _ _ Hs)]; [by apply Hfr|]. intros la. by apply Hsays.
  - intros j rk a Hj. destruct (decide (j = i)) as [->|Hne].
    + rewrite lookup_insert_eq. exists th'. apply Hmem in Hj as [Hj|[_ ->]]; [|done].
      apply (sm_order _ _ _ _ Hs) in Hj as (th & Hj). congruence.
    + rewrite lookup_insert_ne by done. apply Hmem in Hj as [Hj|[? _]]; [|done]. by eapply sm_order.
  - intros j Hj. destruct (decide (j = i)) as [->|Hne].
    + rewrite lookup_insert_eq. destruct (Htx Hj) as (p' & ->). eauto.
    + rewrite lookup_insert_ne by done. rewrite Hfr in Hj by done. by eapply sm_txs.
  - intros j Hj. apply lookup_insert_is_Some'. right. apply Hkeep in Hj as [Hj|[? _]]; [by eapply sm_inv|done].
  - intros j Hj. apply Hkeep in Hj as [Hj|(He & r & ->)]; [|injection He as ->; rewrite lookup_insert_eq; eauto].
    destruct (sm_res _ _ _ _ Hs _ Hj) as (rk & r & Hr). rewrite lookup_insert_ne; [eauto|]. intros <-. congruence.
  - intros j k Hb Hk.
    assert (before (Res j) (Inv k) (history st)) as Hb'.
    { destruct Hh as [->|[-> _]]; [done|]. by apply before_snoc_inv in Hb as [?|[? _]]. }
    destruct Hlin as [[-> _]|(a & Hi & _ & ->)]; [by eapply sm_realtime|].
    rewrite map_app in Hk |- *. simpl in *. apply elem_of_app in Hk as [Hk| ->%list_elem_of_singleton].
    + apply before_app. by eapply sm_realtime.
    + apply before_snoc. eapply returned_in_order; [done|]. destruct Hb' as (l1 & l2 & l3 & ->). set_solver.
Qed.

Lemma phase_ret_inv req key s o r la : phase req key s o (Ret r) la -> o = None /\ settled req key s r la.
Proof.
  intros H. inversion H as [p Hp|h p _ Hp|id x p _ _ Hp|id x sts p _ Hp|h k p _ _ Hp|h k id p _ _ _ Hp| |]; subst;
    unfold at_begin, at_insert, at_outbox, at_lookup, at_commit in *; try done.
  1,3,5,6: naive_solver.
  - destruct key; naive_solver.
  - destruct sts; simpl in Hp; unfold at_commit in *; naive_solver.
Qed.

Lemma step_simulated st st' s0 lin s :
  simulated st s0 lin s -> step st st' -> exists lin' s', simulated st' s0 lin' s'.
Proof.
  intros Hs Hst. destruct Hst as [i req key Hi|i f req key p p' sv' Hi He|i req key r Hi|db' now Ho Hnow].
  - exists lin, s. pose proof Hs as [Hf Hrun Hnd Hth Hord Htx Hinv Hres Hrt].
    assert (Hnew : i ∉ map who lin).
    { intros ([[j rk] a] & -> & Hj)%list_elem_of_fmap. apply Hord in Hj as (th & Hj). unfold who in Hi. simpl in Hi. congruence. }
    assert (Htxi : sv_txs (server st) !! i = None).
    { destruct (sv_txs (server st) !! i) eqn:E; [|done]. destruct (Htx i) as (rk & p & H); [eauto|congruence]. }
    split; simpl; [done|done|done| | | | | |].
    + intros j rq ky th. rewrite lookup_insert_Some. intros [[<- [= <- <- <-]]|[Hne Hj]]; [|by apply Hth in Hj].
      exists None. split; [|done]. simpl. rewrite Htxi. simpl. pose proof (persist_stages req key) as Hp.
      destruct (request_hash req); [by apply ph_begin|]. destruct Hp as (e1 & -> & Hpl). apply ph_ret.
      unfold settled. rewrite plain_failed by done. constructor.
    + intros j rk a Hj. destruct (Hord _ _ _ Hj) as (th & Hth'). exists th. rewrite lookup_insert_ne; [done|]. congruence.
    + intros j Hj. destruct (Htx j Hj) as (rk & p & Hp). exists rk, p. rewrite lookup_insert_ne; [done|]. congruence.
    + intros j Hj. apply lookup_insert_is_Some'. apply elem_of_app in Hj as [Hj|[= ->]%list_elem_of_singleton]; auto.
    + intros j [Hj|Hj%list_elem_of_singleton]%elem_of_app; [|done]. destruct (Hres j Hj) as (rk & r & Hr).
      exists rk, r. rewrite lookup_insert_ne; [done|]. congruence.
    + intros j k Hb Hk. apply before_snoc_inv in Hb as [Hb|[He _]]; [by apply Hrt|by injection He as ->].
  - pose proof (sm_threads _ _ _ _ Hs _ _ _ _ Hi) as (la & Hp & Hla).
    destruct (exec_moves _ _ _ _ _ _ _ _ _ _ (sm_fits _ _ _ _ Hs) Hp He) as (s' & la' & Hcase & Hf' & Hfr & Hp').
    destruct Hcase as [[-> ->]|(-> & a & -> & Hstep)].
    + exists lin, s. eapply simulated_thread; eauto. simpl. eauto.
    + exists (lin ++ [(i, (req, key), a)]), s'.
      eapply simulated_thread; eauto 6. exists (Some a). split; [done|].
      exists (req, key). apply elem_of_app. right. by apply list_elem_of_singleton.
  - pose proof (sm_threads _ _ _ _ Hs _ _ _ _ Hi) as (la & Hp & Hla).
    apply phase_ret_inv in Hp as [Ho Hr]. apply fmap_None in Ho.
    destruct la as [a|]; simpl in Hr, Hla.
    + exists lin, s. eapply simulated_thread; [exact Hs|exact Hi|apply Hs|done| |by left|right; eauto|].
      * rewrite Ho. by intros [].
      * simpl. rewrite Hr. eauto.
    + exists (lin ++ [(i, (req, key), answer_of r)]), s.
      eapply simulated_thread; [exact Hs|exact Hi|apply Hs|done| |right|right; eauto|].
      * rewrite Ho. by intros [].
      * exists (answer_of r). split_and!; [done|by apply stutter_step|done].
      * split; [done|]. exists (req, key). apply elem_of_app. right. by apply list_elem_of_singleton.
  - exists lin, s. destruct Hs as [[[Hok Hev Hke] Hso Hap] Hrun Hnd Hth Hord Htx Hinv Hres Hrt].
    split; simpl; try done. split; simpl; [|intros; eapply sound_others; eauto|done].
    destruct Ho as (Hok' & He & _). split; [done|intros; rewrite He; apply Hev|].
    intros src k. rewrite Hke. unfold event_by_key. by rewrite He.
Qed.

Lemma initial_simulated db uuid seq now s0 : represents s0 db -> simulated (initial db uuid seq now) s0 [] s0.
Proof.
  intros Hr. split; simpl; try set_solver.
  - split; simpl; [done|intros; by rewrite lookup_empty in *..].
  - constructor.
  - constructor.
  - intros i [t Ht]. by rewrite lookup_empty in Ht.
Qed.

Lemma reachable_simulated st0 st s0 lin0 s1 :
  simulated st0 s0 lin0 s1 -> reachable st0 st -> exists lin s, simulated st s0 lin s.
Proof.
  intros H0 Hr. induction Hr as [|st st' _ IH Hst]; [eauto|]. destruct IH as (lin & s & Hs). by eapply step_simulated.
Qed.

(** A request that was answered is in the order with its answer. *)
Lemma returned_order st s0 lin s i req key r :
  simulated st s0 lin s -> threads st !! i = Some (req, key, Returned r) -> (i, (req, key), answer_of r) ∈ lin.
Proof.
  intros Hs Hi. pose proof (sm_threads _ _ _ _ Hs _ _ _ _ Hi) as (_ & rk & Hl).
  destruct (sm_order _ _ _ _ Hs _ _ _ Hl) as (th & Hth). by simplify_eq.
Qed.

(** C11: requests that overlap are atomic.  Let any number of requests run at once,
    their statements interleaved in any order that row locks and unique indexes
    permit, with any failed calls and lost replies, while other components work on
    the tables.  Then there is one order of the requests in which the idempotent
    store, taking each in a single step, gives every answer that was given and ends
    in what is committed; a request that returned before another was made comes
    before it.  So two clients that use one key for one source at the same time are
    told the same event. *)
Theorem concurrent_linearizable db uuid seq now s0 st :
  represents s0 db -> reachable (initial db uuid seq now) st ->
  exists (lin : order) s,
    spec_run (map (fun x => x.1.2) lin) (map snd lin) s0 s /\ represents s (sv_db (server st)) /\
    NoDup (map who lin) /\
    (forall i rk a, (i, rk, a) ∈ lin -> exists th, threads st !! i = Some (rk, th)) /\
    (forall i req key r, threads st !! i = Some (req, key, Returned r) -> (i, (req, key), answer_of r) ∈ lin) /\
    (forall i j, before (Res i) (Inv j) (history st) -> j ∈ map who lin -> before i j (map who lin)) /\
    (forall i j req1 key1 x1 req2 key2 x2 k,
       threads st !! i = Some (req1, key1, Returned (Ok x1)) -> threads st !! j = Some (req2, key2, Returned (Ok x2)) ->
       in_Source req1 = in_Source req2 -> norm_key key1 = Some k -> norm_key key2 = Some k ->
       res_EventID x1 = res_EventID x2 /\ request_hash req1 = request_hash req2).
Proof.
  intros Hrep Hr. destruct (reachable_simulated _ _ _ _ _ (initial_simulated db uuid seq now s0 Hrep) Hr) as (lin & s & Hs).
  exists lin, s. split_and!; [apply Hs|apply Hs|apply Hs|apply Hs| |apply Hs|].
  { intros i req key r Hi. eapply returned_order; [exact Hs|exact Hi]. }
  intros i j req1 key1 x1 req2 key2 x2 k Hi Hj Hsrc Hk1 Hk2.
  assert (Hans : forall i req key x, threads st !! i = Some (req, key, Returned (Ok x)) -> norm_key key = Some k ->
    exists hash, request_hash req = Ok hash /\ st_keys s !! (in_Source req, k) = Some (res_EventID x, Some hash)).
  { intros i' req key x Hx Hk. apply (returned_order _ _ _ _ _ _ _ _ Hs) in Hx. apply list_elem_of_lookup in Hx as (n & Hn).
    eapply (spec_run_answers _ _ _ _ (sm_run _ _ _ _ Hs) n); rewrite ?list_lookup_fmap, ?Hn; done. }
  destruct (Hans _ _ _ _ Hi Hk1) as (h1 & Hh1 & Hl1), (Hans _ _ _ _ Hj Hk2) as (h2 & Hh2 & Hl2).
  rewrite Hsrc, Hl2 in Hl1. simplify_eq. by rewrite Hh1, Hh2.
Qed.
End System.

(** Two clients send one request under one key at the same time: the second waits
    for the transaction of the first and is told its event. *)
Definition race : list action :=
  [Invoke 0 sample_request "k1"; Invoke 1 sample_request " k1"; Call 0 NoFault; Call 1 NoFault; Call 0 NoFault].
Definition rest_of_race : list action :=
  repeat (Call 0 NoFault) 5 ++ [Return 0] ++ repeat (Call 1 NoFault) 4 ++ [Return 1].

Lemma concurrent_linearizable_witness :
  let st0 := initial empty_db 0 0 0 in
  run (race ++ [Call 1 NoFault]) st0 = None /\
  exists st, run (race ++ rest_of_race) st0 = Some st /\
    snd <$> threads st !! 0%nat = Some (Returned (Ok (mkPersistResult stored_id true))) /\
    snd <$> threads st !! 1%nat = Some (Returned (Ok (mkPersistResult stored_id false))) /\
    exists lin s, spec_run (map (fun x => x.1.2) lin) (map snd lin) empty_store s /\ represents s (sv_db (server st)) /\
      (forall i req key r, threads st !! i = Some (req, key, Returned r) -> (i, (req, key), answer_of r) ∈ (lin : order)).
Proof.
  cbv zeta. split; [vm_compute; reflexivity|].
  destruct (run (race ++ rest_of_race) (initial empty_db 0 0 0)) as [st|] eqn:E; [|vm_compute in E; discriminate E].
  exists st. split; [reflexivity|]. split; [|split].
  - vm_compute in E. injection E as <-. vm_compute. reflexivity.
  - vm_compute in E. injection E as <-. vm_compute. reflexivity.
  - destruct (concurrent_linearizable empty_db 0 0 0 empty_store st represents_empty (run_reachable _ _ _ E))
      as (lin & s & H1 & H2 & _ & _ & H5 & _). exists lin, s. split; [exact H1|split; [exact H2|exact H5]].
Defined.

End Linearizable.
