(* ===== verification/Progress.v ===== *)
(** * Progress: requests that overlap all finish

    The requests of [Interleaving] wait for each other's transactions.  A request
    waits at the insertion of its event or of its outbox row, and in both cases for
    one that is further on; so somebody can always go on, and without faults every
    request returns after a bounded number of calls. *)

From stdpp Require Import functions.
From S2P Require Import Prelude GoStrings GoErrors Json Database DatabaseFacts World WorldFacts Simulation Operations Ingestion Samples.
From S2P Require Import IngestionSpec Interleaving Linearizable.
Import Operations Ingestion IngestionSpec Interleaving Linearizable.

Module Progress.

Section Progress.
Context {SC : Strconv} {PG : Postgres}.
Implicit Types (sv : Server) (st : Sys) (s : IdemStore) (t u : OpenTx).

(** ** Who is waited for *)

Lemma statement_waits {A} i g (stmt : string -> Z -> DB -> res error (A * DB)) sv t :
  sv_txs sv !! i = Some t -> statement i g stmt sv = None ->
  exists a db', stmt (if g then uuid_v4 (sv_uuid sv) else "") (began t) (layer (own t) (sv_db sv)) = Ok (a, db') /\
    exists j u, j <> i /\ sv_txs sv !! j = Some u /\
      collide (layer (number_history (sv_seq sv) (written (layer (own t) (sv_db sv)) db')) (own t)) (own u) = true.
Proof.
  intros Ht. unfold statement. rewrite Ht. cbv zeta. destruct (stmt _ _ _) as [[a db']|e]; [|done].
  destruct (existsb _ _) eqn:Ec; [|done]. intros _. exists a, db'. split; [done|].
  apply existsb_exists in Ec as ([j u] & Hin & Hc).
  apply list_elem_of_In, elem_of_map_to_list, lookup_delete_Some in Hin as [Hne Hj]. eauto.
Qed.

(** [i] has to wait: there is a call of it that cannot be executed. *)
Definition waits (i : nat) (p : prog PersistResult) sv : Prop :=
  (forall r, p <> Ret r) /\ exec i NoFault p sv = None.

Lemma stmt_waits {A} i g (stmt : string -> Z -> DB -> res error (A * DB)) k sv :
  waits i (Stmt g stmt k) sv -> statement i g stmt sv = None.
Proof. intros [_ H]. simpl in H. by destruct (statement i g stmt sv) as [[r sv']|]. Qed.

Lemma collide_apart a b : collide a b = true -> dlq_records a = ∅ -> ~ apart a b.
Proof. intros Hc Hd Ha. by rewrite (apart_collide a b Ha Hd) in Hc. Qed.

(** The last statements of a transaction touch no row another one could hold. *)
Lemma history_runs s sv i t id statuses p :
  fits sv s -> sv_txs sv !! i = Some t -> at_history id statuses p -> ~ waits i p sv.
Proof.
  intros Hf Ht Hs Hw. pose proof (ft_sound _ _ Hf _ _ Ht) as Hso. destruct statuses as [|status rest].
  - destruct Hs as (k & -> & _). destruct Hw as [_ Hw]. simpl in Hw. by destruct (commit_of i sv).
  - destruct Hs as (k & -> & _). apply stmt_waits in Hw.
    eapply statement_waits in Hw as (a & db' & E & j & u & Hj & Hu & Hc); [|done].
    unfold history_stmt in E. destruct (insertHistorySQL _ _ _ _ _) as [db1|] eqn:Ei; simplify_eq/=.
    apply insertHistory_inv in Ei as (v & d & _ & _ & _ & ->). rewrite written_history in Hc.
    eapply collide_apart; [exact Hc|simpl; by rewrite (sd_dlq _ _ Hso)|].
    destruct (ft_apart _ _ Hf i j t u ltac:(done) Ht Hu) as [A1 A2 A3 A4].
    split; simpl; rewrite (left_id_L ∅ (∪)); done.
Qed.

Lemma rollback_runs i p sv : ~ waits i (Rollback p) sv.
Proof. by intros [_ H]. Qed.

(** A transaction that has its outbox row waits for nobody. *)
Lemma late_runs req key s sv i t oid p la :
  fits sv s -> sv_txs sv !! i = Some t -> phase req key s (Some (own t)) p la ->
  is_Some (outbox (own t) !! oid) -> ~ waits i p sv.
Proof.
  intros Hf Ht Hp [o Ho].
  inversion Hp as [|h p1 _ _ Hx|id x p1 _ Hx _|id x sts p1 _ Hs|h k p1 _ _ _ Hx|h k id p1 _ _ _ _ Hx| |]; subst.
  1,4,5: simpl in Ho; by rewrite lookup_empty in Ho.
  - by rewrite Hx, lookup_empty in Ho.
  - by eapply history_runs.
  - apply rollback_runs.
Qed.

(** A transaction that has its event waits at most for one that has its outbox row. *)
Lemma holder_waits req key s sv i t e p la :
  fits sv s -> sv_txs sv !! i = Some t -> phase req key s (Some (own t)) p la -> known (own t) e ->
  waits i p sv -> exists j u oid, sv_txs sv !! j = Some u /\ is_Some (outbox (own u) !! oid).
Proof.
  intros Hf Ht Hp [o Ho] Hw. pose proof (ft_sound _ _ Hf _ _ Ht) as Hso.
  inversion Hp as [|h p1 _ _ Hx|id x p1 _ _ Hs|id x sts p1 _ Hs|h k p1 _ _ _ Hx|h k id p1 _ _ _ _ Hx| |]; subst.
  1,4,5: try rewrite <- Hx in Ho; simpl in Ho; by rewrite lookup_empty in Ho.
  - destruct Hs as (k & -> & _ & _). apply stmt_waits in Hw.
    eapply statement_waits in Hw as (a & db' & E & j & u & Hj & Hu & Hc); [|done].
    exists j, u. destruct (map_choose_or_empty (outbox (own u))) as [(oid & r & Hr)|Hem]; [eauto|].
    exfalso. unfold outbox_stmt in E. destruct (insertOutboxSQL _ _ _ _) as [db1|] eqn:Ei; simplify_eq/=.
    apply insertOutbox_inv in Ei as (v & _ & _ & _ & Hn & ->). rewrite written_outbox in Hc by done.
    eapply collide_apart; [exact Hc|simpl; by rewrite (sd_dlq _ _ Hso)|].
    destruct (ft_apart _ _ Hf i j t u ltac:(done) Ht Hu) as [A1 A2 A3 A4].
    split; simpl; rewrite ?(left_id_L ∅ (∪)), ?Hem; try done; intros; by rewrite lookup_empty in *.
  - exfalso. by eapply history_runs.
  - exfalso. by eapply rollback_runs.
Qed.

(** Whoever waits, there is a transaction that has its event. *)
Lemma waits_for_holder req key s sv i o p la :
  fits sv s -> own <$> sv_txs sv !! i = o -> phase req key s o p la -> waits i p sv ->
  exists j u e, sv_txs sv !! j = Some u /\ known (own u) e.
Proof.
  intros Hf Hi Hp Hw.
  assert (Hopen : forall x, o = Some x -> exists t, sv_txs sv !! i = Some t /\ own t = x).
  { intros x ->. apply fmap_Some in Hi as (t & Ht & ->). eauto. }
  assert (Hins : forall A g (stmt : string -> Z -> DB -> res error (A * DB)) k t,
    sv_txs sv !! i = Some t -> own t = empty_db -> waits i (Stmt g stmt k) sv ->
    (forall id now db a db', stmt id now db = Ok (a, db') -> db' = db \/
       exists id row, events db !! id = None /\ db' = set_events (<[id := row]> (events db)) db) ->
    exists j u e, sv_txs sv !! j = Some u /\ known (own u) e).
  { intros A g stmt k t Ht Ho Hst Hdb. apply stmt_waits in Hst.
    eapply statement_waits in Hst as (a & db' & E & j & u & Hj & Hu & Hc); [|done]. exists j, u.
    destruct (map_choose_or_empty (events (own u))) as [(e & r & Hr)|Hem]; [exists e; split; [done|by exists r]|]. exfalso.
    rewrite Ho in E, Hc. rewrite layer_empty_r in Hc. apply Hdb in E as [->|(id & row & Hn & ->)].
    - rewrite written_nothing in Hc. eapply collide_apart; [exact Hc|done|]. apply apart_sym, apart_empty.
    - rewrite written_event in Hc by done. eapply collide_apart; [exact Hc|done|].
      split; simpl; rewrite ?Hem; intros; by rewrite lookup_empty in *. }
  destruct Hp as [p Hs|h p _ Hs|id x p Hh _ _|id x sts p _ Hs|h k p _ _ Hs|h k id p _ _ _ Hs|x r la Hr|r la Hr].
  - destruct Hs as (h & k & _ & -> & _). by destruct Hw.
  - destruct (Hopen _ eq_refl) as (t & Ht & Ho). unfold at_insert in Hs. destruct key as [key|].
    + destruct Hs as (k & -> & _). eapply Hins; [done..|]. intros id now db a db' E.
      unfold insertEventWithIdempotencyKeySQL in E. destruct (jsonb_in _); [|done].
      destruct (event_by_key _ _ db); [by simplify_eq; left|].
      destruct (insert_event_row _ _ _) as [db1|] eqn:Ei; simplify_eq/=. apply insert_event_row_inv in Ei as [? ->]. eauto.
    + destruct Hs as (k & -> & _). eapply Hins; [done..|]. intros id now db a db' E.
      unfold insertEventWithoutIdempotencyKeySQL in E. destruct (jsonb_in _); [|done].
      destruct (insert_event_row _ _ _) as [db1|] eqn:Ei; simplify_eq/=. apply insert_event_row_inv in Ei as [? ->]. eauto.
  - destruct (Hopen _ eq_refl) as (t & Ht & <-). exists i, t, id. split; [done|]. by eapply holds_known.
  - destruct (Hopen _ eq_refl) as (t & Ht & <-). exfalso. by eapply history_runs.
  - destruct (Hopen _ eq_refl) as (t & Ht & Ho). destruct Hs as (kk & -> & _). eapply Hins; [done..|].
    intros id now db a db' E. unfold lookup_stmt in E. simplify_eq. by left.
  - destruct Hs as (kk & -> & _). destruct Hw as [_ Hw]. simpl in Hw. by destruct (commit_of i sv).
  - exfalso. by eapply rollback_runs.
  - destruct Hw as [Hw _]. by destruct (Hw r).
Qed.

(** ** Somebody can go on *)

Definition goes_on (i : nat) st : Prop :=
  exists rk p, threads st !! i = Some (rk, Running p) /\ ((exists r, p = Ret r) \/ is_Some (exec i NoFault p (server st))).

Lemma goes_on_or_waits i st rk p :
  threads st !! i = Some (rk, Running p) -> goes_on i st \/ waits i p (server st).
Proof.
  intros Hi. destruct (exec i NoFault p (server st)) as [x|] eqn:E; [left; exists rk, p; rewrite E; eauto|].
  destruct p as [r|k|A g stmt k|k|k] eqn:Ep; [left; exists rk, p; subst; eauto|right; by split..].
Qed.

Lemma somebody_goes_on st s0 lin s i rk p :
  simulated st s0 lin s -> threads st !! i = Some (rk, Running p) -> exists j, goes_on j st.
Proof.
  intros Hs. pose proof (sm_fits _ _ _ _ Hs) as Hf.
  assert (Hth : forall j u, sv_txs (server st) !! j = Some u -> exists rk p la, threads st !! j = Some (rk, Running p) /\
            phase rk.1 (norm_key rk.2) s (Some (own u)) p la).
  { intros j u Hu. destruct (sm_txs _ _ _ _ Hs j) as ([req key] & q & Hj); [eauto|].
    pose proof (sm_threads _ _ _ _ Hs _ _ _ _ Hj) as (la & Hp & _). rewrite Hu in Hp. eauto. }
  intros Hi. destruct (goes_on_or_waits _ _ _ _ Hi) as [?|Hw]; [eauto|]. destruct rk as [req key].
  pose proof (sm_threads _ _ _ _ Hs _ _ _ _ Hi) as (la & Hp & _).
  destruct (waits_for_holder _ _ _ _ _ _ _ _ Hf eq_refl Hp Hw) as (j & u & e & Hu & He).
  destruct (Hth j u Hu) as (rkj & q & laj & Hj & Hq).
  destruct (goes_on_or_waits _ _ _ _ Hj) as [?|Hwj]; [eauto|].
  destruct (holder_waits _ _ _ _ _ _ _ _ _ Hf Hu Hq He Hwj) as (k & v & oid & Hv & Ho).
  destruct (Hth k v Hv) as (rkk & q' & lak & Hk & Hq').
  destruct (goes_on_or_waits _ _ _ _ Hk) as [?|Hwk]; [eauto|]. exfalso. by eapply late_runs.
Qed.

(** ** How long it takes *)

(** [p] returns within [n] steps, whatever it is answered. *)
Fixpoint within {X} (n : nat) (p : prog X) : Prop :=
  match n, p with
  | O, _ => False
  | S _, Ret _ => True
  | S n', Begin k => forall r, within n' (k r)
  | S n', Stmt _ _ k => forall r, within n' (k r)
  | S n', Commit k => forall r, within n' (k r)
  | S n', Rollback k => within n' k
  end.

Lemma within_S {X} n (p : prog X) : within n p -> within (S n) p.
Proof. revert p. induction n as [|n IH]; intros p; [done|]. destruct p; [done| | | |apply IH]; intros H r; apply IH, H. Qed.

Lemma persist_within req key : within 8 (persist_prog req key).
Proof.
  unfold persist_prog. destruct (computeRequestHash _ _ _); [|done]. simpl. intros [[]|e]; [|done]. simpl.
  unfold tx_prog, keyless_prog, outbox_prog, lookup_prog. destruct (String.eqb _ "").
  - simpl. intros [id|e]; [|done]. simpl. repeat (intros [[]|e']; [|done]; simpl). done.
  - simpl. intros [[id|]|e]; [..|done]; simpl.
    + repeat (intros [[]|e']; [|done]; simpl). done.
    + intros [row|e]; [|done]. simpl. destruct (check_row _ _ _); [|done]. simpl. by intros [[]|e'].
Qed.

Lemma exec_within {X} i f (p p' : prog X) sv sv' n :
  exec i f p sv = Some (p', sv') -> within (S n) p -> within n p'.
Proof.
  destruct p as [r|k|A g stmt k|k|k]; simpl; [done|..].
  - destruct f; intros [= <- <-] H; apply H.
  - destruct f; [destruct (statement _ _ _ _) as [[r sv1]|]| |destruct (statement _ _ _ _) as [[r sv1]|]]; try done;
      intros [= <- <-] H; apply H.
  - destruct f; [destruct (commit_of i sv) as [r sv1]| |]; intros [= <- <-] H; apply H.
  - by intros [= <- <-].
Qed.

Lemma reachable_within st0 st :
  (forall i rk p, threads st0 !! i = Some (rk, Running p) -> within 8 p) -> reachable st0 st ->
  forall i rk p, threads st !! i = Some (rk, Running p) -> within 8 p.
Proof.
  intros H0 Hr. induction Hr as [|st st' _ IH Hst]; [done|].
  destruct Hst as [i req key Hi|i f req key p p' sv' Hi He|i req key r Hi|db' now Ho Hnow]; cbn [threads]; [..|exact IH];
    intros j rk q; rewrite lookup_insert_Some; intros [[<- Hq]|[_ Hq]]; simplify_eq; eauto using persist_within.
  apply within_S. eapply exec_within; eauto.
Qed.

(** ** All of them finish *)

Definition is_running (x : EventInput * string * thread) : bool := match x.2 with Running _ => true | Returned _ => false end.
Definition plain_action (a : action) : bool := match a with Call _ NoFault | Return _ => true | _ => false end.

(** What is left to do: [b i] steps of request [i]. *)
Definition left_over (b : nat -> nat) st : nat := sum_list_with b (elements (dom (threads st))).

Lemma left_over_step b st st' j n :
  dom (threads st') = dom (threads st) -> is_Some (threads st !! j) -> b j = S n ->
  left_over b st = S (left_over (<[j := n]> b) st').
Proof.
  intros Hd Hj Hb. unfold left_over. rewrite Hd. apply elem_of_dom, elem_of_elements in Hj.
  pose proof (NoDup_elements (dom (threads st))) as Hnd. apply elem_of_Permutation in Hj as (l & Hl).
  rewrite Hl in Hnd |- *. apply NoDup_cons in Hnd as [Hnin _]. simpl. rewrite fn_lookup_insert, Hb. simpl. do 2 f_equal.
  clear -Hnin. induction l as [|k l IH]; [done|]. simpl. rewrite fn_lookup_insert_ne by set_solver. f_equal. apply IH. set_solver.
Qed.

(** One step of whoever goes on *)
Lemma goes_on_step j b st :
  goes_on j st -> (forall i rk p, threads st !! i = Some (rk, Running p) -> within (b i) p) ->
  exists a st' n, plain_action a = true /\ act a st = Some st' /\ b j = S n /\ is_Some (threads st !! j) /\
    dom (threads st') = dom (threads st) /\
    forall i rk p, threads st' !! i = Some (rk, Running p) -> within ((<[j := n]> b) i) p.
Proof.
  intros ([req key] & p & Hj & Hgo) Hb. pose proof (Hb _ _ _ Hj) as Hw. destruct (b j) as [|n] eqn:En; [done|].
  assert (Hdom : forall th, dom (<[j := (req, key, th)]> (threads st)) = dom (threads st)) by (intros; by apply dom_insert_lookup_L).
  destruct Hgo as [[r ->]|[[p' sv'] He]].
  - eexists (Return j), _, n. simpl. rewrite Hj. split_and!; [done|done|done|eauto|apply Hdom|].
    cbn [threads]. intros i rk p [[<- ?]|[Hne Hi]]%lookup_insert_Some; [done|]. rewrite fn_lookup_insert_ne by done. eauto.
  - eexists (Call j NoFault), _, n. cbn [act]. rewrite Hj, He. simpl. split_and!; [done|done|done|eauto|apply Hdom|].
    cbn [threads]. intros i rk q [[<- Hq]|[Hne Hi]]%lookup_insert_Some.
    + simplify_eq. rewrite fn_lookup_insert. by eapply exec_within.
    + rewrite fn_lookup_insert_ne by done. eauto.
Qed.

Lemma finish_from m b st s0 lin s :
  simulated st s0 lin s -> (forall i rk p, threads st !! i = Some (rk, Running p) -> within (b i) p) ->
  (left_over b st <= m)%nat ->
  exists schedule st', (length schedule <= m)%nat /\ forallb plain_action schedule = true /\ run schedule st = Some st' /\
    dom (threads st') = dom (threads st) /\ forall i x, threads st' !! i = Some x -> is_running x = false.
Proof.
  revert b st lin s. induction m as [|m IH]; intros b st lin s Hs Hb Hm.
  all: destruct (decide (map_Forall (fun _ x => is_running x = false) (threads st))) as [Hall|Hno];
    [exists [], st; split_and!; [simpl; lia|done|done|done|exact Hall]|].
  all: apply map_not_Forall in Hno as (i & [rk [p|r]] & Hi & Hrun); [|done|solve_decision].
  all: destruct (somebody_goes_on _ _ _ _ _ _ _ Hs Hi) as (j & Hj).
  all: destruct (goes_on_step j b st Hj Hb) as (a & st1 & n & Ha & Hact & Hn & Hsome & Hd & Hb1).
  all: pose proof (left_over_step b st st1 j n Hd Hsome Hn) as Hl.
  1: lia.
  destruct (step_simulated _ _ _ _ _ Hs (act_step _ _ _ Hact)) as (lin1 & s1 & Hs1).
  destruct (IH _ _ _ _ Hs1 Hb1 ltac:(lia)) as (schedule & st' & Hlen & Hpl & Hrun' & Hd' & Hall).
  exists (a :: schedule), st'. split_and!; [simpl; lia|by simpl; rewrite Ha| |congruence|done].
  unfold run in *. simpl. by rewrite Hact.
Qed.

(** C13: nobody waits for ever.  From every state that overlapping requests can
    reach, with transactions of any of them open and any of them waiting for
    another, there is a sequence of at most eight steps for each request, all of
    them calls that succeed, after which every request has returned: transactions
    never wait for each other in a circle. *)
Theorem requests_finish db uuid seq now s0 st :
  represents s0 db -> reachable (initial db uuid seq now) st ->
  exists schedule st',
    (length schedule <= 8 * size (threads st))%nat /\ forallb plain_action schedule = true /\ run schedule st = Some st' /\
    dom (threads st') = dom (threads st) /\ forall i x, threads st' !! i = Some x -> is_running x = false.
Proof.
  intros Hrep Hr. destruct (reachable_simulated _ _ _ _ _ (initial_simulated db uuid seq now s0 Hrep) Hr) as (lin & s & Hs).
  eapply (finish_from _ (fun _ => 8%nat)); [exact Hs| |].
  - eapply reachable_within; [|exact Hr]. intros i rk p. simpl. by rewrite lookup_empty.
  - unfold left_over. rewrite <- (size_dom (D:=gset nat)). change (size (dom (threads st))) with (length (elements (dom (threads st)))).
    induction (elements _); simpl; lia.
Qed.
End Progress.

(** In the middle of the race the second client cannot go on; both finish. *)
Lemma requests_finish_witness :
  exists st, run race (initial empty_db 0 0 0) = Some st /\ act (Call 1 NoFault) st = None /\
    exists schedule st', (length schedule <= 16)%nat /\ run schedule st = Some st' /\
      forall i x, threads st' !! i = Some x -> is_running x = false.
Proof.
  assert (match run race (initial empty_db 0 0 0) with
          | Some st => match act (Call 1 NoFault) st with None => true | Some _ => false end && Nat.eqb (size (threads st)) 2
          | None => false
          end = true) as H by (vm_compute; reflexivity).
  destruct (run race (initial empty_db 0 0 0)) as [st|] eqn:E; [|discriminate H].
  apply andb_prop in H as [Hw Hsz]. apply Nat.eqb_eq in Hsz.
  exists st. split; [reflexivity|]. split; [destruct (act (Call 1 NoFault) st); [discriminate Hw|reflexivity]|].
  destruct (requests_finish empty_db 0 0 0 empty_store st represents_empty (run_reachable _ _ _ E))
    as (schedule & st' & Hl & _ & Hr & _ & Hall).
  exists schedule, st'. rewrite Hsz in Hl. split; [exact Hl|split; [exact Hr|exact Hall]].
Defined.
End Progress.
