(* ===== verification/Outbox.v ===== *)
(** * Outbox: publication of outbox rows
    ([internal/outbox/publisher.go], [internal/outbox/runner.go])

    One round of the publisher claims the first due row, hands the event to the
    broker, and either marks the row published or reschedules it with an
    exponential backoff, in one transaction; the runner repeats rounds until its
    context is cancelled. *)

From S2P Require Import Prelude GoStrings GoErrors GoTime Utf8 Database DatabaseFacts RedisServer.
From S2P Require Import World WorldFacts Simulation Operations.
Import Operations.

Module Outbox.

Definition maxStoredOutboxErrorLength : nat := 1000.

Record OutboxEvent := mkOutboxEvent {
  oe_OutboxID : string; oe_EventID : string; oe_EventType : string; oe_Source : string;
  oe_Payload : string; oe_CreatedAt : Z; oe_AttemptCount : Z;
}.

Record PublishNextOutboxResult := mkResult {
  Found : bool; Published : bool; OutboxID : string; r_EventID : string;
}.

Definition emptyResult : PublishNextOutboxResult := mkResult false false "" "".

(** ** Helpers without effects *)

(** The loop of [outboxBackoff] with [n] rounds left; durations are [int64]. *)
Fixpoint backoff_loop (n : nat) (delay max : Z) : Z :=
  match n with
  | O => if max <? delay then max else delay
  | S n' => if max <=? delay then max
            else if Z.quot max 2 <? delay then max
            else backoff_loop n' (wrap64 (delay * 2)) max
  end.

Definition outboxBackoff (base max attempt : Z) : Z :=
  if attempt <=? 1 then base else backoff_loop (Z.to_nat (attempt - 1)) base max.

(** [None] is the nil error. *)
Definition sanitizeOutboxError (err : option error) : string :=
  let message := match err with Some e => TrimSpace (error_text e) | None => "" end in
  let message := if String.eqb message "" then "publication failed" else message in
  let runes := runes_of_string message in
  if (maxStoredOutboxErrorLength <? length runes)%nat
  then string_of_runes (take maxStoredOutboxErrorLength runes)
  else message.

Section Publisher.
Context {SC : Strconv} {PG : Postgres} {R : Type}.
Abbreviation M := (M (R:=R)).

Definition PublishOutboxEventFunc : Type := OutboxEvent -> M unit.

Definition validatePublishNextOutboxConfig (pool : option Pool)
    (publish : option PublishOutboxEventFunc) (baseBackoff maxBackoff : Z) : res error unit :=
  match pool, publish with
  | None, _ => Err (ErrorString "outbox publisher pool is required")
  | _, None => Err (ErrorString "outbox publisher function is required")
  | Some _, Some _ =>
      if baseBackoff <=? 0 then Err (ErrorString "outbox publisher base backoff must be positive")
      else if maxBackoff <? baseBackoff
      then Err (ErrorString "outbox publisher max backoff must be at least base backoff")
      else Ok tt
  end.

(** ** Effects *)

(** [None] is [pgx.ErrNoRows]. *)
Definition claimNextOutboxEvent : M (option OutboxEvent) :=
  wrap_err (wrapf "claim next pending outbox event")
    (fun w =>
       tx_stmt (fun now db =>
         Ok (match selectNextPendingOutboxSQL (w_locked w) now db with
             | None => None
             | Some ((oid, o), (eid, e)) =>
                 Some (mkOutboxEvent oid eid (ev_event_type e) (ev_source e) (ev_payload e)
                         (ev_created_at e * 1000) (ob_attempt_count o))
             end, db)) w).

Definition markOutboxPublished (outboxID : string) : M unit :=
  let! affected := wrap_err (wrapf ("mark outbox " +:+ outboxID +:+ " published"))
                     (tx_stmt (fun now db => markOutboxPublishedSQL now outboxID db)) in
  if negb (affected =? 1) then
    gerr (ErrorString ("mark outbox " +:+ outboxID +:+ " published affected " +:+
                       Itoa affected +:+ " rows"))
  else gret tt.

(** [delay.Microseconds()] *)
Definition rescheduleOutboxAfterFailure (outboxID : string) (delay : Z) (storedError : string) : M unit :=
  let! affected := wrap_err (wrapf ("reschedule outbox " +:+ outboxID +:+ " after publication failure"))
                     (tx_stmt (fun now db =>
                        rescheduleOutboxAfterFailureSQL now outboxID (Z.quot delay 1000)
                          storedError db)) in
  if negb (affected =? 1) then
    gerr (ErrorString ("reschedule outbox " +:+ outboxID +:+ " affected " +:+
                       Itoa affected +:+ " rows"))
  else gret tt.

(** The function returns both a result and an error when a publication failed
    and its failure state is committed: [FailedPublish] is that pair. *)
Inductive PublishOutcome :=
| Done (r : PublishNextOutboxResult)
| FailedPublish (r : PublishNextOutboxResult) (e : error).

(** The body of the round, from the claim on, inside the open transaction. *)
Definition publish_round (publish : PublishOutboxEventFunc) (baseBackoff maxBackoff : Z)
    : M PublishOutcome :=
  let! claimed := claimNextOutboxEvent in
  match claimed with
  | None =>
      let! _ := wrap_err (wrapf "rollback empty outbox transaction") rollback_tx in
      gret (Done emptyResult)
  | Some event =>
      let result := mkResult true false (oe_OutboxID event) (oe_EventID event) in
      let! published := catch (publish event) in
      match published with
      | Err err =>
          let attemptNumber := wrap64 (oe_AttemptCount event + 1) in
          let delay := outboxBackoff baseBackoff maxBackoff attemptNumber in
          let! _ := rescheduleOutboxAfterFailure (oe_OutboxID event) delay
                      (sanitizeOutboxError (Some err)) in
          let! _ := wrap_err (wrapf ("commit outbox failure state for outbox " +:+
                                     oe_OutboxID event +:+ " event " +:+ oe_EventID event))
                      commit_tx in
          gret (FailedPublish result
                  (wrap_suffix (": outbox " +:+ oe_OutboxID event +:+ " event " +:+
                                oe_EventID event +:+ " attempt " +:+ Itoa attemptNumber)
                     (Sentinel ErrOutboxPublishFailed)))
      | Ok _ =>
          let! _ := markOutboxPublished (oe_OutboxID event) in
          let! _ := InsertStatusHistory (oe_EventID event) StatusPublished None in
          let! _ := wrap_err (wrapf ("commit published outbox " +:+ oe_OutboxID event +:+
                                     " event " +:+ oe_EventID event)) commit_tx in
          gret (Done (mkResult true true (oe_OutboxID event) (oe_EventID event)))
      end
  end.

(** The validation rejects a nil [publish]; calling one would panic. *)
Definition PublishNextOutboxEvent (pool : option Pool) (publish : option PublishOutboxEventFunc)
    (baseBackoff maxBackoff : Z) : M PublishOutcome :=
  let! _ := lift_res (validatePublishNextOutboxConfig pool publish baseBackoff maxBackoff) in
  match publish with
  | None => gerr (Panic "runtime error: invalid memory address or nil pointer dereference")
  | Some publish =>
      let! _ := wrap_err (wrapf "begin publish outbox transaction") begin_tx in
      deferred_rollback (publish_round publish baseBackoff maxBackoff)
  end.

End Publisher.

(** ** The runner ([runner.go]) *)

Record Runner {R : Type} := mkRunner { publishNext : M (R:=R) PublishOutcome; pollInterval : Z }.
Arguments Runner R : clear implicits.
Arguments mkRunner {R}.

Definition NewRunner {R} (publishNext : option (M (R:=R) PublishOutcome)) (pollInterval : Z)
    : res error (Runner R) :=
  match publishNext with
  | None => Err (ErrorString "outbox runner publish function is required")
  | Some pn => if pollInterval <=? 0
               then Err (ErrorString "outbox runner poll interval must be positive")
               else Ok (mkRunner pn pollInterval)
  end.

(** One round of [Run]'s loop: whether it goes on, and the errors it reports. *)
Definition run_round {R} (cancel_at : option Z) (r : Runner R) : M (R:=R) (bool * list error) :=
  let! stop := ctx_done cancel_at in
  if stop : bool then gret (false, []) else
  let! outcome := catch (publishNext r) in
  let! stop := ctx_done cancel_at in
  let '(result, err) := match outcome with
                        | Ok (Done result) => (result, None)
                        | Ok (FailedPublish result e) => (result, Some e)
                        | Err e => (emptyResult, Some e)
                        end in
  match err with
  | Some (Panic t) => gerr (Panic t)
  | _ =>
      if stop : bool then gret (false, []) else
      match err with
      | Some e =>
          if errors_Is e ErrOutboxPublishFailed then gret (true, [e])
          else let! go := waitForContext cancel_at (pollInterval r) in gret (go, [e])
      | None =>
          if Found result then gret (true, [])
          else let! go := waitForContext cancel_at (pollInterval r) in gret (go, [])
      end
  end.

(** [Run] for at most [fuel] rounds: [true] when it returned, and the errors
    reported in order. *)
Fixpoint Run {R} (fuel : nat) (cancel_at : option Z) (r : Runner R) : M (R:=R) (bool * list error) :=
  match fuel with
  | O => gret (false, [])
  | S f =>
      let! go := run_round cancel_at r in
      if go.1 : bool then let! rest := Run f cancel_at r in gret (rest.1, go.2 ++ rest.2)
      else gret (true, go.2)
  end.

(** ** The backoff *)

Lemma backoff_loop_spec n delay max :
  0 < delay -> max <= int64_max ->
  backoff_loop n delay max = Z.min max (delay * 2 ^ Z.of_nat n).
Proof.
  revert delay. induction n as [|n IH]; intros delay Hd Hm.
  - simpl. destruct (Z.ltb_spec max delay); lia.
  - rewrite Nat2Z.inj_succ, Z.pow_succ_r by lia.
    pose proof (Z.pow_pos_nonneg 2 (Z.of_nat n) ltac:(lia) ltac:(lia)).
    cbn [backoff_loop]. destruct (Z.leb_spec max delay); [nia|].
    rewrite Z.quot_div_nonneg by lia.
    pose proof (Z.div_mod max 2 ltac:(lia)). pose proof (Z.mod_pos_bound max 2 ltac:(lia)).
    destruct (Z.ltb_spec (max / 2) delay); [nia|].
    rewrite wrap64_id by (unfold int64_min, int64_max in *; lia).
    rewrite IH by lia. f_equal. lia.
Qed.

(** C38: The delay before the next publication attempt doubles with each attempt
    and stops at the configured maximum: it is
    [min (max, base * 2^(attempt - 1))], computed without overflow for every
    attempt number and every duration the validation admits. *)
Theorem outboxBackoff_exponential base max attempt :
  0 < base <= max -> max <= int64_max ->
  outboxBackoff base max attempt = Z.min max (base * 2 ^ Z.max 0 (attempt - 1)).
Proof.
  intros Hb Hm. unfold outboxBackoff. destruct (Z.leb_spec attempt 1).
  - rewrite Z.max_l by lia. simpl. lia.
  - rewrite Z.max_r by lia. rewrite backoff_loop_spec by lia. by rewrite Z2Nat.id by lia.
Qed.

Lemma outboxBackoff_exponential_witness :
  outboxBackoff Second (300 * Second) 6 = 32 * Second /\
  outboxBackoff Second (300 * Second) 40 = Z.min (300 * Second) (Second * 2 ^ 39).
Proof.
  split; [vm_compute; reflexivity|].
  apply (outboxBackoff_exponential Second (300 * Second) 40); unfold int64_max, Second; lia.
Defined.

(** ** One round *)

(** What the publisher promises its caller: it changes Redis only, and a publish
    that reports success has sent the event. *)
Class Broker {R : Type} (publish : PublishOutboxEventFunc (R:=R))
    (sent : OutboxEvent -> R -> R -> Prop) : Prop := {
  broker_frame : forall ev w r w', publish ev w = (r, w') -> redis_only w w';
  broker_sent : forall ev w w', publish ev w = (Ok tt, w') -> sent ev (w_redis w) (w_redis w');
  broker_effect : forall ev w r w', publish ev w = (r, w') ->
    w_redis w' = w_redis w \/ sent ev (w_redis w) (w_redis w');
}.

Section Round.
Context {SC : Strconv} {PG : Postgres} {R : Type}.
Abbreviation M := (M (R:=R)).
Abbreviation W := (World R).
Implicit Types w : W.

(** The row and event that a round claims at [now]. *)
Definition claims (locked : gset string) (now : Z) (db : DB) (ev : OutboxEvent) (o : OutboxRow) : Prop :=
  exists e, selectNextPendingOutboxSQL locked now db = Some ((oe_OutboxID ev, o), (oe_EventID ev, e)) /\
    ev = mkOutboxEvent (oe_OutboxID ev) (oe_EventID ev) (ev_event_type e) (ev_source e) (ev_payload e)
           (ev_created_at e * 1000) (ob_attempt_count o).

(** The two outcomes that a round commits. *)
Definition mark_published (now : Z) (ev : OutboxEvent) (o : OutboxRow) (db : DB) : DB :=
  set_outbox (<[oe_OutboxID ev := mkOutboxRow (ob_event_id o) "published" (ob_attempt_count o)
                  (ob_next_attempt_at o) (Some now) None (ob_created_at o) now]> (outbox db)) db.

Definition published (now : Z) (ev : OutboxEvent) (o : OutboxRow) (db db' : DB) : Prop :=
  exists j, db' = add_history now (oe_EventID ev) StatusPublished j (mark_published now ev o db).

Definition rescheduled (base max now : Z) (err : error) (ev : OutboxEvent) (o : OutboxRow) (db : DB) : DB :=
  let delay := outboxBackoff base max (wrap64 (oe_AttemptCount ev + 1)) in
  set_outbox (<[oe_OutboxID ev := mkOutboxRow (ob_event_id o) "pending" (ob_attempt_count o + 1)
                  (now + Z.quot delay 1000) None (Some (sanitizeOutboxError (Some err)))
                  (ob_created_at o) now]> (outbox db)) db.

Lemma claimNext_inv w r w' :
  claimNextOutboxEvent w = (r, w') ->
  in_tx w w' /\
  (forall c, r = Ok c -> exists t, w_tx w = Some t /\ w_tx w' = Some t /\
     match c with
     | None => selectNextPendingOutboxSQL (w_locked w) (tx_now t) (tx_db t) = None
     | Some ev => exists o, claims (w_locked w) (tx_now t) (tx_db t) ev o
     end).
Proof.
  unfold claimNextOutboxEvent, wrap_err. destruct (tx_stmt _ w) as [r1 w1] eqn:E. intros ?; simplify_eq.
  apply tx_stmt_inv in E as (H1 & _ & H3). split; [done|]. intros c Hc.
  destruct r1 as [c'|]; simplify_eq/=. destruct (H3 c eq_refl) as (t & db' & Ht & Hs & Ht').
  exists t. simplify_eq. destruct t as [db now]. split_and!; [done|done|].
  simpl in *. destruct (selectNextPendingOutboxSQL _ _ _) as [[[oid o] [eid e]]|] eqn:Es; [|done].
  exists o, e. done.
Qed.

Lemma markOutboxPublished_inv oid w r w' :
  markOutboxPublished oid w = (r, w') ->
  in_tx w w' /\
  (r = Ok tt -> exists t u o, w_tx w = Some t /\ uuid_in oid = Some u /\ outbox (tx_db t) !! u = Some o /\
     w_tx w' = Some (mkTx (set_outbox (<[u := mkOutboxRow (ob_event_id o) "published" (ob_attempt_count o)
                 (ob_next_attempt_at o) (Some (tx_now t)) None (ob_created_at o) (tx_now t)]>
                 (outbox (tx_db t))) (tx_db t)) (tx_now t))).
Proof.
  intros H. split.
  { assert (keeps in_tx (markOutboxPublished oid : M unit)) as Hk by (unfold markOutboxPublished; keeps_all).
    specialize (Hk w). by rewrite H in Hk. }
  intros ->. apply gbind_inv_ok in H as (n & w1 & H1 & H2).
  apply wrap_err_inv_ok, tx_stmt_inv in H1 as (_ & _ & H1).
  destruct (H1 n eq_refl) as (t & db' & Ht & Hs & Ht').
  apply update_outbox_inv in Hs as (u & Hu & [(-> & _)|(o & o' & -> & Ho & Hf & ->)]); [done|].
  unfold gret in H2. simplify_eq/=. eauto 10.
Qed.

Lemma reschedule_inv oid delay txt w r w' :
  rescheduleOutboxAfterFailure oid delay txt w = (r, w') ->
  in_tx w w' /\
  (r = Ok tt -> exists t u o, w_tx w = Some t /\ uuid_in oid = Some u /\ outbox (tx_db t) !! u = Some o /\
     w_tx w' = Some (mkTx (set_outbox (<[u := mkOutboxRow (ob_event_id o) "pending" (ob_attempt_count o + 1)
                 (tx_now t + Z.quot delay 1000) None (Some txt) (ob_created_at o) (tx_now t)]>
                 (outbox (tx_db t))) (tx_db t)) (tx_now t))).
Proof.
  intros H. split.
  { assert (keeps in_tx (rescheduleOutboxAfterFailure oid delay txt : M unit)) as Hk
      by (unfold rescheduleOutboxAfterFailure; keeps_all).
    specialize (Hk w). by rewrite H in Hk. }
  intros ->. apply gbind_inv_ok in H as (n & w1 & H1 & H2).
  apply wrap_err_inv_ok, tx_stmt_inv in H1 as (_ & _ & H1).
  destruct (H1 n eq_refl) as (t & db' & Ht & Hs & Ht').
  apply update_outbox_inv in Hs as (u & Hu & [(-> & _)|(o & o' & -> & Ho & Hf & ->)]); [done|].
  destruct (int32_ok _); simplify_eq/=. unfold gret in H2. simplify_eq/=. eauto 10.
Qed.

(** The identifiers of a claimed row are canonical, so updates hit that row. *)
Lemma claims_row locked now db ev o :
  schema_ok db -> claims locked now db ev o ->
  outbox db !! oe_OutboxID ev = Some o /\ uuid_in (oe_OutboxID ev) = Some (oe_OutboxID ev) /\
  uuid_in (oe_EventID ev) = Some (oe_EventID ev) /\ oe_EventID ev = ob_event_id o /\
  ob_status o = "pending" /\ ob_next_attempt_at o <= now /\ oe_OutboxID ev ∉ locked /\
  oe_AttemptCount ev = ob_attempt_count o.
Proof.
  intros Hok (e & Hs & Hev). apply selectNextPending_Some in Hs as (Ho & Hp & Hn & Hl & He & Hk & _).
  split_and!; try done.
  - by eapply so_outbox_ids.
  - eapply so_event_ids; [done|]. unfold known. eauto.
  - by rewrite Hev.
Qed.

(** The end of a round after a publish that succeeded, and after one that
    failed. *)
Lemma round_published now ev o w r w' locked g (res : PublishOutcome) :
  schema_ok (w_db w) -> w_tx w = Some (mkTx (w_db w) now) -> claims locked now (w_db w) ev o ->
  (let! _ := markOutboxPublished (oe_OutboxID ev) in
   let! _ := InsertStatusHistory (oe_EventID ev) StatusPublished None in
   let! _ := wrap_err g commit_tx in gret res) w = (r, w') ->
  w_locked w' = w_locked w /\ w_redis w' = w_redis w /\ w_now w <= w_now w' /\
  (w_db w' = w_db w \/ published now ev o (w_db w) (w_db w')) /\
  (forall x, r = Ok x -> x = res /\ published now ev o (w_db w) (w_db w')).
Proof.
  intros Hok Ht Hc H. destruct (claims_row _ _ _ _ _ Hok Hc) as (Ho & Hu & Hue & _).
  pose proof (gbind_assoc (markOutboxPublished (oe_OutboxID ev))
    (fun _ => InsertStatusHistory (oe_EventID ev) StatusPublished None)
    (fun _ => let! _ := wrap_err g commit_tx in gret res) w) as Ha.
  rewrite <- Ha in H. clear Ha.
  eapply (tx_commit_inv _ (fun _ => res)) in H as (C1 & C2 & _ & _ & C5 & C6 & C7); cycle 1.
  { unfold markOutboxPublished. keeps_all. apply InsertStatusHistory_in_tx. }
  assert (Hb : forall w2 t, (let! _ := markOutboxPublished (oe_OutboxID ev) in
     InsertStatusHistory (oe_EventID ev) StatusPublished None) w = (Ok tt, w2) -> w_tx w2 = Some t ->
     published now ev o (w_db w) (tx_db t)).
  { intros w2 t Hm Ht2. apply gbind_inv_ok in Hm as ([] & w1 & Hm & Hh).
    apply markOutboxPublished_inv in Hm as [_ Hm]. apply InsertStatusHistory_inv in Hh as (_ & _ & Hh).
    destruct Hm as (t1 & u & o1 & Ht1 & Hu1 & Ho1 & Ht1'); [done|].
    destruct Hh as (t3 & u3 & j & Ht3 & Hu3 & _ & _ & Ht3'); [done|]. simplify_eq/=. by exists j. }
  split_and!; try done.
  - destruct C6 as [|([] & w2 & t & Hm & Ht2 & ->)]; [by left|right; eauto].
  - intros x Hx. destruct (C7 x Hx) as ([] & w2 & t & Hm & Ht2 & -> & ->). eauto.
Qed.

Lemma round_rescheduled base max err now ev o w r w' locked g (res : PublishOutcome) :
  schema_ok (w_db w) -> w_tx w = Some (mkTx (w_db w) now) -> claims locked now (w_db w) ev o ->
  (let! _ := rescheduleOutboxAfterFailure (oe_OutboxID ev)
               (outboxBackoff base max (wrap64 (oe_AttemptCount ev + 1))) (sanitizeOutboxError (Some err)) in
   let! _ := wrap_err g commit_tx in gret res) w = (r, w') ->
  w_locked w' = w_locked w /\ w_redis w' = w_redis w /\ w_now w <= w_now w' /\
  (w_db w' = w_db w \/ w_db w' = rescheduled base max now err ev o (w_db w)) /\
  (forall x, r = Ok x -> x = res /\ w_db w' = rescheduled base max now err ev o (w_db w)).
Proof.
  intros Hok Ht Hc H. destruct (claims_row _ _ _ _ _ Hok Hc) as (Ho & Hu & _).
  eapply (tx_commit_inv _ (fun _ => res)) in H as (C1 & C2 & _ & _ & C5 & C6 & C7); cycle 1.
  { unfold rescheduleOutboxAfterFailure. keeps_all. }
  match type of C6 with _ \/ exists _ _ _, ?m w = _ /\ _ => assert (Hb : forall w2 t, m w = (Ok tt, w2) ->
     w_tx w2 = Some t -> tx_db t = rescheduled base max now err ev o (w_db w)) end.
  { intros w2 t Hm Ht2. apply reschedule_inv in Hm as [_ Hm].
    destruct Hm as (t1 & u & o1 & Ht1 & Hu1 & Ho1 & Ht1'); [done|]. by simplify_eq/=. }
  split_and!; try done.
  - destruct C6 as [|([] & w2 & t & Hm & Ht2 & ->)]; [by left|right; eauto].
  - intros x Hx. destruct (C7 x Hx) as ([] & w2 & t & Hm & Ht2 & -> & ->). eauto.
Qed.

(** What one round may leave behind, whatever fails. *)
Inductive round_outcome (sent : OutboxEvent -> R -> R -> Prop) (base max : Z) (w w' : W)
    : res error PublishOutcome -> Prop :=
| round_idle now :
    w_db w' = w_db w -> w_redis w' = w_redis w ->
    selectNextPendingOutboxSQL (w_locked w) now (w_db w) = None ->
    round_outcome sent base max w w' (Ok (Done emptyResult))
| round_done now ev o :
    claims (w_locked w) now (w_db w) ev o -> sent ev (w_redis w) (w_redis w') ->
    published now ev o (w_db w) (w_db w') ->
    round_outcome sent base max w w' (Ok (Done (mkResult true true (oe_OutboxID ev) (oe_EventID ev))))
| round_failed now ev o err e :
    claims (w_locked w) now (w_db w) ev o ->
    (w_redis w' = w_redis w \/ sent ev (w_redis w) (w_redis w')) ->
    w_db w' = rescheduled base max now err ev o (w_db w) -> errors_Is e ErrOutboxPublishFailed = true ->
    round_outcome sent base max w w'
      (Ok (FailedPublish (mkResult true false (oe_OutboxID ev) (oe_EventID ev)) e))
| round_error_nothing e :
    w_db w' = w_db w ->
    (w_redis w' = w_redis w \/ exists now ev o, claims (w_locked w) now (w_db w) ev o /\
                                sent ev (w_redis w) (w_redis w')) ->
    round_outcome sent base max w w' (Err e)
| round_error_published now ev o e :
    claims (w_locked w) now (w_db w) ev o -> sent ev (w_redis w) (w_redis w') ->
    published now ev o (w_db w) (w_db w') -> round_outcome sent base max w w' (Err e)
| round_error_rescheduled now ev o err e :
    claims (w_locked w) now (w_db w) ev o ->
    (w_redis w' = w_redis w \/ sent ev (w_redis w) (w_redis w')) ->
    w_db w' = rescheduled base max now err ev o (w_db w) -> round_outcome sent base max w w' (Err e).

Lemma round_body (publish : PublishOutboxEventFunc (R:=R)) sent `{!Broker publish sent} base max now w1 r w2 :
  schema_ok (w_db w1) -> w_tx w1 = Some (mkTx (w_db w1) now) ->
  publish_round publish base max w1 = (r, w2) ->
  w_locked w2 = w_locked w1 /\ w_now w1 <= w_now w2 /\ round_outcome sent base max w1 w2 r.
Proof.
  intros Hok Ht H. unfold publish_round in H.
  apply gbind_inv in H as [(c & w3 & Hc & H)|(e & Hc & ->)]; pose proof (claimNext_inv _ _ _ Hc) as [Hin Hcl];
    destruct Hin as (I1 & I2 & I3 & I4 & I5 & I6); cycle 1.
  { split_and!; [done..|]. apply round_error_nothing; auto. }
  destruct (Hcl c eq_refl) as (t & Ht1 & Ht3 & Hsel). clear Hcl. simplify_eq.
  destruct c as [ev|]; cycle 1.
  { apply gbind_inv in H as [([] & w4 & Hr & H)|(e & Hr & ->)].
    - apply wrap_err_inv_ok, rollback_tx_inv in Hr as ((J1 & J2 & J3 & J4 & J5 & J6) & _).
      unfold gret in H. simplify_eq. split_and!; [congruence|lia|].
      eapply round_idle; [congruence..|done].
    - unfold wrap_err in Hr. destruct (rollback_tx w3) as [r4 w4] eqn:E4. simplify_eq/=.
      apply rollback_tx_inv in E4 as ((J1 & J2 & J3 & J4 & J5 & J6) & _).
      split_and!; [congruence|lia|]. apply round_error_nothing; [congruence|left; congruence]. }
  destruct Hsel as (o & Hcl). simpl in Hcl.
  unfold gbind at 1, catch in H. destruct (publish ev w3) as [rp w4] eqn:Ep.
  pose proof (broker_frame _ _ _ _ Ep) as (B1 & B2 & B3 & B4).
  pose proof (broker_effect _ _ _ _ Ep) as Beff.
  assert (Hok4 : schema_ok (w_db w4)) by congruence.
  assert (Ht4 : w_tx w4 = Some (mkTx (w_db w4) now)) by congruence.
  assert (Hcl4 : claims (w_locked w1) now (w_db w4) ev o) by congruence.
  assert (Hdb : w_db w4 = w_db w1) by congruence.
  destruct rp as [[]|err]; cbv zeta in H.
  - eapply round_published in H as (P1 & P2 & P3 & P4 & P5); [|done..].
    rewrite Hdb in P4, P5. pose proof (broker_sent _ _ _ Ep) as Hs. rewrite <- P2, I3 in Hs.
    split_and!; [congruence|lia|]. destruct r as [x|e].
    + destruct (P5 x eq_refl) as [-> P]. by eapply round_done.
    + destruct P4 as [P4|P4]; [apply round_error_nothing; eauto 10|by eapply round_error_published].
  - eapply round_rescheduled in H as (P1 & P2 & P3 & P4 & P5); [|done..].
    rewrite Hdb in P4, P5. rewrite I3, <- P2 in Beff. split_and!; [congruence|lia|]. destruct r as [x|e].
    + destruct (P5 x eq_refl) as [-> P]. by eapply round_failed.
    + destruct P4 as [P4|P4]; [apply round_error_nothing; destruct Beff; eauto 10|].
      by eapply round_error_rescheduled.
Qed.

Lemma round_outcome_frame sent base max w w1 w2 w' r :
  w_db w1 = w_db w -> w_redis w1 = w_redis w -> w_locked w1 = w_locked w ->
  w_db w' = w_db w2 -> w_redis w' = w_redis w2 ->
  round_outcome sent base max w1 w2 r -> round_outcome sent base max w w' r.
Proof.
  intros E1 E2 E3 E4 E5 H. destruct H; rewrite E1, ?E2, ?E3 in *; rewrite <- ?E4, <- ?E5 in *;
    [eapply round_idle|eapply round_done|eapply round_failed|eapply round_error_nothing
    |eapply round_error_published|eapply round_error_rescheduled]; eauto.
Qed.

(** A round, on every path and under every fault. *)
Lemma publish_next_cases pool (publish : PublishOutboxEventFunc (R:=R)) sent `{!Broker publish sent} base max w r w' :
  w_tx w = None -> schema_ok (w_db w) ->
  PublishNextOutboxEvent pool (Some publish) base max w = (r, w') ->
  w_tx w' = None /\ w_locked w' = w_locked w /\ w_now w <= w_now w' /\ round_outcome sent base max w w' r.
Proof.
  intros Hw Hok H. unfold PublishNextOutboxEvent in H.
  destruct (validatePublishNextOutboxConfig _ _ _ _) as [[]|e]; unfold gbind at 1, lift_res in H; cycle 1.
  { simplify_eq. split_and!; try done; try lia. apply round_error_nothing; auto. }
  apply gbind_inv in H as [([] & w1 & Hb & H)|(e & Hb & ->)]; cycle 1.
  { unfold wrap_err in Hb. destruct (begin_tx w) as [rb wb] eqn:Eb. simplify_eq/=.
    apply begin_tx_inv in Eb as ((I1 & I2 & I3 & I4 & I5 & I6) & _ & He). destruct rb as [|e']; [done|].
    split_and!; [by eapply He|done|done|]. apply round_error_nothing; auto. }
  apply wrap_err_inv_ok, begin_tx_inv in Hb as ((I1 & I2 & I3 & I4 & I5 & I6) & Ho & _).
  destruct Ho as [now Ht]; [done|]. rewrite <- I1 in Ht, Hok.
  apply deferred_rollback_inv in H as (w2 & H & ->).
  apply (round_body publish sent _ _ now) in H as (L1 & L2 & L3); [|done..]. simpl.
  split_and!; [done|congruence|lia|]. eapply round_outcome_frame; [| | | | |exact L3]; done.
Qed.

(** C29: Whatever PostgreSQL and Redis answer, a round leaves no transaction open
    and ends in one of the listed outcomes: it found no due row and changed
    nothing; it claimed the first due row that no other publisher holds, sent
    its event, and the row is marked published; it claimed it, the publish
    failed, and the row is rescheduled with the backoff; or it reports an error,
    and then the tables are unchanged or hold one of those two results. *)
Theorem publish_next_outcome pool (publish : PublishOutboxEventFunc (R:=R)) sent
    `{!Broker publish sent} base max w r w' :
  w_tx w = None -> schema_ok (w_db w) ->
  PublishNextOutboxEvent pool (Some publish) base max w = (r, w') ->
  w_tx w' = None /\ w_locked w' = w_locked w /\ round_outcome sent base max w w' r.
Proof. intros Hw Hok H. eapply publish_next_cases in H; [|done..]. tauto. Qed.

(** What a round may do to one outbox row. *)
Definition row_step (sent : OutboxEvent -> R -> R -> Prop) (r r' : R) (oid : string) (o o' : OutboxRow) : Prop :=
  o' = o \/
  (ob_status o = "pending" /\ ob_event_id o' = ob_event_id o /\ ob_created_at o' = ob_created_at o /\
   ((ob_status o' = "published" /\ exists ev, oe_OutboxID ev = oid /\ oe_EventID ev = ob_event_id o /\ sent ev r r') \/
    (ob_status o' = "pending" /\ ob_attempt_count o' = ob_attempt_count o + 1))).

Lemma published_row_step sent locked now ev o db db' r r' :
  schema_ok db -> claims locked now db ev o -> published now ev o db db' -> sent ev r r' ->
  events db' = events db /\
  forall oid a, outbox db !! oid = Some a -> exists a', outbox db' !! oid = Some a' /\ row_step sent r r' oid a a'.
Proof.
  intros Hok Hc (j & ->) Hs. destruct (claims_row _ _ _ _ _ Hok Hc) as (Ho & _ & _ & He & Hp & _).
  split; [done|]. intros oid a Ha. simpl. destruct (decide (oe_OutboxID ev = oid)) as [<-|Hne].
  - rewrite lookup_insert_eq. simplify_eq. eexists. split; [done|]. right. eauto 10.
  - rewrite lookup_insert_ne by done. exists a. split; [done|by left].
Qed.

Lemma rescheduled_row_step sent locked base max now err ev o db r r' :
  schema_ok db -> claims locked now db ev o ->
  events (rescheduled base max now err ev o db) = events db /\
  forall oid a, outbox db !! oid = Some a ->
    exists a', outbox (rescheduled base max now err ev o db) !! oid = Some a' /\ row_step sent r r' oid a a'.
Proof.
  intros Hok Hc. destruct (claims_row _ _ _ _ _ Hok Hc) as (Ho & _ & _ & He & Hp & _).
  split; [done|]. intros oid a Ha. simpl. destruct (decide (oe_OutboxID ev = oid)) as [<-|Hne].
  - rewrite lookup_insert_eq. simplify_eq. eexists. split; [done|]. right. eauto 10.
  - rewrite lookup_insert_ne by done. exists a. split; [done|by left].
Qed.

(** C16: At-least-once publication.  Under every fault of the database and of the
    broker, a round keeps every event and every outbox row; a row only ever
    becomes published in a round that sent its event to the broker, and a row
    that does not stays pending. *)
Theorem publish_next_at_least_once pool (publish : PublishOutboxEventFunc (R:=R)) sent
    `{!Broker publish sent} base max w r w' :
  w_tx w = None -> schema_ok (w_db w) ->
  PublishNextOutboxEvent pool (Some publish) base max w = (r, w') ->
  events (w_db w') = events (w_db w) /\
  forall oid o, outbox (w_db w) !! oid = Some o ->
    exists o', outbox (w_db w') !! oid = Some o' /\ row_step sent (w_redis w) (w_redis w') oid o o'.
Proof.
  intros Hw Hok H. eapply publish_next_cases in H as (_ & _ & _ & H); [|done..].
  assert (Hsame : forall db', db' = w_db w -> events db' = events (w_db w) /\
    forall oid o, outbox (w_db w) !! oid = Some o -> exists o', outbox db' !! oid = Some o' /\
      row_step sent (w_redis w) (w_redis w') oid o o').
  { intros db' ->. split; [done|]. intros oid o Ho. exists o. split; [done|by left]. }
  destruct H as [now Hd| | | | |]; try by apply Hsame.
  1,3: by eapply published_row_step.
  all: match goal with Hd : _ = rescheduled _ _ _ _ _ _ _ |- _ => rewrite Hd end; by eapply rescheduled_row_step.
Qed.

(** ** Progress *)

(** The rows a round could claim now. *)
Definition due (locked : gset string) (now : Z) (db : DB) : gmap string OutboxRow :=
  filter (fun r => outbox_claimable locked now r = true) (outbox db).

Lemma due_Some locked now db oid o :
  due locked now db !! oid = Some o <->
  outbox db !! oid = Some o /\ ob_status o = "pending" /\ ob_next_attempt_at o <= now /\ oid ∉ locked.
Proof. unfold due. by rewrite map_lookup_filter_Some, outbox_claimable_true. Qed.

Lemma published_due locked now now' db ev o j :
  schema_ok db -> claims locked now db ev o ->
  due locked now (add_history now' (oe_EventID ev) StatusPublished j (mark_published now' ev o db)) =
  delete (oe_OutboxID ev) (due locked now db).
Proof.
  intros Hok Hc. unfold due. simpl. rewrite map_filter_insert_False; [|by unfold outbox_claimable].
  apply map_filter_delete.
Qed.

Lemma PublishNext_schema pool (publish : PublishOutboxEventFunc (R:=R)) sent `{!Broker publish sent} base max :
  keeps (pres schema_ok) (PublishNextOutboxEvent pool (Some publish) base max : M PublishOutcome).
Proof.
  assert (Hp : forall ev, keeps (pres schema_ok) (publish ev)).
  { intros ev w. destruct (publish ev w) as [r w'] eqn:E. apply broker_frame in E as (H1 & H2 & _).
    by apply pres_same. }
  assert (Hc : keeps (pres schema_ok) (claimNextOutboxEvent : M _)).
  { apply keeps_wrap. intros w. refine (keeps_tx_stmt schema_ok _ _ w). intros; by simplify_eq. }
  unfold PublishNextOutboxEvent, publish_round, rescheduleOutboxAfterFailure, markOutboxPublished.
  keeps_all; eauto with rail.
Qed.

(** A broker that answers, on servers that answer. *)
Class ReliableBroker (publish : PublishOutboxEventFunc (R:=R)) : Prop :=
  broker_answers : forall ev w, w_env w = [] ->
    exists w', publish ev w = (Ok tt, w') /\ w_env w' = [] /\ w_now w' = w_now w.

Lemma selectNextPending_due locked now db oid o :
  schema_ok db -> due locked now db !! oid = Some o ->
  exists ev o', claims locked now db ev o'.
Proof.
  intros Hok (Ho & Hp & Hn & Hl)%due_Some.
  destruct (selectNextPendingOutboxSQL locked now db) as [[[oid' o'] [eid e]]|] eqn:E.
  - eexists (mkOutboxEvent oid' eid _ _ _ _ _), o', e. simpl. split; [done|reflexivity].
  - exfalso. eapply Hl, selectNextPending_None; [done..|]. by eapply so_outbox_event.
Qed.

Lemma claimNext_exec w t ev a :
  w_env w = [] -> w_tx w = Some t -> claims (w_locked w) (tx_now t) (tx_db t) ev a ->
  claimNextOutboxEvent w = (Ok (Some ev), w).
Proof.
  intros He Ht (e & Hs & Hev). unfold claimNextOutboxEvent.
  erewrite wrap_err_ok; [|apply tx_stmt_exec; [done..|rewrite Hs; reflexivity]].
  rewrite <- Hev. destruct w, t. simpl in *. by subst.
Qed.

(** A round on servers that answer publishes the first due row. *)
Lemma publish_next_exec (publish : PublishOutboxEventFunc (R:=R)) sent `{!Broker publish sent}
    `{!ReliableBroker publish} base max w oid o :
  w_env w = [] -> w_tx w = None -> schema_ok (w_db w) -> is_Some (jsonb_in (marshalDetails None)) ->
  0 < base <= max -> due (w_locked w) (micros (w_now w)) (w_db w) !! oid = Some o ->
  exists ev a j w', claims (w_locked w) (micros (w_now w)) (w_db w) ev a /\
    PublishNextOutboxEvent (Some ThePool) (Some publish) base max w =
      (Ok (Done (mkResult true true (oe_OutboxID ev) (oe_EventID ev))), w') /\
    w_env w' = [] /\ w_now w' = w_now w /\
    w_db w' = add_history (micros (w_now w)) (oe_EventID ev) StatusPublished j
                (mark_published (micros (w_now w)) ev a (w_db w)).
Proof.
  intros He Hw Hok [j Hj] Hb Hd. destruct (selectNextPending_due _ _ _ _ _ Hok Hd) as (ev & a & Hc).
  destruct (claims_row _ _ _ _ _ Hok Hc) as (Ho & Hu & Hue & Hev & _).
  pose proof (so_outbox_event _ Hok _ _ Ho) as Hk. rewrite <- Hev in Hk.
  set (w1 := with_tx (Some (mkTx (w_db w) (micros (w_now w)))) w).
  destruct (broker_answers ev w1 He) as (w2 & Hp & He2 & Hn2).
  pose proof (broker_frame _ _ _ _ Hp) as (B1 & B2 & B3 & B4). simpl in *.
  exists ev, a, j. eexists. split; [done|]. split.
  - unfold PublishNextOutboxEvent, validatePublishNextOutboxConfig.
    destruct (Z.leb_spec base 0); [lia|]. destruct (Z.ltb_spec max base); [lia|].
    unfold gbind at 1, lift_res. erewrite gbind_ok; [|by apply wrap_err_ok, begin_tx_exec].
    fold w1. unfold deferred_rollback, defer, publish_round.
    rewrite (gbind_ok _ _ _ _ _ (claimNext_exec w1 _ _ _ He eq_refl Hc)).
    unfold gbind at 1, catch. rewrite Hp. unfold markOutboxPublished. rewrite gbind_assoc.
    erewrite gbind_ok; [|apply wrap_err_ok, tx_stmt_exec; [done|exact B2|];
      unfold markOutboxPublishedSQL, update_outbox; simpl; rewrite Hu, Ho; reflexivity].
    simpl. unfold gbind at 1, gret at 1.
    erewrite gbind_ok; [|eapply history_exec; [done|reflexivity|done|exact Hk|reflexivity|done]].
    erewrite gbind_ok; [|by eapply wrap_err_ok, commit_tx_exec]. reflexivity.
  - simpl. done.
Qed.

(** The event ids a consumer of the broker can read: sending adds one and loses
    none. *)
Class BrokerLog (sent : OutboxEvent -> R -> R -> Prop) (log : R -> string -> Prop) : Prop := {
  log_sent : forall ev r r', sent ev r r' -> log r' (oe_EventID ev);
  log_mono : forall ev r r' e, sent ev r r' -> log r e -> log r' e;
}.

Section Drain.
Context (publish : PublishOutboxEventFunc (R:=R)) (sent : OutboxEvent -> R -> R -> Prop)
        (log : R -> string -> Prop) `{!Broker publish sent} `{!ReliableBroker publish}
        `{!BrokerLog sent log} (base max interval : Z)
        (Hj : is_Some (jsonb_in (marshalDetails None))) (Hb : 0 < base <= max).

Definition round_runner : Runner R :=
  mkRunner (PublishNextOutboxEvent (Some ThePool) (Some publish) base max) interval.

Definition due_in (w : W) (db : DB) : gmap string OutboxRow := due (w_locked w) (micros (w_now w)) db.

(** Servers that answer, no open transaction, sound tables. *)
Definition steady (w : W) : Prop := w_env w = [] /\ w_tx w = None /\ schema_ok (w_db w).

(** One row less is due: it is published, and its event is in the log. *)
Definition drains_one (w w1 : W) (oid : string) (o : OutboxRow) : Prop :=
  due_in w (w_db w) !! oid = Some o /\ due_in w (w_db w1) = delete oid (due_in w (w_db w)) /\
  (forall oid', oid' <> oid -> outbox (w_db w1) !! oid' = outbox (w_db w) !! oid') /\
  (exists o', outbox (w_db w1) !! oid = Some o' /\ ob_status o' = "published") /\
  log (w_redis w1) (ob_event_id o) /\ (forall e, log (w_redis w) e -> log (w_redis w1) e).

Lemma round_drains w :
  steady w -> due_in w (w_db w) <> ∅ ->
  exists w1 oid o, run_round None round_runner w = (Ok (true, []), w1) /\ steady w1 /\
    w_locked w1 = w_locked w /\ w_now w1 = w_now w /\ drains_one w w1 oid o.
Proof.
  intros (He & Hw & Hok) Hne. destruct (map_choose _ Hne) as (oid0 & o0 & Hd0).
  edestruct publish_next_exec as (ev & a & j & w1 & Hc & Hrun & He1 & Hn1 & Hdb1); [done..|].
  pose proof (publish_next_cases _ _ _ _ _ _ _ _ Hw Hok Hrun) as (Hw1 & Hl1 & _ & Hout).
  pose proof (keeps_run _ _ _ _ _ (PublishNext_schema (Some ThePool) publish sent base max) Hrun Hw Hok) as Hs.
  destruct (claims_row _ _ _ _ _ Hok Hc) as (Ho & _ & _ & Hev & Hp & Hna & Hl & _).
  exists w1, (oe_OutboxID ev), a. split_and!; try done.
  - unfold run_round, gbind, ctx_done, catch. simpl. rewrite Hrun. done.
  - assert (Hsent : exists ev', oe_EventID ev' = oe_EventID ev /\ sent ev' (w_redis w) (w_redis w1)).
    { inversion Hout; subst; eauto. }
    destruct Hsent as (ev' & Hid & Hsent). unfold drains_one, due_in. rewrite Hdb1. simpl.
    split_and!; [by apply due_Some|by apply published_due|..].
    + intros oid' Hn. by rewrite lookup_insert_ne.
    + rewrite lookup_insert_eq. eauto.
    + rewrite <- Hev, <- Hid. by eapply log_sent.
    + intros e Hlog. by eapply log_mono.
Qed.

Definition drained (w w' : W) : Prop :=
  (forall e, log (w_redis w) e -> log (w_redis w') e) /\
  forall oid o, outbox (w_db w) !! oid = Some o ->
    (ob_status o = "published" -> outbox (w_db w') !! oid = Some o) /\
    (due_in w (w_db w) !! oid = Some o -> log (w_redis w') (ob_event_id o) /\
       exists o', outbox (w_db w') !! oid = Some o' /\ ob_status o' = "published").

Lemma drained_step w w1 w' oid o :
  w_locked w1 = w_locked w -> w_now w1 = w_now w -> drains_one w w1 oid o -> drained w1 w' -> drained w w'.
Proof.
  intros Hl Hn (Hd & Hdel & Hsame & (o' & Ho' & Hp') & Hlog & Hmono) [Hm Hr].
  unfold due_in in *. rewrite Hl, Hn in Hr. split; [auto|]. intros oid2 o2 Ho2. destruct (decide (oid2 = oid)) as [->|Hne].
  - apply due_Some in Hd as (Ho & Hp & _). simplify_eq. split; [congruence|]. intros _. split; [auto|].
    destruct (Hr _ _ Ho') as [Hk _]. eauto.
  - rewrite <- Hsame in Ho2 by done. destruct (Hr _ _ Ho2) as [H1 H2]. split; [done|].
    intros Hd2. apply H2. rewrite Hdel. by rewrite lookup_delete_ne.
Qed.

Lemma Run_drains n w :
  steady w -> n = size (due_in w (w_db w)) ->
  exists w', Run n None round_runner w = (Ok (false, []), w') /\ due_in w (w_db w') = ∅ /\ drained w w'.
Proof.
  revert w. induction n as [|n IH]; intros w Hst Hn.
  { symmetry in Hn. apply map_size_empty_inv in Hn. exists w. split_and!; [done..|].
    split; [done|]. intros oid o Ho. rewrite Hn, lookup_empty. done. }
  destruct (round_drains w Hst) as (w1 & oid & o & Hr & Hst1 & Hl & Hnow & Hd).
  { intros Hemp. by rewrite Hemp in Hn. }
  destruct (IH w1 Hst1) as (w' & Hrun & Hdue & Hdr).
  { destruct Hd as (Hd & Hdel & _). unfold due_in in *. rewrite Hl, Hnow, Hdel.
    rewrite map_size_delete_Some by eauto. lia. }
  exists w'. split_and!.
  - cbn [Run]. rewrite (gbind_ok _ _ _ _ _ Hr). simpl. by rewrite (gbind_ok _ _ _ _ _ Hrun).
  - unfold due_in in *. congruence.
  - by eapply drained_step.
Qed.

End Drain.

(** C30: Progress of the publisher.  On servers and a broker that answer, the
    runner publishes one due row per round and so, in as many rounds as there
    are due rows and without reporting an error, leaves none of them due: each is
    marked published and its event is in the broker's log. *)
Theorem runner_drains (publish : PublishOutboxEventFunc (R:=R)) sent log `{!Broker publish sent}
    `{!ReliableBroker publish} `{!BrokerLog sent log} base max interval w :
  w_env w = [] -> w_tx w = None -> schema_ok (w_db w) -> is_Some (jsonb_in (marshalDetails None)) ->
  0 < base <= max ->
  let now := micros (w_now w) in
  let rounds := size (due (w_locked w) now (w_db w)) in
  exists w', Run rounds None (mkRunner (PublishNextOutboxEvent (Some ThePool) (Some publish) base max) interval) w
      = (Ok (false, []), w') /\
    due (w_locked w) now (w_db w') = ∅ /\
    forall oid o, due (w_locked w) now (w_db w) !! oid = Some o ->
      log (w_redis w') (ob_event_id o) /\
      exists o', outbox (w_db w') !! oid = Some o' /\ ob_status o' = "published".
Proof.
  intros He Hw Hok Hj Hb now rounds.
  destruct (Run_drains publish sent log base max interval Hj Hb rounds w) as (w' & H1 & H2 & _ & H3); [done..|].
  exists w'. split_and!; [done|done|]. intros oid o Hd. pose proof Hd as (Ho & _)%due_Some. by apply (H3 oid o).
Qed.

End Round.
End Outbox.
