(* ===== verification/RowLocks.v ===== *)
(** * RowLocks: transactions that lock rows, call by call

    The outbox publisher and the redrive of a dead letter have the same shape: in
    one transaction they lock a row of a table, hand its event to the broker, and
    record in the row what became of it.  Here such code is a program whose calls
    are visible; a server executes the calls of any number of programs in any
    order, with faults, lost replies and killed processes; and a logic on programs
    ([follows]) gives for every system of programs that obey it an abstract
    machine for the rows which the interleavings refine ([locked_rows_refine]) and
    the absence of deadlocks ([someone_moves]).  [Publishers] and [Redrives]
    instantiate it. *)

From S2P Require Import Prelude GoStrings GoErrors Json Database DatabaseFacts RedisServer World WorldFacts.
From S2P Require Import Interleaving.
Import Interleaving(layer, written, changed, changed_refl, changed_insert, number_history).

Module RowLocks.

(** ** The table whose rows are locked *)

Class Table (V : Type) `{EqDecision V} := {
  tab : DB -> gmap string V;
  tab_layer : forall o d, tab (layer o d) = tab o ∪ tab d;
  tab_written : forall d d', tab (written d d') = changed (tab d) (tab d');
  tab_number : forall n d, tab (number_history n d) = tab d;
  tab_empty : tab empty_db = ∅;
}.

(** What may become of a row: the rows there is something to do for, how a
    transaction that has handed the row's event to the broker may change it
    ([true] when the broker has accepted it), how the other components may change
    it ([None] before the row is there), and which strings are keys. *)
Class Lifecycle (V Msg : Type) := {
  is_open : V -> bool;
  settles : bool -> V -> V -> bool;
  settles_changes : forall ok v v', settles ok v v' = true -> v <> v';
  settles_false : forall v v', settles false v v' = true -> is_open v' = true;
  resets : option V -> V -> bool;
  resets_open : forall o v, resets o v = true -> is_open v = true;
  key_ok : string -> Prop;
  msg_row : Msg -> string;
}.

(** ** Programs *)

(** [Read] is a query, [Take] a locking one that also says which row it locks
    (it is given the rows that others have locked, for SKIP LOCKED), [Drop] the
    deferred rollback, whose result is ignored. *)
Inductive call (Msg Ans : Type) : Type -> Type :=
| Begin : call Msg Ans unit
| Read {A : Type} (query : DB -> res error A) : call Msg Ans A
| Take {A : Type} (select : gset string -> Z -> DB -> res error (A * option string)) : call Msg Ans A
| Write {A : Type} (stmt : Z -> DB -> res error (A * DB)) : call Msg Ans A
| Send (m : Msg) : call Msg Ans Ans
| Commit : call Msg Ans unit
| Rollback : call Msg Ans unit
| Drop : call Msg Ans unit.
Arguments Begin {Msg Ans}.
Arguments Read {Msg Ans A} query.
Arguments Take {Msg Ans A} select.
Arguments Write {Msg Ans A} stmt.
Arguments Send {Msg Ans} m.
Arguments Commit {Msg Ans}.
Arguments Rollback {Msg Ans}.
Arguments Drop {Msg Ans}.

Inductive prog (Msg Ans X : Type) : Type :=
| Ret (r : res error X)
| Call {A : Type} (c : call Msg Ans A) (k : res error A -> prog Msg Ans X).
Arguments Ret {Msg Ans X} r.
Arguments Call {Msg Ans X A} c k.

Section Programs.
Context {Msg Ans : Type}.
Abbreviation prog := (prog Msg Ans).
Abbreviation call := (call Msg Ans).

Fixpoint pbind {X Y} (p : prog X) (f : X -> prog Y) : prog Y :=
  match p with
  | Ret (Ok x) => f x
  | Ret (Err e) => Ret (Err e)
  | Call c k => Call c (fun r => pbind (k r) f)
  end.

Fixpoint pwrap {X} (f : error -> error) (p : prog X) : prog X :=
  match p with
  | Ret r => Ret (res_map_err f r)
  | Call c k => Call c (fun r => pwrap f (k r))
  end.

(** [defer tx.Rollback(ctx)] *)
Fixpoint pdefer {X} (p : prog X) : prog X :=
  match p with
  | Ret r => Call Drop (fun _ => Ret r)
  | Call c k => Call c (fun r => pdefer (k r))
  end.

(** A call whose error is looked at *)
Fixpoint pcatch {X} (p : prog X) : prog (res error X) :=
  match p with
  | Ret r => Ret (Ok r)
  | Call c k => Call c (fun r => pcatch (k r))
  end.

Definition invoke {A} (c : call A) : prog A := Call c Ret.

(** ** A program that runs alone *)

Section Alone.
Context {PG : Postgres} {R : Type} (publish : Msg -> M (R:=R) Ans).
Abbreviation M := (M (R:=R)).
Abbreviation W := (World R).

Definition perform {A} (c : call A) : M A :=
  match c with
  | Begin => begin_tx
  | Read query => tx_stmt (fun _ db => res_bind (query db) (fun a => Ok (a, db)))
  | Take select => fun w =>
      tx_stmt (fun now db => res_bind (select (w_locked w) now db) (fun ar => Ok (ar.1, db))) w
  | Write stmt => tx_stmt stmt
  | Send m => publish m
  | Commit => commit_tx
  | Rollback => rollback_tx
  | Drop => fun w => (Ok tt, with_tx None w)
  end.

Fixpoint alone {X} (p : prog X) : M X :=
  match p with
  | Ret r => lift_res r
  | Call c k => fun w => let '(r, w') := perform c w in alone (k r) w'
  end.

(** Computations that agree on every world *)
Definition same {X} : relation (M X) := pointwise_relation W eq.

#[export] Instance same_equivalence X : Equivalence (@same X).
Proof. unfold same. apply _. Qed.

#[export] Instance gbind_same X Y :
  Proper (same ==> pointwise_relation X same ==> same) (@gbind error W X Y).
Proof. intros m m' Hm k k' Hk w. unfold gbind. rewrite Hm. destruct (m' w) as [[x|e] w']; [apply Hk|done]. Qed.

#[export] Instance wrap_same X f : Proper (same ==> same) (@wrap_err error W X f).
Proof. intros m m' Hm w. unfold wrap_err. by rewrite Hm. Qed.

#[export] Instance rollback_same X : Proper (same ==> same) (@deferred_rollback R X).
Proof. intros m m' Hm w. unfold deferred_rollback, defer. by rewrite Hm. Qed.

#[export] Instance catch_same X : Proper (same ==> same) (@catch error W X).
Proof. intros m m' Hm w. unfold catch. by rewrite Hm. Qed.

Lemma alone_invoke {A} (c : call A) : same (alone (invoke c)) (perform c).
Proof. intros w. simpl. by destruct (perform c w). Qed.

Lemma prog_alone_bind {X Y} (p : prog X) (f : X -> prog Y) :
  same (alone (pbind p f)) (gbind (alone p) (fun x => alone (f x))).
Proof.
  induction p as [[x|e]|A c k IH]; [done..|]. intros w. unfold gbind. simpl.
  destruct (perform c w) as [r w']. apply IH.
Qed.

Lemma prog_alone_wrap {X} f (p : prog X) : same (alone (pwrap f p)) (wrap_err f (alone p)).
Proof.
  induction p as [r|A c k IH]; [done|]. intros w. unfold wrap_err. simpl.
  destruct (perform c w) as [r w']. apply IH.
Qed.

Lemma prog_alone_defer {X} (p : prog X) : same (alone (pdefer p)) (deferred_rollback (alone p)).
Proof.
  induction p as [r|A c k IH]; [done|]. intros w. unfold deferred_rollback, defer. simpl.
  destruct (perform c w) as [r w']. apply IH.
Qed.

Lemma alone_catch {X} (p : prog X) : same (alone (pcatch p)) (catch (alone p)).
Proof.
  induction p as [r|A c k IH]; [done|]. intros w. unfold catch. simpl.
  destruct (perform c w) as [r w']. apply IH.
Qed.

(** Statements that agree have the same effect. *)
Lemma tx_stmt_ext {A} (f g : Z -> DB -> res error (A * DB)) (w : W) :
  (forall now db, f now db = g now db) -> tx_stmt f w = tx_stmt g w.
Proof.
  intros H. unfold tx_stmt, external. destruct (next_reply w) as [ft w1].
  assert (forall w : W, match w_tx w with
    | None => (Err (ErrorString "tx is closed"), w)
    | Some t => match f (tx_now t) (tx_db t) with
                | Ok (a, db') => (Ok a, with_tx (Some (mkTx db' (tx_now t))) w) | Err e => (Err e, w) end end =
    match w_tx w with
    | None => (Err (ErrorString "tx is closed"), w)
    | Some t => match g (tx_now t) (tx_db t) with
                | Ok (a, db') => (Ok a, with_tx (Some (mkTx db' (tx_now t))) w) | Err e => (Err e, w) end end) as Hw.
  { intros w2. destruct (w_tx w2) as [t|]; [|done]. by rewrite H. }
  destruct ft; by rewrite ?Hw.
Qed.
End Alone.
End Programs.

(** Push [alone] through a program. *)
Ltac alone_all :=
  repeat (setoid_rewrite prog_alone_bind || setoid_rewrite prog_alone_wrap || setoid_rewrite prog_alone_defer ||
          setoid_rewrite alone_catch || setoid_rewrite alone_invoke).

Declare Scope locks_scope.
Delimit Scope locks_scope with locks.
Notation "'let?' x := m 'in' k" := (pbind m (fun x => k))
  (at level 10, x pattern, m at level 99, k at level 200) : locks_scope.

(** What is observed of the rows: a transaction locks one, its event is handed to
    the broker (with the broker's verdict as the program sees it), the transaction
    commits a new value, or ends without one; another component changes a row. *)
Inductive mark (V Msg : Type) :=
| Took (i : nat) (id : string)
| Handed (i : nat) (m : Msg) (accepted : bool)
| Settled (i : nat) (id : string) (v : V)
| Freed (i : nat) (id : string)
| Reset (id : string) (v : V).
Arguments Took {V Msg}.
Arguments Handed {V Msg}.
Arguments Settled {V Msg}.
Arguments Freed {V Msg}.
Arguments Reset {V Msg}.

(** ** The abstract machine

    A row has a value and a holder, who may have handed its event over. *)

Record arow (V : Type) := mkARow { ar_row : V; ar_holder : option (nat * option bool) }.
Arguments mkARow {V}.
Arguments ar_row {V}.
Arguments ar_holder {V}.

Section Machine.
Context {V Msg : Type} {L : Lifecycle V Msg}.
Abbreviation mark := (mark V Msg).
Abbreviation arow := (arow V).

Definition row_of (x : mark) : string :=
  match x with
  | Took _ id | Settled _ id _ | Freed _ id | Reset id _ => id
  | Handed _ m _ => msg_row m
  end.

(** Only a row that is free can be locked; only its holder hands its event over,
    once, and only if the row is open; only a holder that has done so changes the
    row, in a way the broker's verdict allows; others change only free rows. *)
Definition row_next (x : mark) (a : option arow) : option arow :=
  match x, a with
  | Took i _, Some (mkARow v None) => Some (mkARow v (Some (i, None)))
  | Handed i _ ok, Some (mkARow v (Some (j, None))) =>
      if bool_decide (j = i) && is_open v then Some (mkARow v (Some (i, Some ok))) else None
  | Settled i _ v', Some (mkARow v (Some (j, Some ok))) =>
      if bool_decide (j = i) && settles ok v v' then Some (mkARow v' None) else None
  | Freed i _, Some (mkARow v (Some (j, _))) => if bool_decide (j = i) then Some (mkARow v None) else None
  | Reset _ v', None => if resets None v' then Some (mkARow v' None) else None
  | Reset _ v', Some (mkARow v None) => if resets (Some v) v' then Some (mkARow v' None) else None
  | _, _ => None
  end.

Definition spec_next (m : gmap string arow) (x : mark) : option (gmap string arow) :=
  a ← row_next x (m !! row_of x); Some (<[row_of x := a]> m).

Definition spec_run (l : list mark) (m : gmap string arow) : option (gmap string arow) :=
  foldl (fun o x => m ← o; spec_next m x) (Some m) l.

Lemma spec_run_app l l' m : spec_run (l ++ l') m = (m' ← spec_run l m; spec_run l' m').
Proof.
  unfold spec_run. rewrite foldl_app. destruct (foldl _ _ l) as [m'|]; [done|]. simpl.
  induction l'; [done|]. simpl. done.
Qed.

Lemma spec_run_one x m a : row_next x (m !! row_of x) = Some a -> spec_run [x] m = Some (<[row_of x := a]> m).
Proof. intros H. unfold spec_run, spec_next. simpl. by rewrite H. Qed.

(** ** Its runs, row by row *)

Lemma rows_run_snoc l x m m' :
  spec_run (l ++ [x]) m = Some m' ->
  exists m1 a, spec_run l m = Some m1 /\ row_next x (m1 !! row_of x) = Some a /\ m' = <[row_of x := a]> m1.
Proof.
  rewrite spec_run_app. destruct (spec_run l m) as [m1|]; [|done]. unfold spec_run, spec_next. simpl.
  destruct (row_next _ _) as [a|] eqn:E; [|done]. intros [= <-]. eauto.
Qed.

(** A row that is not there has no marks. *)
Lemma absent_row l m0 m id : spec_run l m0 = Some m -> m !! id = None -> m0 !! id = None /\ forall x, x ∈ l -> row_of x <> id.
Proof.
  revert m. induction l as [|x l IH] using rev_ind; intros m Hl Hm.
  { unfold spec_run in Hl. simplify_eq/=. split; [done|]. intros x Hx. by apply elem_of_nil in Hx. }
  apply rows_run_snoc in Hl as (m1 & a & Hl & Hx & ->). apply lookup_insert_None in Hm as [Hm Hne].
  destruct (IH _ Hl Hm) as [H0 Hall]. split; [done|]. intros y [Hy|Hy%list_elem_of_singleton]%elem_of_app; [auto|congruence].
Qed.

(** A holder that has handed the row's event over has done so in the run. *)
Lemma holder_handed l m0 m id v i ok :
  (forall v h, m0 !! id = Some (mkARow v h) -> h = None) ->
  spec_run l m0 = Some m -> m !! id = Some (mkARow v (Some (i, Some ok))) ->
  exists msg, msg_row msg = id /\ Handed i msg ok ∈ l.
Proof.
  intros H0. revert m v. induction l as [|x l IH] using rev_ind; intros m v Hl Hm.
  { unfold spec_run in Hl. simplify_eq/=. by apply H0 in Hm. }
  apply rows_run_snoc in Hl as (m1 & a & Hl & Hx & ->). destruct (decide (row_of x = id)) as [<-|Hne].
  - rewrite lookup_insert_eq in Hm. simplify_eq.
    destruct (m1 !! row_of x) as [[w [[j [o|]]|]]|] eqn:E; destruct x; simpl in *; try done;
      repeat case_match; simplify_eq; exists m; set_solver.
  - rewrite lookup_insert_ne in Hm by done. destruct (IH _ _ Hl Hm) as (msg & ? & ?). set_solver.
Qed.

(** A row is closed only after the broker has accepted its event. *)
Lemma closed_was_handed l m0 m id v h :
  (forall v h, m0 !! id = Some (mkARow v h) -> h = None /\ is_open v = true) ->
  spec_run l m0 = Some m -> m !! id = Some (mkARow v h) -> is_open v = false ->
  exists i msg, msg_row msg = id /\ Handed i msg true ∈ l.
Proof.
  intros H0. revert m v h. induction l as [|x l IH] using rev_ind; intros m v h Hl Hm Hv.
  { unfold spec_run in Hl. simplify_eq/=. apply H0 in Hm. naive_solver congruence. }
  apply rows_run_snoc in Hl as (m1 & a & Hl & Hx & ->).
  assert (Hgo : forall v h, m1 !! id = Some (mkARow v h) -> is_open v = false ->
    exists i msg, msg_row msg = id /\ Handed i msg true ∈ l ++ [x]).
  { intros w g Hw Ho. destruct (IH _ _ _ Hl Hw Ho) as (i & msg & ? & ?). set_solver. }
  destruct (decide (row_of x = id)) as [<-|Hne]; [|rewrite lookup_insert_ne in Hm by done; eauto].
  rewrite lookup_insert_eq in Hm. simplify_eq. destruct (m1 !! row_of x) as [[w g]|] eqn:E; cycle 1.
  { destruct x; simpl in *; try done. case_match; simplify_eq. by erewrite resets_open in Hv. }
  destruct x; destruct g as [[j [ok|]]|]; simpl in *; try done; repeat case_match; simplify_eq; eauto.
  - apply andb_true_iff in H as [->%bool_decide_eq_true Hs]. destruct ok; [|by erewrite settles_false in Hv].
    destruct (holder_handed l m0 m1 id w i true) as (msg & ? & ?); [intros ? ? ?; by eapply H0|done|done|]. set_solver.
  - by erewrite resets_open in Hv.
Qed.

(** A closed row stays as it is, and its event is not handed over again, until
    another component resets it. *)
Lemma closed_stays l m0 m id v h :
  m0 !! id = Some (mkARow v h) -> (forall i ok, h <> Some (i, Some ok)) -> is_open v = false ->
  spec_run l m0 = Some m -> (forall w, Reset id w ∉ l) ->
  (exists h', m !! id = Some (mkARow v h') /\ forall i ok, h' <> Some (i, Some ok)) /\
  (forall i msg ok, Handed i msg ok ∈ l -> msg_row msg <> id) /\ (forall i w, Settled i id w ∉ l).
Proof.
  intros H0 Hh Hv. revert m. induction l as [|x l IH] using rev_ind; intros m Hl Hr.
  { unfold spec_run in Hl. simplify_eq/=. split_and!; [eauto|set_solver..]. }
  apply rows_run_snoc in Hl as (m1 & a & Hl & Hx & ->).
  destruct (IH m1 Hl) as ((h1 & Hm1 & Hh1) & Ha & Hs); [set_solver|].
  destruct (decide (row_of x = id)) as [<-|Hne].
  - rewrite lookup_insert_eq. rewrite Hm1 in Hx.
    destruct x; destruct h1 as [[j [ok|]]|]; simpl in *; try done; repeat case_match; simplify_eq;
      rewrite ?andb_true_iff in *; destruct_and?; try congruence;
      try (by destruct (Hh1 j ok)); try (by edestruct Hr; apply elem_of_app; right; apply list_elem_of_singleton).
    all: split_and!; [eexists; split; [done|naive_solver]|set_solver..].
  - rewrite lookup_insert_ne by done. split_and!; [eauto| |].
    + intros i msg ok [Hin|<-%list_elem_of_singleton]%elem_of_app; [eauto|done].
    + intros i w [Hin|<-%list_elem_of_singleton]%elem_of_app; [by eapply Hs|done].
Qed.

(** Rows that others never touch once they are there *)
Lemma no_reset l m0 m id a :
  (forall v w, resets (Some v) w = false) -> m0 !! id = Some a -> spec_run l m0 = Some m -> forall w, Reset id w ∉ l.
Proof.
  intros Hn H0. revert m. enough (H : forall m, spec_run l m0 = Some m -> (forall w, Reset id w ∉ l) /\ is_Some (m !! id))
    by (intros m Hm; by destruct (H m Hm)).
  induction l as [|x l IH] using rev_ind; intros m Hl.
  { unfold spec_run in Hl. simplify_eq/=. split; [set_solver|eauto]. }
  apply rows_run_snoc in Hl as (m1 & b & Hl & Hx & ->). destruct (IH m1 Hl) as [Hr [c Hc]]. split.
  - intros w [Hw|<-%list_elem_of_singleton]%elem_of_app; [by eapply Hr|]. simpl in Hx. rewrite Hc in Hx.
    destruct c as [v [?|]]; [done|]. by rewrite Hn in Hx.
  - destruct (decide (row_of x = id)) as [<-|Hne]; [rewrite lookup_insert_eq|rewrite lookup_insert_ne]; eauto.
Qed.

Lemma spec_run_split l1 x l2 m0 m :
  spec_run (l1 ++ x :: l2) m0 = Some m ->
  exists m1 a, spec_run l1 m0 = Some m1 /\ row_next x (m1 !! row_of x) = Some a /\
    spec_run l2 (<[row_of x := a]> m1) = Some m.
Proof.
  rewrite (app_assoc l1 [x] l2 : l1 ++ x :: l2 = (l1 ++ [x]) ++ l2), spec_run_app.
  destruct (spec_run (l1 ++ [x]) m0) as [m2|] eqn:E; [|done]. apply rows_run_snoc in E as (m1 & a & ? & ? & ->). eauto.
Qed.

(** The value that the marks of a run give a row: what was last written, or else
    what was there before. *)
Definition last_value (id : string) (l : list mark) (v0 : option V) : option V :=
  foldl (fun o x => match x with
                    | Settled _ id' v | Reset id' v => if String.eqb id' id then Some v else o
                    | _ => o
                    end) v0 l.

Lemma spec_run_value l m0 m id :
  spec_run l m0 = Some m -> ar_row <$> m !! id = last_value id l (ar_row <$> m0 !! id).
Proof.
  revert m. induction l as [|x l IH] using rev_ind; intros m Hl; [unfold spec_run in Hl; by simplify_eq/=|].
  apply rows_run_snoc in Hl as (m1 & a & Hl & Hx & ->). apply IH in Hl. unfold last_value. rewrite foldl_app.
  fold (last_value id l (ar_row <$> m0 !! id)). rewrite <- Hl.
  destruct (decide (row_of x = id)) as [<-|Hne].
  - rewrite lookup_insert_eq. destruct (m1 !! row_of x) as [[v [[j [ok|]]|]]|] eqn:E; destruct x; simpl in *;
      rewrite ?String.eqb_refl; repeat case_match; by simplify_eq/=.
  - rewrite lookup_insert_ne by done. destruct x; simpl in *; try done;
      by rewrite (proj2 (String.eqb_neq _ _) Hne).
Qed.

(** What is settled was settled by the rules, from the value the row had. *)
Lemma settled_by_rules l1 i id v l2 m0 m :
  spec_run (l1 ++ Settled i id v :: l2) m0 = Some m ->
  exists ok v0, last_value id l1 (ar_row <$> m0 !! id) = Some v0 /\ settles ok v0 v = true.
Proof.
  intros (m1 & a & Hl & Hx & _)%spec_run_split. simpl in Hx. apply (spec_run_value _ _ _ id) in Hl.
  destruct (m1 !! id) as [[v0 [[j [ok|]]|]]|]; try done. case_match eqn:Eb; [|done].
  apply andb_true_iff in Eb as [_ Eb]. eauto.
Qed.

End Machine.

(** ** The server *)

Record OpenTx := mkOpenTx { own : DB; began : Z; locks : gset string }.

Record Server (Msg : Type) := mkServer {
  sv_db : DB; sv_txs : gmap nat OpenTx; sv_seq : Z; sv_now : Z; sv_broker : list Msg;
}.
Arguments mkServer {Msg}.
Arguments sv_db {Msg}.
Arguments sv_txs {Msg}.
Arguments sv_seq {Msg}.
Arguments sv_now {Msg}.
Arguments sv_broker {Msg}.

Section System.
Context {V Msg Ans X : Type} `{EqDecision V} {T : Table V} {L : Lifecycle V Msg}.
(** What the broker answers, given what it holds *)
Context (answer : list Msg -> Ans).
(** The programs that may be started *)
Context (starts : prog Msg Ans X -> Prop).
Abbreviation prog := (prog Msg Ans).
Abbreviation call := (call Msg Ans).
Abbreviation Server := (Server Msg).
Abbreviation mark := (mark V Msg).
Abbreviation arow := (arow V).

Definition with_txs (txs : gmap nat OpenTx) (s : Server) : Server :=
  mkServer (sv_db s) txs (sv_seq s) (sv_now s) (sv_broker s).

(** The rows that the other transactions have locked *)
Definition locked_others (i : nat) (s : Server) : gset string :=
  union_list (map (fun jt => locks jt.2) (map_to_list (delete i (sv_txs s)))).

(** What a call of transaction [i] answers, the server after it and the marks;
    [None] while it has to wait for a lock. *)
Definition outcome (A : Type) : Type := option (res error A * Server * list mark).

Definition in_transaction {A} (i : nat) (s : Server) (body : OpenTx -> outcome A) : outcome A :=
  match sv_txs s !! i with
  | None => Some (Err (ErrorString "tx is closed"), s, [])
  | Some t => body t
  end.

Definition view (t : OpenTx) (s : Server) : DB := layer (own t) (sv_db s).

Definition read {A} (i : nat) (query : DB -> res error A) (s : Server) : outcome A :=
  in_transaction i s (fun t => Some (query (view t s), s, [])).

Definition take_row {A} (i : nat) (select : gset string -> Z -> DB -> res error (A * option string))
    (s : Server) : outcome A :=
  in_transaction i s (fun t =>
    match select (locked_others i s) (began t) (view t s) with
    | Err e => Some (Err e, s, [])
    | Ok (a, None) => Some (Ok a, s, [])
    | Ok (a, Some id) =>
        if bool_decide (id ∈ locked_others i s) then None
        else Some (Ok a, with_txs (<[i := mkOpenTx (own t) (began t) ({[id]} ∪ locks t)]> (sv_txs s)) s,
                   if bool_decide (id ∈ locks t) then [] else [Took i id])
    end).

(** A statement also locks the rows that it changes. *)
Definition write {A} (i : nat) (stmt : Z -> DB -> res error (A * DB)) (s : Server) : outcome A :=
  in_transaction i s (fun t =>
    match stmt (began t) (view t s) with
    | Err e => Some (Err e, s, [])
    | Ok (a, db') =>
        let w := written (view t s) db' in
        let rows := dom (tab w) in
        if bool_decide (rows ∩ locked_others i s <> ∅) then None
        else Some (Ok a,
                   mkServer (sv_db s)
                     (<[i := mkOpenTx (layer (number_history (sv_seq s) w) (own t)) (began t) (rows ∪ locks t)]>
                        (sv_txs s))
                     (sv_seq s + Z.of_nat (length (status_history w))) (sv_now s) (sv_broker s),
                   map (Took i) (elements (rows ∖ locks t)))
    end).

(** A transaction that ends settles the rows it has changed and frees the others. *)
Definition settle_marks (i : nat) (t : OpenTx) : list mark :=
  map (fun id => match tab (own t) !! id with Some v => Settled i id v | None => Freed i id end)
    (elements (locks t)).

Definition free_marks (i : nat) (s : Server) : list mark :=
  match sv_txs s !! i with
  | None => []
  | Some t => map (Freed i) (elements (locks t))
  end.

Definition commit (i : nat) (s : Server) : outcome unit :=
  in_transaction i s (fun t =>
    Some (Ok tt, mkServer (layer (own t) (sv_db s)) (delete i (sv_txs s)) (sv_seq s) (sv_now s) (sv_broker s),
          settle_marks i t)).

Definition close (i : nat) (s : Server) : Server := with_txs (delete i (sv_txs s)) s.

Definition store (m : Msg) (s : Server) : Server :=
  mkServer (sv_db s) (sv_txs s) (sv_seq s) (sv_now s) (sv_broker s ++ [m]).

(** A call that may not be executed, or whose reply may be lost *)
Definition lossy {A} (f : fault) (s : Server) (o : outcome A) : outcome A :=
  match f with
  | NoFault => o
  | FailBefore t => Some (Err (ErrorString t), s, [])
  | FailAfter t => '(_, s', ms) ← o; Some (Err (ErrorString t), s', ms)
  end.

Definition exec {A} (i : nat) (f : fault) (c : call A) (s : Server) : outcome A :=
  match c with
  | Begin =>
      match f with
      | NoFault => Some (Ok tt, with_txs (<[i := mkOpenTx empty_db (micros (sv_now s)) ∅]> (sv_txs s)) s, [])
      | FailBefore t | FailAfter t => Some (Err (ErrorString t), s, [])
      end
  | Read query => lossy f s (read i query s)
  | Take select => lossy f s (take_row i select s)
  | Write stmt => lossy f s (write i stmt s)
  | Send m =>
      match f with
      | NoFault => Some (Ok (answer (sv_broker s)), store m s, [Handed i m true])
      | FailBefore t => Some (Err (ErrorString t), s, [Handed i m false])
      | FailAfter t => Some (Err (ErrorString t), store m s, [Handed i m false])
      end
  | Commit => lossy f s (commit i s)
  | Rollback =>
      Some (match f with NoFault => Ok tt | FailBefore t | FailAfter t => Err (ErrorString t) end,
            close i s, free_marks i s)
  | Drop => Some (Ok tt, close i s, free_marks i s)
  end.

(** ** Overlapping programs *)

Inductive thread := Running (p : prog X) | Returned (r : res error X).

Record Sys := mkSys { server : Server; threads : gmap nat thread; trace : list mark }.

Definition initial (db : DB) (seq now : Z) (broker : list Msg) : Sys := mkSys (mkServer db ∅ seq now broker) ∅ [].

(** The other components add rows and change rows that nobody has locked; what
    they do to other tables does not matter. *)
Inductive others (s : Server) : DB -> list mark -> Prop :=
| others_elsewhere db' : tab db' = tab (sv_db s) -> others s db' []
| others_row db' id v :
    tab db' = <[id := v]> (tab (sv_db s)) -> resets (tab (sv_db s) !! id) v = true -> key_ok id ->
    (forall i t, sv_txs s !! i = Some t -> id ∉ locks t) -> others s db' [Reset id v].

Inductive step (st : Sys) : Sys -> Prop :=
| step_invoke i p :
    threads st !! i = None -> starts p ->
    step st (mkSys (server st) (<[i := Running p]> (threads st)) (trace st))
| step_call i f A (c : call A) k r s' ms :
    threads st !! i = Some (Running (Call c k)) -> exec i f c (server st) = Some (r, s', ms) ->
    step st (mkSys s' (<[i := Running (k r)]> (threads st)) (trace st ++ ms))
| step_return i r :
    threads st !! i = Some (Running (Ret r)) ->
    step st (mkSys (server st) (<[i := Returned r]> (threads st)) (trace st))
| step_kill i p :
    (** the process is gone; the server ends its transaction *)
    threads st !! i = Some (Running p) ->
    step st (mkSys (close i (server st)) (delete i (threads st)) (trace st ++ free_marks i (server st)))
| step_others db' now ms :
    others (server st) db' ms -> sv_now (server st) <= now ->
    step st (mkSys (mkServer db' (sv_txs (server st)) (sv_seq (server st)) now (sv_broker (server st)))
               (threads st) (trace st ++ ms)).

Inductive reachable (st0 : Sys) : Sys -> Prop :=
| reach_start : reachable st0 st0
| reach_step st st' : reachable st0 st -> step st st' -> reachable st0 st'.

Definition abstract (db : DB) : gmap string arow := (fun v => mkARow v None) <$> tab db.

(** The machine's rows are those of the committed table, and its holders are the
    transactions that have locked them. *)
Definition locks_of (s : Server) (i : nat) : gset string := default ∅ (locks <$> sv_txs s !! i).

Record represents (m : gmap string arow) (s : Server) : Prop := {
  rp_rows : forall id, ar_row <$> m !! id = tab (sv_db s) !! id;
  rp_holds : forall i id, id ∈ locks_of s i <-> exists v o, m !! id = Some (mkARow v (Some (i, o)));
}.

(** ** The logic of programs *)

Inductive phase :=
| Out                                                   (* no transaction *)
| Empty                                                 (* no row locked *)
| Holding (id : string) (v : V) (handed : option bool)
| Wrote (id : string) (v : V) (ok : bool) (v' : V)
| Doomed.                                               (* a call failed: nothing but a rollback *)

(** The calls a phase allows, and what holds of every answer. *)
Definition admits {A} (ph : phase) (c : call A) : (phase -> res error A -> Prop) -> Prop :=
  match c with
  | Begin => fun Q => ph = Out /\ Q Empty (Ok tt) /\ (forall e, Q Out (Err e))
  | Read query => fun Q =>
      (match ph with Empty | Holding _ _ _ | Wrote _ _ _ _ => True | _ => False end) /\
      (forall db a, query db = Ok a -> Q ph (Ok a)) /\ (forall e, Q Doomed (Err e))
  | Take select => fun Q =>
      ph = Empty /\
      (forall locked now db a, select locked now db = Ok (a, None) -> Q Empty (Ok a)) /\
      (forall locked now db a id, (forall id, is_Some (tab db !! id) -> key_ok id) ->
         select locked now db = Ok (a, Some id) ->
         exists v, tab db !! id = Some v /\ Q (Holding id v None) (Ok a)) /\
      (forall e, Q Doomed (Err e))
  | Write stmt => fun Q =>
      (match ph with
       | Holding id v (Some ok) => forall now db a db', tab db !! id = Some v -> stmt now db = Ok (a, db') ->
           exists v', tab db' = <[id := v']> (tab db) /\ settles ok v v' = true /\ Q (Wrote id v ok v') (Ok a)
       | Wrote _ _ _ _ => forall now db a db', stmt now db = Ok (a, db') -> tab db' = tab db /\ Q ph (Ok a)
       | _ => False
       end) /\
      (forall e, Q Doomed (Err e))
  | Send m => fun Q =>
      exists id v, ph = Holding id v None /\ msg_row m = id /\ is_open v = true /\
        (forall a, Q (Holding id v (Some true)) (Ok a)) /\ (forall e, Q (Holding id v (Some false)) (Err e))
  | Commit => fun Q =>
      (exists id v ok v', ph = Wrote id v ok v') /\ Q Out (Ok tt) /\ (forall e, Q Doomed (Err e))
  | Rollback => fun Q => forall r, Q Out r
  | Drop => fun Q => Q Out (Ok tt)
  end.

Fixpoint follows (ph : phase) (p : prog X) {struct p} : Prop :=
  match p with
  | Ret _ => ph = Out
  | Call c k => admits ph c (fun ph' r => follows ph' (k r))
  end.

(** At most [n] calls are left. *)
Fixpoint within (n : nat) (p : prog X) : Prop :=
  match p, n with
  | Ret _, _ => True
  | Call _ _, O => False
  | Call c k, S n' => forall r, within n' (k r)
  end.

(** ** The machine follows the server *)

Lemma elem_locked_others i s id : id ∈ locked_others i s <-> exists j, j <> i /\ id ∈ locks_of s j.
Proof.
  unfold locked_others, locks_of. rewrite elem_of_union_list. split.
  - intros (X0 & HX & Hid). apply list_elem_of_In, in_map_iff in HX as ([j t] & <- & HX).
    apply list_elem_of_In, elem_of_map_to_list, lookup_delete_Some in HX as [Hj Ht].
    exists j. by rewrite Ht.
  - intros (j & Hj & Hid). destruct (sv_txs s !! j) as [t|] eqn:Ht; simpl in Hid; [|set_solver].
    exists (locks t). split; [|done]. apply list_elem_of_In, in_map_iff. exists (j, t). split; [done|].
    apply list_elem_of_In, elem_of_map_to_list, lookup_delete_Some. done.
Qed.

Lemma represents_same m s s' :
  represents m s -> tab (sv_db s') = tab (sv_db s) -> (forall i, locks_of s' i = locks_of s i) -> represents m s'.
Proof. intros [H1 H2] Ht Hl. split; intros; [by rewrite Ht|by rewrite Hl]. Qed.

(** A row whose holder, before and after, is nobody or [i], who holds no other *)
Definition mine (i : nat) (h : option (nat * option bool)) : Prop := forall j o, h = Some (j, o) -> j = i.

Lemma represents_row m s s' i id a v h :
  represents m s -> m !! id = Some (mkARow v h) -> mine i h -> mine i (ar_holder a) ->
  (forall j, j <> i -> locks_of s' j = locks_of s j) ->
  locks_of s i ⊆ {[id]} -> locks_of s' i = (if ar_holder a then {[id]} else ∅) ->
  tab (sv_db s') = <[id := ar_row a]> (tab (sv_db s)) ->
  represents (<[id := a]> m) s'.
Proof.
  intros [H1 H2] Hm Hh Ha Hf Hl Hl' Ht. split.
  - intros id'. rewrite Ht. destruct (decide (id' = id)) as [->|Hne]; [by rewrite !lookup_insert_eq|].
    by rewrite !lookup_insert_ne by done.
  - intros j id'. destruct (decide (id' = id)) as [->|Hne].
    + rewrite lookup_insert_eq. destruct (decide (j = i)) as [->|Hj].
      * rewrite Hl'. destruct a as [v' [[j o]|]]; simpl in *; [|set_solver].
        rewrite (Ha j o eq_refl). set_solver.
      * rewrite (Hf j Hj), H2. split; intros (v' & o & E); exfalso; simplify_eq; naive_solver.
    + rewrite lookup_insert_ne by done. destruct (decide (j = i)) as [->|Hj]; [|by rewrite (Hf j Hj)].
      rewrite <- H2, Hl'. destruct (ar_holder a); set_solver.
Qed.

(** What a phase says of the transaction of [i] *)
Definition phase_ok (s : Server) (m : gmap string arow) (i : nat) (ph : phase) : Prop :=
  match ph with
  | Out => sv_txs s !! i = None
  | Empty => exists t, sv_txs s !! i = Some t /\ tab (own t) = ∅ /\ locks t = ∅
  | Holding id v o => exists t, sv_txs s !! i = Some t /\ tab (own t) = ∅ /\ locks t = {[id]} /\
      m !! id = Some (mkARow v (Some (i, o)))
  | Wrote id v ok v' => exists t, sv_txs s !! i = Some t /\ tab (own t) = {[id := v']} /\ locks t = {[id]} /\
      m !! id = Some (mkARow v (Some (i, Some ok))) /\ settles ok v v' = true
  | Doomed => locks_of s i = ∅ \/ exists id, locks_of s i = {[id]}
  end.

Lemma phase_small s m i ph : phase_ok s m i ph -> locks_of s i = ∅ \/ exists id, locks_of s i = {[id]}.
Proof.
  unfold locks_of. destruct ph; simpl; [intros ->; by left|intros (t & -> & _ & ?)|intros (t & -> & _ & ? & _)
    |intros (t & -> & _ & ? & _)|done]; simpl; eauto.
Qed.

(** What a call of [i] leaves to the others *)
Record frame (i : nat) (s : Server) (m : gmap string arow) (s' : Server) (m' : gmap string arow) : Prop := {
  fr_txs : forall j, j <> i -> sv_txs s' !! j = sv_txs s !! j;
  fr_rows : forall j id v o, j <> i -> m !! id = Some (mkARow v (Some (j, o))) -> m' !! id = m !! id;
  fr_keys : forall id, is_Some (tab (sv_db s') !! id) -> is_Some (tab (sv_db s) !! id);
}.

Lemma frame_phase i s m s' m' j ph : frame i s m s' m' -> j <> i -> phase_ok s m j ph -> phase_ok s' m' j ph.
Proof.
  intros [H1 H2 _] Hj. unfold phase_ok, locks_of. rewrite (H1 j Hj).
  destruct ph; [done..|intros (t & Ht & ? & ? & Hm)|intros (t & Ht & ? & ? & Hm & ?)|done]; exists t;
    rewrite (H2 _ _ _ _ Hj Hm); done.
Qed.

(** A call is correct: the machine makes the same moves, and the program reaches a
    phase that the logic foresees. *)
Definition good {A} (i : nat) (s : Server) (m : gmap string arow) (Q : phase -> res error A -> Prop)
    (x : res error A * Server * list mark) : Prop :=
  let '(r, s', ms) := x in
  exists m' ph', spec_run ms m = Some m' /\ represents m' s' /\ phase_ok s' m' i ph' /\ Q ph' r /\ frame i s m s' m'.

(** A call that leaves everything *)
Lemma good_same {A} i s m (Q : phase -> res error A -> Prop) ph r :
  represents m s -> phase_ok s m i ph -> Q ph r -> good i s m Q (r, s, []).
Proof. intros Hr Hp HQ. exists m, ph. split_and!; [done..|]. by split. Qed.

Lemma good_doomed {A} i s m (Q : phase -> res error A -> Prop) ph e :
  represents m s -> phase_ok s m i ph -> (forall e, Q Doomed (Err e)) -> good i s m Q (Err e, s, []).
Proof. intros Hr Hp HQ. eapply (good_same _ _ _ _ Doomed); [done| |done]. by eapply phase_small. Qed.

(** A lost reply: the program believes that the call failed. *)
Lemma good_lossy {A} i s m (Q : phase -> res error A -> Prop) ph f o x :
  represents m s -> phase_ok s m i ph -> (forall e, Q Doomed (Err e)) ->
  (forall x, o = Some x -> good i s m Q x) -> lossy f s o = Some x -> good i s m Q x.
Proof.
  intros Hr Hp HQ Ho. destruct f as [|t|t]; simpl; [auto|intros [= <-]; by eapply good_doomed|].
  destruct o as [[[r s'] ms]|]; [|done]. intros [= <-].
  destruct (Ho _ eq_refl) as (m' & ph' & Hs & Hr' & Hp' & _ & Hf). exists m', Doomed.
  split_and!; [done..|by eapply phase_small|done|done].
Qed.

Lemma locks_of_insert s i t j :
  locks_of (with_txs (<[i := t]> (sv_txs s)) s) j = if decide (j = i) then locks t else locks_of s j.
Proof.
  unfold locks_of. simpl. case_decide as Hj; [subst; by rewrite lookup_insert_eq|by rewrite lookup_insert_ne].
Qed.

Lemma locks_of_tx s i t : sv_txs s !! i = Some t -> locks_of s i = locks t.
Proof. unfold locks_of. by intros ->. Qed.

Lemma good_begin i f s m (Q : phase -> res error unit -> Prop) ph x :
  represents m s -> phase_ok s m i ph -> admits ph (Begin : call unit) Q -> exec i f Begin s = Some x -> good i s m Q x.
Proof.
  intros Hr Hp (-> & HQ & HQe) Hx.
  destruct f as [|t|t]; simplify_eq/=; [|by eapply (good_same _ _ _ _ Out)..].
  exists m, Empty. assert (Hi : locks_of s i = ∅) by (unfold locks_of; by rewrite Hp).
  split_and!; [done| |exists (mkOpenTx empty_db (micros (sv_now s)) ∅)|done|split; simpl].
  - eapply represents_same; [done|done|]. intros j. rewrite locks_of_insert. by case_decide; subst.
  - simpl. rewrite lookup_insert_eq. auto using tab_empty.
  - intros j Hj. by rewrite lookup_insert_ne.
  - done.
  - done.
Qed.

Lemma in_tx_phase {s m i ph} :
  phase_ok s m i ph -> match ph with Empty | Holding _ _ _ | Wrote _ _ _ _ => True | _ => False end ->
  exists t, sv_txs s !! i = Some t.
Proof. destruct ph; simpl; naive_solver. Qed.

Lemma good_read {A} i query s m (Q : phase -> res error A -> Prop) ph x :
  represents m s -> phase_ok s m i ph -> admits ph (Read query : call A) Q -> read i query s = Some x ->
  good i s m Q x.
Proof.
  intros Hr Hp (Hin & HQ & HQe) Hx. destruct (in_tx_phase Hp Hin) as [t Ht].
  unfold read, in_transaction in Hx. rewrite Ht in Hx. simplify_eq.
  destruct (query _) as [a|e] eqn:E; [|by eapply good_doomed]. eapply good_same; eauto.
Qed.

(** The rows a transaction sees are the committed ones, but for its own. *)
Lemma tab_view t s : tab (view t s) = tab (own t) ∪ tab (sv_db s).
Proof. apply tab_layer. Qed.

Lemma free_row m s i id v :
  represents m s -> tab (sv_db s) !! id = Some v -> id ∉ locked_others i s -> id ∉ locks_of s i ->
  m !! id = Some (mkARow v None).
Proof.
  intros [H1 H2] Hv Ho Hi. specialize (H1 id). rewrite Hv in H1.
  destruct (m !! id) as [[v' h]|] eqn:E; simplify_eq/=. destruct h as [[j o]|]; [|done]. exfalso.
  assert (id ∈ locks_of s j) as Hj by (apply H2; eauto).
  destruct (decide (j = i)) as [->|Hne]; [done|]. apply Ho, elem_locked_others. eauto.
Qed.

Lemma good_take {A} i select s m (Q : phase -> res error A -> Prop) ph x :
  represents m s -> (forall id, is_Some (tab (sv_db s) !! id) -> key_ok id) ->
  phase_ok s m i ph -> admits ph (Take select : call A) Q -> take_row i select s = Some x -> good i s m Q x.
Proof.
  intros Hr Hk Hp (-> & HQ & HQt & HQe) Hx. pose proof Hp as (t & Ht & Ho & Hl).
  unfold take_row, in_transaction in Hx. rewrite Ht in Hx.
  assert (Hv : tab (view t s) = tab (sv_db s)) by (rewrite tab_view, Ho; apply (left_id_L ∅ (∪))).
  destruct (select _ _ _) as [[a [id|]]|e] eqn:E; simplify_eq; cycle 1.
  { eapply (good_same _ _ _ _ Empty); eauto. }
  { eapply good_doomed; eauto. }
  rewrite Hl in Hx. rewrite (bool_decide_eq_false_2 (id ∈ (∅ : gset string))) in Hx by set_solver.
  case_bool_decide as Hn; simplify_eq.
  destruct (HQt (locked_others i s) (began t) (view t s) a id) as (v & Hid & HQv); [by rewrite Hv|done|]. rewrite Hv in Hid.
  assert (Hi : locks_of s i = ∅) by (by rewrite (locks_of_tx _ _ _ Ht)).
  assert (Hm : m !! id = Some (mkARow v None)) by (eapply free_row; [done..|rewrite Hi; set_solver]).
  exists (<[id := mkARow v (Some (i, None))]> m), (Holding id v None). split_and!.
  - apply (spec_run_one (Took i id)). simpl. by rewrite Hm.
  - eapply represents_row; [done..| | | | | |].
    + done.
    + by intros ? ? [= <- <-].
    + intros j Hj. rewrite locks_of_insert. by case_decide.
    + rewrite Hi. set_solver.
    + rewrite locks_of_insert, decide_True by done. simpl. set_solver.
    + simpl. by rewrite insert_id.
  - exists (mkOpenTx (own t) (began t) ({[id]} ∪ ∅)). simpl. rewrite !lookup_insert_eq. split_and!; [done..|set_solver|done].
  - done.
  - split; simpl; [intros j Hj; by rewrite lookup_insert_ne|intros j id' v' o Hj Hm'|done].
    rewrite lookup_insert_ne; [done|]. congruence.
Qed.

Lemma good_send i f msg s m (Q : phase -> res error Ans -> Prop) ph x :
  represents m s -> phase_ok s m i ph -> admits ph (Send msg : call Ans) Q -> exec i f (Send msg) s = Some x ->
  good i s m Q x.
Proof.
  intros Hr Hp (id & v & -> & Hid & Hv & HQ & HQe) Hx. pose proof Hp as (t & Ht & Ho & Hl & Hm).
  assert (H : forall ok r s', (s' = s \/ s' = store msg s) -> Q (Holding id v (Some ok)) r ->
    good i s m Q (r, s', [Handed i msg ok])).
  { intros ok r s' Hs' HQr. exists (<[id := mkARow v (Some (i, Some ok))]> m), (Holding id v (Some ok)).
    assert (Hls : forall j, locks_of s' j = locks_of s j) by (by destruct Hs' as [-> | ->]).
    assert (sv_txs s' = sv_txs s /\ sv_db s' = sv_db s) as [Hts Hds] by (by destruct Hs' as [-> | ->]).
    split_and!.
    - rewrite <- Hid. apply (spec_run_one (Handed i msg ok)). simpl. rewrite Hid, Hm. simpl.
      by rewrite bool_decide_eq_true_2, Hv.
    - eapply represents_row; [done..| | | | | |].
      + by intros ? ? [= <- <-].
      + by intros ? ? [= <- <-].
      + done.
      + by rewrite (locks_of_tx _ _ _ Ht), Hl.
      + by rewrite Hls, (locks_of_tx _ _ _ Ht), Hl.
      + rewrite Hds. simpl. rewrite insert_id; [done|]. rewrite <- (rp_rows _ _ Hr), Hm. done.
    - exists t. rewrite Hts, lookup_insert_eq. done.
    - done.
    - split; [by rewrite Hts|intros j id' v' o Hj Hm'|by rewrite Hds]. rewrite lookup_insert_ne; [done|]. congruence. }
  destruct f; simplify_eq/=; apply H; auto.
Qed.

(** The transaction of [i] after a statement that wrote [w] *)
Definition wrote_tx (s : Server) (w : DB) (t : OpenTx) : OpenTx :=
  mkOpenTx (layer (number_history (sv_seq s) w) (own t)) (began t) (dom (tab w) ∪ locks t).

Lemma write_inv {A} i stmt s t x (a : A) db' :
  sv_txs s !! i = Some t -> stmt (began t) (view t s) = Ok (a, db') -> write i stmt s = Some x ->
  let w := written (view t s) db' in
  dom (tab w) ⊆ locks t ->
  exists s', x = (Ok a, s', []) /\ sv_db s' = sv_db s /\ sv_txs s' = <[i := wrote_tx s w t]> (sv_txs s) /\
    locks (wrote_tx s w t) = locks t.
Proof.
  intros Ht Hs Hx w Hd. unfold write, in_transaction in Hx. rewrite Ht, Hs in Hx. fold w in Hx.
  case_bool_decide; simplify_eq. assert (dom (tab w) ∖ locks t = ∅) as Hz by set_solver. eexists. rewrite Hz, elements_empty.
  split_and!; [done..|]. unfold wrote_tx. simpl. set_solver.
Qed.

Lemma represents_wrote m s s' i t w :
  represents m s -> sv_txs s !! i = Some t -> sv_db s' = sv_db s -> sv_txs s' = <[i := wrote_tx s w t]> (sv_txs s) ->
  locks (wrote_tx s w t) = locks t -> represents m s' /\ frame i s m s' m.
Proof.
  intros Hr Ht Hd Hs Hl. split.
  - eapply represents_same; [done|by rewrite Hd|]. intros j. unfold locks_of. rewrite Hs.
    destruct (decide (j = i)) as [->|Hj]; [|by rewrite lookup_insert_ne]. rewrite lookup_insert_eq, Ht. apply Hl.
  - split; [intros j Hj; by rewrite Hs, lookup_insert_ne|done|by rewrite Hd].
Qed.

Lemma good_write {A} i stmt s m (Q : phase -> res error A -> Prop) ph x :
  represents m s -> phase_ok s m i ph -> admits ph (Write stmt : call A) Q -> write i stmt s = Some x ->
  good i s m Q x.
Proof.
  intros Hr Hp (Hst & HQe) Hx.
  assert (exists t, sv_txs s !! i = Some t) as [t Ht].
  { destruct ph as [| |id v [ok|]| |]; [done..| |done| |done]; by destruct Hp as (t & Ht & _); eauto. }
  destruct (stmt (began t) (view t s)) as [[a db']|e] eqn:E; cycle 1.
  { unfold write, in_transaction in Hx. rewrite Ht, E in Hx. simplify_eq. by eapply good_doomed. }
  pose proof (write_inv i stmt s t x a db' Ht E Hx) as Hw.
  pose proof (tab_written (view t s) db') as Htw. simpl in Hw. set (w := written (view t s) db') in *.
  destruct ph as [| |id v [ok|]|id v ok v'|]; [done..| |done| |done]; destruct Hp as (t' & Ht' & Ho & Hl & Hp); assert (t' = t) as -> by congruence.
  - assert (Hv : tab (view t s) = tab (sv_db s)) by (rewrite tab_view, Ho; apply (left_id_L ∅ (∪))).
    destruct (Hst (began t) (view t s) a db') as (v' & Hdb & Hse & HQ); [|done|].
    { rewrite Hv, <- (rp_rows _ _ Hr), Hp. done. }
    rewrite Hdb, changed_insert in Htw; cycle 1.
    { rewrite Hv, <- (rp_rows _ _ Hr), Hp. simpl. intros [= Heq]. by eapply settles_changes. }
    destruct Hw as (s' & -> & Hd & Hs & Hl'); [rewrite Htw, Hl; set_solver|].
    destruct (represents_wrote _ _ _ _ _ _ Hr Ht Hd Hs Hl') as [Hr' Hf].
    exists m, (Wrote id v ok v'). split_and!; [done..| |done|done].
    exists (wrote_tx s w t). rewrite Hs, lookup_insert_eq. split_and!; [done| |by etransitivity|done|done].
    unfold wrote_tx. simpl. rewrite tab_layer, tab_number, Htw, Ho. apply (right_id_L ∅ (∪)).
  - destruct (Hst (began t) (view t s) a db' E) as (Hdb & HQ). rewrite Hdb, changed_refl in Htw.
    destruct Hw as (s' & -> & Hd & Hs & Hl'); [rewrite Htw; set_solver|].
    destruct (represents_wrote _ _ _ _ _ _ Hr Ht Hd Hs Hl') as [Hr' Hf].
    exists m, (Wrote id v ok v'). split_and!; [done..| |done|done].
    exists (wrote_tx s w t). rewrite Hs, lookup_insert_eq. split_and!; [done| |by etransitivity|apply Hp|apply Hp].
    unfold wrote_tx. simpl. rewrite tab_layer, tab_number, Htw, Ho. apply (left_id_L ∅ (∪)).
Qed.

Lemma locks_of_close s i j : locks_of (close i s) j = if decide (j = i) then ∅ else locks_of s j.
Proof.
  unfold locks_of. simpl. case_decide as Hj; [subst; by rewrite lookup_delete_eq|by rewrite lookup_delete_ne].
Qed.

(** A transaction that ends without a commit *)
Lemma close_good i s m ph :
  represents m s -> phase_ok s m i ph ->
  exists m', spec_run (free_marks i s) m = Some m' /\ represents m' (close i s) /\ frame i s m (close i s) m'.
Proof.
  intros Hr Hp. assert (Hfr : free_marks i s = map (Freed i) (elements (locks_of s i))).
  { unfold free_marks, locks_of. destruct (sv_txs s !! i); simpl; [done|]. by rewrite elements_empty. }
  rewrite Hfr. destruct (phase_small _ _ _ _ Hp) as [Hl|[id Hl]]; rewrite Hl.
  - rewrite elements_empty. exists m. split_and!; [done| |split; [|done..]].
    + eapply represents_same; [done|done|]. intros j. rewrite locks_of_close. by case_decide; subst.
    + intros j Hj. simpl. by rewrite lookup_delete_ne.
  - rewrite elements_singleton. destruct (proj1 (rp_holds _ _ Hr i id)) as (v & o & Hm); [set_solver|].
    exists (<[id := mkARow v None]> m). split_and!.
    + apply (spec_run_one (Freed i id)). simpl. rewrite Hm. by rewrite bool_decide_eq_true_2.
    + eapply represents_row; [done..| | | | | |].
      * by intros ? ? [= <- <-].
      * done.
      * intros j Hj. rewrite locks_of_close. by case_decide.
      * by rewrite Hl.
      * rewrite locks_of_close. by case_decide.
      * simpl. rewrite insert_id; [done|]. by rewrite <- (rp_rows _ _ Hr), Hm.
    + split; [intros j Hj; simpl; by rewrite lookup_delete_ne|intros j id' v' o' Hj Hm'|done].
      rewrite lookup_insert_ne; [done|]. congruence.
Qed.

Lemma good_close {A} i s m (Q : phase -> res error A -> Prop) ph r :
  represents m s -> phase_ok s m i ph -> Q Out r -> good i s m Q (r, close i s, free_marks i s).
Proof.
  intros Hr Hp HQ. destruct (close_good i s m ph Hr Hp) as (m' & H1 & H2 & H3). exists m', Out.
  split_and!; [done..| |done|done]. simpl. by rewrite lookup_delete_eq.
Qed.

Lemma good_commit i s m (Q : phase -> res error unit -> Prop) ph x :
  represents m s -> phase_ok s m i ph -> admits ph (Commit : call unit) Q -> commit i s = Some x -> good i s m Q x.
Proof.
  intros Hr Hp ((id & v & ok & v' & ->) & HQ & _) Hx. destruct Hp as (t & Ht & Ho & Hl & Hm & Hse).
  unfold commit, in_transaction in Hx. rewrite Ht in Hx. simplify_eq. unfold settle_marks. rewrite Hl, elements_singleton. simpl.
  rewrite Ho, lookup_singleton_eq. set (s' := mkServer _ _ _ _ _).
  assert (Htab : tab (sv_db s') = <[id := v']> (tab (sv_db s))).
  { unfold s'. simpl. by rewrite tab_layer, Ho, insert_union_singleton_l. }
  assert (Hls : forall j, locks_of s' j = if decide (j = i) then ∅ else locks_of s j) by (intros j; apply (locks_of_close s)).
  exists (<[id := mkARow v' None]> m), Out. split_and!.
  - apply (spec_run_one (Settled i id v')). simpl. rewrite Hm. by rewrite bool_decide_eq_true_2, Hse.
  - eapply represents_row; [done..| | | | | |done].
    + by intros ? ? [= <- <-].
    + done.
    + intros j Hj. rewrite Hls. by case_decide.
    + by rewrite (locks_of_tx _ _ _ Ht), Hl.
    + rewrite Hls. by case_decide.
  - simpl. by rewrite lookup_delete_eq.
  - done.
  - split; [intros j Hj; simpl; by rewrite lookup_delete_ne|intros j id' w o Hj Hm'|].
    + rewrite lookup_insert_ne; [done|]. congruence.
    + intros id'. rewrite Htab. destruct (decide (id' = id)) as [->|Hne]; [|by rewrite lookup_insert_ne].
      intros _. rewrite <- (rp_rows _ _ Hr), Hm. eauto.
Qed.

(** Every call that the logic allows *)
Lemma exec_good {A} i f (c : call A) s m (Q : phase -> res error A -> Prop) ph x :
  represents m s -> (forall id, is_Some (tab (sv_db s) !! id) -> key_ok id) -> phase_ok s m i ph ->
  admits ph c Q -> exec i f c s = Some x -> good i s m Q x.
Proof.
  intros Hr Hk Hp Ha Hx. destruct c; simpl exec in Hx.
  - by eapply good_begin.
  - eapply good_lossy; [done..|apply Ha| |done]. intros y Hy. by eapply good_read.
  - eapply good_lossy; [done..|apply Ha| |done]. intros y Hy. by eapply good_take.
  - eapply good_lossy; [done..|apply Ha| |done]. intros y Hy. by eapply good_write.
  - by eapply good_send.
  - eapply good_lossy; [done..|apply Ha| |done]. intros y Hy. by eapply good_commit.
  - simplify_eq. by eapply good_close.
  - simplify_eq. by eapply good_close.
Qed.

(** ** Reachable states *)

Record inv (st : Sys) (m : gmap string arow) : Prop := {
  iv_rep : represents m (server st);
  iv_threads : forall i p, threads st !! i = Some (Running p) ->
    exists ph, follows ph p /\ phase_ok (server st) m i ph;
  iv_txs : forall i t, sv_txs (server st) !! i = Some t -> exists p, threads st !! i = Some (Running p);
  iv_keys : forall id, is_Some (tab (sv_db (server st)) !! id) -> key_ok id;
}.

Lemma inv_initial db seq now broker :
  (forall id, is_Some (tab db !! id) -> key_ok id) -> inv (initial db seq now broker) (abstract db).
Proof.
  intros Hk. split; simpl; [|done..|done]. split.
  - intros id. simpl. unfold abstract. rewrite lookup_fmap. by destruct (tab db !! id).
  - intros i id. unfold locks_of, abstract. simpl. rewrite lookup_empty, lookup_fmap. simpl. split; [set_solver|].
    destruct (tab db !! id); naive_solver.
Qed.

(** The thread [i] moves to [th]; the others are framed. *)
Lemma inv_thread st m s' m' i (th : option thread) tr :
  inv st m -> frame i (server st) m s' m' -> represents m' s' ->
  (forall p, th = Some (Running p) -> exists ph, follows ph p /\ phase_ok s' m' i ph) ->
  (forall t, sv_txs s' !! i = Some t -> exists p, th = Some (Running p)) ->
  inv (mkSys s' (partial_alter (fun _ => th) i (threads st)) tr) m'.
Proof.
  intros [H1 H2 H3 H4] Hf Hr Hp Ht. split; simpl; [done| | |].
  - intros j p. destruct (decide (j = i)) as [->|Hj]; [rewrite lookup_partial_alter_eq; eauto|].
    rewrite lookup_partial_alter_ne by done. intros Hj'. destruct (H2 j p Hj') as (ph & ? & ?).
    exists ph. split; [done|]. by eapply frame_phase.
  - intros j t Hj. destruct (decide (j = i)) as [->|Hne]; [rewrite lookup_partial_alter_eq; eauto|].
    rewrite lookup_partial_alter_ne by done. rewrite (fr_txs _ _ _ _ _ Hf) in Hj by done. eauto.
  - intros id Hid. by apply H4, (fr_keys _ _ _ _ _ Hf).
Qed.

Lemma frame_refl i s m : frame i s m s m.
Proof. by split. Qed.

(** The other components *)
Lemma others_inv st m db' now ms tr :
  inv st m -> others (server st) db' ms ->
  exists m', spec_run ms m = Some m' /\
    inv (mkSys (mkServer db' (sv_txs (server st)) (sv_seq (server st)) now (sv_broker (server st))) (threads st) tr) m'.
Proof.
  intros [H1 H2 H3 H4] Ho. destruct Ho as [db' Ht|db' id v Ht Hr Hk Hl].
  { exists m. split; [done|]. split; simpl; [by eapply represents_same|done..|by rewrite Ht]. }
  assert (Hm : forall w h, m !! id = Some (mkARow w h) -> h = None).
  { intros w [[i o]|] E; [|done]. exfalso. assert (Hin : id ∈ locks_of (server st) i) by (apply (rp_holds _ _ H1); eauto).
    unfold locks_of in Hin. destruct (sv_txs (server st) !! i) as [t|] eqn:E'; [|set_solver]. by eapply Hl. }
  assert (Hrow : ar_row <$> m !! id = tab (sv_db (server st)) !! id) by apply H1.
  exists (<[id := mkARow v None]> m). split.
  { apply (spec_run_one (Reset id v)). simpl. rewrite <- Hrow in Hr. destruct (m !! id) as [[w h]|] eqn:E; simpl in Hr.
    - rewrite (Hm w h eq_refl). by rewrite Hr.
    - by rewrite Hr. }
  split; simpl; [split; simpl| |done|].
  - intros id'. rewrite Ht. destruct (decide (id' = id)) as [->|Hne]; [by rewrite !lookup_insert_eq|].
    rewrite !lookup_insert_ne by done. apply H1.
  - intros i id'. transitivity (id' ∈ locks_of (server st) i); [done|]. rewrite (rp_holds _ _ H1).
    destruct (decide (id' = id)) as [->|Hne]; [|by rewrite lookup_insert_ne]. rewrite lookup_insert_eq.
    split; [intros (w & o & E); by apply Hm in E|naive_solver].
  - intros i p Hp. destruct (H2 i p Hp) as (ph & Hf & Hok). exists ph. split; [done|].
    assert (forall w j o id', m !! id' = Some (mkARow w (Some (j, o))) -> <[id := mkARow v None]> m !! id' = m !! id') as Hx.
    { intros w j o id' E. rewrite lookup_insert_ne; [done|]. intros ->. by apply Hm in E. }
    destruct ph; simpl in *; [done..|destruct Hok as (t & ? & ? & ? & E)|destruct Hok as (t & ? & ? & ? & E & ?)|done];
      exists t; by erewrite Hx.
  - intros id'. rewrite Ht. destruct (decide (id' = id)) as [->|Hne]; [done|]. rewrite lookup_insert_ne by done. apply H4.
Qed.

Section Follows.
Context (starts_follow : forall p, starts p -> follows Out p).

Lemma step_refines st st' m :
  inv st m -> step st st' -> exists ms m', trace st' = trace st ++ ms /\ spec_run ms m = Some m' /\ inv st' m'.
Proof.
  intros Hi Hs. destruct Hs as [i p Hn Hp|i f A c k r s' ms Ht Hx|i r Ht|i p Ht|db' now ms Ho Hn]; simpl.
  - exists [], m. rewrite app_nil_r. split_and!; [done..|]. apply (inv_thread _ m _ _ i (Some (Running p))); [done|apply frame_refl|apply Hi| |eauto].
    intros p' [= <-]. exists Out. split; [auto|]. simpl. destruct (sv_txs (server st) !! i) eqn:E; [|done].
    apply (iv_txs _ _ Hi) in E as [? E]. congruence.
  - destruct (iv_threads _ _ Hi _ _ Ht) as (ph & Hf & Hok).
    destruct (exec_good i f c (server st) m _ ph _ (iv_rep _ _ Hi) (iv_keys _ _ Hi) Hok Hf Hx)
      as (m' & ph' & Hsp & Hr & Hok' & Hf' & Hfr).
    exists ms, m'. split_and!; [done..|]. eapply (inv_thread _ m _ _ i (Some (Running (k r)))); [done..| |eauto].
    intros p [= <-]. eauto.
  - exists [], m. rewrite app_nil_r. split_and!; [done..|]. apply (inv_thread _ m _ _ i (Some (Returned r))); [done|apply frame_refl|apply Hi|done|].
    intros t E. destruct (iv_threads _ _ Hi _ _ Ht) as (ph & -> & Hok). simpl in Hok. congruence.
  - destruct (iv_threads _ _ Hi _ _ Ht) as (ph & Hf & Hok).
    destruct (close_good i _ _ ph (iv_rep _ _ Hi) Hok) as (m' & Hsp & Hr & Hfr).
    exists (free_marks i (server st)), m'. split_and!; [done..|].
    eapply (inv_thread _ m _ _ i None); [done..|]. simpl. by rewrite lookup_delete_eq.
  - destruct (others_inv st m db' now ms (trace st ++ ms) Hi Ho) as (m' & Hsp & Hi'). eauto.
Qed.

(** Whatever the programs, the order of their calls and the faults, the marks are a
    run of the abstract machine, and its state is that of the server. *)
Lemma locked_rows_refine db seq now broker st :
  (forall id, is_Some (tab db !! id) -> key_ok id) -> reachable (initial db seq now broker) st ->
  exists m, spec_run (trace st) (abstract db) = Some m /\ inv st m.
Proof.
  intros Hk Hr. induction Hr as [|st st' Hr (m & Hm & Hi) Hs].
  - exists (abstract db). split; [done|]. by apply inv_initial.
  - destruct (step_refines st st' m Hi Hs) as (ms & m' & -> & Hm' & Hi'). exists m'. split; [|done].
    rewrite spec_run_app, Hm. done.
Qed.

End Follows.

(** What the broker has accepted is there. *)
Lemma exec_broker {A} i f (c : call A) s r s' ms :
  exec i f c s = Some (r, s', ms) ->
  sv_broker s ⊆ sv_broker s' /\ (forall j msg, Handed j msg true ∈ ms -> msg ∈ sv_broker s').
Proof.
  assert (Hno : forall (l : list string) (g : string -> mark), (forall x j msg, g x <> Handed j msg true) ->
    forall j msg, Handed j msg true ∉ map g l).
  { intros l g Hg j msg H%list_elem_of_In%in_map_iff. naive_solver. }
  assert (Hq : forall B (o : outcome B), (forall r s' ms, o = Some (r, s', ms) -> sv_broker s' = sv_broker s /\
      forall j msg, Handed j msg true ∉ ms) -> forall r s' ms, lossy f s o = Some (r, s', ms) ->
      sv_broker s ⊆ sv_broker s' /\ (forall j msg, Handed j msg true ∈ ms -> msg ∈ sv_broker s')).
  { intros B o Ho r0 s0 ms0 Hl. destruct f as [|t|t]; simpl in Hl.
    - destruct (Ho _ _ _ Hl) as [-> Hm]. split; [done|]. intros j msg Hj. by destruct (Hm j msg).
    - simplify_eq. split; [done|]. intros j msg Hj. by apply elem_of_nil in Hj.
    - destruct o as [[[r1 s1] ms1]|]; simplify_eq/=. destruct (Ho _ _ _ eq_refl) as [-> Hm].
      split; [done|]. intros j msg Hj. by destruct (Hm j msg). }
  assert (Hc : sv_broker s ⊆ sv_broker (close i s) /\ forall j msg, Handed j msg true ∈ free_marks i s -> msg ∈ sv_broker s).
  { split; [done|]. unfold free_marks. destruct (sv_txs s !! i) as [t|]; intros j msg Hj; [|by apply elem_of_nil in Hj].
    by destruct (Hno (elements (locks t)) (Freed i) ltac:(done) j msg). }
  destruct c; simpl; [destruct f; intros; simplify_eq/=; set_solver|apply Hq|apply Hq|apply Hq|destruct f; intros; simplify_eq/=; set_solver
    |apply Hq|(intros; by simplify_eq/=)..]; intros r0 s0 ms0; unfold read, take_row, write, commit, in_transaction;
    (destruct (sv_txs s !! i) as [t|]; [|intros; simplify_eq; set_solver]).
  - intros; simplify_eq; set_solver.
  - repeat case_match; intros; simplify_eq/=; set_solver.
  - repeat case_match; intros; simplify_eq/=; (split; [done|]); [by apply Hno|set_solver].
  - intros; simplify_eq/=. split; [done|]. apply Hno. intros id j msg. by case_match.
Qed.

Lemma handed_stored db seq now broker st i msg :
  reachable (initial db seq now broker) st -> Handed i msg true ∈ trace st -> msg ∈ sv_broker (server st).
Proof.
  intros Hr. revert i msg. induction Hr as [|st st' Hr IH Hs]; [intros i msg Hx; by apply elem_of_nil in Hx|].
  intros i0 msg. destruct Hs as [i p Hn Hp|i f A c k r s' ms Ht Hx|i r Ht|i p Ht|db' now' ms Ho Hn]; simpl; eauto.
  - apply exec_broker in Hx as [Hb Hm]. intros [H|H]%elem_of_app; [apply Hb|]; eauto.
  - intros [H|H]%elem_of_app; [eauto|]. unfold free_marks in H. destruct (sv_txs (server st) !! i) as [t|]; [|by apply elem_of_nil in H].
    apply list_elem_of_In, in_map_iff in H. naive_solver.
  - intros [H|H]%elem_of_app; [eauto|]. destruct Ho; set_solver.
Qed.

(** What holds of the programs that are started and of what is left of a program
    after a call holds of every running program. *)
Lemma hereditary (P : prog X -> Prop) db seq now broker st i p :
  (forall p, starts p -> P p) -> (forall A (c : call A) k r, P (Call c k) -> P (k r)) ->
  reachable (initial db seq now broker) st -> threads st !! i = Some (Running p) -> P p.
Proof.
  intros H1 H2 Hr. revert i p. induction Hr as [|st st' Hr IH Hs]; [done|]. intros i0 p0.
  destruct Hs as [i p Hn Hp|i f A c k r s' ms Ht Hx|i r Ht|i p Ht|db' now' ms Ho Hn]; simpl; [| | |intros [_ ?]%lookup_delete_Some|]; eauto;
    intros [[-> E]|[_ E]]%lookup_insert_Some; simplify_eq; eauto.
Qed.

Lemma within_mono n n' p : within n p -> (n <= n')%nat -> within n' p.
Proof.
  revert n n'. induction p as [r|A c k IH]; intros n n' Hp Hn; [by destruct n'|].
  destruct n as [|n]; [done|]. destruct n' as [|n']; [lia|]. simpl in *. intros r. eapply IH; [done|lia].
Qed.

(** ** Nobody waits for ever *)

(** A locking query with SKIP LOCKED *)
Definition skips_locked {A} (c : call A) : Prop :=
  match c with
  | Take select => forall locked now db a id, select locked now db = Ok (a, Some id) -> id ∉ locked
  | _ => True
  end.

(** A call waits only to lock a row, and a transaction that has locked one never
    does. *)
Lemma call_moves st m i A (c : call A) k f :
  inv st m -> threads st !! i = Some (Running (Call c k)) ->
  is_Some (exec i f c (server st)) \/
  (locks_of (server st) i = ∅ /\ ~ skips_locked c /\ exists j id, j <> i /\ id ∈ locks_of (server st) j).
Proof.
  intros Hi Ht. destruct (iv_threads _ _ Hi _ _ Ht) as (ph & Hf & Hok). simpl in Hf.
  assert (Hlo : forall B (o : outcome B), is_Some o -> is_Some (lossy f (server st) o)).
  { intros B o [[[r s'] ms] ->]. destruct f; simpl; eauto. }
  destruct c; simpl exec; [left; destruct f; eauto|left; apply Hlo| |left; apply Hlo|left; destruct f; eauto
    |left; apply Hlo|left; eauto..].
  - unfold read, in_transaction. destruct (sv_txs _ !! i); eauto.
  - destruct Hf as (-> & _). destruct Hok as (t & Hx & Ho & Hl).
    destruct (take_row i select (server st)) eqn:E; [left; apply Hlo; eauto|].
    unfold take_row, in_transaction in E. rewrite Hx in E.
    destruct (select _ _ _) as [[a [id|]]|e] eqn:Es; [|done..]. case_bool_decide as Hid; [|done].
    right. split_and!; [by rewrite (locks_of_tx _ _ _ Hx)|intros Hsk; by eapply Hsk|].
    apply elem_locked_others in Hid as (j & Hj & Hlj). eauto.
  - destruct Hf as [Hf _]. unfold write, in_transaction.
    destruct (sv_txs (server st) !! i) as [t|] eqn:Hx; [|eauto].
    destruct (stmt (began t) (view t (server st))) as [[a db']|e] eqn:Es; [|eauto].
    rewrite bool_decide_eq_false_2; [eauto|]. intros Hn. apply Hn. rewrite tab_written.
    destruct ph as [| |id v [ok|]|id v ok v'|]; [done..| |done| |done];
      destruct Hok as (t' & Hx' & Ho & Hl & Hok); assert (t' = t) as -> by congruence.
    + assert (Hv : tab (view t (server st)) !! id = Some v).
      { rewrite tab_view, Ho, (left_id_L ∅ (∪)), <- (rp_rows _ _ (iv_rep _ _ Hi)), Hok. done. }
      destruct (Hf (began t) (view t (server st)) a db' Hv Es) as (v' & -> & Hse & _). rewrite changed_insert.
      2: { rewrite Hv. intros [= Heq]. by eapply settles_changes. }
      rewrite dom_singleton_L. apply set_eq. intros id'. split; [|set_solver].
      intros [->%elem_of_singleton (j & Hj & Hlj)%elem_locked_others]%elem_of_intersection.
      apply (rp_holds _ _ (iv_rep _ _ Hi)) in Hlj as (? & ? & ?). congruence.
    + destruct (Hf _ _ _ _ Es) as [-> _]. rewrite changed_refl. set_solver.
  - unfold commit, in_transaction. destruct (sv_txs _ !! i); eauto.
Qed.

Lemma someone_moves st m i A (c : call A) k f :
  inv st m -> threads st !! i = Some (Running (Call c k)) ->
  is_Some (exec i f c (server st)) \/
  exists j B (d : call B) k', j <> i /\ threads st !! j = Some (Running (Call d k')) /\
    forall f, is_Some (exec j f d (server st)).
Proof.
  intros Hi Ht. destruct (call_moves st m i A c k f Hi Ht) as [H|(_ & _ & j & id & Hj & Hl)]; [by left|right].
  destruct (sv_txs (server st) !! j) as [t|] eqn:E; [|unfold locks_of in Hl; rewrite E in Hl; set_solver].
  destruct (iv_txs _ _ Hi _ _ E) as [[r|B d k'] Hp].
  { destruct (iv_threads _ _ Hi _ _ Hp) as (ph & -> & Hok). simpl in Hok. congruence. }
  exists j, B, d, k'. split_and!; [done..|]. intros f'.
  destruct (call_moves st m j B d k' f' Hi Hp) as [|(Hn & _)]; [done|set_solver].
Qed.

(** Every locking query of a program skips what is locked. *)
Fixpoint patient (p : prog X) : Prop :=
  match p with
  | Ret _ => True
  | Call c k => skips_locked c /\ forall r, patient (k r)
  end.

(** Steps of the system in which the program of [i] makes [n] calls *)
Inductive progress (i : nat) (st : Sys) : nat -> Sys -> Prop :=
| progress_start : progress i st 0 st
| progress_others n st1 st2 :
    progress i st n st1 -> step st1 st2 -> threads st2 !! i = threads st1 !! i -> progress i st n st2
| progress_call n st1 f A (c : call A) k r s' ms :
    progress i st n st1 -> threads st1 !! i = Some (Running (Call c k)) -> exec i f c (server st1) = Some (r, s', ms) ->
    progress i st (S n) (mkSys s' (<[i := Running (k r)]> (threads st1)) (trace st1 ++ ms)).

Lemma progress_within i st n st' N p :
  threads st !! i = Some (Running p) -> within N p -> progress i st n st' ->
  (n <= N)%nat /\ exists p', threads st' !! i = Some (Running p') /\ within (N - n) p'.
Proof.
  intros Ht Hw Hp. induction Hp as [|n st1 st2 Hp (Hn & p' & Hp' & Hw') Hs He|n st1 f A c k r s' ms Hp (Hn & p' & Hp' & Hw') Hc Hx].
  - split; [lia|]. exists p. by rewrite Nat.sub_0_r.
  - split; [done|]. exists p'. by rewrite He.
  - rewrite Hc in Hp'. simplify_eq. destruct (N - n)%nat as [|d] eqn:E; [done|]. split; [lia|].
    exists (k r). split; [apply lookup_insert_eq|]. replace (N - S n)%nat with d by lia. apply Hw'.
Qed.

Lemma progress_reachable st0 i st n st' : reachable st0 st -> progress i st n st' -> reachable st0 st'.
Proof.
  intros Hr Hp. induction Hp as [|n st1 st2 Hp IH Hs He|n st1 f A c k r s' ms Hp IH Hc Hx]; [done|..];
    (eapply reach_step; [done|]); [done|by eapply step_call].
Qed.

Lemma patient_moves st m i A (c : call A) k f :
  inv st m -> threads st !! i = Some (Running (Call c k)) -> patient (Call c k) -> is_Some (exec i f c (server st)).
Proof. intros Hi Ht [Hs _]. by destruct (call_moves st m i A c k f Hi Ht) as [|(_ & ? & _)]. Qed.

(** ** What the systems of programs have in common *)

Section Consequences.
Context (starts_follow : forall p, starts p -> follows Out p).
Context (db : DB) (seq now : Z) (broker : list Msg) (st : Sys).
Context (Hkeys : forall id, is_Some (tab db !! id) -> key_ok id) (Hst : reachable (initial db seq now broker) st).

Lemma abstract_free id v h : abstract db !! id = Some (mkARow v h) -> h = None /\ tab db !! id = Some v.
Proof. unfold abstract. rewrite lookup_fmap. by destruct (tab db !! id); intros; simplify_eq/=. Qed.

Lemma rows_refine :
  (exists m, spec_run (trace st) (abstract db) = Some m /\ represents m (server st)) /\
  (forall i j id, id ∈ locks_of (server st) i -> id ∈ locks_of (server st) j -> i = j) /\
  (forall id v, tab (sv_db (server st)) !! id = Some v -> is_open v = false ->
     (forall v0, tab db !! id = Some v0 -> is_open v0 = true) ->
     exists msg, msg_row msg = id /\ msg ∈ sv_broker (server st)).
Proof using starts_follow Hkeys Hst.
  destruct (locked_rows_refine starts_follow db seq now broker st Hkeys Hst) as (m & Hm & [Hr _ _ _]).
  split_and!; [eauto| |].
  - intros i j id (v & o & Hi)%(rp_holds _ _ Hr) (v' & o' & Hj)%(rp_holds _ _ Hr). congruence.
  - intros id v Hv Hc H0. pose proof (rp_rows _ _ Hr id) as Hrow. rewrite Hv in Hrow.
    destruct (m !! id) as [[v' h]|] eqn:E; simplify_eq/=.
    destruct (closed_was_handed (trace st) (abstract db) m id v h) as (i & msg & Hmsg & Hh); [|done..|].
    { intros w h' [-> ?]%abstract_free. split; [done|]. by apply H0. }
    exists msg. split; [done|]. by eapply handed_stored.
Qed.

(** The marks of a run say what is in the table. *)
Lemma marks_describe id : tab (sv_db (server st)) !! id = last_value id (trace st) (tab db !! id).
Proof using starts_follow Hkeys Hst.
  destruct (locked_rows_refine starts_follow db seq now broker st Hkeys Hst) as (m & Hm & [Hr _ _ _]).
  apply (spec_run_value _ _ _ id) in Hm. unfold abstract in Hm. rewrite lookup_fmap in Hm.
  pose proof (rp_rows _ _ Hr id) as Hrow. rewrite Hrow in *. rewrite Hm. by destruct (tab db !! id).
Qed.

Lemma closed_once i id v l1 l2 :
  trace st = l1 ++ Settled i id v :: l2 -> is_open v = false ->
  ((forall w, Reset id w ∉ l2) \/ forall v w, resets (Some v) w = false) ->
  (exists msg, msg_row msg = id /\ Handed i msg true ∈ l1 /\ msg ∈ sv_broker (server st)) /\
  tab (sv_db (server st)) !! id = Some v /\
  (forall j msg ok, Handed j msg ok ∈ l2 -> msg_row msg <> id) /\ (forall j w, Settled j id w ∉ l2).
Proof using starts_follow Hkeys Hst.
  intros Htr Hv Hres. destruct (locked_rows_refine starts_follow db seq now broker st Hkeys Hst) as (m & Hm & [Hr _ _ _]).
  rewrite Htr in Hm. apply spec_run_split in Hm as (m1 & a & Hm1 & Hx & Hm). simpl in Hx, Hm.
  destruct (m1 !! id) as [[v0 [[j [ok|]]|]]|] eqn:E; simplify_eq/=.
  case_match eqn:Eb; simplify_eq. apply andb_true_iff in Eb as [->%bool_decide_eq_true Hse].
  destruct ok; [|apply settles_false in Hse; congruence].
  split.
  { destruct (holder_handed l1 (abstract db) m1 id v0 i true) as (msg & Hmsg & Hin); [|done..|].
    { by intros w h [-> _]%abstract_free. }
    exists msg. split_and!; [done..|]. eapply (handed_stored _ _ _ _ _ i); [done|]. rewrite Htr. set_solver. }
  destruct (closed_stays l2 _ m id v None (lookup_insert_eq m1 _ _)) as ((h & Hmi & _) & Hh & Hs); [done..| |].
  { destruct Hres as [Hres|Hres]; [done|]. eapply no_reset; [done|apply lookup_insert_eq|done]. }
  split; [|done]. pose proof (rp_rows _ _ Hr id) as Hrow. by rewrite Hmi in Hrow.
Qed.
End Consequences.

(** ** Schedules, executed *)

Inductive action :=
| Invoke (i : nat) (p : prog X)
| Do (i : nat) (f : fault)
| Return (i : nat)
| Kill (i : nat).

(** [None] when an action is not possible *)
Definition act (st : Sys) (x : action) : option Sys :=
  match x with
  | Invoke i p =>
      match threads st !! i with
      | None => Some (mkSys (server st) (<[i := Running p]> (threads st)) (trace st))
      | Some _ => None
      end
  | Do i f =>
      match threads st !! i with
      | Some (Running (Call c k)) =>
          '(r, s', ms) ← exec i f c (server st);
          Some (mkSys s' (<[i := Running (k r)]> (threads st)) (trace st ++ ms))
      | _ => None
      end
  | Return i =>
      match threads st !! i with
      | Some (Running (Ret r)) => Some (mkSys (server st) (<[i := Returned r]> (threads st)) (trace st))
      | _ => None
      end
  | Kill i =>
      match threads st !! i with
      | Some (Running _) =>
          Some (mkSys (close i (server st)) (delete i (threads st)) (trace st ++ free_marks i (server st)))
      | _ => None
      end
  end.

Definition schedule (l : list action) (st : Sys) : option Sys := foldl (fun o x => st ← o; act st x) (Some st) l.

Lemma scheduled_reachable l st0 st :
  (forall i p, Invoke i p ∈ l -> starts p) -> schedule l st0 = Some st -> reachable st0 st.
Proof.
  unfold schedule. revert st. induction l as [|x l IH] using rev_ind; intros st Hp.
  { intros [= <-]. constructor. }
  rewrite foldl_app. simpl. destruct (foldl _ _ l) as [st1|] eqn:E; [|done]. simpl. intros Ha.
  eapply reach_step; [apply IH; [|done]; set_solver|]. clear IH E.
  destruct x as [i p|i f|i|i]; simpl in Ha; destruct (threads st1 !! i) as [[[r|A c k]|r]|] eqn:Et; simplify_eq;
    try (by eapply step_kill).
  - apply step_invoke; [done|]. apply (Hp i). set_solver.
  - destruct (exec i f c (server st1)) as [[[r s'] ms]|] eqn:Ex; simplify_eq/=. by eapply step_call.
  - by apply step_return.
Qed.

End System.

End RowLocks.
