(* ===== verification/Publishers.v ===== *)
(** * Publishers: outbox publishers that overlap
    ([internal/outbox/publisher.go])

    [Outbox] runs a round of the publisher as one operation.  Here the round is a
    program of calls ([publish_prog], shown equal to [PublishNextOutboxEvent] when
    it runs alone), and any number of them overlap on one database and one broker,
    in several processes that may be killed: the row locks of [FOR UPDATE SKIP
    LOCKED] give every row at most one publisher at a time. *)

From S2P Require Import Prelude GoStrings GoErrors GoTime Json Database DatabaseFacts RedisServer World WorldFacts.
From S2P Require Import Simulation Operations Ingestion Samples Outbox RowLocks.
Import Operations Outbox RowLocks.

Module Publishers.

(** ** The life of an outbox row *)

#[export] Instance outbox_table : Table OutboxRow.
Proof. refine {| tab := outbox |}; reflexivity. Defined.

Definition row_pending (o : OutboxRow) : bool := String.eqb (ob_status o) "pending".

Definition row_settles (accepted : bool) (o o' : OutboxRow) : bool :=
  row_pending o && String.eqb (ob_event_id o') (ob_event_id o) && (ob_created_at o' =? ob_created_at o) &&
  if accepted then String.eqb (ob_status o') "published" && (ob_attempt_count o' =? ob_attempt_count o)
  else row_pending o' && (ob_attempt_count o' =? ob_attempt_count o + 1).

(** Ingestion adds rows; nobody else changes them. *)
Definition row_added (o : option OutboxRow) (o' : OutboxRow) : bool :=
  match o with None => row_pending o' && (ob_attempt_count o' =? 0) | Some _ => false end.

#[export] Instance outbox_life {PG : Postgres} : Lifecycle OutboxRow OutboxEvent.
Proof.
  refine {| is_open := row_pending; settles := row_settles; resets := row_added;
            key_ok := fun id => uuid_in id = Some id; msg_row := oe_OutboxID |}.
  - unfold row_settles, row_pending. intros [] o o' H ->; rewrite ?andb_true_iff, ?String.eqb_eq, ?Z.eqb_eq in H; [naive_solver congruence|lia].
  - unfold row_settles. intros o o'. rewrite !andb_true_iff. tauto.
  - unfold row_added. intros [?|] o'; rewrite ?andb_true_iff; naive_solver.
Defined.

(** ** A round as a program *)

Section Programs.
Context {SC : Strconv} {PG : Postgres}.
Abbreviation prog := (prog OutboxEvent unit).
#[local] Open Scope locks_scope.

Definition claim_prog : prog (option OutboxEvent) :=
  pwrap (wrapf "claim next pending outbox event")
    (invoke (Take (fun locked now db =>
       Ok (match selectNextPendingOutboxSQL locked now db with
           | None => (None, None)
           | Some ((oid, o), (eid, e)) =>
               (Some (mkOutboxEvent oid eid (ev_event_type e) (ev_source e) (ev_payload e)
                        (ev_created_at e * 1000) (ob_attempt_count o)), Some oid)
           end)))).

Definition mark_prog (outboxID : string) : prog unit :=
  let? affected := pwrap (wrapf ("mark outbox " +:+ outboxID +:+ " published"))
                     (invoke (Write (fun now db => markOutboxPublishedSQL now outboxID db))) in
  if negb (affected =? 1) then
    Ret (Err (ErrorString ("mark outbox " +:+ outboxID +:+ " published affected " +:+ Itoa affected +:+ " rows")))
  else Ret (Ok tt).

Definition reschedule_prog (outboxID : string) (delay : Z) (storedError : string) : prog unit :=
  let? affected := pwrap (wrapf ("reschedule outbox " +:+ outboxID +:+ " after publication failure"))
                     (invoke (Write (fun now db =>
                        rescheduleOutboxAfterFailureSQL now outboxID (Z.quot delay 1000) storedError db))) in
  if negb (affected =? 1) then
    Ret (Err (ErrorString ("reschedule outbox " +:+ outboxID +:+ " affected " +:+ Itoa affected +:+ " rows")))
  else Ret (Ok tt).

Definition history_prog {Msg Ans} (eventID status : string) (details : option (list (string * json)))
    : RowLocks.prog Msg Ans unit :=
  pwrap (wrapf ("insert status " +:+ status +:+ " for event " +:+ eventID))
    (invoke (Write (fun now db =>
       res_bind (insertHistorySQL now eventID status (marshalDetails details) db)
                (fun db' => Ok (tt, db'))))).

(** After the broker's verdict *)
Definition settle_prog (baseBackoff maxBackoff : Z) (event : OutboxEvent) (published : res error unit)
    : prog PublishOutcome :=
  let result := mkResult true false (oe_OutboxID event) (oe_EventID event) in
  match published with
  | Err err =>
      let attemptNumber := wrap64 (oe_AttemptCount event + 1) in
      let delay := outboxBackoff baseBackoff maxBackoff attemptNumber in
      let? _ := reschedule_prog (oe_OutboxID event) delay (sanitizeOutboxError (Some err)) in
      let? _ := pwrap (wrapf ("commit outbox failure state for outbox " +:+
                              oe_OutboxID event +:+ " event " +:+ oe_EventID event)) (invoke Commit) in
      Ret (Ok (FailedPublish result
                 (wrap_suffix (": outbox " +:+ oe_OutboxID event +:+ " event " +:+
                               oe_EventID event +:+ " attempt " +:+ Itoa attemptNumber)
                    (Sentinel ErrOutboxPublishFailed))))
  | Ok _ =>
      let? _ := mark_prog (oe_OutboxID event) in
      let? _ := history_prog (oe_EventID event) StatusPublished None in
      let? _ := pwrap (wrapf ("commit published outbox " +:+ oe_OutboxID event +:+
                              " event " +:+ oe_EventID event)) (invoke Commit) in
      Ret (Ok (Done (mkResult true true (oe_OutboxID event) (oe_EventID event))))
  end.

Definition round_prog (baseBackoff maxBackoff : Z) : prog PublishOutcome :=
  let? claimed := claim_prog in
  match claimed with
  | None =>
      let? _ := pwrap (wrapf "rollback empty outbox transaction") (invoke Rollback) in
      Ret (Ok (Done emptyResult))
  | Some event =>
      let? published := pcatch (invoke (Send event)) in
      settle_prog baseBackoff maxBackoff event published
  end.

(** [valid] is the outcome of [validatePublishNextOutboxConfig]. *)
Definition publish_prog (valid : res error unit) (baseBackoff maxBackoff : Z) : prog PublishOutcome :=
  let? _ := Ret valid in
  let? _ := pwrap (wrapf "begin publish outbox transaction") (invoke Begin) in
  pdefer (round_prog baseBackoff maxBackoff).

(** ** Run alone, it is the code *)

Context {R : Type} (publish : PublishOutboxEventFunc (R:=R)).

Lemma claim_alone : same (alone publish claim_prog) claimNextOutboxEvent.
Proof.
  unfold claim_prog, claimNextOutboxEvent. alone_all. intros w. unfold wrap_err. simpl.
  erewrite tx_stmt_ext; [done|]. intros now db. simpl.
  by destruct (selectNextPendingOutboxSQL _ _ _) as [[[oid o] [eid e]]|].
Qed.

Lemma mark_prog_alone oid : same (alone publish (mark_prog oid)) (markOutboxPublished oid).
Proof.
  unfold mark_prog, markOutboxPublished. alone_all. apply gbind_same; [done|]. intros n. by destruct (negb _).
Qed.

Lemma reschedule_alone oid d e : same (alone publish (reschedule_prog oid d e)) (rescheduleOutboxAfterFailure oid d e).
Proof.
  unfold reschedule_prog, rescheduleOutboxAfterFailure. alone_all. apply gbind_same; [done|]. intros n. by destruct (negb _).
Qed.

Lemma history_alone {Msg Ans} (send : Msg -> World.M (R:=R) Ans) e st d :
  same (alone send (history_prog e st d)) (InsertStatusHistory e st d).
Proof. unfold history_prog. alone_all. reflexivity. Qed.
#[local] Opaque claim_prog mark_prog reschedule_prog history_prog.

Lemma round_alone base max : same (alone publish (round_prog base max)) (publish_round publish base max).
Proof.
  unfold round_prog, publish_round. alone_all. rewrite claim_alone. apply gbind_same; [done|]. intros [ev|].
  - alone_all. apply gbind_same; [done|]. intros [[]|err]; unfold settle_prog; alone_all.
    + rewrite mark_prog_alone. apply gbind_same; [done|]. intros _. rewrite history_alone. reflexivity.
    + rewrite reschedule_alone. reflexivity.
  - alone_all. reflexivity.
Qed.
#[local] Opaque round_prog.

#[local] Transparent claim_prog mark_prog reschedule_prog history_prog round_prog.
End Programs.

(** ** A round obeys the protocol of the row *)

Section Protocol.
Context {SC : Strconv} {PG : Postgres}.

Lemma mark_row now oid o db a db' :
  uuid_in oid = Some oid -> outbox db !! oid = Some o -> row_pending o = true ->
  markOutboxPublishedSQL now oid db = Ok (a, db') ->
  a = 1 /\ exists o', outbox db' = <[oid := o']> (outbox db) /\ row_settles true o o' = true.
Proof.
  intros Hu Ho Hp H. apply update_outbox_inv in H as (u & Hu' & [(-> & _ & ?)|(o1 & o' & -> & Ho1 & Hf & ->)]); simplify_eq.
  split; [done|]. eexists. split; [done|]. unfold row_settles. simpl. by rewrite Hp, String.eqb_refl, !Z.eqb_refl.
Qed.

Lemma reschedule_row now oid delay txt o db a db' :
  uuid_in oid = Some oid -> outbox db !! oid = Some o -> row_pending o = true ->
  rescheduleOutboxAfterFailureSQL now oid delay txt db = Ok (a, db') ->
  a = 1 /\ exists o', outbox db' = <[oid := o']> (outbox db) /\ row_settles false o o' = true.
Proof.
  intros Hu Ho Hp H. apply update_outbox_inv in H as (u & Hu' & [(-> & _ & ?)|(o1 & o' & -> & Ho1 & Hf & ->)]); simplify_eq.
  destruct (int32_ok _); simplify_eq. split; [done|]. eexists. split; [done|]. unfold row_settles. simpl.
  by rewrite Hp, String.eqb_refl, !Z.eqb_refl.
Qed.

Lemma settle_follows base max ev id o verdict ok :
  oe_OutboxID ev = id -> is_ok verdict = ok -> uuid_in id = Some id -> row_pending o = true ->
  follows (Holding id o (Some ok)) (pdefer (settle_prog base max ev verdict)).
Proof.
  intros <- <- Hu Hp. destruct verdict as [[]|err]; simpl; (split; [|done]); intros now db a db' Ho Hs.
  - destruct (mark_row _ _ _ _ _ _ Hu Ho Hp Hs) as (-> & o' & Hdb & Hse). exists o'. split_and!; [done..|]. simpl.
    split; [|done]. clear. intros now db a db' H. destruct (insertHistorySQL _ _ _ _ _) as [db1|] eqn:E; simplify_eq/=.
    apply insertHistory_inv in E as (u & j & _ & _ & _ & ->). split; [done|]. split_and!; [eauto 10|done..].
  - destruct (reschedule_row _ _ _ _ _ _ _ _ Hu Ho Hp Hs) as (-> & o' & Hdb & Hse). exists o'. split_and!; [done..|]. simpl.
    split_and!; [eauto 10|done..].
Qed.

#[local] Opaque settle_prog.
Lemma publish_follows valid base max : follows Out (publish_prog valid base max).
Proof.
  destruct valid as [[]|e]; [|done]. simpl. split_and!; try done.
  - intros locked now db a H. destruct (selectNextPendingOutboxSQL _ _ _) as [[[oid o] [eid e]]|]; simplify_eq/=.
    by intros [[]|].
  - intros locked now db a id Hk H.
    destruct (selectNextPendingOutboxSQL _ _ _) as [[[oid o] [eid e]]|] eqn:Es; simplify_eq/=.
    apply selectNextPending_Some in Es as (Ho & Hp & _). exists o. split; [done|].
    assert (Hpd : row_pending o = true) by (unfold row_pending; by rewrite Hp).
    eexists _, _. split_and!; [done..| |].
    + intros []. apply settle_follows; [done..|apply Hk; eauto|done].
    + intros err. apply settle_follows; [done..|apply Hk; eauto|done].
Qed.

#[local] Transparent settle_prog.

(** At most seven calls: begin, claim, publish, two statements, commit, and the
    deferred rollback *)
Lemma publish_within valid base max : within 7 (publish_prog valid base max).
Proof.
  destruct valid as [[]|e]; [|done]. simpl. intros [[]|e]; simpl; [|done].
  intros [[ev|]|e]; simpl; [|by intros [[]|e]|done]. intros [[]|e]; simpl; (intros [a|e']; simpl; [|done]);
    (destruct (negb (a =? 1)); simpl; [done|]).
  - intros [[]|e]; simpl; [|done]. by intros [[]|e].
  - by intros [[]|e'].
Qed.
End Protocol.

(** ** How often an event is handed over *)

Definition handed_for (id : string) (x : mark OutboxRow OutboxEvent) : bool :=
  match x with Handed _ ev _ => String.eqb (oe_OutboxID ev) id | _ => false end.
Definition freed_for (id : string) (x : mark OutboxRow OutboxEvent) : bool :=
  match x with Freed _ id' => String.eqb id' id | _ => false end.
Definition times (P : mark OutboxRow OutboxEvent -> bool) (l : list (mark OutboxRow OutboxEvent)) : Z :=
  Z.of_nat (length (List.filter P l)).

Definition published_times (o : OutboxRow) : Z := if row_pending o then 0 else 1.

(** What the rows a run starts with have behind them *)
Definition attempts_before (m : gmap string (arow OutboxRow)) (id : string) : Z :=
  default 0 ((fun a => ob_attempt_count (ar_row a) + published_times (ar_row a)) <$> m !! id).

Lemma times_snoc P l x : times P (l ++ [x]) = times P l + if P x then 1 else 0.
Proof. unfold times. rewrite List.filter_app, length_app. simpl. destruct (P x); simpl; lia. Qed.

Lemma times_none {PG : Postgres} l id :
  (forall x, x ∈ l -> row_of x <> id) -> times (handed_for id) l = 0.
Proof.
  intros Hall. induction l as [|x l IH]; [done|]. unfold times in *. simpl.
  assert (handed_for id x = false) as ->; [|apply IH; set_solver].
  destruct x; simpl; try done. apply String.eqb_neq. apply (Hall (Handed i m accepted)). set_solver.
Qed.

(** Every hand-over ends in an attempt that is counted, in the publication, or in a
    transaction that ends without a commit; the last may still be under way. *)
Lemma hand_overs_run {PG : Postgres} l m0 m id o h :
  (forall o h, m0 !! id = Some (mkARow o h) -> h = None) ->
  spec_run l m0 = Some m -> m !! id = Some (mkARow o h) ->
  times (handed_for id) l + attempts_before m0 id <=
  ob_attempt_count o + published_times o + times (freed_for id) l +
  match h with Some (_, Some _) => 1 | _ => 0 end.
Proof.
  intros H0. revert m o h. induction l as [|x l IH] using rev_ind; intros m o h Hl Hm.
  { unfold spec_run in Hl. simplify_eq/=. unfold attempts_before. rewrite Hm. simpl. rewrite (H0 _ _ Hm). unfold times. simpl. lia. }
  apply rows_run_snoc in Hl as (m1 & a & Hl & Hx & ->). rewrite !times_snoc.
  destruct (decide (row_of x = id)) as [<-|Hne].
  - rewrite lookup_insert_eq in Hm. simplify_eq. destruct (m1 !! row_of x) as [[o1 h1]|] eqn:E.
    + pose proof (IH _ _ _ Hl E) as Hi. clear IH. destruct x; destruct h1 as [[j [ok|]]|]; simpl in *; try done;
        repeat case_match; simplify_eq; rewrite ?String.eqb_refl in *; try done; try lia.
      apply andb_true_iff in H as [_ Hse]. unfold row_settles, published_times in *.
      rewrite !andb_true_iff, !Z.eqb_eq in Hse. destruct Hse as [[[Hp _] _] Hs]. rewrite Hp in Hi.
      destruct ok; [|apply andb_true_iff in Hs as [-> Ha]; lia]. apply andb_true_iff in Hs as [Hst Ha].
      unfold row_pending. apply String.eqb_eq in Hst. rewrite Hst. simpl. lia.
    + destruct x; simpl in *; try done. case_match eqn:Er; simplify_eq. apply andb_true_iff in Er as [Hp Ha].
      destruct (absent_row _ _ _ _ Hl E) as [Hn Hall]. unfold attempts_before. rewrite Hn. simpl.
      rewrite times_none by done. unfold published_times, times. rewrite Hp. lia.
  - rewrite lookup_insert_ne in Hm by done. pose proof (IH _ _ _ Hl Hm) as Hi.
    assert (handed_for id x = false /\ freed_for id x = false) as [-> ->]; [|lia].
    by destruct x; simpl in *; rewrite ?(proj2 (String.eqb_neq _ _) Hne).
Qed.

(** ** Publishers that overlap *)

Section Overlap.
Context {SC : Strconv} {PG : Postgres}.

Definition publisher (p : prog OutboxEvent unit PublishOutcome) : Prop :=
  exists valid base max, p = publish_prog valid base max.

Lemma publisher_follows p : publisher p -> follows Out p.
Proof. intros (valid & base & max & ->). apply publish_follows. Qed.

Lemma publish_patient valid base max : patient (publish_prog valid base max).
Proof.
  destruct valid as [[]|e]; [|done]. simpl. split; [done|]. intros [[]|e]; simpl; [|done]. split.
  { intros locked now db a id H. destruct (selectNextPendingOutboxSQL _ _ _) as [[[oid o] [eid e]]|] eqn:Es; simplify_eq/=.
    by apply selectNextPending_Some in Es as (_ & _ & _ & ? & _). }
  intros [[ev|]|e]; simpl; [|by split; [|intros [[]|e]]|done]. split; [done|].
  intros [[]|e]; simpl; (split; [done|]); (intros [a|e']; simpl; [|done]); (destruct (negb (a =? 1)); simpl; [done|]).
  - split; [done|]. intros [[]|e]; simpl; [|done]. split; [done|]. by intros [[]|e].
  - split; [done|]. by intros [[]|e'].
Qed.

Abbreviation reachable := (reachable (fun _ => tt) publisher).

(** A database, a broker and any number of publishers *)
Context (db : DB) (seq now : Z) (broker : list OutboxEvent) (st : @Sys OutboxRow OutboxEvent unit PublishOutcome).
Context (Hdb : schema_ok db) (Hst : reachable (initial db seq now broker) st).

Lemma outbox_keys : forall id, is_Some (tab db !! id) -> key_ok id.
Proof using Hdb. intros id [o Ho]. by eapply so_outbox_ids. Qed.

(** C4: any number of publishers on one database, in processes that may be killed,
    their calls in any order and with any faults and lost replies, refine a machine
    in which a row has at most one holder, only the holder of a pending row hands
    its event to the broker, and only then changes the row: to published if the
    broker has accepted it, otherwise to one more attempt.  No two publishers hold
    the same row, and the event of a row that has become published is with the
    broker. *)
Theorem publishers_refine :
  (exists m, spec_run (trace st) (abstract db) = Some m /\ represents m (server st)) /\
  (forall i j id, id ∈ locks_of (server st) i -> id ∈ locks_of (server st) j -> i = j) /\
  (forall id o, outbox (sv_db (server st)) !! id = Some o -> row_pending o = false ->
     (forall o0, outbox db !! id = Some o0 -> row_pending o0 = true) ->
     exists ev, oe_OutboxID ev = id /\ ev ∈ sv_broker (server st)).
Proof using Hdb Hst. exact (rows_refine _ _ publisher_follows _ _ _ _ _ outbox_keys Hst). Qed.

(** C5: a row is published once.  When a publisher has committed a row that is no
    longer pending, the row is published, that publisher had handed its event over
    and the broker has it; from then on the row stays as it is, and no publisher
    hands its event over again. *)
Theorem published_once i id o l1 l2 :
  trace st = l1 ++ Settled i id o :: l2 -> row_pending o = false ->
  ob_status o = "published" /\
  (exists ev, oe_OutboxID ev = id /\ Handed i ev true ∈ l1 /\ ev ∈ sv_broker (server st)) /\
  outbox (sv_db (server st)) !! id = Some o /\
  (forall j ev ok, Handed j ev ok ∈ l2 -> oe_OutboxID ev <> id) /\ (forall j o', Settled j id o' ∉ l2).
Proof using Hdb Hst.
  intros Htr Ho. split; [|by apply (closed_once _ _ publisher_follows _ _ _ _ _ outbox_keys Hst _ _ _ _ _ Htr); [|right]].
  destruct (rows_refine _ _ publisher_follows _ _ _ _ _ outbox_keys Hst) as ((m & Hm & _) & _). rewrite Htr in Hm.
  apply settled_by_rules in Hm as (ok & o0 & Hs). simpl in Hs. unfold row_settles in Hs. rewrite Ho in Hs.
  destruct ok; rewrite !andb_true_iff, ?String.eqb_eq in Hs; [tauto|naive_solver].
Qed.

(** C6: duplicates are bounded.  The event of a row is handed to the broker at most once
    for every attempt the row counts, once for its publication, and once for every
    publisher that ended without a commit (a failed call or a killed process); one
    more may be under way. *)
Theorem hand_overs_bounded id o :
  outbox (sv_db (server st)) !! id = Some o ->
  let ended := ob_attempt_count o + published_times o + times (freed_for id) (trace st) in
  let handed := attempts_before (abstract db) id + times (handed_for id) (trace st) in
  handed <= ended + 1 /\ ((forall i, id ∉ locks_of (server st) i) -> handed <= ended).
Proof using Hdb Hst.
  intros Ho ended handed.
  destruct (locked_rows_refine _ _ publisher_follows _ _ _ _ _ outbox_keys Hst) as (m & Hm & [Hr _ _ _]).
  pose proof (rp_rows _ _ Hr id) as Hrow. simpl in Hrow. rewrite Ho in Hrow.
  destruct (m !! id) as [[o' h]|] eqn:E; simplify_eq/=.
  pose proof (hand_overs_run _ _ _ _ _ _ (fun w g Hw => proj1 (abstract_free db id w g Hw)) Hm E) as Hb.
  split; [destruct h as [[? [?|]]|]; lia|]. intros Hfree.
  destruct h as [[i q]|]; [|lia]. destruct (Hfree i). apply (rp_holds _ _ Hr). eauto.
Qed.

(** C7: no publisher waits for another.  Whatever the other publishers do in between, a
    round makes at most seven calls, every one of them can be made at once, and
    after the seventh it has its result. *)
Theorem publishers_wait_free i valid base max n st' :
  threads st !! i = Some (Running (publish_prog valid base max)) ->
  progress (fun _ => tt) publisher i st n st' ->
  (n <= 7)%nat /\
  exists p, threads st' !! i = Some (Running p) /\
    match p with
    | Ret _ => True
    | Call c k => (n < 7)%nat /\ forall f, is_Some (exec (fun _ => tt) i f c (server st'))
    end.
Proof using Hdb Hst.
  intros Ht Hp. destruct (progress_within _ _ _ _ _ _ 7 _ Ht (publish_within _ _ _) Hp) as (Hn & p & Hp' & Hw).
  split; [done|]. exists p. split; [done|]. destruct p as [r|A c k]; [done|]. split.
  { destruct (7 - n)%nat eqn:E; [done|lia]. }
  intros f. assert (Hr : reachable (initial db seq now broker) st') by (by eapply progress_reachable).
  eapply locked_rows_refine in Hr as Hi; [|apply publisher_follows|apply outbox_keys].
  destruct Hi as (m & _ & Hi). eapply patient_moves; [done..|].
  eapply (hereditary _ _ patient); [| |exact Hr|exact Hp'].
  - intros ? (? & ? & ? & ->). apply publish_patient.
  - intros B d k' r [_ H]. apply H.
Qed.
End Overlap.

(** ** A run *)

Definition sample_round : prog OutboxEvent unit PublishOutcome := publish_prog (Ok tt) Second (300 * Second).

Definition sample_start : @Sys OutboxRow OutboxEvent unit PublishOutcome := initial stored_twice_db 4 5000000000 [].

(** Two publishers claim the two rows; the broker refuses the second event, and the
    publisher of the first is the last to commit.  A third finds nothing to do. *)
Definition sample_schedule : list (action (Msg:=OutboxEvent) (Ans:=unit) (X:=PublishOutcome)) :=
  [Invoke 0 sample_round; Invoke 1 sample_round; Do 0 NoFault; Do 1 NoFault; Do 0 NoFault; Do 1 NoFault;
   Do 0 NoFault; Do 1 (FailBefore "connection refused"); Do 0 NoFault; Do 1 NoFault; Do 0 NoFault; Do 1 NoFault;
   Do 0 NoFault; Invoke 2 sample_round; Do 2 NoFault; Do 2 NoFault].

Definition run_of (l : list (action (Msg:=OutboxEvent) (Ans:=unit) (X:=PublishOutcome))) :=
  default sample_start (schedule (fun _ => tt) l sample_start).

Definition published_row : OutboxRow := mkOutboxRow stored_id "published" 0 0 (Some 5000000) None 0 5000000.

Definition starts_round (x : action (Msg:=OutboxEvent) (Ans:=unit) (X:=PublishOutcome)) : Prop :=
  match x with Invoke _ p => p = sample_round | _ => True end.

Lemma rounds_reachable l n :
  Forall starts_round l -> reachable (fun _ => tt) publisher sample_start (run_of (take n l)).
Proof.
  intros Hl. unfold run_of. destruct (schedule _ _ sample_start) as [st|] eqn:E; [|constructor].
  eapply scheduled_reachable; [|done]. intros i p Hin. exists (Ok tt), Second, (300 * Second).
  exact (proj1 (Forall_forall _ _) (Forall_take _ n _ Hl) _ Hin).
Qed.

Lemma sample_rounds : Forall starts_round sample_schedule.
Proof. repeat constructor. Qed.

Lemma publishers_refine_witness :
  outbox (sv_db (server (run_of sample_schedule))) !! stored_outbox_id = Some published_row /\
  exists ev, oe_OutboxID ev = stored_outbox_id /\ ev ∈ sv_broker (server (run_of sample_schedule)).
Proof.
  assert (Ho : outbox (sv_db (server (run_of sample_schedule))) !! stored_outbox_id = Some published_row)
    by (vm_compute; reflexivity).
  split; [exact Ho|].
  destruct (publishers_refine stored_twice_db 4 5000000000 [] (run_of sample_schedule)) as (_ & _ & H).
  - apply stored_twice_db_ok.
  - exact (rounds_reachable sample_schedule 16 sample_rounds).
  - apply (H stored_outbox_id published_row Ho); [reflexivity|]. intros o0. vm_compute. by intros [= <-].
Defined.

(** The row is committed before the third publisher looks. *)
Lemma published_once_witness : exists l1 l2,
  trace (run_of sample_schedule) = l1 ++ Settled 0 stored_outbox_id published_row :: l2 /\
  (forall j ev ok, Handed j ev ok ∈ l2 -> oe_OutboxID ev <> stored_outbox_id).
Proof.
  exists (take 5 (trace (run_of sample_schedule))), (drop 6 (trace (run_of sample_schedule))).
  assert (Ht : trace (run_of sample_schedule) =
    take 5 (trace (run_of sample_schedule)) ++ Settled 0 stored_outbox_id published_row ::
    drop 6 (trace (run_of sample_schedule))) by (vm_compute; reflexivity).
  split; [exact Ht|].
  apply (published_once stored_twice_db 4 5000000000 [] (run_of sample_schedule) stored_twice_db_ok
    (rounds_reachable sample_schedule 16 sample_rounds) _ _ _ _ _ Ht). reflexivity.
Defined.

(** A publisher that has just started while another holds a row *)
Lemma publishers_wait_free_witness :
  let st := run_of (take 3 sample_schedule) in
  threads st !! 1%nat = Some (Running sample_round) /\
  exists p, threads st !! 1%nat = Some (Running p) /\
    match p with
    | Ret _ => True
    | Call c k => (0 < 7)%nat /\ forall f, is_Some (exec (fun _ => tt) 1 f c (server st))
    end.
Proof.
  intros st. split; [reflexivity|].
  apply (publishers_wait_free stored_twice_db 4 5000000000 [] st stored_twice_db_ok
    (rounds_reachable sample_schedule 3 sample_rounds) 1 (Ok tt) Second (300 * Second) 0 st);
    [reflexivity|constructor].
Defined.

(** A publisher is killed after it has handed the event over; the next one hands it
    over again and commits. *)
Definition killed_schedule : list (action (Msg:=OutboxEvent) (Ans:=unit) (X:=PublishOutcome)) :=
  [Invoke 0 sample_round; Do 0 NoFault; Do 0 NoFault; Do 0 NoFault; Kill 0;
   Invoke 1 sample_round; Do 1 NoFault; Do 1 NoFault; Do 1 NoFault; Do 1 NoFault; Do 1 NoFault; Do 1 NoFault].

Lemma hand_overs_bounded_witness :
  let st := run_of killed_schedule in
  outbox (sv_db (server st)) !! stored_outbox_id = Some published_row /\
  times (handed_for stored_outbox_id) (trace st) = 2 /\ times (freed_for stored_outbox_id) (trace st) = 1 /\
  attempts_before (abstract stored_twice_db) stored_outbox_id + times (handed_for stored_outbox_id) (trace st) <=
  ob_attempt_count published_row + published_times published_row + times (freed_for stored_outbox_id) (trace st) + 1.
Proof.
  intros st. assert (Ho : outbox (sv_db (server st)) !! stored_outbox_id = Some published_row) by (vm_compute; reflexivity).
  split; [exact Ho|]. split; [vm_compute; reflexivity|]. split; [vm_compute; reflexivity|].
  refine (proj1 (hand_overs_bounded stored_twice_db 4 5000000000 [] st stored_twice_db_ok
    (rounds_reachable killed_schedule 12 _) stored_outbox_id published_row Ho)).
  repeat constructor.
Defined.

End Publishers.
