(* ===== verification/Redrives.v ===== *)
(** * Redrives: redrives of dead letters that overlap
    ([RedriveDLQ] of [internal/operations/store.go])

    [Operations] runs a redrive as one operation.  Here it is a program of calls
    ([redrive_prog], shown equal to [RedriveDLQ] when it runs alone); any number of
    them overlap, for the same record or others, while the delivery worker writes
    dead letters.  [SELECT ... FOR UPDATE] makes the second redrive of a record wait
    for the first. *)

From S2P Require Import Prelude GoStrings GoErrors Json Database DatabaseFacts RedisServer World WorldFacts.
From S2P Require Import Simulation Operations Ingestion Samples RowLocks Publishers.
Import Operations RowLocks.
Import Publishers(history_prog, history_alone).

Module Redrives.

(** ** The life of a dead letter *)

#[export] Instance dlq_table : Table DlqRow.
Proof. refine {| tab := dlq_records |}; reflexivity. Defined.

Definition letter_open (d : DlqRow) : bool := String.eqb (dq_status d) DLQStatusOpen.

Definition letter_settles (accepted : bool) (d d' : DlqRow) : bool :=
  accepted && letter_open d && String.eqb (dq_status d') DLQStatusRedriven &&
  String.eqb (dq_original_stream_id d') (dq_original_stream_id d) && (dq_attempt_count d' =? dq_attempt_count d) &&
  bool_decide (dq_last_error d' = dq_last_error d) && (dq_dead_lettered_at d' =? dq_dead_lettered_at d) &&
  bool_decide (is_Some (dq_redriven_at d')).

(** The worker writes a dead letter, over an older one or not. *)
Definition letter_written (_ : option DlqRow) (d : DlqRow) : bool := letter_open d.

#[export] Instance dlq_life {PG : Postgres} : Lifecycle DlqRow fields.
Proof.
  refine {| is_open := letter_open; settles := letter_settles; resets := letter_written;
            key_ok := fun id => uuid_in id = Some id; msg_row := fun m => default "" (m !! "event_id") |}.
  - intros ok d d' H ->. unfold letter_settles, letter_open in H. rewrite !andb_true_iff, !String.eqb_eq in H.
    destruct H as (((((([_ H1] & H2) & _) & _) & _) & _) & _). rewrite H1 in H2. done.
  - done.
  - done.
Defined.

(** ** A redrive as a program *)

Section Programs.
Context {SC : Strconv} {PG : Postgres}.
Abbreviation prog := (prog fields string).
#[local] Open Scope locks_scope.

(** [FOR UPDATE] locks the row if there is one. *)
Definition lock_prog (eventID : string) : prog (option string) :=
  pwrap (wrapf ("lock DLQ record for event " +:+ eventID))
    (invoke (Take (fun _ _ db =>
       res_bind (selectDlqStatusSQL eventID db) (fun status =>
         Ok (status, match status with Some _ => uuid_in eventID | None => None end))))).

Definition fetch_prog (eventID : string) : prog EventMetadata :=
  let? r := pcatch (invoke (Read (A:=option (string * EventRow)) (fun db =>
              res_bind (cast_uuid eventID) (fun u => Ok (pair u <$> events db !! u))))) in
  match r with
  | Ok (Some (id, row)) =>
      Ret (Ok (mkEventMetadata id (ev_event_type row) (ev_source row) (ev_payload row) (ev_created_at row * 1000)))
  | Ok None => Ret (Err (Sentinel ErrEventNotFound))
  | Err e => Ret (Err (wrapf ("fetch event " +:+ eventID) e))
  end.

Definition mark_prog (eventID streamID : string) : prog RedriveResult :=
  let? affected := pwrap (wrapf ("mark DLQ record redriven for event " +:+ eventID))
                     (invoke (Write (fun now db => updateDlqStatusSQL now eventID DLQStatusRedriven db))) in
  if negb (affected =? 1) then
    Ret (Err (ErrorString ("mark DLQ record redriven for event " +:+ eventID +:+
                           " affected " +:+ Itoa affected +:+ " rows")))
  else
  let? _ := history_prog eventID StatusRedriven (Some [("stream_id", JStr streamID)]) in
  let? _ := pwrap (wrapf ("commit redrive event " +:+ eventID)) (invoke Commit) in
  Ret (Ok (mkRedriveResult eventID DLQStatusRedriven streamID)).

Definition send_prog (eventID : string) : prog RedriveResult :=
  let? event := fetch_prog eventID in
  let? streamID := pwrap (wrapf ("publish redrive event " +:+ eventID)) (invoke (Send (redrive_values event))) in
  mark_prog eventID streamID.

Definition body_prog (eventID : string) : prog RedriveResult :=
  let? dlqStatus := lock_prog eventID in
  match dlqStatus with
  | None => Ret (Err (Sentinel ErrDLQNotFound))
  | Some dlqStatus =>
      if negb (String.eqb dlqStatus DLQStatusOpen) then Ret (Err (Sentinel ErrDLQNotOpen))
      else send_prog eventID
  end.

Definition redrive_prog (s : option Store) (eventID : string) : prog RedriveResult :=
  match s with
  | Some {| pool := Some _ |} =>
      let? _ := pwrap (wrapf "begin redrive transaction") (invoke Begin) in
      pdefer (body_prog eventID)
  | _ => Ret (Err (ErrorString "operations store pool is required"))
  end.

(** ** Run alone, it is the code *)

Context {R : Type} (publish : fields -> M (R:=R) string).

Lemma lock_alone e :
  same (alone publish (lock_prog e))
    (wrap_err (wrapf ("lock DLQ record for event " +:+ e)) (run_query OnTx (selectDlqStatusSQL e))).
Proof.
  unfold lock_prog. alone_all. intros w. unfold wrap_err, run_query. simpl.
  erewrite tx_stmt_ext; [done|]. intros now db. simpl. by destruct (selectDlqStatusSQL e db).
Qed.

Lemma fetch_alone e : same (alone publish (fetch_prog e)) (fetchEvent OnTx e).
Proof.
  unfold fetch_prog, fetchEvent. alone_all. apply gbind_same; [done|]. by intros [[[id row]|]|err].
Qed.

#[local] Opaque history_prog.
Lemma redriven_mark_alone e sid : same (alone publish (mark_prog e sid)) (redrive_mark e sid).
Proof.
  unfold mark_prog, redrive_mark. alone_all. apply gbind_same; [done|]. intros n. destruct (negb _); [done|].
  alone_all. rewrite history_alone. reflexivity.
Qed.
#[local] Opaque lock_prog fetch_prog mark_prog.

Lemma send_alone e :
  same (alone publish (send_prog e)) (
    let! event := fetchEvent OnTx e in
    let! streamID := wrap_err (wrapf ("publish redrive event " +:+ e)) (publish (redrive_values event)) in
    redrive_mark e streamID).
Proof. unfold send_prog. alone_all. rewrite fetch_alone. setoid_rewrite redriven_mark_alone. reflexivity. Qed.
#[local] Opaque send_prog.

(** The program of calls is the code.  Run alone, in every world and under every
    fault, it does what [RedriveDLQ] does. *)
Theorem redrive_prog_alone s e (w : World R) :
  alone publish (redrive_prog s e) w = RedriveDLQ s e (Some publish) w.
Proof.
  revert w. change (same (alone publish (redrive_prog s e)) (RedriveDLQ s e (Some publish))).
  unfold redrive_prog, RedriveDLQ, require_pool. destruct s as [[[p|]]|]; [|done..].
  alone_all. apply gbind_same; [done|]. intros _. apply rollback_same. unfold body_prog. alone_all.
  rewrite lock_alone. apply gbind_same; [done|]. intros [st|]; [|done]. destruct (negb _); [done|]. apply send_alone.
Qed.
#[local] Transparent lock_prog fetch_prog mark_prog send_prog history_prog.
End Programs.

(** ** A redrive obeys the protocol of the row *)

Section Protocol.
Context {SC : Strconv} {PG : Postgres}.

Lemma redriven_row now e u d db a db' :
  uuid_in e = Some u -> dlq_records db !! u = Some d -> letter_open d = true ->
  updateDlqStatusSQL now e DLQStatusRedriven db = Ok (a, db') ->
  a = 1 /\ exists d', dlq_records db' = <[u := d']> (dlq_records db) /\ letter_settles true d d' = true.
Proof.
  intros Hu Hd Ho H. unfold updateDlqStatusSQL in H. rewrite Hu, Hd in H. simplify_eq/=.
  split; [done|]. eexists. split; [done|]. unfold letter_settles. rewrite Ho. simpl.
  by rewrite String.eqb_refl, !Z.eqb_refl, !bool_decide_eq_true_2 by (done || eauto).
Qed.

Lemma mark_follows e u d sid :
  uuid_in e = Some u -> letter_open d = true -> follows (Holding u d (Some true)) (pdefer (mark_prog e sid)).
Proof.
  intros Hu Ho. simpl. split; [|done]. intros now db a db' Hd Hs.
  destruct (redriven_row _ _ _ _ _ _ _ Hu Hd Ho Hs) as (-> & d' & Hdb & Hse). exists d'. split_and!; [done..|]. simpl.
  split; [|done]. clear. intros now db a db' H. destruct (insertHistorySQL _ _ _ _ _) as [db1|] eqn:E; simplify_eq/=.
  apply insertHistory_inv in E as (u' & j & _ & _ & _ & ->). split; [done|]. split_and!; [eauto 10|done..].
Qed.
#[local] Opaque mark_prog.

(** The message carries the id of the event. *)
Lemma redrive_event_id ev : redrive_values ev !! "event_id" = Some (EventID ev).
Proof. reflexivity. Qed.

Lemma send_follows e u d :
  uuid_in e = Some u -> letter_open d = true -> follows (Holding u d None) (pdefer (send_prog e)).
Proof.
  intros Hu Ho. unfold send_prog, fetch_prog. simpl. split_and!; [done| |done]. intros db a.
  unfold cast_uuid. rewrite Hu. simpl. intros H. simplify_eq. destruct (events db !! u) as [row|]; simpl; [|done].
  exists u, d. split_and!; [done| |done| |done].
  - by rewrite redrive_event_id.
  - intros sid. by apply mark_follows.
Qed.
#[local] Opaque send_prog.

Lemma redrive_follows s e : follows Out (redrive_prog s e).
Proof.
  unfold redrive_prog. destruct s as [[[p|]]|]; [|done..]. simpl. split_and!; try done.
  - intros locked now db a H. unfold selectDlqStatusSQL in H. destruct (uuid_in e) as [u|]; [|done]. simpl in H.
    destruct (dlq_records db !! u); by simplify_eq/=.
  - intros locked now db a id _ H. unfold selectDlqStatusSQL in H. destruct (uuid_in e) as [u|] eqn:Hu; [|done]. simpl in H.
    destruct (dlq_records db !! u) as [d|] eqn:Hd; simplify_eq/=. exists d. split; [done|].
    destruct (String.eqb (dq_status d) DLQStatusOpen) eqn:Ho; [|done]. simpl. by apply send_follows.
Qed.
#[local] Transparent mark_prog send_prog.

(** At most eight calls: begin, lock, read, publish, two statements, commit, and
    the deferred rollback *)
Lemma redrive_within s e : within 8 (redrive_prog s e).
Proof.
  unfold redrive_prog. destruct s as [[[p|]]|]; [|done..]. simpl. intros [[]|er]; simpl; [|done].
  intros [[st|]|er]; simpl; [|done..]. destruct (negb _); simpl; [done|].
  intros [[[id row]|]|er]; simpl; [|done..]. intros [sid|er]; simpl; [|done].
  intros [a|er]; simpl; [|done]. destruct (negb (a =? 1)); simpl; [done|].
  intros [[]|er]; simpl; [|done]. by intros [[]|er].
Qed.
End Protocol.

(** ** Redrives that overlap *)

Section Overlap.
Context {SC : Strconv} {PG : Postgres} (answer : list fields -> string).

Definition redriver (p : prog fields string RedriveResult) : Prop := exists s e, p = redrive_prog s e.

Lemma redriver_follows p : redriver p -> follows Out p.
Proof. intros (s & e & ->). apply redrive_follows. Qed.

Abbreviation reachable := (reachable answer redriver).

(** A database, a broker and any number of redrives *)
Context (db : DB) (seq now : Z) (broker : list fields) (st : @Sys DlqRow fields string RedriveResult).
Context (Hdb : schema_ok db) (Hst : reachable (initial db seq now broker) st).

Lemma dlq_keys : forall id, is_Some (tab db !! id) -> key_ok id.
Proof using Hdb. intros id [d Hd]. destruct (so_dlq _ Hdb _ _ Hd). by eapply so_event_ids. Qed.

(** The dead letters under any number of redrives refine the machine of [RowLocks]:
    a record has one holder at a time, who sends its event only while it is OPEN. *)
Theorem redrives_refine :
  (exists m, spec_run (trace st) (abstract db) = Some m /\ represents m (server st)) /\
  (forall i j id, id ∈ locks_of (server st) i -> id ∈ locks_of (server st) j -> i = j) /\
  (forall id d, dlq_records (sv_db (server st)) !! id = Some d -> letter_open d = false ->
     (forall d0, dlq_records db !! id = Some d0 -> letter_open d0 = true) ->
     exists msg, default "" (msg !! "event_id") = id /\ msg ∈ sv_broker (server st)).
Proof using Hdb Hst. exact (rows_refine _ _ redriver_follows _ _ _ _ _ dlq_keys Hst). Qed.

Lemma letter_settles_inv d0 d :
  letter_settles true d0 d = true ->
  dq_status d0 = "OPEN" /\ dq_status d = "REDRIVEN" /\ dq_original_stream_id d = dq_original_stream_id d0 /\
  dq_attempt_count d = dq_attempt_count d0 /\ dq_last_error d = dq_last_error d0 /\
  dq_dead_lettered_at d = dq_dead_lettered_at d0 /\ is_Some (dq_redriven_at d).
Proof.
  unfold letter_settles, letter_open. rewrite !andb_true_iff, !String.eqb_eq, !Z.eqb_eq, !bool_decide_eq_true. tauto.
Qed.

(** C9: a dead letter is redriven once.  However many redrives of it overlap, when one
    has committed, the record as it was before ([d0]: what the last commit or the
    worker wrote, or what was there at the start) was OPEN and has become REDRIVEN
    with its time, the failure it records (stream id, attempts, error, time)
    unchanged; the event had been sent and the broker has it.  As long as the
    worker does not write a new dead letter for the event, the record stays
    as it is and no redrive sends the event again.  (The first line says that the
    marks of the trace are what happens to the table.) *)
Theorem redriven_once i id d l1 l2 :
  trace st = l1 ++ Settled i id d :: l2 -> (forall d', Reset id d' ∉ l2) ->
  (forall id', dlq_records (sv_db (server st)) !! id' = last_value id' (trace st) (dlq_records db !! id')) /\
  (exists d0, last_value id l1 (dlq_records db !! id) = Some d0 /\
     dq_status d0 = "OPEN" /\ dq_status d = "REDRIVEN" /\ dq_original_stream_id d = dq_original_stream_id d0 /\
     dq_attempt_count d = dq_attempt_count d0 /\ dq_last_error d = dq_last_error d0 /\
     dq_dead_lettered_at d = dq_dead_lettered_at d0 /\ is_Some (dq_redriven_at d)) /\
  (exists msg, default "" (msg !! "event_id") = id /\ Handed i msg true ∈ l1 /\ msg ∈ sv_broker (server st)) /\
  dlq_records (sv_db (server st)) !! id = Some d /\
  (forall j msg ok, Handed j msg ok ∈ l2 -> default "" (msg !! "event_id") <> id) /\
  (forall j d', Settled j id d' ∉ l2).
Proof using Hdb Hst.
  intros Htr Hre.
  assert (Hs : exists d0, last_value id l1 (dlq_records db !! id) = Some d0 /\ letter_settles true d0 d = true).
  { destruct redrives_refine as ((m & Hm & _) & _). rewrite Htr in Hm.
    apply settled_by_rules in Hm as ([] & d0 & Hv & Hd); [|done]. exists d0. split; [|done].
    rewrite <- Hv. unfold abstract. rewrite lookup_fmap. simpl. by destruct (dlq_records db !! id). }
  destruct Hs as (d0 & Hv & Hd). apply letter_settles_inv in Hd. split; [|split; [by exists d0|]].
  { apply (marks_describe _ _ redriver_follows _ _ _ _ _ dlq_keys Hst). }
  apply (closed_once _ _ redriver_follows _ _ _ _ _ dlq_keys Hst _ _ _ _ _ Htr); [|by left].
  simpl. unfold letter_open. destruct Hd as (_ & -> & _). done.
Qed.

(** Redrives never deadlock.  A redrive makes at most eight calls; in every
    reachable state its next call can be made, or it waits for a record that a
    redrive holds whose next call can be made, whatever becomes of that call. *)
Theorem redrives_progress i s e n st' :
  threads st !! i = Some (Running (redrive_prog s e)) -> progress answer redriver i st n st' ->
  (n <= 8)%nat /\
  exists p, threads st' !! i = Some (Running p) /\
    match p with
    | Ret _ => True
    | Call c k => (n < 8)%nat /\ forall f,
        is_Some (exec answer i f c (server st')) \/
        exists j B (d : call fields string B) k', j <> i /\ threads st' !! j = Some (Running (Call d k')) /\
          forall f, is_Some (exec answer j f d (server st'))
    end.
Proof using Hdb Hst.
  intros Ht Hp. destruct (progress_within _ _ _ _ _ _ 8 _ Ht (redrive_within _ _) Hp) as (Hn & p & Hp' & Hw).
  split; [done|]. exists p. split; [done|]. destruct p as [r|A c k]; [done|]. split.
  { destruct (8 - n)%nat eqn:E; [done|lia]. }
  intros f. assert (Hr : reachable (initial db seq now broker) st') by (by eapply progress_reachable).
  eapply locked_rows_refine in Hr as Hi; [|apply redriver_follows|apply dlq_keys].
  destruct Hi as (m & _ & Hi). by eapply someone_moves.
Qed.
End Overlap.

(** ** A run *)

Definition sample_redrive : prog fields string RedriveResult := redrive_prog the_store stored_id.
Definition sample_answer (_ : list fields) : string := "7-0".
Definition sample_start : @Sys DlqRow fields string RedriveResult := initial dead_db 5 9000000000 [].

(** Two redrives of one record: the second has begun when the first locks the
    record, and locks it after the first has committed. *)
Definition sample_schedule : list (action (Msg:=fields) (Ans:=string) (X:=RedriveResult)) :=
  [Invoke 0 sample_redrive; Invoke 1 sample_redrive; Do 0 NoFault; Do 1 NoFault; Do 0 NoFault;
   Do 0 NoFault; Do 0 NoFault; Do 0 NoFault; Do 0 NoFault; Do 0 NoFault; Do 1 NoFault; Do 1 NoFault; Return 1].

Definition run_of (l : list (action (Msg:=fields) (Ans:=string) (X:=RedriveResult))) :=
  default sample_start (schedule sample_answer l sample_start).

(** While the first holds the record, the second waits. *)
Example sample_waits : schedule sample_answer (take 5 sample_schedule ++ [Do 1 NoFault]) sample_start = None.
Proof. vm_compute. reflexivity. Qed.

Definition starts_redrive (x : action (Msg:=fields) (Ans:=string) (X:=RedriveResult)) : Prop :=
  match x with Invoke _ p => p = sample_redrive | _ => True end.

Lemma redrives_reachable n :
  reachable sample_answer redriver sample_start (run_of (take n sample_schedule)).
Proof.
  unfold run_of. destruct (schedule _ _ sample_start) as [st|] eqn:E; [|constructor].
  eapply scheduled_reachable; [|done]. intros i p Hin. exists the_store, stored_id.
  assert (Hl : Forall starts_redrive sample_schedule) by repeat constructor.
  exact (proj1 (Forall_forall _ _) (Forall_take _ n _ Hl) _ Hin).
Qed.

Definition redriven_letter : DlqRow :=
  mkDlqRow "1-0" 4 (Some "Service Unavailable") DLQStatusRedriven 3000 (Some 9000000) 9000000.

(** The second redrive is refused. *)
Lemma redriven_once_witness :
  let st := run_of (take 13 sample_schedule) in
  threads st !! 1%nat = Some (Returned (Err (Sentinel ErrDLQNotOpen))) /\
  dlq_records (sv_db (server st)) !! stored_id = Some redriven_letter.
Proof.
  intros st. split; [vm_compute; reflexivity|].
  destruct (redriven_once sample_answer dead_db 5 9000000000 [] st dead_db_ok (redrives_reachable 13) 0 stored_id redriven_letter
    (take 2 (trace st)) (drop 3 (trace st))) as (_ & _ & _ & Hd & _); [..|exact Hd].
  - symmetry. apply take_drop_middle. vm_compute. reflexivity.
  - intros d'. vm_compute. intros H. repeat (apply elem_of_cons in H as [?|H]; [done|]). by apply elem_of_nil in H.
Defined.

Lemma redrives_progress_witness :
  let st := run_of (take 2 sample_schedule) in
  threads st !! 1%nat = Some (Running sample_redrive) /\
  exists p, threads st !! 1%nat = Some (Running p) /\
    match p with
    | Ret _ => True
    | Call c k => (0 < 8)%nat /\ forall f,
        is_Some (exec sample_answer 1 f c (server st)) \/
        exists j B (d : call fields string B) k', j <> 1%nat /\ threads st !! j = Some (Running (Call d k')) /\
          forall f, is_Some (exec sample_answer j f d (server st))
    end.
Proof.
  intros st. split; [reflexivity|].
  apply (redrives_progress sample_answer dead_db 5 9000000000 [] st dead_db_ok (redrives_reachable 2) 1 the_store stored_id 0 st);
    [reflexivity|constructor].
Defined.

End Redrives.
