(* ===== verification/RedisStream.v ===== *)
(** * RedisStream: the broker publisher ([internal/broker/redisstream/publisher.go]) *)

From S2P Require Import Prelude GoStrings GoErrors GoTime Json Database DatabaseFacts RedisServer.
From S2P Require Import World WorldFacts RedisFacts Simulation Operations Samples Outbox.
Import Operations Outbox.

Module RedisStream.

(** [xaddClient] and [*Publisher]: nil is [None]. *)
Inductive Client := TheClient.
Record Publisher := mkPublisher { client : option Client; stream_name : string }.

Definition NewPublisher (client : option Client) (stream : string) : res error Publisher :=
  match client with
  | None => Err (ErrorString "redis stream publisher client is required")
  | Some c =>
      let normalizedStream := TrimSpace stream in
      if String.eqb normalizedStream ""
      then Err (ErrorString "redis stream publisher stream is required")
      else Ok (mkPublisher (Some c) normalizedStream)
  end.

(** The fields of the stream entry of an outbox event *)
Definition publish_values (event : OutboxEvent) : fields :=
  list_to_map [("outbox_id", oe_OutboxID event); ("event_id", oe_EventID event);
               ("event_type", oe_EventType event); ("source", oe_Source event);
               ("payload", oe_Payload event); ("retry", "0");
               ("created_at", rfc3339 (oe_CreatedAt event))].

Section Publish.
Context {PG : Postgres} {R : Type} `{RedisCmds R}.
Abbreviation M := (M (R:=R)).

Definition Publish (p : option Publisher) (event : OutboxEvent) : M unit :=
  match p with
  | None => gerr (ErrorString "redis stream publisher is nil")
  | Some p =>
      match client p with
      | None => gerr (ErrorString "redis stream publisher client is required")
      | Some _ =>
          if String.eqb (TrimSpace (stream_name p)) ""
          then gerr (ErrorString "redis stream publisher stream is required")
          else
          let context := "publish outbox " +:+ oe_OutboxID event +:+ " event " +:+ oe_EventID event
                         +:+ " to Redis stream " +:+ stream_name p in
          let! streamID := wrap_err (wrapf context)
                             (XAdd (stream_name p) (publish_values event)) in
          if String.eqb streamID ""
          then gerr (ErrorString (context +:+ " returned empty stream id"))
          else gret tt
      end
  end.

End Publish.

(** ** The publisher is the broker of the outbox *)

Section Broker.
Context {PG : Postgres} {R : Type} `{RedisCmds R, !RedisLaws R}.
Abbreviation M := (M (R:=R)).

(** The entry of the event was appended to the stream, by one or more of the sends
    of one command. *)
Definition appended (s : string) (ev : OutboxEvent) (r r' : R) : Prop :=
  exists id, added s (publish_values ev) r id r'.

(** The event ids of the entries of the stream *)
Definition stream_log (s : string) (r : R) (e : string) : Prop :=
  exists m, m ∈ stream r s /\ Values m !! "event_id" = Some e.

Lemma publish_values_nonempty ev : publish_values ev <> ∅.
Proof. apply insert_non_empty. Qed.

Lemma Publish_inv p ev w r w' :
  Publish (Some p) ev w = (r, w') ->
  redis_only w w' /\ (w_redis w' = w_redis w \/ appended (stream_name p) ev (w_redis w) (w_redis w')) /\
  (r = Ok tt -> appended (stream_name p) ev (w_redis w) (w_redis w')).
Proof.
  unfold Publish. destruct (client p) as [c|]; [destruct (String.eqb _ "")|]; cycle 1.
  2-3: unfold gerr; intros ?; simplify_eq; split_and!; auto; [reflexivity|done].
  intros Hp. unfold gbind, wrap_err in Hp. destruct (XAdd _ _ w) as [rx w1] eqn:Ex.
  apply XAdd_inv in Ex as (X1 & X2 & X3 & X4 & X5 & X6 & X7).
  assert (w' = w1) as -> by (destruct rx; simpl in Hp; repeat case_match; unfold gerr, gret in *; by simplify_eq).
  split; [by unfold redis_only|].
  destruct X7 as [(t & -> & X7)|(id & X7 & X8)]; simpl in Hp.
  - split; [by left|]. intros ->. by simplify_eq.
  - split; [right|intros _]; by exists id.
Qed.

#[global] Instance Publish_Broker p : Broker (Publish (Some p)) (appended (stream_name p)).
Proof.
  split.
  - intros ev w r w' Hp. by apply Publish_inv in Hp as (? & _).
  - intros ev w w' Hp. apply Publish_inv in Hp as (_ & _ & Hp). auto.
  - intros ev w r w' Hp. by apply Publish_inv in Hp as (_ & ? & _).
Qed.

#[global] Instance stream_BrokerLog s : BrokerLog (appended s) (stream_log s).
Proof.
  split.
  - intros ev r r' (id & Hx). exists (mkXMessage id (publish_values ev)). simpl. split; [|done]. by apply added_entry in Hx as (_ & _ & ? & _).
  - intros ev r r' e (id & Hx%added_grows) (m & Hm & He). exists m. split; [|done].
    destruct Hx as (Hx & _), (Hx s) as [k ->]. set_solver.
Qed.

(** A publisher that the constructor returned reaches Redis. *)
Lemma Publish_Reliable c s p : NewPublisher (Some c) s = Ok p -> ReliableBroker (Publish (Some p)).
Proof.
  unfold NewPublisher. destruct (String.eqb (TrimSpace s) "") eqn:Es; intros ?; simplify_eq.
  intros ev w He. destruct (xadd (w_now w / 1000000) (TrimSpace s) (publish_values ev) (w_redis w)) as [id r'] eqn:Ex.
  exists (with_redis r' w). split_and!; [|done..].
  simpl. rewrite TrimSpace_idemp, Es. cbv zeta.
  rewrite (gbind_ok _ _ _ _ _ (wrap_err_ok _ _ _ _ _ (XAdd_exec _ _ _ _ _ He (publish_values_nonempty ev) Ex))).
  destruct (String.eqb_spec id "") as [->|]; [|done]. by destruct (xadd_fresh _ _ _ _ _ _ Ex).
Qed.

End Broker.

(** ** Runs *)

Definition sample_publisher : Publisher := mkPublisher (Some TheClient) "events".

(** The commit of the round loses its reply. *)
Definition commit_lost : list reply :=
  [mkReply NoFault 1; mkReply NoFault 1; mkReply NoFault 1; mkReply NoFault 1; mkReply NoFault 1;
   mkReply (FailAfter "conn closed") 1].

Lemma publish_next_outcome_witness :
  let run := PublishNextOutboxEvent (Some ThePool) (Some (Publish (Some sample_publisher))) Second
               (60 * Second) (sim_world stored_db empty_redis 0 commit_lost []) in
  is_ok run.1 = false /\ w_tx run.2 = None.
Proof.
  split; [vm_compute; reflexivity|]. destruct (PublishNextOutboxEvent _ _ _ _ _) as [r w'] eqn:E.
  apply (publish_next_outcome _ _ (appended "events") _ _ (sim_world stored_db empty_redis 0 commit_lost [])
           _ _ eq_refl stored_db_ok) in E. tauto.
Defined.

Lemma publish_next_at_least_once_witness : exists o',
  outbox (w_db (PublishNextOutboxEvent (Some ThePool) (Some (Publish (Some sample_publisher))) Second
    (60 * Second) (sim_world stored_db empty_redis 0 commit_lost [])).2) !! stored_outbox_id = Some o' /\
  ob_status o' = "published" /\
  row_step (appended "events") empty_redis
    (w_redis (PublishNextOutboxEvent (Some ThePool) (Some (Publish (Some sample_publisher))) Second
      (60 * Second) (sim_world stored_db empty_redis 0 commit_lost [])).2) stored_outbox_id stored_row o'.
Proof.
  destruct (PublishNextOutboxEvent _ _ _ _ _) as [r w'] eqn:E. simpl.
  pose proof (publish_next_at_least_once _ _ (appended "events") _ _
    (sim_world stored_db empty_redis 0 commit_lost []) _ _ eq_refl stored_db_ok E) as [_ H].
  destruct (H stored_outbox_id stored_row) as (o' & Ho & Hs); [vm_compute; reflexivity|].
  exists o'. split_and!; [done| |done].
  assert (ob_status <$> outbox (w_db (r, w').2) !! stored_outbox_id = Some "published") as Hp.
  { rewrite <- E. vm_compute. reflexivity. }
  simpl in Hp. rewrite Ho in Hp. by injection Hp.
Defined.

Lemma runner_drains_witness : exists w',
  Run 1 None (mkRunner (PublishNextOutboxEvent (Some ThePool) (Some (Publish (Some sample_publisher))) Second
    (60 * Second)) Second) (sim_world stored_db empty_redis 0 [] []) = (Ok (false, []), w') /\
  stream_log "events" (w_redis w') stored_id.
Proof.
  assert (Hrel : ReliableBroker (Publish (R:=SimRedis) (Some sample_publisher)))
    by (apply (Publish_Reliable TheClient "events"); reflexivity).
  destruct (runner_drains (Publish (Some sample_publisher)) (appended "events") (stream_log "events") Second
    (60 * Second) Second (sim_world stored_db empty_redis 0 [] [])) as (w' & H1 & _ & H2);
    [reflexivity|reflexivity|apply stored_db_ok|vm_compute; eauto|unfold Second; lia|].
  exists w'. split; [exact H1|]. apply (H2 stored_outbox_id stored_row). vm_compute. reflexivity.
Defined.

End RedisStream.
