(* ===== verification/AiTriage.v ===== *)
(** * AiTriage: the client of the AI service ([internal/httpapi/ai_triage.go])

    Requests to the advisory service and the validation of its answers.  The
    service is outside the program: an exchange with it is a parameter, which
    promises only that it touches neither the tables nor Redis. *)

From S2P Require Import Prelude GoStrings GoErrors GoTime Json JsonDecode Database RedisServer World.
From S2P Require Import Simulation.

(** The order in which [range] visits the entries of a map is not specified. *)
Class MapRange := {
  map_range : forall A, list (string * A) -> list (string * A);
  map_range_perm : forall A (m : list (string * A)), map_range A m ≡ₚ m;
}.
Arguments map_range {_ A} m.

(** [client.Do] of a POST with a body: the status code, the status text, the bytes
    of the response body and the error that ends them, if it is not EOF. *)
Class AIService (R : Type) := {
  ai_do : string -> string -> M (R:=R) (Z * string * (string * option error));
  ai_do_frame : forall url body w, w_db (ai_do url body w).2 = w_db w /\
    w_tx (ai_do url body w).2 = w_tx w /\ w_redis (ai_do url body w).2 = w_redis w;
}.

Module AiTriage.

Definition maxAIResponseBytes : Z := Z.shiftl 1 20.

(** ** Data *)

Record triageRequest := mkTriageRequest {
  tq_EventType : string; tq_BusinessEventType : option string; tq_Source : string;
  tq_Destination : string; tq_HTTPStatus : option Z; tq_Error : string;
  tq_AttemptCount : Z; tq_SchemaVersion : option string;
}.

Record triageCitation := mkTriageCitation {
  RunbookID : string; ChunkID : string; Title : string; SourcePath : string;
}.

Record triageResponse := mkTriageResponse {
  tr_Category : string; tr_Summary : string; tr_RecommendedActions : option (list string);
  tr_RedriveRecommendation : string; tr_Citations : option (list triageCitation);
  tr_AnalysisMode : string; tr_Provider : string; tr_Model : option string;
}.

Record explainStatusHistory := mkExplainStatusHistory {
  xh_Status : string; xh_OccurredAt : option string;
}.

Record explainDeliveryAttempt := mkExplainDeliveryAttempt {
  xa_AttemptNumber : Z; xa_HTTPStatus : option Z; xa_Outcome : string;
  xa_Error : option string; xa_OccurredAt : option string;
}.

Record explainRequest := mkExplainRequest {
  xq_EventType : string; xq_BusinessEventType : option string; xq_Source : string;
  xq_Destination : string; xq_CurrentStatus : string;
  xq_StatusHistory : list explainStatusHistory;
  xq_DeliveryAttempts : list explainDeliveryAttempt;
  xq_RetryCount : Z; xq_EnteredDLQ : bool; xq_RedriveCount : Z; xq_Delivered : bool;
}.

Record explainEvidence := mkExplainEvidence { ee_Type : string; ee_Description : string }.

Record explainResponse := mkExplainResponse {
  Headline : string; WhatHappened : string; BusinessImpact : string; NextAction : string;
  RecommendedActions : option (list string); RecoveryStatus : string;
  Evidence : option (list explainEvidence); Citations : option (list triageCitation);
  AnalysisMode : string; Provider : string; Model : option string;
}.

(** ** Encoding: struct fields in declaration order *)

Definition json_ptr {A} (f : A -> json) (v : option A) : json :=
  match v with Some x => f x | None => JNull end.
Definition json_int (z : Z) : json := JNum (Itoa z).
Definition json_slice {A} (f : A -> json) (v : option (list A)) : json :=
  json_ptr (fun l => JArr (map f l)) v.
(** [omitempty] on a pointer *)
Definition json_omitempty (name : string) (v : option string) : list (string * json) :=
  match v with Some s => [(name, JStr s)] | None => [] end.

Definition triageRequest_json (q : triageRequest) : json :=
  JObj ([("event_type", JStr (tq_EventType q))] ++
        json_omitempty "business_event_type" (tq_BusinessEventType q) ++
        [("source", JStr (tq_Source q)); ("destination", JStr (tq_Destination q));
         ("http_status", json_ptr json_int (tq_HTTPStatus q)); ("error", JStr (tq_Error q));
         ("attempt_count", json_int (tq_AttemptCount q))] ++
        json_omitempty "schema_version" (tq_SchemaVersion q)).

Definition triageCitation_json (c : triageCitation) : json :=
  JObj [("runbook_id", JStr (RunbookID c)); ("chunk_id", JStr (ChunkID c));
        ("title", JStr (Title c)); ("source_path", JStr (SourcePath c))].

Definition triageResponse_json (t : triageResponse) : json :=
  JObj [("category", JStr (tr_Category t)); ("summary", JStr (tr_Summary t));
        ("recommended_actions", json_slice JStr (tr_RecommendedActions t));
        ("redrive_recommendation", JStr (tr_RedriveRecommendation t));
        ("citations", json_slice triageCitation_json (tr_Citations t));
        ("analysis_mode", JStr (tr_AnalysisMode t)); ("provider", JStr (tr_Provider t));
        ("model", json_ptr JStr (tr_Model t))].

Definition explainStatusHistory_json (h : explainStatusHistory) : json :=
  JObj [("status", JStr (xh_Status h)); ("occurred_at", json_ptr JStr (xh_OccurredAt h))].

Definition explainDeliveryAttempt_json (a : explainDeliveryAttempt) : json :=
  JObj [("attempt_number", json_int (xa_AttemptNumber a));
        ("http_status", json_ptr json_int (xa_HTTPStatus a)); ("outcome", JStr (xa_Outcome a));
        ("error", json_ptr JStr (xa_Error a)); ("occurred_at", json_ptr JStr (xa_OccurredAt a))].

Definition explainRequest_json (q : explainRequest) : json :=
  JObj [("event_type", JStr (xq_EventType q));
        ("business_event_type", json_ptr JStr (xq_BusinessEventType q));
        ("source", JStr (xq_Source q)); ("destination", JStr (xq_Destination q));
        ("current_status", JStr (xq_CurrentStatus q));
        ("status_history", JArr (map explainStatusHistory_json (xq_StatusHistory q)));
        ("delivery_attempts", JArr (map explainDeliveryAttempt_json (xq_DeliveryAttempts q)));
        ("retry_count", json_int (xq_RetryCount q)); ("entered_dlq", JBool (xq_EnteredDLQ q));
        ("redrive_count", json_int (xq_RedriveCount q)); ("delivered", JBool (xq_Delivered q))].

Definition explainEvidence_json (e : explainEvidence) : json :=
  JObj [("type", JStr (ee_Type e)); ("description", JStr (ee_Description e))].

Definition explainResponse_json (x : explainResponse) : json :=
  JObj [("headline", JStr (Headline x)); ("what_happened", JStr (WhatHappened x));
        ("business_impact", JStr (BusinessImpact x)); ("next_action", JStr (NextAction x));
        ("recommended_actions", json_slice JStr (RecommendedActions x));
        ("recovery_status", JStr (RecoveryStatus x));
        ("evidence", json_slice explainEvidence_json (Evidence x));
        ("citations", json_slice triageCitation_json (Citations x));
        ("analysis_mode", JStr (AnalysisMode x)); ("provider", JStr (Provider x));
        ("model", json_ptr JStr (Model x))].

(** ** Decoding *)

Definition set_citation (old : triageCitation) (v : json) : option triageCitation :=
  match v with
  | JNull => Some old
  | JObj m =>
      r ← string_field (RunbookID old) "runbook_id" m;
      c ← string_field (ChunkID old) "chunk_id" m;
      t ← string_field (Title old) "title" m;
      p ← string_field (SourcePath old) "source_path" m;
      Some (mkTriageCitation r c t p)
  | _ => None
  end.

Definition set_evidence (old : explainEvidence) (v : json) : option explainEvidence :=
  match v with
  | JNull => Some old
  | JObj m =>
      t ← string_field (ee_Type old) "type" m;
      d ← string_field (ee_Description old) "description" m;
      Some (mkExplainEvidence t d)
  | _ => None
  end.

Definition citations_field :=
  decode_field (set_slice set_citation (mkTriageCitation "" "" "" "")).
Definition evidence_field := decode_field (set_slice set_evidence (mkExplainEvidence "" "")).

Definition members (v : json) : option (list (string * json)) :=
  match v with JNull => Some [] | JObj m => Some m | _ => None end.

Definition triageResponse_of (v : json) : option triageResponse :=
  m ← members v;
  category ← string_field "" "category" m;
  summary ← string_field "" "summary" m;
  actions ← strings_field None "recommended_actions" m;
  redrive ← string_field "" "redrive_recommendation" m;
  citations ← citations_field None "citations" m;
  mode ← string_field "" "analysis_mode" m;
  provider ← string_field "" "provider" m;
  model ← string_ptr_field None "model" m;
  Some (mkTriageResponse category summary actions redrive citations mode provider model).

Definition explainResponse_of (v : json) : option explainResponse :=
  m ← members v;
  headline ← string_field "" "headline" m;
  happened ← string_field "" "what_happened" m;
  impact ← string_field "" "business_impact" m;
  next ← string_field "" "next_action" m;
  actions ← strings_field None "recommended_actions" m;
  recovery ← string_field "" "recovery_status" m;
  evidence ← evidence_field None "evidence" m;
  citations ← citations_field None "citations" m;
  mode ← string_field "" "analysis_mode" m;
  provider ← string_field "" "provider" m;
  model ← string_ptr_field None "model" m;
  Some (mkExplainResponse headline happened impact next actions recovery evidence citations
          mode provider model).

(** ** Validation of an explanation *)

Definition isSupportedRecoveryStatus (status : string) : bool :=
  bool_decide (status ∈ ["not_needed"; "not_ready"; "review_required"; "completed"]).
Definition isSupportedAnalysisMode (mode : string) : bool :=
  bool_decide (mode ∈ ["deterministic_runbook"; "deterministic_fallback"; "llm_grounded"]).
Definition isSupportedProvider (provider : string) : bool :=
  bool_decide (provider ∈ ["deterministic"; "openai"; "ollama"]).

Definition blank (s : string) : bool := String.eqb (TrimSpace s) "".

Definition required_texts (r : explainResponse) : list (string * string) :=
  [("headline", Headline r); ("what_happened", WhatHappened r);
   ("business_impact", BusinessImpact r); ("next_action", NextAction r);
   ("recovery_status", RecoveryStatus r); ("analysis_mode", AnalysisMode r);
   ("provider", Provider r)].

(** [for x in l { if bad(x) { return err } }] *)
Fixpoint reject_first {A} (bad : A -> option error) (l : list A) : res error unit :=
  match l with
  | [] => Ok tt
  | x :: l' => match bad x with Some e => Err e | None => reject_first bad l' end
  end.

Definition reject (b : bool) (e : error) : res error unit := if b then Err e else Ok tt.

Definition evidence_incomplete (e : explainEvidence) : bool :=
  blank (ee_Type e) || blank (ee_Description e).
Definition citation_incomplete (c : triageCitation) : bool :=
  blank (RunbookID c) || blank (ChunkID c) || blank (Title c) || blank (SourcePath c).

Definition validateExplainResponse {SC : Strconv} {MR : MapRange} (response : explainResponse)
    : res error unit :=
  let actions := default [] (RecommendedActions response) in
  let evidence := default [] (Evidence response) in
  let citations := default [] (Citations response) in
  let text e := ErrorString e in
  res_bind (reject_first (fun kv => if blank kv.2 then Some (text (kv.1 +:+ " is required")) else None)
              (map_range (required_texts response))) (fun _ =>
  res_bind (reject (Nat.eqb (length actions) 0 || Nat.ltb 5 (length actions))
              (text "recommended_actions must contain 1 to 5 items")) (fun _ =>
  res_bind (reject_first (fun a => if blank a then Some (text "recommended_actions must be nonempty")
                                   else None) actions) (fun _ =>
  res_bind (reject (negb (isSupportedRecoveryStatus (RecoveryStatus response)))
              (text ("unsupported recovery_status " +:+ Quote (RecoveryStatus response)))) (fun _ =>
  res_bind (reject (negb (isSupportedAnalysisMode (AnalysisMode response)))
              (text ("unsupported analysis_mode " +:+ Quote (AnalysisMode response)))) (fun _ =>
  res_bind (reject (negb (isSupportedProvider (Provider response)))
              (text ("unsupported provider " +:+ Quote (Provider response)))) (fun _ =>
  res_bind (reject (Nat.eqb (length evidence) 0 || Nat.ltb 10 (length evidence))
              (text "evidence must contain 1 to 10 items")) (fun _ =>
  res_bind (reject_first (fun e => if evidence_incomplete e
                                   then Some (text "evidence entries must be complete") else None)
              evidence) (fun _ =>
  res_bind (reject (Nat.eqb (length citations) 0) (text "citations are required")) (fun _ =>
  reject_first (fun c => if citation_incomplete c
                         then Some (text "citation entries must be complete") else None)
    citations))))))))).

(** ** The client *)

(** [client] is known by its timeout. *)
Record AITriageClient := mkAITriageClient { baseURL : string; client : Z }.

Definition NewAITriageClient (baseURL : string) (client : option Z) : AITriageClient :=
  mkAITriageClient (TrimRightByte "/" baseURL) (default (10 * Second) client).

Section Client.
Context {SC : Strconv} {NC : NetClients} {MR : MapRange} {R : Type} `{!AIService R}.
Abbreviation M := (M (R:=R)).

Definition read_error (e : option error) : error := default (Sentinel ioEOF) e.

Definition Triage (c : AITriageClient) (request : triageRequest) : M triageResponse :=
  let body := marshal (triageRequest_json request) in
  let url := baseURL c +:+ "/triage" in
  match new_request_error url with
  | Some e => gerr (wrapf "create triage request" e)
  | None =>
      let! resp := wrap_err (wrapf "call AI triage service") (ai_do url body) in
      let '(code, status, (bytes, rerr)) := resp in
      if (code <? 200) || (300 <=? code)
      then gerr (ErrorString ("AI triage service returned " +:+ status)) else
      wrap_err (wrapf "decode AI triage response")
        (lift_res (res_bind (decode_next (read_error rerr) (bool_decide (is_Some rerr)) (chars bytes))
                     (fun v => match triageResponse_of v.1 with
                               | Some t => Ok t
                               | None => Err (ErrorString (json_error_text bytes))
                               end)))
  end.

(** [io.LimitReader(resp.Body, maxAIResponseBytes)]: the bytes and the error
    that ends them. *)
Definition limit_reader (limit : Z) (bytes : string) (rerr : option error)
    : list ascii * option error :=
  let '(l, cut) := limit_body limit bytes in (l, if cut : bool then None else rerr).

Definition Explain (c : AITriageClient) (request : explainRequest) : M explainResponse :=
  let body := marshal (explainRequest_json request) in
  let url := baseURL c +:+ "/explain" in
  let invalid (prefix : string) (e : error) :=
    wrap_suffix (": " +:+ prefix +:+ error_text e) (Sentinel ErrAIServiceInvalidResponse) in
  match new_request_error url with
  | Some e => gerr (wrapf "create explain request" e)
  | None =>
      let! resp := wrap_err (fun e => wrap_suffix (": " +:+ error_text e) (Sentinel ErrAIServiceUnavailable))
                     (ai_do url body) in
      let '(code, status, (bytes, rerr)) := resp in
      if (code <? 200) || (300 <=? code)
      then gerr (wrap_suffix (": AI explain service returned " +:+ status) (Sentinel ErrAIServiceUnavailable))
      else
      let '(l, lerr) := limit_reader maxAIResponseBytes bytes rerr in
      let! result := wrap_err (invalid "decode AI explain response: ")
                       (lift_res (res_bind (decode_next (read_error lerr) (bool_decide (is_Some lerr)) l)
                          (fun v => match explainResponse_of v.1 with
                                    | Some t => Ok t
                                    | None => Err (ErrorString (json_error_text bytes))
                                    end))) in
      let! _ := wrap_err (invalid "") (lift_res (validateExplainResponse result)) in
      gret result
  end.

(** ** What a returned explanation satisfies *)

(** The contract with the dashboard, independent of the order of checks. *)
Record well_formed (x : explainResponse) : Prop := {
  wf_texts : Forall (fun t => TrimSpace t <> "")
    [Headline x; WhatHappened x; BusinessImpact x; NextAction x];
  wf_recovery : RecoveryStatus x ∈ ["not_needed"; "not_ready"; "review_required"; "completed"];
  wf_mode : AnalysisMode x ∈ ["deterministic_runbook"; "deterministic_fallback"; "llm_grounded"];
  wf_provider : Provider x ∈ ["deterministic"; "openai"; "ollama"];
  wf_actions : exists l, RecommendedActions x = Some l /\ (1 <= length l <= 5)%nat /\
    Forall (fun a => TrimSpace a <> "") l;
  wf_evidence : exists l, Evidence x = Some l /\ (1 <= length l <= 10)%nat /\
    Forall (fun e => TrimSpace (ee_Type e) <> "" /\ TrimSpace (ee_Description e) <> "") l;
  wf_citations : exists l, Citations x = Some l /\ l <> [] /\
    Forall (fun c => TrimSpace (RunbookID c) <> "" /\ TrimSpace (ChunkID c) <> "" /\
                     TrimSpace (Title c) <> "" /\ TrimSpace (SourcePath c) <> "") l;
}.

Lemma blank_false s : blank s = false <-> TrimSpace s <> "".
Proof. unfold blank. destruct (String.eqb_spec (TrimSpace s) ""); naive_solver. Qed.

Lemma reject_first_ok {A} (bad : A -> bool) (e : A -> error) l :
  reject_first (fun x => if bad x then Some (e x) else None) l = Ok tt <->
  Forall (fun x => bad x = false) l.
Proof.
  induction l as [|x l IH]; simpl; [done|]. rewrite Forall_cons, <-IH.
  destruct (bad x); naive_solver.
Qed.

Lemma reject_ok b e : reject b e = Ok tt <-> b = false.
Proof. unfold reject. destruct b; naive_solver. Qed.

Lemma res_bind_unit_ok {E B} (r : res E unit) (k : unit -> res E B) b :
  res_bind r k = Ok b <-> r = Ok tt /\ k tt = Ok b.
Proof. destruct r as [[]|e]; simpl; naive_solver. Qed.

(** The number of items of a slice, nil counting as none. *)
Lemma slice_nonempty {A} (v : option (list A)) (P : list A -> Prop) :
  (length (default [] v) <> 0)%nat /\ P (default [] v) <-> exists l, v = Some l /\ l <> [] /\ P l.
Proof. destruct v as [[|a l]|]; simpl; naive_solver. Qed.

Lemma supported_nonblank x l :
  x ∈ l -> forallb (fun s => negb (blank s)) l = true -> TrimSpace x <> "".
Proof.
  intros Hx Hl. rewrite forallb_forall in Hl. apply blank_false, negb_true_iff, Hl. by apply list_elem_of_In.
Qed.

Lemma validateExplainResponse_iff x : validateExplainResponse x = Ok tt <-> well_formed x.
Proof.
  unfold validateExplainResponse. rewrite !res_bind_unit_ok, !reject_first_ok, !reject_ok.
  rewrite map_range_perm, !orb_false_iff, !negb_false_iff, !Nat.eqb_neq, !Nat.ltb_ge.
  unfold isSupportedRecoveryStatus, isSupportedAnalysisMode, isSupportedProvider.
  rewrite !bool_decide_eq_true. unfold required_texts, evidence_incomplete, citation_incomplete.
  repeat setoid_rewrite orb_false_iff. repeat setoid_rewrite blank_false.
  split.
  - intros (H1 & [H2 H2'] & H3 & H4 & H5 & H6 & [H7 H7'] & H8 & H9 & H10).
    rewrite !Forall_cons in H1. split; try done.
    + rewrite !Forall_cons. naive_solver.
    + destruct (RecommendedActions x) as [l|]; [|done]. exists l. simpl in *. split_and!; [done|lia..|done].
    + destruct (Evidence x) as [l|]; [|done]. exists l. simpl in *. split_and!; [done|lia..|done].
    + destruct (Citations x) as [l|]; [|done]. exists l. simpl in *. split_and!; [done|by intros ->|].
      eapply Forall_impl; [done|]. naive_solver.
  - intros [H1 H2 H3 H4 (la & -> & Ha & Ha') (le & -> & He & He') (lc & -> & Hc & Hc')]. simpl.
    rewrite !Forall_cons in *. destruct H1 as (T1 & T2 & T3 & T4 & _).
    split_and!; try done; try lia.
    all: try (eapply supported_nonblank; [done|reflexivity]).
    + by destruct lc.
    + eapply Forall_impl; [done|]. naive_solver.
Qed.

(** C33: What the API passes on from the AI service.  Whatever the service answers,
    asking for an explanation changes neither the tables nor Redis; an
    explanation that is returned is complete, within its limits and of a known
    kind; and an error names the service as unavailable, or its answer as
    invalid, unless the configured URL is malformed. *)
Theorem explain_outcome c q w :
  let '(r, w') := Explain c q w in
  (w_db w' = w_db w /\ w_tx w' = w_tx w /\ w_redis w' = w_redis w) /\
  match r with
  | Ok x => well_formed x
  | Err e => is_Some (new_request_error (baseURL c +:+ "/explain")) \/
             errors_Is e ErrAIServiceUnavailable = true \/
             errors_Is e ErrAIServiceInvalidResponse = true
  end.
Proof.
  unfold Explain. cbv zeta. destruct (new_request_error _) as [e|]; [split; [done|by left]|].
  unfold gbind at 1, wrap_err at 1.
  pose proof (ai_do_frame (baseURL c +:+ "/explain") (marshal (explainRequest_json q)) w) as Hf.
  destruct (ai_do _ _ w) as [[[[code status] [bytes rerr]]|e] w1]; simpl in Hf |- *;
    [|by split; [|right; left]].
  destruct ((code <? 200) || (300 <=? code)); [by split; [|right; left]|].
  destruct (limit_reader _ _ _) as [l lerr]. unfold gbind at 1, wrap_err at 1, lift_res at 1.
  destruct (res_bind _ _) as [x|e]; simpl; [|by split; [|right; right]].
  unfold gbind, wrap_err, lift_res.
  destruct (validateExplainResponse x) as [[]|e] eqn:Ev; simpl; [|by split; [|right; right]].
  split; [done|]. by apply validateExplainResponse_iff.
Qed.

End Client.

(** ** A service that answers *)

#[global] Instance SimMapRange : MapRange := {
  map_range := fun A m => m;
  map_range_perm := fun A m => Permutation_refl m;
}.

(** Text with its single quotes turned into double quotes *)
Definition quoted (s : string) : string :=
  String.string_of_list_ascii (map (fun c => if Ascii.eqb c "'" then dq else c) (chars s)).

Definition sim_explanation : string := quoted
  "{'headline': 'Delivered', 'what_happened': 'ok', 'business_impact': 'none', 'next_action': 'none',
    'recommended_actions': ['Nothing to do'], 'recovery_status': 'completed',
    'evidence': [{'type': 'status', 'description': 'DELIVERED'}],
    'citations': [{'runbook_id': 'r1', 'chunk_id': 'c1', 'title': 'T', 'source_path': 'p'}],
    'analysis_mode': 'deterministic_runbook', 'provider': 'deterministic'}".

#[global] Instance SimAI : AIService SimRedis := {
  ai_do := fun _ _ w => (Ok (200, "200 OK", (sim_explanation, None)), w);
  ai_do_frame := fun _ _ _ => conj eq_refl (conj eq_refl eq_refl);
}.

Lemma explain_outcome_witness :
  let c := NewAITriageClient "http://ai:8090/" None in
  let q := mkExplainRequest "order.created" None "shop" "Webhook destination" "DELIVERED"
             [mkExplainStatusHistory "DELIVERED" None] [] 0 false 0 true in
  exists x, (Explain c q (sim_world empty_db empty_redis 0 [] [])).1 = Ok x /\ well_formed x /\
    Headline x = "Delivered".
Proof.
  cbv zeta. set (c := NewAITriageClient _ _). set (q := mkExplainRequest _ _ _ _ _ _ _ _ _ _ _).
  pose proof (explain_outcome c q (sim_world empty_db empty_redis 0 [] [])) as H.
  assert (E : exists x, (Explain c q (sim_world empty_db empty_redis 0 [] [])).1 = Ok x /\ Headline x = "Delivered")
    by (eexists; split; vm_compute; reflexivity).
  destruct E as (x & E & Hx). exists x. destruct (Explain _ _ _) as [r w']. simpl in E. subst r.
  split; [reflexivity|]. split; [apply H|exact Hx].
Defined.

End AiTriage.
