(* ===== verification/HttpApi.v ===== *)
(** * HttpApi: event creation, health, CORS
    ([internal/httpapi/{json,event_handler,operations,cors}.go])

    A handler takes a request and the response writer and returns the writer as
    it leaves it; its effects on the tables and on Redis are those of the
    operations it calls. *)

From S2P Require Import Prelude GoStrings GoErrors GoTime Utf8 Json JsonDecode GoHttp Database.
From S2P Require Import RedisServer World Operations Ingestion.
Import Operations Ingestion.

Module HttpApi.

(** ** Reading a JSON body ([json.go]) *)

Definition MaxJSONRequestBodyBytes : Z := Z.shiftl 1 20.

Definition IsRequestBodyTooLarge (err : error) : bool := errors_As_MaxBytes err.

(** [dst] decodes a value, given with the text that starts with it. *)
Definition decodeJSONRequest {SC : Strconv} {A} (dst : json -> list ascii -> option A)
    (body : string) (limit : Z) : res error A :=
  let '(l, cut) := limit_body limit body in
  res_bind (decode_next (MaxBytesError limit) cut l) (fun first =>
  match dst first.1 l with
  | None => Err (ErrorString (json_error_text body))
  | Some a =>
      match decode_next (MaxBytesError limit) cut first.2 with
      | Ok (extra, _) =>
          match to_any_float extra with
          | Some _ => Err (Sentinel ErrExtraJSONValue)
          | None => Err (ErrorString (json_error_text body))
          end
      | Err e => if errors_Is e ioEOF then Ok a else Err e
      end
  end).

Definition DecodeJSONRequest {SC : Strconv} {A} (dst : json -> list ascii -> option A) (r : Request)
    : res error A :=
  decodeJSONRequest dst (Body r) MaxJSONRequestBodyBytes.

(** ** Responses ([operations.go]) *)

Definition writeJSON (status : Z) (value : option json) (w : ResponseWriter) : ResponseWriter :=
  Encode value (WriteHeader status (SetHeader "Content-Type" "application/json" w)).

(** [None] when the request may go on. *)
Definition requireGet (r : Request) (w : ResponseWriter) : option ResponseWriter :=
  if String.eqb (Method r) "GET" then None
  else Some (WriteHeader 405 (SetHeader "Allow" "GET" w)).

Definition requirePost (r : Request) (w : ResponseWriter) : option ResponseWriter :=
  if negb (String.eqb (Method r) "POST") then Some (WriteHeader 405 (SetHeader "Allow" "POST" w))
  else None.

Section Handlers.
Context {SC : Strconv} {PG : Postgres} {R : Type}.
Abbreviation M := (M (R:=R)).

Definition Handler : Type := Request -> ResponseWriter -> M ResponseWriter.

Definition guarded (refused : option ResponseWriter) (body : M ResponseWriter) : M ResponseWriter :=
  match refused with Some w => gret w | None => body end.

(** ** Health and version ([operations.go]) *)

(** [None] is a nil check. *)
Definition dependencyStatus (check : option (M unit)) : M string :=
  match check with
  | None => gret "ok"
  | Some check => let! r := catch check in gret (if is_ok r then "ok" else "error")
  end.

Definition NewLivenessHandler : Handler := fun r w =>
  guarded (requireGet r w) (gret (writeJSON 200 (Some (JObj [("status", JStr "ok")])) w)).

Definition NewReadinessHandler (postgresCheck redisCheck : option (M unit)) : Handler := fun r w =>
  guarded (requireGet r w) (
    let! pgStatus := dependencyStatus postgresCheck in
    let! redisStatus := dependencyStatus redisCheck in
    let bad := negb (String.eqb pgStatus "ok") || negb (String.eqb redisStatus "ok") in
    gret (writeJSON (if bad then 503 else 200)
            (Some (JObj [("status", JStr (if bad then "degraded" else "ok"));
                         ("postgres", JStr pgStatus); ("redis", JStr redisStatus)])) w)).

Definition NewVersionHandler (service version commit builtAt : string) : Handler := fun r w =>
  guarded (requireGet r w)
    (gret (writeJSON 200 (Some (JObj [("service", JStr service); ("version", JStr version);
                                      ("commit", JStr commit); ("built_at", JStr builtAt)])) w)).

(** ** POST /events ([event_handler.go]) *)

Record CreateEventRequest := mkCreateEventRequest {
  cr_EventType : string; cr_Source : string; cr_Payload : string;
}.

Definition createEventRequest_of (v : json) (l : list ascii) : option CreateEventRequest :=
  m ← struct_members v l;
  eventType ← string_field "" "event_type" (trees m);
  source ← string_field "" "source" (trees m);
  Some (mkCreateEventRequest eventType source (raw_field "payload" m)).

Record CreateEventResponse := mkCreateEventResponse { ce_ID : string; ce_Created : bool }.

Definition createEventResponse_json (x : CreateEventResponse) : json :=
  JObj [("id", JStr (ce_ID x)); ("created", JBool (ce_Created x))].

Definition isMissingJSONPayload (payload : string) : bool :=
  let trimmed := TrimSpace payload in String.eqb trimmed "" || String.eqb trimmed "null".

Definition PersistEventFunc : Type := EventInput -> string -> M PersistResult.

Definition NewCreateEventHandler (persist : PersistEventFunc) : Handler := fun r w =>
  guarded (requirePost r w) (
    match DecodeJSONRequest createEventRequest_of r with
    | Err err =>
        gret (if IsRequestBodyTooLarge err then Error "request body too large" 413 w
              else if errors_Is err ErrExtraJSONValue
              then Error "request body must contain exactly one JSON value" 400 w
              else Error "invalid JSON body" 400 w)
    | Ok req =>
        if String.eqb (cr_EventType req) "" || String.eqb (cr_Source req) "" ||
           isMissingJSONPayload (cr_Payload req)
        then gret (Error "event_type, source, and payload are required" 400 w) else
        let! result := catch (persist (mkEventInput (cr_EventType req) (cr_Source req) (cr_Payload req))
                                (HeaderGet "Idempotency-Key" r)) in
        match result with
        | Err err =>
            gret (if errors_Is err ErrIdempotencyConflict
                  then Error "idempotency key was already used for a different request" 409 w
                  else Error "failed to persist event" 500 w)
        | Ok result =>
            gret (writeJSON (if Created result then 201 else 200)
                    (Some (createEventResponse_json
                             (mkCreateEventResponse (res_EventID result) (Created result)))) w)
        end
    end).

(** ** CORS ([cors.go]) *)

Definition allowed_origins (allowedOrigins : list string) : list string :=
  filter (fun o => o <> "") (map TrimSpace allowedOrigins).

(** The handler may be one of any server ([cmd/mock-destination] uses it too). *)
Definition WithCORS {St : Type} (next : Request -> ResponseWriter -> GoM error St ResponseWriter)
    (allowedOrigins : list string) : Request -> ResponseWriter -> GoM error St ResponseWriter := fun r w =>
  let origin := TrimSpace (HeaderGet "Origin" r) in
  let ok := bool_decide (origin ∈ allowed_origins allowedOrigins) in
  let w := if ok then
             SetHeader "Access-Control-Allow-Headers" "Content-Type, Idempotency-Key"
               (SetHeader "Access-Control-Allow-Methods" "GET, POST, OPTIONS"
                  (SetHeader "Vary" "Origin" (SetHeader "Access-Control-Allow-Origin" origin w)))
           else w in
  if String.eqb (Method r) "OPTIONS" then
    gret (if negb (String.eqb origin "") && negb ok then WriteHeader 403 w else WriteHeader 204 w)
  else next r w.

End Handlers.

End HttpApi.
