(* ===== verification/OperationalHandlers.v ===== *)
(** * OperationalHandlers: status, dead letters, metrics and triage over HTTP
    ([internal/httpapi/operational_handlers.go]) *)

From S2P Require Import Prelude GoStrings GoErrors GoTime Json JsonDecode GoHttp Database.
From S2P Require Import RedisServer World Operations AiTriage HttpApi.
Import Operations AiTriage HttpApi.

Module OperationalHandlers.

(** ** Responses *)

Record statusHistoryResponse := mkStatusHistoryResponse {
  hr_Status : string; hr_Details : string; hr_CreatedAt : Z;
}.

Record deliveryAttemptResponse := mkDeliveryAttemptResponse {
  ar_AttemptNumber : Z; ar_Outcome : string; ar_ResponseCode : option Z; ar_Error : option string;
  ar_StartedAt : Z; ar_CompletedAt : Z;
}.

Record eventStatusResponse := mkEventStatusResponse {
  er_EventID : string; er_EventType : string; er_Source : string; er_CurrentStatus : string;
  er_History : list statusHistoryResponse; er_DeliveryAttempts : list deliveryAttemptResponse;
}.

Record dlqRecordResponse := mkDlqRecordResponse {
  qr_EventID : string; qr_EventType : string; qr_Source : string; qr_AttemptCount : Z;
  qr_LastError : option string; qr_Status : string; qr_DeadLetteredAt : Z; qr_RedrivenAt : option Z;
}.

Record dlqDetailResponse := mkDlqDetailResponse {
  xr_Record : dlqRecordResponse; xr_History : list statusHistoryResponse;
  xr_DeliveryAttempts : list deliveryAttemptResponse;
}.

Definition statusHistoryResponseFromStore (history : list StatusHistoryEntry)
    : list statusHistoryResponse :=
  map (fun e => mkStatusHistoryResponse (Status e) (Details e) (EntryCreatedAt e)) history.

Definition deliveryAttemptResponseFromStore (attempts : list DeliveryAttempt)
    : list deliveryAttemptResponse :=
  map (fun a => mkDeliveryAttemptResponse (AttemptNumber a) (Outcome a) (ResponseCode a)
                  (AttemptError a) (StartedAt a) (CompletedAt a)) attempts.

Definition eventStatusResponseFromStore (status : EventStatus_) : eventStatusResponse :=
  mkEventStatusResponse (EventID (es_Event status)) (EventType (es_Event status))
    (Source (es_Event status)) (es_CurrentStatus status)
    (statusHistoryResponseFromStore (es_History status))
    (deliveryAttemptResponseFromStore (es_DeliveryAttempts status)).

Definition dlqRecordResponseFromStore (record : DLQRecord) : dlqRecordResponse :=
  mkDlqRecordResponse (dr_EventID record) (dr_EventType record) (dr_Source record)
    (dr_AttemptCount record) (dr_LastError record) (dr_Status record)
    (dr_DeadLetteredAt record) (dr_RedrivenAt record).

(** ** Encoding; [None] when a raw message is not JSON or a time cannot be
    printed *)

Section Encoding.
Context {LZ : LocalZone}.

Definition json_time (t : Z) : option json := JStr <$> time_json t.
Definition json_time_ptr (t : option Z) : option json :=
  match t with Some t => json_time t | None => Some JNull end.

Definition statusHistoryResponse_json (e : statusHistoryResponse) : option json :=
  details ← raw_json (hr_Details e);
  created ← json_time (hr_CreatedAt e);
  Some (JObj [("status", JStr (hr_Status e)); ("details", details); ("created_at", created)]).

Definition deliveryAttemptResponse_json (a : deliveryAttemptResponse) : option json :=
  started ← json_time (ar_StartedAt a);
  completed ← json_time (ar_CompletedAt a);
  Some (JObj [("attempt_number", json_int (ar_AttemptNumber a)); ("outcome", JStr (ar_Outcome a));
              ("response_code", json_ptr json_int (ar_ResponseCode a));
              ("error", json_ptr JStr (ar_Error a));
              ("started_at", started); ("completed_at", completed)]).

Definition eventStatusResponse_json (s : eventStatusResponse) : option json :=
  history ← mapM statusHistoryResponse_json (er_History s);
  attempts ← mapM deliveryAttemptResponse_json (er_DeliveryAttempts s);
  Some (JObj [("event_id", JStr (er_EventID s)); ("event_type", JStr (er_EventType s));
              ("source", JStr (er_Source s)); ("current_status", JStr (er_CurrentStatus s));
              ("history", JArr history); ("delivery_attempts", JArr attempts)]).

Definition dlqRecordResponse_json (r : dlqRecordResponse) : option json :=
  dead ← json_time (qr_DeadLetteredAt r);
  redriven ← json_time_ptr (qr_RedrivenAt r);
  Some (JObj [("event_id", JStr (qr_EventID r)); ("event_type", JStr (qr_EventType r));
              ("source", JStr (qr_Source r)); ("attempt_count", json_int (qr_AttemptCount r));
              ("last_error", json_ptr JStr (qr_LastError r)); ("status", JStr (qr_Status r));
              ("dead_lettered_at", dead); ("redriven_at", redriven)]).

Definition dlqDetailResponse_json (d : dlqDetailResponse) : option json :=
  record ← dlqRecordResponse_json (xr_Record d);
  history ← mapM statusHistoryResponse_json (xr_History d);
  attempts ← mapM deliveryAttemptResponse_json (xr_DeliveryAttempts d);
  Some (JObj [("record", record); ("history", JArr history); ("delivery_attempts", JArr attempts)]).

End Encoding.

Definition redriveResponse_json (result : RedriveResult) : json :=
  JObj [("event_id", JStr (rr_EventID result)); ("status", JStr (rr_Status result));
        ("stream_id", JStr (rr_StreamID result))].

Definition metricsSummaryResponse_json (m : MetricsSummary_) : json :=
  JObj [("total_events", json_int (TotalEvents m));
        ("pending_publication", json_int (PendingPublication m));
        ("delivered", json_int (Delivered m)); ("retrying", json_int (Retrying m));
        ("open_dlq", json_int (OpenDLQ m)); ("redriven", json_int (Redriven m))].

(** ** The triage request *)

(** [attempts] is searched from its end. *)
Definition latestResponseCode (attempts : list DeliveryAttempt) : option Z :=
  head (omap ResponseCode (reverse attempts)).

Definition nonblank (s : option string) : option string :=
  match s with
  | Some s => let t := TrimSpace s in if String.eqb t "" then None else Some t
  | None => None
  end.

Definition latestError (detail : DLQDetail_) : string :=
  match head (omap (fun a => nonblank (AttemptError a)) (reverse (dd_DeliveryAttempts detail))) with
  | Some e => e
  | None => match nonblank (dr_LastError (dd_Record detail)) with
            | Some e => e
            | None => "Delivery failed"
            end
  end.

(** [value] is the entry of a map that may be missing. *)
Definition stringValuePointer (value : option json) : option string :=
  match value with
  | Some (JStr raw) => nonblank (Some raw)
  | _ => None
  end.

Section Triage.
Context {SC : Strconv}.

(** [map[string]any]: [null] makes it nil, an object adds to what is there. *)
Definition set_any_map (old : list (string * json)) (v : json) : option (list (string * json)) :=
  match v with
  | JNull => Some []
  | JObj m => kvs ← mapM (fun kv => pair kv.1 <$> to_any_float kv.2) m;
              Some (fold_left (fun m kv => obj_insert kv.1 kv.2 m) kvs old)
  | _ => None
  end.

Definition safeMetadataFromEventPayload (payload : string) : option string * option string :=
  match (v ← parse payload; m ← members v; decode_field set_any_map [] "data" m) with
  | None => (None, None)
  | Some data => (stringValuePointer (obj_lookup "business_event_type" data),
                  stringValuePointer (obj_lookup "schema_version" data))
  end.

Definition destinationFromEventPayload (payload : string) : string :=
  match (safeMetadataFromEventPayload payload).1 with
  | Some t => if String.eqb t "invoice.paid" then "Receipt Service" else ""
  | None => ""
  end.

Definition triageRequestFromDLQDetail (detail : DLQDetail_) : triageRequest :=
  let payload := Payload (dd_Event detail) in
  let destination := destinationFromEventPayload payload in
  let attempts := dr_AttemptCount (dd_Record detail) in
  let '(businessEventType, schemaVersion) := safeMetadataFromEventPayload payload in
  mkTriageRequest (dr_EventType (dd_Record detail)) businessEventType (dr_Source (dd_Record detail))
    (if String.eqb destination "" then "Webhook destination" else destination)
    (latestResponseCode (dd_DeliveryAttempts detail)) (latestError detail)
    (if attempts <? 1 then 1 else attempts) schemaVersion.

End Triage.

(** ** Handlers *)

Section Handlers.
Context {SC : Strconv} {LZ : LocalZone} {PG : Postgres} {R : Type}.
Abbreviation M := (M (R:=R)).
Abbreviation Handler := (Handler (R:=R)).
Abbreviation TriageClient := (option (triageRequest -> M triageResponse)).

Definition NewEventStatusHandler (store : option Store) : Handler := fun r w =>
  guarded (requireGet r w) (
    let cleanPath := TrimRightByte "/" (Path r) in
    let eventID := TrimByte "/" (TrimSuffix (TrimPrefix cleanPath "/events/") "/status") in
    if String.eqb eventID "" then gret (Error "event id required" 400 w) else
    let! status := catch (EventStatus store eventID) in
    gret (match status with
          | Err err => if errors_Is err ErrEventNotFound then WriteHeader 404 w
                       else Error "failed to fetch event status" 500 w
          | Ok status => writeJSON 200 (eventStatusResponse_json (eventStatusResponseFromStore status)) w
          end)).

Definition handleDLQList (store : option Store) : Handler := fun r w =>
  guarded (requireGet r w) (
    let status := TrimSpace (QueryGet "status" r) in
    let status := if String.eqb status "" then DLQStatusOpen else status in
    if negb (String.eqb status DLQStatusOpen) && negb (String.eqb status DLQStatusRedriven)
    then gret (Error "invalid DLQ status" 400 w) else
    let rawLimit := TrimSpace (QueryGet "limit" r) in
    let limit := if String.eqb rawLimit "" then Some 50
                 else match Atoi rawLimit with
                      | Some parsed => if (parsed <? 1) || (200 <? parsed) then None else Some parsed
                      | None => None
                      end in
    match limit with
    | None => gret (Error "limit must be between 1 and 200" 400 w)
    | Some limit =>
        let! records := catch (ListDLQ store status limit) in
        gret (match records with
              | Err _ => Error "failed to list DLQ records" 500 w
              | Ok records =>
                  writeJSON 200 (l ← mapM dlqRecordResponse_json (map dlqRecordResponseFromStore records);
                                 Some (JObj [("records", JArr l)])) w
              end)
    end).

Definition handleDLQDetail (store : option Store) (eventID : string) : Handler := fun r w =>
  guarded (requireGet r w) (
    let! detail := catch (DLQDetail store eventID) in
    gret (match detail with
          | Err err => if errors_Is err ErrDLQNotFound then WriteHeader 404 w
                       else Error "failed to fetch DLQ record" 500 w
          | Ok detail =>
              writeJSON 200 (dlqDetailResponse_json (mkDlqDetailResponse
                (dlqRecordResponseFromStore (dd_Record detail))
                (statusHistoryResponseFromStore (dd_History detail))
                (deliveryAttemptResponseFromStore (dd_DeliveryAttempts detail)))) w
          end)).

Definition handleDLQRedrive (store : option Store) (publish : option (fields -> M string))
    (eventID : string) : Handler := fun r w =>
  guarded (requirePost r w) (
    let! result := catch (RedriveDLQ store eventID publish) in
    gret (match result with
          | Err err => if errors_Is err ErrDLQNotFound then WriteHeader 404 w
                       else if errors_Is err ErrDLQNotOpen then Error "DLQ record is not open" 409 w
                       else Error "failed to redrive DLQ record" 503 w
          | Ok result => writeJSON 202 (Some (redriveResponse_json result)) w
          end)).

Definition handleDLQTriage (store : option Store) (triageClient : TriageClient) (eventID : string)
    : Handler := fun r w =>
  guarded (requirePost r w) (
    match triageClient with
    | None => gret (Error "AI triage service is not configured" 503 w)
    | Some triage =>
        let! detail := catch (DLQDetail store eventID) in
        match detail with
        | Err err => gret (if errors_Is err ErrDLQNotFound then WriteHeader 404 w
                           else Error "failed to fetch DLQ record" 500 w)
        | Ok detail =>
            let! answer := catch (triage (triageRequestFromDLQDetail detail)) in
            gret (match answer with
                  | Err _ => writeJSON 503 (Some (JObj [("error", JStr "TRIAGE_UNAVAILABLE")])) w
                  | Ok answer => writeJSON 200 (Some (triageResponse_json answer)) w
                  end)
        end
    end).

Definition NewDLQHandler (store : option Store) (publish : option (fields -> M string))
    (triageClient : TriageClient) : Handler := fun r w =>
  let path := TrimByte "/" (TrimPrefix (Path r) "/dlq") in
  if String.eqb path "" then handleDLQList store r w else
  match Split path "/" with
  | [id] => handleDLQDetail store id r w
  | [id; action] =>
      if String.eqb action "redrive" then handleDLQRedrive store publish id r w
      else if String.eqb action "triage" then handleDLQTriage store triageClient id r w
      else gret (WriteHeader 404 w)
  | _ => gret (WriteHeader 404 w)
  end.

Definition NewMetricsSummaryHandler (store : option Store) : Handler := fun r w =>
  guarded (requireGet r w) (
    let! summary := catch (MetricsSummary store) in
    gret (match summary with
          | Err _ => Error "failed to fetch metrics summary" 500 w
          | Ok summary => writeJSON 200 (Some (metricsSummaryResponse_json summary)) w
          end)).

End Handlers.
End OperationalHandlers.
