(* ===== verification/HttpFacts.v ===== *)
(** * HttpFacts: what a client of the HTTP API can rely on

    The status of an answer tells what happened to the tables; bodies over the
    limit never reach them; reading endpoints change nothing; and browsers of
    other origins are refused. *)

From S2P Require Import Prelude GoStrings GoErrors GoTime Json JsonDecode GoHttp Database DatabaseFacts.
From S2P Require Import RedisServer World WorldFacts RedisFacts Simulation Operations Ingestion AiTriage HttpApi.
From S2P Require Import OperationalHandlers Samples.
Import Operations Ingestion AiTriage HttpApi OperationalHandlers.

Module HttpFacts.

(** ** Reading a body *)

(** The second [Decode] reports EOF only at the real end of the body. *)
Lemma decode_next_eof {SC : Strconv} limit cut l e :
  decode_next (MaxBytesError limit) cut l = Err e -> errors_Is e ioEOF = true ->
  cut = false /\ skip_space l = [].
Proof.
  unfold decode_next. intros H He. destruct (skip_space l) as [|c l'] eqn:El.
  - destruct cut; by simplify_eq.
  - destruct (scan_value _ _ l) as [[v rest]|]; destruct cut; simpl in H; repeat case_match; simplify_eq; done.
Qed.

(** A body is accepted only if it is at most the limit and holds one value. *)
Lemma decodeJSONRequest_ok {SC : Strconv} {A} (dst : json -> list ascii -> option A) body limit a :
  decodeJSONRequest dst body limit = Ok a ->
  Z.of_nat (length (chars body)) <= limit /\
  exists v, parse body = Some v /\ dst v (chars body) = Some a.
Proof.
  unfold decodeJSONRequest, limit_body. intros H.
  destruct (limit <? Z.of_nat (length (chars body))) eqn:El.
  - exfalso. set (l := take _ _) in H. destruct (decode_next _ true l) as [[v rest]|]; [simpl in H|done].
    destruct (dst v l); [|done].
    destruct (decode_next _ true rest) as [[x ?]|e] eqn:E2; [by destruct (to_any_float x)|].
    destruct (errors_Is e ioEOF) eqn:Ee; [|done]. by apply decode_next_eof in E2 as [? _].
  - rail_bool. split; [done|].
    destruct (decode_next _ false (chars body)) as [[v rest]|] eqn:E1; [simpl in H|done].
    destruct (dst v (chars body)) as [a'|] eqn:Ed; [|done].
    destruct (decode_next _ false rest) as [[x ?]|e] eqn:E2; [by destruct (to_any_float x)|].
    destruct (errors_Is e ioEOF) eqn:Ee; [|done]. apply decode_next_eof in E2 as [_ Hs]; [|done]. simplify_eq.
    exists v. split; [|done]. unfold decode_next in E1. unfold parse.
    destruct (skip_space (chars body)); [done|].
    destruct (scan_value _ _ _) as [[v' r']|]; simpl in E1; simplify_eq. by rewrite Hs.
Qed.

(** ** Handlers answer *)

Lemma response_status_writeJSON c v w : rw_wrote w = None -> response_status (writeJSON c v w) = c.
Proof. destruct w as [h [?|] b]; [done|]. by destruct v. Qed.

#[local] Hint Rewrite response_status_writeJSON using done : rail.

(** The computation returns a writer, of which [P] holds. *)
Definition answers {R} (P : ResponseWriter -> Prop) (m : M (R:=R) ResponseWriter) : Prop :=
  forall w, exists rw', (m w).1 = Ok rw' /\ P rw'.

Lemma answers_ret {R} P rw : P rw -> answers (R:=R) P (gret rw).
Proof. intros HP w. by exists rw. Qed.

Lemma answers_catch {R A} P (m : M (R:=R) A) (k : res error A -> M ResponseWriter) :
  (forall x, answers P (k x)) -> answers P (gbind (catch m) k).
Proof. intros Hk w. unfold gbind, catch. destruct (m w) as [x w']. apply Hk. Qed.

Lemma answers_run {R} P (m : M (R:=R) ResponseWriter) w :
  answers P m -> exists rw' w', m w = (Ok rw', w') /\ P rw'.
Proof. intros Hm. destruct (Hm w) as (rw' & E & HP). destruct (m w) as [r w']. simpl in E. subst. eauto. Qed.

Ltac answers_all :=
  repeat match goal with
  | |- answers _ (match ?x with _ => _ end) => destruct x
  | |- answers _ (gbind (catch _) _) => apply answers_catch; intros ?
  | |- answers _ (gret _) => apply answers_ret
  | |- answers _ (let _ := _ in _) => cbv zeta
  end.

(** ** POST /events *)

Section Create.
Context {SC : Strconv} {PG : Postgres} {R : Type}.
Abbreviation W := (World R).
Implicit Types w : W.

(** The request is well formed: one JSON object of at most 1 MiB that names a
    type and a source and has a payload. *)
Record accepted (r : Request) (req : CreateEventRequest) : Prop := {
  acc_method : Method r = "POST";
  acc_size : Z.of_nat (length (chars (Body r))) <= MaxJSONRequestBodyBytes;
  acc_body : exists v, parse (Body r) = Some v /\ createEventRequest_of v (chars (Body r)) = Some req;
  acc_type : cr_EventType req <> "";
  acc_source : cr_Source req <> "";
  acc_payload : TrimSpace (cr_Payload req) <> "" /\ TrimSpace (cr_Payload req) <> "null";
}.

Definition input_of (req : CreateEventRequest) : EventInput :=
  mkEventInput (cr_EventType req) (cr_Source req) (cr_Payload req).

Definition answer_body (id : string) (created : bool) : string :=
  marshal (createEventResponse_json (mkCreateEventResponse id created)) +:+ newline.

(** What each status means for the tables. *)
Inductive create_answer (req : CreateEventRequest) (key : option string) (db db' : DB) (body : string)
    : Z -> Prop :=
| answer_created id hash :
    ingested (input_of req) key hash id db db' -> body = answer_body id true ->
    create_answer req key db db' body 201
| answer_repeated id k e hash :
    db' = db -> key = Some k -> event_by_key (cr_Source req) k db = Some (id, e) ->
    computeRequestHash (cr_EventType req) (cr_Source req) (cr_Payload req) = Ok hash ->
    ev_request_hash e = Some hash -> body = answer_body id false ->
    create_answer req key db db' body 200
| answer_conflict id k e hash :
    db' = db -> key = Some k -> event_by_key (cr_Source req) k db = Some (id, e) ->
    computeRequestHash (cr_EventType req) (cr_Source req) (cr_Payload req) = Ok hash ->
    ev_request_hash e <> Some hash ->
    create_answer req key db db' body 409
| answer_failed :
    db' = db \/ (exists id hash, ingested (input_of req) key hash id db db') ->
    create_answer req key db db' body 500.

Lemma create_decode_ok r req :
  Method r = "POST" -> DecodeJSONRequest createEventRequest_of r = Ok req ->
  String.eqb (cr_EventType req) "" || String.eqb (cr_Source req) "" ||
    isMissingJSONPayload (cr_Payload req) = false ->
  accepted r req.
Proof.
  intros Hm Hd Hb. apply decodeJSONRequest_ok in Hd as [Hl Hv].
  unfold isMissingJSONPayload in Hb. rail_bool. by split.
Qed.

Lemma create_handler r rw w :
  rw_wrote rw = None -> w_tx w = None ->
  exists rw' w', NewCreateEventHandler PersistEventWithOutbox r rw w = (Ok rw', w') /\
    ((response_status rw' ∈ [400; 405; 413] /\ w' = w) \/
     exists req body, accepted r req /\ rw_body rw' = rw_body rw +:+ body /\ w_tx w' = None /\
       w_redis w' = w_redis w /\
       create_answer req (norm_key (HeaderGet "Idempotency-Key" r)) (w_db w) (w_db w') body
         (response_status rw')).
Proof.
  intros Hrw Hw. unfold NewCreateEventHandler, requirePost, guarded.
  destruct (String.eqb_spec (Method r) "POST") as [Hm|Hm]; simpl; cycle 1.
  { do 2 eexists. split; [done|]. left. split; [|done]. rewrite response_status_WriteHeader by done. set_solver. }
  destruct (DecodeJSONRequest createEventRequest_of r) as [req|e] eqn:Ed; cycle 1.
  { do 2 eexists. split; [done|]. left. split; [|done].
    repeat case_match; rewrite response_status_Error by done; set_solver. }
  destruct (_ || _) eqn:Eb.
  { do 2 eexists. split; [done|]. left. split; [|done]. rewrite response_status_Error by done. set_solver. }
  pose proof (create_decode_ok r req Hm Ed Eb) as Hacc. unfold gbind at 1, catch.
  set (key := HeaderGet _ r).
  destruct (PersistEventWithOutbox _ key w) as [x w'] eqn:Ep.
  pose proof (persist_cases _ _ _ _ _ Hw Ep) as ((Ht & _ & Hr & _) & Hdb & Hx).
  destruct x as [x|e]; do 2 eexists; (split; [reflexivity|]); right; exists req.
  - destruct (Hx x eq_refl) as (hash & Hh & Hc). exists (answer_body (res_EventID x) (Created x)).
    destruct rw as [h [?|] b]; [done|]. unfold writeJSON. simpl. split_and!; try done.
    destruct (Created x); simpl; [by eapply answer_created|].
    destruct Hc as (? & k & e & ? & ? & ?). by eapply answer_repeated.
  - destruct rw as [h [?|] b]; [done|]. destruct (errors_Is e ErrIdempotencyConflict) eqn:Ee.
    + exists ("idempotency key was already used for a different request" +:+ newline). split_and!; try done. simpl.
      eapply persist_conflict in Ep as (? & k & id & row & hash & ? & ? & ? & ?); [|done..].
      by eapply answer_conflict.
    + exists ("failed to persist event" +:+ newline). split_and!; try done. simpl. apply answer_failed.
      destruct Hdb as [|(hash & id & _ & ?)]; [by left|right; by exists id, hash].
Qed.

(** C15: The answer to POST /events tells what was stored.  A request that is not
    well formed (another method, a body over 1 MiB or that is not exactly one
    JSON object, a missing field) is answered 405, 413 or 400 and touches
    nothing.  For a well-formed one, under every fault: 201 means the event, its
    outbox row and history are stored and the body names it; 200 means nothing
    changed and the body names the event first stored under the key with the same
    request hash; 409 means nothing changed and the key belongs to an event with
    another hash; 500 leaves nothing or all of it stored. *)
Theorem create_event_http r rw w :
  rw_wrote rw = None -> w_tx w = None ->
  exists rw' w', NewCreateEventHandler PersistEventWithOutbox r rw w = (Ok rw', w') /\
    ((response_status rw' ∈ [400; 405; 413] /\ w' = w) \/
     exists req body, accepted r req /\ rw_body rw' = rw_body rw +:+ body /\ w_tx w' = None /\
       w_redis w' = w_redis w /\
       create_answer req (norm_key (HeaderGet "Idempotency-Key" r)) (w_db w) (w_db w') body
         (response_status rw')).
Proof. apply create_handler. Qed.

End Create.
(** ** Reading endpoints *)

Section Reads.
Context {SC : Strconv} {LZ : LocalZone} {NC : NetClients} {MR : MapRange} {PG : Postgres} {R : Type} `{!AIService R}.
Abbreviation W := (World R).
Abbreviation M := (M (R:=R)).
Implicit Types w : W.

Lemma fetchEvent_unchanged e : keeps unchanged (fetchEvent OnPool e : M EventMetadata).
Proof. unfold fetchEvent, run_query. keeps_all. Qed.

Lemma require_pool_unchanged {A} s (m : M A) : keeps unchanged m -> keeps unchanged (require_pool s m).
Proof. unfold require_pool. intros Hm. destruct s as [[[p|]]|]; [done|keeps_all..]. Qed.

Lemma EventStatus_unchanged s e : keeps unchanged (EventStatus s e : M EventStatus_).
Proof.
  apply require_pool_unchanged. unfold fetchStatusHistory, fetchDeliveryAttempts, run_query.
  keeps_all. apply fetchEvent_unchanged.
Qed.

Lemma DLQDetail_unchanged s e : keeps unchanged (DLQDetail s e : M DLQDetail_).
Proof.
  apply require_pool_unchanged. unfold fetchStatusHistory, fetchDeliveryAttempts, run_query.
  keeps_all; apply fetchEvent_unchanged.
Qed.

Lemma ListDLQ_unchanged s st n : keeps unchanged (ListDLQ s st n : M (list DLQRecord)).
Proof. apply require_pool_unchanged. unfold run_query. keeps_all. Qed.

Lemma MetricsSummary_unchanged s : keeps unchanged (MetricsSummary s : M MetricsSummary_).
Proof. apply require_pool_unchanged. keeps_all. Qed.

Lemma Triage_unchanged c q : keeps unchanged (Triage c q : M triageResponse).
Proof. unfold Triage. keeps_all. intros w. apply ai_do_frame. Qed.

#[local] Hint Resolve EventStatus_unchanged DLQDetail_unchanged ListDLQ_unchanged MetricsSummary_unchanged
  Triage_unchanged : rail.

Lemma status_handler_unchanged s r rw : keeps unchanged (NewEventStatusHandler s r rw : M ResponseWriter).
Proof. unfold NewEventStatusHandler, guarded. keeps_all. Qed.

Lemma metrics_handler_unchanged s r rw : keeps unchanged (NewMetricsSummaryHandler s r rw : M ResponseWriter).
Proof. unfold NewMetricsSummaryHandler, guarded. keeps_all. Qed.

Lemma dlq_list_unchanged s r rw : keeps unchanged (handleDLQList s r rw : M ResponseWriter).
Proof. unfold handleDLQList, guarded. keeps_all. Qed.

Lemma dlq_detail_unchanged s e r rw : keeps unchanged (handleDLQDetail s e r rw : M ResponseWriter).
Proof. unfold handleDLQDetail, guarded. keeps_all. Qed.

Lemma dlq_triage_unchanged s c e r rw :
  keeps unchanged (handleDLQTriage s (Some (Triage c)) e r rw : M ResponseWriter).
Proof. unfold handleDLQTriage, guarded. keeps_all. Qed.

(** A request the path and method of which ask for a redrive of [id]. *)
Definition asks_redrive (r : Request) (id : string) : Prop :=
  Method r = "POST" /\ Split (TrimByte "/" (TrimPrefix (Path r) "/dlq")) "/" = [id; "redrive"].

Ltac other_status :=
  match goal with |- context [String.eqb (Method ?r) ?m] => destruct (String.eqb (Method r) m) end;
  cbv beta iota delta [negb];
  answers_all; repeat case_match; intros Hs; autorewrite with rail in Hs; done.

Lemma dlq_list_answers s r rw : rw_wrote rw = None ->
  answers (fun rw' => response_status rw' <> 202) (handleDLQList s r rw : M ResponseWriter).
Proof. intros Hrw. unfold handleDLQList, guarded, requireGet. other_status. Qed.

Lemma dlq_detail_answers s e r rw : rw_wrote rw = None ->
  answers (fun rw' => response_status rw' <> 202) (handleDLQDetail s e r rw : M ResponseWriter).
Proof. intros Hrw. unfold handleDLQDetail, guarded, requireGet. other_status. Qed.

Lemma dlq_triage_answers s c e r rw : rw_wrote rw = None ->
  answers (fun rw' => response_status rw' <> 202) (handleDLQTriage s c e r rw : M ResponseWriter).
Proof. intros Hrw. unfold handleDLQTriage, guarded, requirePost. other_status. Qed.

(** A reading handler, as a case of the endpoint. *)
Lemma reads_only (m : M ResponseWriter) w :
  keeps unchanged m -> answers (fun rw' => response_status rw' <> 202) m ->
  exists rw' w', m w = (Ok rw', w') /\ w_db w' = w_db w /\ w_tx w' = w_tx w /\ w_redis w' = w_redis w /\
    response_status rw' <> 202.
Proof.
  intros Hk Ha. destruct (answers_run _ _ w Ha) as (rw' & w' & E & Hs). specialize (Hk w).
  rewrite E in Hk. destruct Hk as (? & ? & ?). eauto 10.
Qed.

Context (publish : fields -> M string) (sent : fields -> R -> R -> Prop) `{!RedriveSender publish sent}.

(** What the redrive endpoint answers, and what it did. *)
Inductive redrive_answer (id : string) (w w' : W) : Z -> Prop :=
| redrive_accepted now u d row :
    open_record id u d row (w_db w) -> redriven now u d (w_db w) (w_db w') ->
    sent (redrive_values (event_metadata u row)) (w_redis w) (w_redis w') -> redrive_answer id w w' 202
| redrive_unknown u :
    uuid_in id = Some u -> dlq_records (w_db w) !! u = None ->
    w_db w' = w_db w -> w_redis w' = w_redis w -> redrive_answer id w w' 404
| redrive_not_open u d :
    uuid_in id = Some u -> dlq_records (w_db w) !! u = Some d -> dq_status d <> DLQStatusOpen ->
    w_db w' = w_db w -> w_redis w' = w_redis w -> redrive_answer id w w' 409
| redrive_failed e : redrive_outcome sent id w w' (Err e) -> redrive_answer id w w' 503.

Lemma redrive_handler s id r rw w :
  rw_wrote rw = None -> w_tx w = None -> Method r = "POST" ->
  exists rw' w', handleDLQRedrive s (Some publish) id r rw w = (Ok rw', w') /\ w_tx w' = None /\
    redrive_answer id w w' (response_status rw').
Proof.
  intros Hrw Hw Hm. unfold handleDLQRedrive, guarded, requirePost. rewrite Hm. cbv beta iota delta [negb String.eqb Ascii.eqb Bool.eqb].
  unfold gbind, catch. destruct (RedriveDLQ _ _ _ w) as [x w'] eqn:E.
  pose proof (redrive_cases publish sent _ _ _ _ _ Hw E) as (Ht & _ & Ho).
  do 2 eexists. split; [reflexivity|]. split; [done|]. destruct x as [x|e].
  - inversion Ho; subst. rewrite response_status_writeJSON by done. by eapply redrive_accepted.
  - destruct (errors_Is e ErrDLQNotFound) eqn:E1; [|destruct (errors_Is e ErrDLQNotOpen) eqn:E2].
    + rewrite response_status_WriteHeader by done.
      eapply (redrive_refusal publish sent) in E as (u & Hu & Hdb & Hr & Hd); [|done|by left|done].
      destruct (dlq_records (w_db w) !! u) eqn:El; [by destruct Hd|]. by eapply redrive_unknown.
    + rewrite response_status_Error by done.
      eapply (redrive_refusal publish sent) in E as (u & Hu & Hdb & Hr & Hd); [|done|by right|done].
      destruct (dlq_records (w_db w) !! u) eqn:El; [|done]. destruct Hd. by eapply redrive_not_open.
    + rewrite response_status_Error by done. by eapply redrive_failed.
Qed.

(** Without faults a redrive that is refused names the reason. *)
Lemma redrive_refused_exec p id u w :
  w_env w = [] -> uuid_in id = Some u ->
  match dlq_records (w_db w) !! u with
  | None => (RedriveDLQ (Some (mkStore (Some p))) id (Some publish) w).1 = Err (Sentinel ErrDLQNotFound)
  | Some d => dq_status d <> DLQStatusOpen ->
              (RedriveDLQ (Some (mkStore (Some p))) id (Some publish) w).1 = Err (Sentinel ErrDLQNotOpen)
  end.
Proof.
  intros He Hu. unfold RedriveDLQ. cbn [require_pool].
  rewrite (gbind_ok _ _ _ _ _ (wrap_err_ok _ _ _ _ _ (begin_tx_exec _ He))).
  unfold deferred_rollback, defer. set (w1 := with_tx _ w).
  rewrite (gbind_ok _ _ _ (dq_status <$> dlq_records (w_db w) !! u) w1); cycle 1.
  { apply wrap_err_ok. refine (tx_stmt_exec _ w1 (mkTx (w_db w) (micros (w_now w))) _ (w_db w) He eq_refl _).
    unfold selectDlqStatusSQL. by rewrite Hu. }
  destruct (dlq_records (w_db w) !! u) as [d|]; [|done]. intros Hst. simpl.
  by rewrite (proj2 (String.eqb_neq _ _) Hst).
Qed.

(** What a redrive is answered when nothing fails. *)
Definition redrive_status (s : option Store) (id : string) (w : W) (code : Z) : Prop :=
  forall p u, s = Some (mkStore (Some p)) -> w_env w = [] -> uuid_in id = Some u ->
    match dlq_records (w_db w) !! u with
    | None => code = 404
    | Some d => dq_status d <> DLQStatusOpen -> code = 409
    end.

Lemma redrive_handler_status s id r rw w rw' w' :
  rw_wrote rw = None -> Method r = "POST" -> handleDLQRedrive s (Some publish) id r rw w = (Ok rw', w') ->
  redrive_status s id w (response_status rw').
Proof.
  intros Hrw Hm HH p u -> He Hu. unfold handleDLQRedrive, guarded, requirePost in HH. rewrite Hm in HH.
  cbv beta iota delta [negb String.eqb Ascii.eqb Bool.eqb] in HH. unfold gbind, catch, gret in HH.
  pose proof (redrive_refused_exec p id u w He Hu) as Hx.
  destruct (RedriveDLQ _ _ _ w) as [x w1]. simpl in Hx.
  destruct (dlq_records (w_db w) !! u) as [d|]; [intros Hd; rewrite (Hx Hd) in HH|rewrite Hx in HH]; simpl in HH; simplify_eq.
  - by rewrite response_status_Error.
  - by rewrite response_status_WriteHeader.
Qed.

(** C21: The dead-letter endpoint, for every request and under every fault.  A POST
    to [/dlq/<id>/redrive] is answered 202, 404, 409 or 503: 202 means that the
    record was OPEN, its event was sent with a fresh retry count and the record is
    REDRIVEN; 404 that there is no record and 409 that it is not OPEN, and that
    nothing was touched; 503 leaves one of the outcomes of a failed redrive.
    Without faults a missing record is answered 404 and one that is not OPEN 409.
    Every other request (listing, details, triage, other methods and paths) leaves
    the tables and Redis as they were and is not answered 202. *)
Theorem dlq_endpoint s c r rw w :
  rw_wrote rw = None -> w_tx w = None ->
  exists rw' w', NewDLQHandler s (Some publish) (Some (Triage c)) r rw w = (Ok rw', w') /\ w_tx w' = None /\
    (forall id, asks_redrive r id -> redrive_answer id w w' (response_status rw') /\
       redrive_status s id w (response_status rw')) /\
    ((forall id, ~ asks_redrive r id) -> w_db w' = w_db w /\ w_redis w' = w_redis w /\ response_status rw' <> 202).
Proof.
  intros Hrw Hw.
  assert (Hread : forall m : M ResponseWriter, (forall id, ~ asks_redrive r id) -> keeps unchanged m ->
    answers (fun rw' => response_status rw' <> 202) m ->
    exists rw' w', m w = (Ok rw', w') /\ w_tx w' = None /\
      (forall id, asks_redrive r id -> redrive_answer id w w' (response_status rw') /\ redrive_status s id w (response_status rw')) /\
      ((forall id, ~ asks_redrive r id) -> w_db w' = w_db w /\ w_redis w' = w_redis w /\ response_status rw' <> 202)).
  { intros m Hn Hk Ha. destruct (reads_only m w Hk Ha) as (rw' & w' & E & H1 & H2 & H3 & H4).
    exists rw', w'. split_and!; [done|congruence|intros id Hi; by destruct (Hn id)|done]. }
  assert (H404 : answers (R:=R) (fun rw' => response_status rw' <> 202) (gret (WriteHeader 404 rw))).
  { apply answers_ret. by rewrite response_status_WriteHeader. }
  unfold NewDLQHandler. destruct (String.eqb_spec (TrimByte "/" (TrimPrefix (Path r) "/dlq")) "") as [Hp|Hp].
  { apply Hread; [|apply dlq_list_unchanged|by apply dlq_list_answers]. intros id [_ Hs]. by rewrite Hp in Hs. }
  destruct (Split _ "/") as [|id [|action [|x l]]] eqn:Es;
    try (apply Hread; [intros ? [_ Hs]; by rewrite Es in Hs|by keeps_all|done]).
  - apply Hread; [intros ? [_ Hs]; by rewrite Es in Hs|apply dlq_detail_unchanged|by apply dlq_detail_answers].
  - destruct (String.eqb_spec action "redrive") as [->|Hne].
    + destruct (String.eqb_spec (Method r) "POST") as [Hm|Hm].
      * destruct (redrive_handler s id r rw w Hrw Hw Hm) as (rw' & w' & E & Ht & Ha).
        exists rw', w'. split_and!; [done|done| |].
        -- intros id' [_ Hs]. rewrite Es in Hs. simplify_eq. split; [done|]. by eapply redrive_handler_status.
        -- intros Hn. by destruct (Hn id).
      * unfold handleDLQRedrive, guarded, requirePost. rewrite (proj2 (String.eqb_neq _ _) Hm). cbv beta iota delta [negb].
        apply Hread; [by intros ? [? _]|by keeps_all|]. apply answers_ret. by rewrite response_status_WriteHeader.
    + destruct (String.eqb action "triage"); (apply Hread; [intros ? [_ Hs]; rewrite Es in Hs; by simplify_eq|..]);
        [apply dlq_triage_unchanged|by apply dlq_triage_answers|by keeps_all|done].
Qed.

End Reads.
(** ** Runs *)

Definition post (path body : string) (header : list (string * string)) : Request :=
  mkRequest "POST" path "" header body.

Definition order_body : string := quoted
  " {'event_type': 'order.created', 'source': 'shop', 'payload': { }} ".

(** A new event is stored and named in the answer. *)
Lemma create_event_http_witness :
  let r := post "/events" order_body [("Idempotency-Key", "k1")] in
  exists rw' w', NewCreateEventHandler PersistEventWithOutbox r new_writer (sim_world empty_db empty_redis 0 [] [])
      = (Ok rw', w') /\ response_status rw' = 201 /\
    exists req id hash, accepted r req /\ ingested (input_of req) (Some "k1") hash id empty_db (w_db w').
Proof.
  cbv zeta. set (r := post _ _ _). set (w := sim_world _ _ _ _ _).
  destruct (create_event_http r new_writer w eq_refl eq_refl) as (rw' & w' & E & H).
  exists rw', w'. split; [exact E|].
  assert (Hs : response_status rw' = 201).
  { assert (match (NewCreateEventHandler PersistEventWithOutbox r new_writer w).1 with
            | Ok x => response_status x | Err _ => 0 end = 201) as Hc by (vm_compute; reflexivity).
    by rewrite E in Hc. }
  split; [exact Hs|]. rewrite Hs in H. destruct H as [[H _]|(req & body & Ha & _ & _ & _ & H)];
    [apply list_elem_of_In in H; simpl in H; lia|].
  inversion H as [id hash Hi _| | |]; subst. exists req, id, hash. split; [exact Ha|]. exact Hi.
Defined.

Definition sent_to (stream : string) (v : fields) (r r' : SimRedis) : Prop :=
  exists id, added stream v r id r'.

(** The dead letter is redriven. *)
Lemma dlq_endpoint_witness :
  let r := post ("/dlq/" +:+ stored_id +:+ "/redrive") "" [] in
  let c := NewAITriageClient "http://ai:8090" None in
  let w := sim_world dead_db empty_redis 5000000 [] [] in
  exists rw' w', NewDLQHandler the_store (Some (XAdd "events")) (Some (Triage c)) r new_writer w = (Ok rw', w') /\
    response_status rw' = 202 /\ asks_redrive r stored_id /\ redrive_answer (sent_to "events") stored_id w w' 202.
Proof.
  cbv zeta. set (r := post _ _ _). set (c := NewAITriageClient _ _). set (w := sim_world _ _ _ _ _).
  destruct (dlq_endpoint (XAdd "events") (sent_to "events") the_store c r new_writer w eq_refl eq_refl)
    as (rw' & w' & E & _ & H).
  exists rw', w'. split; [exact E|].
  assert (Hs : response_status rw' = 202).
  { assert (match (NewDLQHandler the_store (Some (XAdd "events")) (Some (Triage c)) r new_writer w).1 with
            | Ok x => response_status x | Err _ => 0 end = 202) as Hc by (vm_compute; reflexivity).
    by rewrite E in Hc. }
  split; [exact Hs|]. assert (Ha : asks_redrive r stored_id) by (split; vm_compute; reflexivity).
  split; [exact Ha|]. destruct H as [H _]. destruct (H stored_id Ha) as [H' _]. by rewrite Hs in H'.
Defined.

End HttpFacts.
