(* ===== verification/GoTimeParse.v ===== *)
(** * GoTimeParse: [time.Parse(time.RFC3339, s)]

    The general parser of Go's [time] package for the layout
    2006-01-02T15:04:05Z07:00: two-digit fields except the hour, which may have
    one digit; a fraction of a second of any length, after a point or a comma,
    kept to nanoseconds; Z or an offset.  The result is the instant in
    nanoseconds. *)

From S2P Require Import Prelude GoStrings GoTime.

(** Days since the epoch of a date of the proleptic Gregorian calendar. *)
Definition days_of_civil (y m d : Z) : Z :=
  let y' := if m <=? 2 then y - 1 else y in
  let era := y' / 400 in
  let yoe := y' mod 400 in
  let mp := if m <=? 2 then m + 9 else m - 3 in
  let doy := (153 * mp + 2) / 5 + d - 1 in
  era * 146097 + (365 * yoe + yoe / 4 - yoe / 100 + doy) - 719468.

Definition is_leap (y : Z) : bool :=
  (y mod 4 =? 0) && (negb (y mod 100 =? 0) || (y mod 400 =? 0)).

Definition daysIn (m y : Z) : Z :=
  if m =? 2 then if is_leap y then 29 else 28
  else if (m =? 4) || (m =? 6) || (m =? 9) || (m =? 11) then 30 else 31.

(** ** Fields *)

Definition lit (c : ascii) (s : string) : option string :=
  match s with
  | String c' s' => if Ascii.eqb c c' then Some s' else None
  | EmptyString => None
  end.

(** [getnum(s, fixed)] *)
Definition getnum (fixed : bool) (s : string) : option (Z * string) :=
  match s with
  | EmptyString => None
  | String c0 s0 =>
      match digit_val c0 with
      | None => None
      | Some d0 =>
          match s0 with
          | String c1 s1 => match digit_val c1 with
                            | Some d1 => Some (d0 * 10 + d1, s1)
                            | None => if fixed then None else Some (d0, s0)
                            end
          | EmptyString => if fixed then None else Some (d0, s0)
          end
      end
  end.

(** The year: exactly four digits. *)
Definition getyear (s : string) : option (Z * string) :=
  match s with
  | String a (String b (String c (String d s'))) =>
      y ← parse_digits (String a (String b (String c (String d "")))) 0; Some (y, s')
  | _ => None
  end.

Fixpoint digit_span (s : string) : string * string :=
  match s with
  | EmptyString => ("", "")
  | String c s' => match digit_val c with
                   | Some _ => let '(a, b) := digit_span s' in (String c a, b)
                   | None => ("", s)
                   end
  end.

(** [parseNanoseconds]: digits after the ninth are dropped. *)
Definition nanoseconds (digits : string) : Z :=
  let ds := String.substring 0 9 digits in
  default 0 (parse_digits ds 0) * 10 ^ (9 - Z.of_nat (String.length ds)).

Definition fraction (s : string) : Z * string :=
  match s with
  | String p s' =>
      if Ascii.eqb p "." || Ascii.eqb p "," then
        match digit_span s' with
        | (EmptyString, _) => (0, s)
        | (digits, rest) => (nanoseconds digits, rest)
        end
      else (0, s)
  | EmptyString => (0, s)
  end.

(** [Z07:00]: an offset from UTC in seconds *)
Definition zone (s : string) : option (Z * string) :=
  match s with
  | EmptyString => None
  | String sign s' =>
      if Ascii.eqb sign "Z" then Some (0, s') else
      '(hr, s1) ← getnum true s';
      s2 ← lit ":" s1;
      '(mm, s3) ← getnum true s2;
      if (24 <? hr) || (60 <? mm) then None else
      let off := (hr * 60 + mm) * 60 in
      if Ascii.eqb sign "+" then Some (off, s3)
      else if Ascii.eqb sign "-" then Some (- off, s3) else None
  end.

(** A field within its range, and the separator after it. *)
Definition field (get : string -> option (Z * string)) (lo hi : Z) (sep : ascii) (s : string)
    : option (Z * string) :=
  '(n, s1) ← get s;
  if (lo <=? n) && (n <=? hi) then s2 ← lit sep s1; Some (n, s2) else None.

Definition Parse_RFC3339 (s : string) : option Z :=
  '(y, s1) ← field getyear 0 9999 "-" s;
  '(mo, s2) ← field (getnum true) 1 12 "-" s1;
  '(d, s3) ← field (getnum true) 0 99 "T" s2;
  '(h, s4) ← field (getnum false) 0 23 ":" s3;
  '(mi, s5) ← field (getnum true) 0 59 ":" s4;
  '(se, s6) ← getnum true s5;
  if 59 <? se then None else
  let '(ns, s7) := fraction s6 in
  '(off, s8) ← zone s7;
  if String.eqb s8 "" && (1 <=? d) && (d <=? daysIn mo y) then
    Some ((days_of_civil y mo d * 86400 + h * 3600 + mi * 60 + se - off) * ns_per_s + ns)
  else None.

(** ** Dates *)

#[local] Ltac Zify.zify_post_hook ::= Z.to_euclidean_division_equations.

(** Year [yoe] of the era and day [doy] of that year, both from March 1st; only
    a leap year has a day 365. *)
Lemma era_bounds doe :
  0 <= doe < 146097 ->
  let yoe := (doe - doe / 1460 + doe / 36524 - doe / 146096) / 365 in
  let doy := doe - (365 * yoe + yoe / 4 - yoe / 100) in
  0 <= yoe < 400 /\ 0 <= doy <= 365 /\
  (doy = 365 -> (yoe + 1) mod 4 = 0 /\ ((yoe + 1) mod 100 <> 0 \/ yoe = 399)).
Proof.
  intros H. cbv zeta.
  assert (doe / 146096 = 0 /\ doe < 146096 \/ doe / 146096 = 1 /\ doe = 146096) as Hc by lia.
  destruct Hc as [[-> ?]|[-> ->]];
    [|vm_compute; split_and!; try congruence; intros; split; [congruence|tauto]].
  assert (exists b, doe / 36524 = b /\ 36524 * b <= doe < 36524 * b + 36524 /\ 0 <= b <= 3)
    as (b & Hb & Hb1 & Hb2) by (exists (doe / 36524); lia).
  rewrite Hb. set (a := doe / 1460).
  assert (1460 * a <= doe < 1460 * a + 1460) by (unfold a; lia). clearbody a.
  set (yoe := _ / 365).
  assert (365 * yoe <= doe - a + b - 0 < 365 * yoe + 365) by (unfold yoe; lia). clearbody yoe.
  assert (0 <= yoe < 400) by lia.
  assert (yoe / 100 = b) as Hq.
  { assert (b = 0 \/ b = 1 \/ b = 2 \/ b = 3) by lia. destruct_or!; subst; lia. }
  rewrite Hq. assert (a - 1 <= yoe / 4 <= a) by lia.
  split_and!; [lia..|]. intros Hd.
  assert (yoe = 4 * (yoe / 4) + yoe mod 4) by lia.
  assert (yoe mod 4 = 3) by lia. split; [lia|]. left. intros Hm.
  assert (yoe = 100 * b + 99) by lia. lia.
Qed.

(** A day has one date, and the date is valid. *)
Lemma civil_roundtrip days y m d :
  civil_of_days days = (y, m, d) ->
  days_of_civil y m d = days /\ 1 <= m <= 12 /\ 1 <= d <= daysIn m y.
Proof.
  unfold civil_of_days. set (doe := (days + 719468) mod 146097). set (era := (days + 719468) / 146097).
  assert (days = era * 146097 + doe - 719468 /\ 0 <= doe < 146097) as [Hdays Hdoe].
  { unfold era, doe. lia. }
  clearbody doe era. pose proof (era_bounds doe Hdoe) as Hb. cbv zeta in *.
  set (yoe := _ / 365) in *. clearbody yoe.
  set (doy := doe - _) in *. assert (doe = 365 * yoe + yoe / 4 - yoe / 100 + doy) as He by (unfold doy; lia).
  clearbody doy. destruct Hb as (Hy & Hd & Hleap). intros [= <- <- <-].
  set (mp := (5 * doy + 2) / 153).
  assert (0 <= mp <= 11 /\ (153 * mp + 2) / 5 <= doy) as [Hmp Hlo] by (unfold mp; lia).
  assert (doy < (153 * (mp + 1) + 2) / 5) as Hhi by (unfold mp; lia).
  clearbody mp. unfold days_of_civil.
  assert ((yoe + era * 400) / 400 = era /\ (yoe + era * 400) mod 400 = yoe) as [Hera Hyoe] by lia.
  destruct (Z.ltb_spec mp 10).
  - assert (mp + 3 <=? 2 = false) as -> by lia. rewrite Z.add_0_r, Hera, Hyoe.
    replace (mp + 3 - 3) with mp by lia. split_and!; [lia..|].
    unfold daysIn. assert (mp + 3 =? 2 = false) as -> by lia.
    assert (mp = 0 \/ mp = 1 \/ mp = 2 \/ mp = 3 \/ mp = 4 \/ mp = 5 \/ mp = 6 \/ mp = 7 \/ mp = 8 \/ mp = 9)
      as Hm by lia.
    destruct_or! Hm; subst mp; simpl in *; lia.
  - assert (mp - 9 <=? 2 = true) as -> by lia. replace (yoe + era * 400 + 1 - 1) with (yoe + era * 400) by lia.
    rewrite Hera, Hyoe. replace (mp - 9 + 9) with mp by lia. split_and!; [lia..|].
    assert (mp = 10 \/ mp = 11) as [-> | ->] by lia; [change (daysIn (10 - 9) ?y) with 31; lia|].
    change (daysIn (11 - 9) ?y) with (if is_leap y then 29 else 28).
    change ((153 * 11 + 2) / 5) with 337 in *.
    destruct (is_leap _) eqn:El; [lia|]. destruct (Z.eq_dec doy 365) as [E|]; [|lia].
    exfalso. destruct (Hleap E) as [H4 H1]. unfold is_leap in El.
    assert ((yoe + era * 400 + 1) mod 4 = (yoe + 1) mod 4) as E4 by lia.
    assert ((yoe + era * 400 + 1) mod 100 = (yoe + 1) mod 100) as E1 by lia.
    assert ((yoe + era * 400 + 1) mod 400 = (yoe + 1) mod 400) as E400 by lia.
    rewrite E4, E1, E400, H4 in El. simpl in El. destruct H1 as [H1| ->]; [|done].
    apply Z.eqb_neq in H1. by rewrite H1 in El.
Qed.

(** ** Texts *)

Lemma pad2 n : pad 2 n = String (digit_char (n / 10 mod 10)) (String (digit_char (n mod 10)) "").
Proof. reflexivity. Qed.

Lemma pad4 n : pad 4 n =
  String (digit_char (n / 10 / 10 / 10 mod 10)) (String (digit_char (n / 10 / 10 mod 10))
    (String (digit_char (n / 10 mod 10)) (String (digit_char (n mod 10)) ""))).
Proof. reflexivity. Qed.

Lemma getnum_pad b n rest : 0 <= n < 100 -> getnum b (pad 2 n +:+ rest) = Some (n, rest).
Proof.
  intros Hn. rewrite pad2, !string_app_cons, string_app_nil_l. cbn [getnum].
  rewrite !digit_val_char by lia. do 2 f_equal. lia.
Qed.

Lemma getyear_pad n rest : 0 <= n < 10000 -> getyear (pad 4 n +:+ rest) = Some (n, rest).
Proof.
  intros Hn. rewrite pad4, !string_app_cons, string_app_nil_l.
  cbn -[Z.div Z.modulo digit_val digit_char]. rewrite !digit_val_char by lia. cbn -[Z.div Z.modulo].
  do 2 f_equal. lia.
Qed.

Lemma field_pad2 b n lo hi sep rest :
  lo <= n <= hi -> 0 <= n < 100 ->
  field (getnum b) lo hi sep (pad 2 n +:+ String sep rest) = Some (n, rest).
Proof.
  intros Hr Hn. unfold field. rewrite getnum_pad by done. simpl.
  assert ((lo <=? n) && (n <=? hi) = true) as -> by lia. by rewrite Ascii.eqb_refl.
Qed.

Lemma field_pad4 n sep rest :
  0 <= n <= 9999 -> field getyear 0 9999 sep (pad 4 n +:+ String sep rest) = Some (n, rest).
Proof.
  intros Hn. unfold field. rewrite getyear_pad by lia. simpl.
  assert ((0 <=? n) && (n <=? 9999) = true) as -> by lia. by rewrite Ascii.eqb_refl.
Qed.

(** *** Fractions *)

Lemma parse_digits_app a b acc :
  parse_digits (a +:+ b) acc = (parse_digits a acc ≫= parse_digits b).
Proof. revert acc. induction a as [|c a IH]; intros acc; simpl; [done|]. by destruct (digit_val c). Qed.

Lemma pad_length w n : String.length (pad w n) = w.
Proof. revert n. induction w as [|w IH]; intros n; simpl; [done|]. rewrite string_app_length, IH. simpl. lia. Qed.

Lemma parse_pad w n : 0 <= n < 10 ^ Z.of_nat w -> parse_digits (pad w n) 0 = Some n.
Proof.
  revert n. induction w as [|w IH]; intros n Hn; simpl pad.
  - simpl in *. f_equal. lia.
  - rewrite Nat2Z.inj_succ, Z.pow_succ_r in Hn by lia.
    rewrite parse_digits_app, IH by (revert Hn; generalize (10 ^ Z.of_nat w); lia).
    cbn -[Z.div Z.modulo]. rewrite digit_val_char by lia. f_equal. lia.
Qed.

(** Decimal digits only *)
Fixpoint all_digits (s : string) : Prop :=
  match s with EmptyString => True | String c s' => is_Some (digit_val c) /\ all_digits s' end.

Lemma all_digits_app a b : all_digits (a +:+ b) <-> all_digits a /\ all_digits b.
Proof. induction a as [|c a IH]; simpl; [|rewrite IH]; tauto. Qed.

Lemma pad_digits w n : all_digits (pad w n).
Proof.
  revert n. induction w as [|w IH]; intros n; simpl; [done|]. rewrite all_digits_app. split; [done|].
  split; [|done]. rewrite digit_val_char by lia. by eexists.
Qed.

Lemma digit_span_all a rest :
  all_digits a -> digit_span rest = ("", rest) -> digit_span (a +:+ rest) = (a, rest).
Proof.
  intros Ha Hr. induction a as [|c a IH]; simpl in *; [done|].
  destruct Ha as [[d ->] Ha]. by rewrite IH.
Qed.

Lemma frac_digits_spec w n :
  0 <= n < 10 ^ Z.of_nat w ->
  all_digits (frac_digits w n) /\ (String.length (frac_digits w n) <= w)%nat /\
  (n <> 0 -> frac_digits w n <> "") /\
  exists v, parse_digits (frac_digits w n) 0 = Some v /\
    v * 10 ^ (Z.of_nat w - Z.of_nat (String.length (frac_digits w n))) = n.
Proof.
  revert n. induction w as [|w IH]; intros n Hn.
  - simpl in *. split_and!; [done|lia|lia|]. exists 0. split; [done|lia].
  - cbn [frac_digits]. destruct (Z.eqb_spec (n mod 10) 0) as [E|E].
    + rewrite Nat2Z.inj_succ, Z.pow_succ_r in Hn by lia.
      destruct (IH (n / 10)) as (H1 & H2 & H3 & v & H4 & H5); [revert Hn; generalize (10 ^ Z.of_nat w); lia|].
      split_and!; [done|lia|intros; apply H3; lia|]. exists v. split; [done|].
      rewrite Nat2Z.inj_succ, <- Z.add_1_r. set (k := Z.of_nat (String.length _)) in *.
      replace (Z.of_nat w + 1 - k) with (Z.succ (Z.of_nat w - k)) by lia.
      rewrite Z.pow_succ_r by (subst k; lia). rewrite Z.mul_comm, <- Z.mul_assoc, (Z.mul_comm _ v), H5. lia.
    + split_and!; [apply pad_digits|by rewrite pad_length| |].
      * intros _ Hp. apply (f_equal String.length) in Hp. rewrite pad_length in Hp. simpl in Hp. lia.
      * exists n. rewrite parse_pad, pad_length by done. split; [done|]. by rewrite Z.sub_diag, Z.mul_1_r.
Qed.

Lemma substring_all k s : (String.length s <= k)%nat -> String.substring 0 k s = s.
Proof.
  revert k. induction s as [|c s IH]; intros [|k] Hk; simpl in *; try done; [lia|]. f_equal. apply IH. lia.
Qed.

Lemma fraction_frac n rest :
  0 <= n < ns_per_s -> digit_span rest = ("", rest) -> fraction rest = (0, rest) ->
  fraction ((if String.eqb (frac_digits 9 n) "" then "" else "." +:+ frac_digits 9 n) +:+ rest) = (n, rest).
Proof.
  intros Hn Hs Hf. destruct (frac_digits_spec 9 n) as (H1 & H2 & H3 & v & H4 & H5); [done|].
  revert H1 H2 H3 H4 H5. generalize (frac_digits 9 n). intros t H1 H2 H3 H4 H5.
  destruct (String.eqb_spec t "") as [E|E].
  - rewrite string_app_nil_l, Hf. f_equal. destruct (Z.eq_dec n 0) as [|Hn0]; [done|]. by destruct (H3 Hn0).
  - rewrite string_app_assoc, string_app_cons, string_app_nil_l. cbn [fraction].
    rewrite digit_span_all by done. simpl orb. cbv iota.
    unfold nanoseconds. rewrite substring_all, H4 by done. simpl default.
    destruct t; [done|]. by f_equal.
Qed.

(** ** Round trip *)

(** [pad] of the fields of a moment of the day *)
Lemma rfc3339_date_parse secs rest :
  forall y m d, civil_of_days (secs / 86400) = (y, m, d) -> 0 <= y <= 9999 ->
  Parse_RFC3339 (rfc3339_date secs +:+ rest) =
    (let '(ns, s7) := fraction rest in
     '(off, s8) ← zone s7;
     if String.eqb s8 "" then Some ((secs - off) * ns_per_s + ns) else None).
Proof.
  intros y m d Hc Hy. apply civil_roundtrip in Hc as Hd. destruct Hd as (Hdays & Hm & Hd).
  unfold rfc3339_date. rewrite Hc. rewrite !string_app_assoc, !string_app_cons, !string_app_nil_l.
  assert (daysIn m y <= 31) by (unfold daysIn; repeat case_match; lia).
  unfold Parse_RFC3339. rewrite field_pad4 by done. cbn [mbind option_bind].
  do 4 (rewrite field_pad2 by lia; cbn [mbind option_bind]). rewrite getnum_pad by lia. cbn [mbind option_bind].
  assert (59 <? secs mod 86400 mod 60 = false) as -> by lia.
  destruct (fraction rest) as [ns s7]. destruct (zone s7) as [[off s8]|]; [|done]. cbn [mbind option_bind].
  assert ((1 <=? d) && (d <=? daysIn m y) = true) as Hd' by lia. rewrite <- andb_assoc, Hd', andb_true_r, Hdays.
  destruct (String.eqb s8 ""); [|done]. do 3 f_equal. lia.
Qed.

(** The years [MarshalJSON] and four-digit texts can show *)
Definition four_digit_year (ns : Z) : Prop :=
  let '(y, _, _) := civil_of_days (ns / ns_per_s / 86400) in (0 <=? y) && (y <=? 9999) = true.
#[global] Instance four_digit_year_dec ns : Decision (four_digit_year ns).
Proof. unfold four_digit_year. destruct (civil_of_days _) as [[y m] d]. apply _. Defined.

Lemma Parse_rfc3339nano ns : four_digit_year ns -> Parse_RFC3339 (rfc3339nano ns) = Some ns.
Proof.
  unfold four_digit_year. destruct (civil_of_days _) as [[y m] d] eqn:Hc. intros Hy'. assert (0 <= y <= 9999) as Hy by lia.
  unfold rfc3339nano. rewrite (rfc3339_date_parse _ _ _ _ _ Hc Hy).
  rewrite fraction_frac; [|unfold ns_per_s; lia|done..]. simpl. f_equal. unfold ns_per_s. lia.
Qed.

Lemma Parse_rfc3339 ns : four_digit_year ns -> Parse_RFC3339 (rfc3339 ns) = Some (ns / ns_per_s * ns_per_s).
Proof.
  unfold four_digit_year. destruct (civil_of_days _) as [[y m] d] eqn:Hc. intros Hy'. assert (0 <= y <= 9999) as Hy by lia.
  unfold rfc3339. rewrite (rfc3339_date_parse _ _ _ _ _ Hc Hy). simpl. f_equal. unfold ns_per_s. lia.
Qed.
