(* ===== verification/Replay.v ===== *)
(** * Replay: publishing stored events again ([cmd/api/replay_handler.go])

    The handler builds the text of a query and its arguments, reads the rows and
    publishes each.  PostgreSQL's side is [run_select]: a parser for the texts
    the handler can build, and the rows they select. *)

From S2P Require Import Prelude GoStrings GoErrors GoTime GoTimeParse Json JsonDecode GoHttp Database.
From S2P Require Import DatabaseFacts RedisServer World WorldFacts Operations AiTriage HttpApi HttpFacts.
Import AiTriage HttpApi HttpFacts.

Module Replay.

(** ** Requests and responses ([main.go]) *)

Record ReplayCursor := mkReplayCursor { rc_CreatedAt : string; rc_EventID : string }.

Record ReplayRequest := mkReplayRequest {
  rq_From : string; rq_To : string; rq_Source : string; rq_EventType : string;
  rq_Limit : Z; rq_Cursor : option ReplayCursor;
}.

Record ReplayResponse := mkReplayResponse {
  rs_Published : Z; rs_HasMore : bool; rs_NextCursor : option ReplayCursor;
}.

(** A pointer to a struct: [null] makes it nil, an object is decoded over what
    it points to. *)
Definition set_cursor (old : option ReplayCursor) (v : json) : option (option ReplayCursor) :=
  match v with
  | JNull => Some None
  | JObj m =>
      let c := default (mkReplayCursor "" "") old in
      createdAt ← string_field (rc_CreatedAt c) "created_at" m;
      eventID ← string_field (rc_EventID c) "event_id" m;
      Some (Some (mkReplayCursor createdAt eventID))
  | _ => None
  end.

Definition replayRequest_of (v : json) (_ : list ascii) : option ReplayRequest :=
  m ← members v;
  from ← string_field "" "from" m;
  to ← string_field "" "to" m;
  source ← string_field "" "source" m;
  eventType ← string_field "" "event_type" m;
  limit ← int_field 0 "limit" m;
  cursor ← decode_field set_cursor None "cursor" m;
  Some (mkReplayRequest from to source eventType limit cursor).

Definition replayCursor_json (c : ReplayCursor) : json :=
  JObj [("created_at", JStr (rc_CreatedAt c)); ("event_id", JStr (rc_EventID c))].

(** [next_cursor] is left out when nil. *)
Definition replayResponse_json (x : ReplayResponse) : json :=
  JObj ([("published", json_int (rs_Published x)); ("has_more", JBool (rs_HasMore x))] ++
        match rs_NextCursor x with Some c => [("next_cursor", replayCursor_json c)] | None => [] end).

(** ** The query *)

(** A [time.Time], or a string *)
Inductive sql_arg := ATime (ns : Z) | AText (s : string).

Definition select_text : string := "
			SELECT id, event_type, source, payload, created_at
			FROM events
			WHERE created_at >= $1 AND created_at <= $2".

(** Query, arguments and the number of the next placeholder *)
Definition builder : Type := string * list sql_arg * Z.

Definition filter_source (req : ReplayRequest) (b : builder) : builder :=
  let '(query, args, nextArg) := b in
  if negb (String.eqb (rq_Source req) "")
  then (query +:+ " AND source = $" +:+ Itoa nextArg, args ++ [AText (rq_Source req)], nextArg + 1)
  else b.

Definition filter_type (req : ReplayRequest) (b : builder) : builder :=
  let '(query, args, nextArg) := b in
  if negb (String.eqb (rq_EventType req) "")
  then (query +:+ " AND event_type = $" +:+ Itoa nextArg, args ++ [AText (rq_EventType req)], nextArg + 1)
  else b.

(** [cursor] is the parsed creation time and the id of the request's cursor. *)
Definition filter_cursor (cursor : option (Z * string)) (b : builder) : builder :=
  let '(query, args, nextArg) := b in
  match cursor with
  | Some (cursorCreatedAt, id) =>
      (query +:+ " AND (created_at > $" +:+ Itoa nextArg +:+ " OR (created_at = $" +:+ Itoa nextArg +:+
         " AND id > $" +:+ Itoa (nextArg + 1) +:+ "::uuid))",
       args ++ [ATime cursorCreatedAt; AText id], nextArg + 2)
  | None => b
  end.

Definition replay_query (req : ReplayRequest) (fromT toT : Z) (cursor : option (Z * string)) (limit : Z)
    : string * list sql_arg :=
  let '(query, args, _) :=
    filter_cursor cursor (filter_type req (filter_source req
      (select_text, [ATime fromT; ATime toT], 3))) in
  (query +:+ " ORDER BY created_at ASC, id ASC LIMIT " +:+ Itoa (limit + 1), args).

(** ** PostgreSQL's reading of it *)

Definition eat (p s : string) : option string :=
  match strip_prefix (chars p) (chars s) with
  | Some l => Some (String.string_of_list_ascii l)
  | None => None
  end.

Definition number (s : string) : option (Z * string) :=
  let '(ds, rest) := digit_span s in
  if String.eqb ds "" then None else n ← parse_digits ds 0; Some (n, rest).

(** A condition that may be missing *)
Definition optional {A} (p : string) (item : string -> option (A * string)) (s : string)
    : option (option A * string) :=
  match eat p s with
  | Some s1 => '(a, s2) ← item s1; Some (Some a, s2)
  | None => Some (None, s)
  end.

(** The placeholders of the conditions, and the limit *)
Record select := mkSelect {
  se_source : option Z; se_type : option Z; se_after : option (Z * Z); se_limit : Z;
}.

(** The creation time is one placeholder, named twice. *)
Definition after_item (s : string) : option (Z * Z * string) :=
  '(i, s1) ← number s; s2 ← eat " OR (created_at = $" s1;
  '(j, s3) ← number s2; s4 ← eat " AND id > $" s3;
  '(k, s5) ← number s4; s6 ← eat "::uuid))" s5;
  if i =? j then Some (i, k, s6) else None.

Definition parse_select (text : string) : option select :=
  s1 ← eat select_text text;
  '(source, s2) ← optional " AND source = $" number s1;
  '(type, s3) ← optional " AND event_type = $" number s2;
  '(after, s4) ← optional " AND (created_at > $" after_item s3;
  s5 ← eat " ORDER BY created_at ASC, id ASC LIMIT " s4;
  '(limit, s6) ← number s5;
  if String.eqb s6 "" then Some (mkSelect source type after limit) else None.

Definition nth_arg (args : list sql_arg) (i : Z) : option sql_arg := args !! Z.to_nat (i - 1).
(** A [timestamptz] has microseconds; the driver drops the rest. *)
Definition time_arg args i : option Z :=
  match nth_arg args i with Some (ATime ns) => Some (micros ns) | _ => None end.
Definition text_arg args i : option string :=
  match nth_arg args i with Some (AText s) => Some s | _ => None end.

(** An optional placeholder: [Some None] when the condition is missing. *)
Definition resolve {A B} (get : A -> option B) (i : option A) : option (option B) :=
  match i with Some i => Some <$> get i | None => Some None end.

(** The conditions with the values of their placeholders; times in microseconds *)
Record where_clause := mkWhere {
  wh_from : Z; wh_to : Z; wh_source : option string; wh_type : option string;
  wh_after : option (Z * string);
}.

Definition event_le (a b : string * EventRow) : Prop :=
  ev_created_at a.2 < ev_created_at b.2 \/
  (ev_created_at a.2 = ev_created_at b.2 /\ String.le a.1 b.1).
#[global] Instance event_le_dec : RelDecision event_le.
Proof. intros a b. unfold event_le. apply _. Defined.

(** [created_at > c OR (created_at = c AND id > u)] *)
Definition after (c : Z * string) (r : string * EventRow) : Prop :=
  c.1 < ev_created_at r.2 \/ (ev_created_at r.2 = c.1 /\ String.le c.2 r.1 /\ c.2 <> r.1).
#[global] Instance after_dec c r : Decision (after c r).
Proof. unfold after. apply _. Defined.

Definition equals_if (x : option string) (y : string) : bool :=
  match x with Some x => String.eqb y x | None => true end.

Definition window (q : where_clause) (r : string * EventRow) : Prop :=
  (wh_from q <=? ev_created_at r.2) && (ev_created_at r.2 <=? wh_to q) &&
  equals_if (wh_source q) (ev_source r.2) && equals_if (wh_type q) (ev_event_type r.2) = true.

#[global] Instance window_dec q r : Decision (window q r).
Proof. unfold window. apply _. Defined.

Definition after_if (c : option (Z * string)) (r : string * EventRow) : Prop :=
  match c with Some c => after c r | None => True end.
#[global] Instance after_if_dec c r : Decision (after_if c r).
Proof. destruct c; simpl; apply _. Defined.

Section Server.
Context {PG : Postgres}.

(** All rows the conditions select, in order *)
Definition selected (q : where_clause) (db : DB) : list (string * EventRow) :=
  merge_sort event_le (filter (fun r => window q r /\ after_if (wh_after q) r) (heap_scan (events db))).

Definition after_arg (args : list sql_arg) (p : Z * Z) : option (Z * string) :=
  t ← time_arg args p.1; id ← text_arg args p.2; u ← uuid_in id; Some (t, u).

Definition run_select (text : string) (args : list sql_arg) (db : DB) : res error (list (string * EventRow)) :=
  match parse_select text with
  | None => Err (sql_error "syntax error")
  | Some p =>
      match time_arg args 1, time_arg args 2, resolve (text_arg args) (se_source p),
            resolve (text_arg args) (se_type p), resolve (after_arg args) (se_after p) with
      | Some from, Some to, Some source, Some type, Some after =>
          Ok (take (Z.to_nat (se_limit p)) (selected (mkWhere from to source type after) db))
      | _, _, _, _, _ => Err (sql_error "invalid argument")
      end
  end.

End Server.

(** ** The handler *)

(** A row the handler reads: id, event type, source, payload, creation time *)
Definition replay_row : Type := string * string * string * string * Z.

Definition row_of (r : string * EventRow) : replay_row :=
  (r.1, ev_event_type r.2, ev_source r.2, ev_payload r.2, ev_created_at r.2 * 1000).

(** [replayRows]: what [Next] and [Scan] give one after the other ([None] is a
    row that [Scan] fails on), and the error that ends them, if any. *)
Record replayRows := mkReplayRows { rows_left : list (option replay_row); rows_err : option error }.

(** [rows.Err()]: the error is known once [Next] has returned false. *)
Definition rows_Err (rows : replayRows) (exhausted : bool) : option error :=
  if exhausted then rows_err rows else None.

Definition replay_values (row : replay_row) : fields :=
  let '(id, eventType, source, payload, createdAt) := row in
  list_to_map [("event_id", id); ("event_type", eventType); ("source", source); ("payload", payload);
               ("retry", "0"); ("created_at", rfc3339 createdAt); ("replay", "1")].

Definition cursor_of (row : replay_row) : ReplayCursor :=
  let '(id, _, _, _, createdAt) := row in mkReplayCursor (rfc3339nano createdAt) id.

Inductive loop_end :=
| ScanFailed
| PublishFailed
| Broke (published : Z) (nextCursor : option ReplayCursor)
| Exhausted (published : Z) (nextCursor : option ReplayCursor).

Definition replay_limit (limit : Z) : Z :=
  let limit := if limit <=? 0 then 1000 else limit in
  if 5000 <? limit then 5000 else limit.

(** The checks on a decoded request: the times and the cursor, or the message
    of the answer. *)
Definition replay_checked (req : ReplayRequest) : res string (Z * Z * option (Z * string)) :=
  if String.eqb (rq_From req) "" || String.eqb (rq_To req) ""
  then Err "from and to are required (RFC3339)" else
  if match rq_Cursor req with
     | Some c => String.eqb (TrimSpace (rc_CreatedAt c)) "" || String.eqb (TrimSpace (rc_EventID c)) ""
     | None => false
     end
  then Err "cursor created_at and event_id are required together" else
  match Parse_RFC3339 (rq_From req) with
  | None => Err "from must be RFC3339"
  | Some fromT =>
      match Parse_RFC3339 (rq_To req) with
      | None => Err "to must be RFC3339"
      | Some toT =>
          match rq_Cursor req with
          | None => Ok (fromT, toT, None)
          | Some c => match Parse_RFC3339 (rc_CreatedAt c) with
                      | None => Err "cursor created_at must be RFC3339"
                      | Some t => Ok (fromT, toT, Some (t, rc_EventID c))
                      end
          end
      end
  end.

Section Handler.
Context {SC : Strconv} {PG : Postgres} {R : Type}.
Abbreviation M := (M (R:=R)).
Context (queryEvents : string -> list sql_arg -> M replayRows) (publish : fields -> M string).

Fixpoint replay_loop (limit : Z) (rows : list (option replay_row)) (published : Z)
    (nextCursor : option ReplayCursor) : M loop_end :=
  match rows with
  | [] => gret (Exhausted published nextCursor)
  | None :: _ => gret ScanFailed
  | Some row :: rest =>
      if limit <=? published then gret (Broke published nextCursor) else
      let! r := catch (publish (replay_values row)) in
      match r with
      | Err _ => gret PublishFailed
      | Ok _ => replay_loop limit rest (published + 1) (Some (cursor_of row))
      end
  end.

Definition newReplayHandler : Handler := fun r w =>
  if negb (String.eqb (Method r) "POST") then gret (WriteHeader 405 w) else
  match DecodeJSONRequest replayRequest_of r with
  | Err err => gret (if IsRequestBodyTooLarge err then Error "request body too large" 413 w
                     else Error "invalid JSON body" 400 w)
  | Ok req =>
      match replay_checked req with
      | Err message => gret (Error message 400 w)
      | Ok (fromT, toT, cursor) =>
          let limit := replay_limit (rq_Limit req) in
          let '(query, args) := replay_query req fromT toT cursor limit in
          let! rows := catch (queryEvents query args) in
          match rows with
          | Err _ => gret (Error "failed to query events" 500 w)
          | Ok rows =>
              let! e := replay_loop limit (rows_left rows) 0 None in
              let answer published hasMore nextCursor :=
                match rows_Err rows (negb hasMore) with
                | Some _ => gret (Error "failed to read events" 500 w)
                | None =>
                    let nextCursor := if hasMore : bool then nextCursor else None in
                    gret (Encode (Some (replayResponse_json (mkReplayResponse published hasMore nextCursor)))
                            (SetHeader "Content-Type" "application/json" w))
                end in
              match e with
              | ScanFailed => gret (Error "failed to read events" 500 w)
              | PublishFailed => gret (Error "failed to publish replay event" 503 w)
              | Broke published nextCursor => answer published true nextCursor
              | Exhausted published nextCursor => answer published false nextCursor
              end
          end
      end
  end.

End Handler.

(** [pgPool.Query]: the connection may break before all rows have arrived.  The
    columns are of the types that [Scan] asks for, so it does not fail. *)
Definition pool_events {PG : Postgres} {R} (query : string) (args : list sql_arg) : M (R:=R) replayRows :=
  let! read := pool_rows (fun _ db => run_select query args db) in
  gret (mkReplayRows (map (fun r => Some (row_of r)) read.1) read.2).

End Replay.
