(* ===== verification/ReplayFacts.v ===== *)
(** * ReplayFacts: what a replay publishes

    The text the handler builds means what the request asks for; a page is the
    next rows in (created_at, id) order; following the cursors of the answers
    publishes every matching event exactly once, in that order. *)

From S2P Require Import Prelude GoStrings GoErrors GoTime GoTimeParse Utf8 Json JsonFacts JsonDecode GoHttp.
From S2P Require Import Database DatabaseFacts RedisServer World WorldFacts RedisFacts Simulation Operations Samples.
From S2P Require Import AiTriage HttpApi HttpFacts Replay.
Import AiTriage HttpApi HttpFacts Replay.

Module ReplayFacts.

(** ** The text of the query *)

Lemma eat_app p s : eat p (p +:+ s) = Some s.
Proof.
  unfold eat. rewrite chars_app. rewrite (proj2 (strip_prefix_spec _ _ (chars s)) eq_refl).
  unfold chars. by rewrite String.string_of_list_ascii_of_string.
Qed.

Lemma number_app d n s :
  all_digits d -> d <> "" -> parse_digits d 0 = Some n -> digit_span s = ("", s) ->
  number (d +:+ s) = Some (n, s).
Proof.
  intros Hd Hne Hp Hs. unfold number. rewrite digit_span_all by done.
  destruct (String.eqb_spec d ""); [done|]. by rewrite Hp.
Qed.

Lemma fmt_digits_all f n acc : all_digits acc -> 0 <= n -> all_digits (fmt_digits f n acc).
Proof.
  revert n acc. induction f as [|f IH]; intros n acc Ha Hn; simpl; [done|].
  assert (all_digits (String (digit_char (n mod 10)) acc)) as Hc.
  { split; [|done]. rewrite digit_val_char; [by eexists|]. by apply Z.mod_pos_bound. }
  destruct (n <? 10); [done|]. apply IH; [done|]. apply Z.div_pos; lia.
Qed.

Lemma number_Itoa n s :
  0 <= n <= int64_max -> digit_span s = ("", s) -> number (Itoa n +:+ s) = Some (n, s).
Proof.
  intros Hn Hspan. pose proof (Atoi_Itoa n ltac:(unfold int64_min in *; lia)) as Ha.
  assert (all_digits (Itoa n)) as Hd.
  { unfold Itoa. destruct (Z.ltb_spec n 0); [lia|]. by apply fmt_digits_all. }
  unfold Atoi in Ha. destruct (Itoa n) as [|c d] eqn:E; [done|]. destruct Hd as [[x Hc] Hd].
  destruct (Ascii.eqb_spec c "+") as [->|_]; [done|]. destruct (Ascii.eqb_spec c "-") as [->|_]; [done|].
  apply number_app; [by split; [eexists|]|done| |done].
  destruct (String.eqb_spec (String c d) ""); [done|].
  destruct (parse_digits (String c d) 0) as [z|]; [|done]. destruct (in_int64 z); by simplify_eq.
Qed.

Lemma optional_eat {A} p (item : string -> option (A * string)) s a s' :
  item s = Some (a, s') -> optional p item (p +:+ s) = Some (Some a, s').
Proof. intros Hi. unfold optional. by rewrite eat_app, Hi. Qed.

Lemma optional_miss {A} p (item : string -> option (A * string)) s :
  eat p s = None -> optional p item s = Some (None, s).
Proof. intros He. unfold optional. by rewrite He. Qed.

Lemma after_item_eat n k s :
  0 <= n <= int64_max -> 0 <= k <= int64_max ->
  after_item (Itoa n +:+ " OR (created_at = $" +:+ Itoa n +:+ " AND id > $" +:+ Itoa k +:+ "::uuid))" +:+ s)
    = Some (n, k, s).
Proof.
  intros Hn Hk. unfold after_item.
  repeat first [rewrite eat_app | rewrite number_Itoa by done]; cbn [mbind option_bind].
  repeat (rewrite eat_app; cbn [mbind option_bind]; rewrite ?number_Itoa by done; cbn [mbind option_bind]).
  by rewrite Z.eqb_refl.
Qed.

(** The condition a filter of the request stands for *)
Definition given (s : string) : option string := if String.eqb s "" then None else Some s.

Definition where_of (req : ReplayRequest) (fromT toT : Z) (cursor : option (Z * string)) : where_clause :=
  mkWhere (micros fromT) (micros toT) (given (rq_Source req)) (given (rq_EventType req)) cursor.

Lemma replay_limit_range l : 1 <= replay_limit l <= 5000.
Proof. unfold replay_limit. destruct (Z.leb_spec l 0); [done|]. destruct (Z.ltb_spec 5000 l); lia. Qed.

Ltac read_step :=
  first [ rewrite eat_app
        | rewrite optional_miss by reflexivity
        | erewrite optional_eat by (first [apply after_item_eat; done | apply number_Itoa; done]) ];
  cbn [mbind option_bind].

Section Query.
Context {PG : Postgres}.

(** What PostgreSQL reads in the text the handler builds, and in its arguments *)
Lemma parse_replay_query req fromT toT cursor limit :
  1 <= limit <= 5000 ->
  exists src ty aft,
    parse_select (replay_query req fromT toT cursor limit).1 = Some (mkSelect src ty aft (limit + 1)) /\
    let args := (replay_query req fromT toT cursor limit).2 in
    time_arg args 1 = Some (micros fromT) /\ time_arg args 2 = Some (micros toT) /\
    resolve (text_arg args) src = Some (given (rq_Source req)) /\
    resolve (text_arg args) ty = Some (given (rq_EventType req)) /\
    resolve (after_arg args) aft =
      match cursor with
      | Some (t, id) => (fun u => Some (micros t, u)) <$> uuid_in id
      | None => Some None
      end.
Proof.
  intros Hl. unfold replay_query, filter_source, filter_type, given.
  pose proof (number_Itoa (limit + 1) "" ltac:(unfold int64_max; lia) eq_refl) as Hn.
  rewrite string_app_nil_r in Hn.
  destruct (String.eqb (rq_Source req) ""), (String.eqb (rq_EventType req) ""), cursor as [[t id]|];
    cbn [negb filter_cursor fst snd]; unfold parse_select; rewrite ?string_app_assoc.
  all: repeat read_step; rewrite ?Hn; cbn [mbind option_bind].
  all: do 3 eexists; split; [reflexivity|]; split_and!; try reflexivity.
  all: unfold after_arg, resolve; simpl; by destruct (uuid_in id).
Qed.

(** The rows of a page, one more than the limit. *)
Lemma run_replay_query req fromT toT cursor limit db :
  1 <= limit <= 5000 ->
  let '(text, args) := replay_query req fromT toT cursor limit in
  match cursor with
  | Some (t, id) =>
      match uuid_in id with
      | Some u => run_select text args db =
          Ok (take (Z.to_nat (limit + 1)) (selected (where_of req fromT toT (Some (micros t, u))) db))
      | None => is_ok (run_select text args db) = false
      end
  | None => run_select text args db =
      Ok (take (Z.to_nat (limit + 1)) (selected (where_of req fromT toT None) db))
  end.
Proof.
  intros Hl. destruct (parse_replay_query req fromT toT cursor limit Hl) as (src & ty & aft & Hp & H1 & H2 & H3 & H4 & H5).
  destruct (replay_query _ _ _ _ _) as [text args]. cbn [fst snd] in *.
  unfold run_select. rewrite Hp. cbn [se_source se_type se_after se_limit]. rewrite H1, H2, H3, H4.
  destruct cursor as [[t id]|]; [destruct (uuid_in id)|]; cbn [fmap option_fmap option_map] in H5; by rewrite H5.
Qed.

(** ** The order of the rows *)

#[global] Instance event_le_total : Total event_le.
Proof.
  intros a b. unfold event_le. destruct (total String.le a.1 b.1);
    destruct (Z.lt_trichotomy (ev_created_at a.2) (ev_created_at b.2)) as [|[|]]; auto.
Qed.

#[global] Instance event_le_trans : Transitive event_le.
Proof.
  intros a b c [H1|[H1 H1']] [H2|[H2 H2']]; unfold event_le; try (left; lia).
  right. split; [lia|]. by etransitivity.
Qed.

Definition position (r : string * EventRow) : Z * string := (ev_created_at r.2, r.1).

(** No row comes both before and after another. *)
Lemma after_not_le a b : event_le b a -> ~ after (position a) b.
Proof.
  unfold after, event_le, position. simpl. intros [H|[H H']] [H2|(H2 & H2' & H3)]; try lia.
  apply H3. by apply (anti_symm String.le).
Qed.

Lemma after_trans c a b : after c a -> after (position a) b -> after c b.
Proof.
  unfold after, position. simpl. intros [H|(H & H' & Hn)] [H2|(H2 & H2' & H3)]; try (left; lia).
  right. split; [lia|]. split; [by etransitivity|].
  intros Hc. apply Hn. apply (anti_symm String.le); [done|]. by rewrite Hc.
Qed.

Lemma selected_elem q db r :
  r ∈ selected q db <-> events db !! r.1 = Some r.2 /\ window q r /\ after_if (wh_after q) r.
Proof.
  unfold selected. rewrite merge_sort_Permutation, list_elem_of_filter, heap_scan_perm.
  destruct r as [id row]. rewrite elem_of_map_to_list. tauto.
Qed.

Lemma selected_sorted q db : StronglySorted event_le (selected q db).
Proof. apply StronglySorted_merge_sort; apply _. Qed.

Lemma selected_nodup q db : NoDup (selected q db).
Proof.
  unfold selected. rewrite merge_sort_Permutation. apply NoDup_filter. rewrite heap_scan_perm.
  apply NoDup_map_to_list.
Qed.

(** Two rows of the table in both orders are one row. *)
Lemma rows_antisym db a b :
  events db !! a.1 = Some a.2 -> events db !! b.1 = Some b.2 -> event_le a b -> event_le b a -> a = b.
Proof.
  intros Ha Hb [H1|[H1 H1']] [H2|[H2 H2']]; try lia.
  assert (a.1 = b.1) as E by by apply (anti_symm String.le).
  destruct a as [i x], b as [j y]. simpl in *. subst. rewrite Ha in Hb. by simplify_eq.
Qed.

Definition from_position (c : Z * string) (q : where_clause) : where_clause :=
  mkWhere (wh_from q) (wh_to q) (wh_source q) (wh_type q) (Some c).

Lemma le_after db a b :
  events db !! a.1 = Some a.2 -> events db !! b.1 = Some b.2 -> event_le a b -> a <> b -> after (position a) b.
Proof.
  intros Ha Hb Hab Hne. destruct Hab as [H|[H H']]; unfold after, position; simpl; [by left|].
  right. split_and!; [done..|]. intros E. apply Hne. destruct a as [i x], b as [j y]. simpl in *. subst.
  rewrite Ha in Hb. by simplify_eq.
Qed.

(** The rows after a row of the result are the rest of the result. *)
Lemma selected_next q db l1 x l2 :
  selected q db = l1 ++ x :: l2 -> selected (from_position (position x) q) db = l2.
Proof.
  intros E. pose proof (selected_sorted q db) as Hs. pose proof (selected_nodup q db) as Hn.
  assert (forall r, r ∈ l1 ++ x :: l2 <-> events db !! r.1 = Some r.2 /\ window q r /\ after_if (wh_after q) r) as Hel.
  { intros r. rewrite <- E. apply selected_elem. }
  rewrite E in Hs, Hn. apply NoDup_app in Hn as (Hn1 & Hn12 & Hn2). apply NoDup_cons in Hn2 as [Hx Hn2].
  assert (events db !! x.1 = Some x.2 /\ window q x /\ after_if (wh_after q) x) as (Hx1 & Hx2 & Hx3)
    by (apply Hel; set_solver).
  apply StronglySorted_app in Hs as (H12 & _ & Hs2). apply StronglySorted_inv in Hs2 as [Hs2 Hall].
  rewrite Forall_forall in Hall.
  assert (forall r, r ∈ selected (from_position (position x) q) db <-> r ∈ l2) as Hmem.
  { intros r. rewrite selected_elem. simpl. split.
    - intros (Hr & Hw & Ha). assert (r ∈ l1 ++ x :: l2) as Hin.
      { apply Hel. split_and!; [done..|]. destruct (wh_after q) as [c|]; [|done]. by eapply after_trans. }
      apply elem_of_app in Hin as [Hin|[-> |Hin]%elem_of_cons]; [|exfalso|done].
      + exfalso. by apply (after_not_le x r); [apply H12; set_solver|].
      + apply (after_not_le x x); [right; by split|done].
    - intros Hr. assert (r ∈ l1 ++ x :: l2) as Hin by set_solver. apply Hel in Hin as (Hr1 & Hr2 & _).
      split_and!; [done..|]. apply (le_after db); [done..|by apply Hall|]. intros ->. done. }
  apply (StronglySorted_unique_strong event_le).
  - intros a b Ha Hb. apply selected_elem in Ha as (Ha & _).
    assert (b ∈ l1 ++ x :: l2) as Hb' by set_solver. apply Hel in Hb' as (Hb' & _). by apply (rows_antisym db).
  - apply selected_sorted.
  - done.
  - apply NoDup_Permutation; [apply selected_nodup|done|done].
Qed.

End Query.

(** ** Texts the client sends back *)

Definition time_char (c : ascii) : Prop := c ∈ chars "0123456789-:.TZ".

Lemma pad_chars w n : Forall time_char (chars (pad w n)).
Proof.
  revert n. induction w as [|w IH]; intros n; simpl; [constructor|]. rewrite chars_app. apply Forall_app. split; [done|].
  constructor; [|constructor]. pose proof (Z.mod_pos_bound n 10 eq_refl) as Hd. revert Hd. generalize (n mod 10). intros d Hd.
  assert (d = 0 \/ d = 1 \/ d = 2 \/ d = 3 \/ d = 4 \/ d = 5 \/ d = 6 \/ d = 7 \/ d = 8 \/ d = 9) as Hc by lia.
  unfold time_char. apply list_elem_of_In. destruct_or! Hc; subst d; vm_compute; tauto.
Qed.

Lemma frac_chars w n : Forall time_char (chars (frac_digits w n)).
Proof.
  revert n. induction w as [|w IH]; intros n; [constructor|]. cbn [frac_digits].
  destruct (n mod 10 =? 0); [apply IH|apply pad_chars].
Qed.

Lemma rfc3339nano_chars t : Forall time_char (chars (rfc3339nano t)).
Proof.
  unfold rfc3339nano, rfc3339_date. destruct (civil_of_days _) as [[y m] d].
  rewrite !chars_app. rewrite !Forall_app. split_and!; try apply pad_chars;
    try (constructor; [apply list_elem_of_In; vm_compute; tauto|constructor]).
  destruct (String.eqb _ ""); [constructor|]. rewrite chars_app. apply Forall_app. split; [|apply frac_chars].
  constructor; [apply list_elem_of_In; vm_compute; tauto|constructor].
Qed.

Lemma rfc3339nano_plain t : TrimSpace (rfc3339nano t) = rfc3339nano t /\ valid_utf8 (rfc3339nano t) /\ rfc3339nano t <> "".
Proof.
  split_and!.
  - apply TrimSpace_solid. eapply Forall_impl; [apply rfc3339nano_chars|]. intros c Hc l.
    apply list_elem_of_In in Hc. simpl in Hc. destruct_or! Hc; subst; try done.
  - apply ascii_valid. eapply Forall_impl; [apply rfc3339nano_chars|]. intros c Hc.
    apply list_elem_of_In in Hc. simpl in Hc. destruct_or! Hc; subst; try done.
  - unfold rfc3339nano, rfc3339_date. destruct (civil_of_days _) as [[y m] d]. intros Heq.
    apply (f_equal String.length) in Heq. rewrite !string_app_length, pad_length in Heq. simpl in Heq. lia.
Qed.

(** A client's reading of an answer *)
Definition set_bool (old : bool) (v : json) : option bool :=
  match v with JBool b => Some b | JNull => Some old | _ => None end.

Definition response_of (body : string) : option ReplayResponse :=
  v ← parse body; m ← members v;
  published ← int_field 0 "published" m;
  hasMore ← decode_field set_bool false "has_more" m;
  nextCursor ← decode_field set_cursor None "next_cursor" m;
  Some (mkReplayResponse published hasMore nextCursor).

Definition page_body (x : ReplayResponse) : string := marshal (replayResponse_json x) +:+ newline.

Lemma response_of_page_body x :
  0 <= rs_Published x <= int64_max ->
  (forall c, rs_NextCursor x = Some c -> valid_utf8 (rc_CreatedAt c) /\ valid_utf8 (rc_EventID c)) ->
  response_of (page_body x) = Some x.
Proof.
  intros Hp Hc. unfold response_of, page_body.
  pose proof (Atoi_Itoa (rs_Published x) ltac:(unfold int64_min in *; lia)) as Ha.
  rewrite parse_marshal; [|..|done|simpl; set_solver].
  - destruct x as [p b [[ct id]|]]; unfold replayResponse_json, json_int, replayCursor_json;
      cbn [rs_Published rs_HasMore rs_NextCursor app map clean_json rc_CreatedAt rc_EventID fst snd mbind option_bind members] in *;
      revert Ha; generalize (Itoa p); intros t Ha;
      change (int_field 0 "published" ?m) with (Atoi t); rewrite Ha; [|reflexivity].
    destruct (Hc _ eq_refl) as [H1 H2]. cbn [rc_CreatedAt rc_EventID] in *. rewrite H1, H2. reflexivity.
  - pose proof (num_ok_Itoa _ Hp). destruct x as [p b [[ct id]|]]; simpl; tauto.
  - destruct x as [p b [[ct id]|]]; apply Nat.leb_le; vm_compute; reflexivity.
Qed.

(** ** Publishing *)

Section Pages.
Context {SC : Strconv} {PG : Postgres} {R : Type} `{RedisLaws R} (s : string).
Abbreviation W := (World R).
Implicit Types w : W.

(** Each of the values, in order, one to four times in a row *)
Inductive stutters : list fields -> list fields -> Prop :=
| stutters_nil : stutters [] []
| stutters_cons v n vs ws : (1 <= n <= 4)%nat -> stutters vs ws -> stutters (v :: vs) (replicate n v ++ ws).

(** Entries with the values [vs], in this order, and no other were added: each once,
    and again only when the client had to send the command again. *)
Definition appended (vs : list fields) (w w' : W) : Prop :=
  exists ms, stream (w_redis w') s = stream (w_redis w) s ++ ms /\ stutters vs (map Values ms) /\
    (sent_once w -> map Values ms = vs /\ sent_once w').

Lemma stutters_app vs1 vs2 ws1 ws2 : stutters vs1 ws1 -> stutters vs2 ws2 -> stutters (vs1 ++ vs2) (ws1 ++ ws2).
Proof. induction 1 as [|v n vs ws Hn _ IH]; intros H2; [done|]. rewrite <- app_assoc. constructor; auto. Qed.

Lemma appended_nil w w' : w_redis w' = w_redis w -> (sent_once w -> sent_once w') -> appended [] w w'.
Proof. intros Hr He. exists []. rewrite Hr, app_nil_r. split_and!; [done|constructor|auto]. Qed.

Lemma appended_app v1 v2 w1 w2 w3 : appended v1 w1 w2 -> appended v2 w2 w3 -> appended (v1 ++ v2) w1 w3.
Proof.
  intros (m1 & H1 & S1 & O1) (m2 & H2 & S2 & O2). exists (m1 ++ m2). rewrite H2, H1, map_app, app_assoc.
  split_and!; [done|by apply stutters_app|]. intros Ho. destruct (O1 Ho) as [-> Ho2], (O2 Ho2) as [-> ?]. done.
Qed.

Lemma XAdd_once v w r w' :
  sent_once w -> XAdd s v w = (r, w') ->
  sent_once w' /\ (w_redis w' = w_redis w \/ exists now id, xadd now s v (w_redis w) = (id, w_redis w')).
Proof.
  unfold XAdd. intros Ho HX. case_decide as Hv.
  - unfold external in HX. destruct (next_reply w) as [f w1] eqn:E. pose proof (next_reply_quiet _ _ _ E) as (_ & _ & _ & Hr & _).
    apply next_reply_env in E. assert (w' = w1) as -> by (destruct f; unfold gerr in HX; by simplify_eq/=).
    split; [|by left]. unfold sent_once in *. rewrite E. by destruct Ho.
  - apply redis_cmd_once in HX as [Ho' [(t & _ & Hr)|(now & id & Hx & _)]]; eauto.
Qed.

Lemma XAdd_appended v w r w' :
  XAdd s v w = (r, w') ->
  redis_only w w' /\
  exists n, (n <= 1)%nat /\ appended (take n [v]) w w' /\ (is_ok r = true -> n = 1%nat).
Proof.
  intros HX. pose proof (fun Ho => XAdd_once v w r w' Ho HX) as Honce.
  apply XAdd_inv in HX as (X1 & X2 & X3 & _ & _ & X6 & X7). split; [by unfold redis_only|].
  destruct X7 as [(t & -> & Hr)|(id & X & _)].
  { exists 0%nat. split_and!; [lia|apply appended_nil; [done|]|done]. intros Ho. by destruct (Honce Ho). }
  exists 1%nat. split_and!; [lia| |done]. destruct (added_stream _ _ _ _ _ X) as (ids & Hl & Hs).
  exists (map (fun i => mkXMessage i v) ids). specialize (Hs s). rewrite decide_True in Hs by done. split_and!; [done| |].
  - assert (map Values (map (fun i => mkXMessage i v) ids) = replicate (length ids) v ++ []) as ->.
    { rewrite app_nil_r. clear. induction ids as [|i ids IH]; simpl; [done|]. by rewrite IH. }
    by constructor; [|constructor].
  - intros Ho. destruct (Honce Ho) as [Ho' [Hr|(now & i & Hx)]]; split; try done.
    + exfalso. rewrite Hr in Hs. apply (f_equal length) in Hs. rewrite length_app, length_map in Hs. lia.
    + apply xadd_stream with (s' := s) in Hx. rewrite decide_True, Hs in Hx by done.
      apply app_inv_head in Hx. by rewrite Hx.
Qed.

Definition last_cursor (rows : list replay_row) (cur : option ReplayCursor) : option ReplayCursor :=
  match last rows with Some row => Some (cursor_of row) | None => cur end.

Lemma last_cursor_cons row rows cur : last_cursor (row :: rows) cur = last_cursor rows (Some (cursor_of row)).
Proof. unfold last_cursor. rewrite last_cons. by destruct (last rows). Qed.

(** The loop publishes a prefix of the rows, up to the limit, and says so. *)
Lemma replay_loop_spec limit rows p cur w r w' :
  p <= limit -> replay_loop (XAdd s) limit (map Some rows) p cur w = (r, w') ->
  redis_only w w' /\
  exists e n, r = Ok e /\ (n <= length rows)%nat /\ p + Z.of_nat n <= limit /\
    appended (map replay_values (take n rows)) w w' /\
    match e with
    | ScanFailed => False
    | PublishFailed => True
    | Broke p' c => p' = limit /\ p + Z.of_nat n = limit /\ (n < length rows)%nat /\ c = last_cursor (take n rows) cur
    | Exhausted p' _ => p' = p + Z.of_nat (length rows) /\ n = length rows
    end.
Proof.
  revert p cur w. induction rows as [|row rows IH]; intros p cur w Hp HL; cbn [map replay_loop] in HL.
  - unfold gret in HL. simplify_eq. split; [reflexivity|]. exists (Exhausted p cur), 0%nat. simpl.
    split_and!; [done|lia|lia|by apply appended_nil|lia|done].
  - destruct (Z.leb_spec limit p) as [Hle|Hlt].
    { unfold gret in HL. simplify_eq. split; [reflexivity|]. exists (Broke p cur), 0%nat. simpl.
      split_and!; [done|lia|lia|by apply appended_nil|lia|lia|lia|done]. }
    unfold gbind, catch in HL. destruct (XAdd s _ w) as [rx w1] eqn:HX.
    apply XAdd_appended in HX as (Hro & n1 & Hn1 & Happ & Hok).
    destruct rx as [id|e]; cycle 1.
    { unfold gret in HL. simplify_eq. split; [done|]. exists PublishFailed, n1.
      split_and!; [done|simpl; lia|lia| |done]. destruct n1 as [|[|]]; [done|done|lia]. }
    rewrite (Hok eq_refl) in Happ. apply IH in HL as (Hro2 & e & n & -> & Hn & Hpn & Happ2 & He); [|lia].
    split; [by etransitivity|]. exists e, (S n). split_and!; [done|simpl; lia|lia| |].
    + cbn [take map]. by apply (appended_app [_] _ _ w1).
    + destruct e as [| |p' c|p' c]; [done|done| |]; simpl; [rewrite last_cursor_cons|]; naive_solver lia.
Qed.

(** ** One page *)

(** What a request asks for: [None] when it is refused. *)
Definition where_asked (req : ReplayRequest) : option where_clause :=
  match replay_checked req with
  | Err _ => None
  | Ok (fromT, toT, None) => Some (where_of req fromT toT None)
  | Ok (fromT, toT, Some (t, id)) => u ← uuid_in id; Some (where_of req fromT toT (Some (micros t, u)))
  end.

Definition replay_plan (r : Request) : option (ReplayRequest * where_clause) :=
  if negb (String.eqb (Method r) "POST") then None else
  match DecodeJSONRequest replayRequest_of r with
  | Err _ => None
  | Ok req => pair req <$> where_asked req
  end.

Definition page_limit (req : ReplayRequest) : nat := Z.to_nat (replay_limit (rq_Limit req)).

Definition page_response (limit : nat) (all : list (string * EventRow)) : ReplayResponse :=
  mkReplayResponse (Z.of_nat (min limit (length all))) (limit <? length all)%nat
    (if (limit <? length all)%nat then last_cursor (map row_of (take limit all)) None else None).

Definition publications (rows : list (string * EventRow)) : list fields := map (fun r => replay_values (row_of r)) rows.

Lemma pool_events_inv text args w r w' :
  pool_events text args w = (r, w') ->
  quiet w w' /\ (sent_once w -> sent_once w') /\
  forall rows, r = Ok rows -> exists sel n err, run_select text args (w_db w) = Ok sel /\
    rows = mkReplayRows (map Some (map row_of (take n sel))) err /\ (err = None -> take n sel = sel).
Proof.
  unfold pool_events. intros HP.
  assert (Henv : w_env w' = tl (w_env w) -> sent_once w -> sent_once w').
  { unfold sent_once. intros -> Ho. by destruct Ho. }
  apply gbind_inv in HP as [([sel err] & w1 & Hq & HP)|(e & Hq & ->)];
    apply pool_rows_inv in Hq as (Hq1 & Hq2 & Hq3); [|by split_and!; auto].
  unfold gret in HP. simplify_eq. split_and!; [done|auto|]. intros rows ?. simplify_eq/=.
  destruct (Hq3 sel err eq_refl) as (now & all & n & Hsel & -> & He). exists all, n, err. by rewrite map_map.
Qed.

Lemma take_page {A} n (l : list A) k : (k <= n)%nat -> take k (take (S n) l) = take k l.
Proof. intros Hk. rewrite take_take. by replace (min k (S n)) with k by lia. Qed.

(** The end of the loop over a page and one more row *)
Lemma page_end limit all rows p' c n (e : loop_end) :
  rows = map row_of (take (S limit) all) -> (n <= length rows)%nat -> (n <= limit)%nat ->
  (e = Broke p' c -> p' = Z.of_nat limit /\ n = limit /\ (n < length rows)%nat /\ c = last_cursor (take n rows) None) ->
  (e = Exhausted p' c -> p' = Z.of_nat (length rows) /\ n = length rows) ->
  (e = Broke p' c -> mkReplayResponse p' true c = page_response limit all) /\
  (e = Exhausted p' c -> mkReplayResponse p' false None = page_response limit all) /\
  (e = Broke p' c \/ e = Exhausted p' c -> take n all = take limit all).
Proof.
  intros -> Hn Hnl HB HE. rewrite length_map, length_take in *. unfold page_response.
  split_and!.
  - intros He. destruct (HB He) as (-> & -> & Hlt & ->).
    assert ((limit <? length all)%nat = true) as -> by (apply Nat.ltb_lt; lia).
    rewrite firstn_map, take_page by lia. f_equal. lia.
  - intros He. destruct (HE He) as (-> & ->).
    assert ((limit <? length all)%nat = false) as -> by (apply Nat.ltb_ge; lia). f_equal. lia.
  - intros [He|He]; [by destruct (HB He) as (_ & -> & _)|]. destruct (HE He) as (_ & ->).
    rewrite !take_ge; [done|lia|lia].
Qed.

Lemma response_status_Encode v rw : rw_wrote rw = None -> response_status (Encode (Some v) rw) = 200.
Proof. destruct rw as [h [?|] b]; [done|]. reflexivity. Qed.

Lemma rw_body_Encode v rw : rw_body (Encode (Some v) rw) = rw_body rw +:+ marshal v +:+ newline.
Proof. destruct rw as [h [[]|] b]; reflexivity. Qed.

(** The answer after the loop *)
Definition finish (rw : ResponseWriter) (rows : replayRows) (e : loop_end) : ResponseWriter :=
  let answer x := Encode (Some (replayResponse_json x)) (SetHeader "Content-Type" "application/json" rw) in
  match e with
  | ScanFailed => Error "failed to read events" 500 rw
  | PublishFailed => Error "failed to publish replay event" 503 rw
  | Broke published nextCursor => answer (mkReplayResponse published true nextCursor)
  | Exhausted published _ =>
      match rows_err rows with
      | Some _ => Error "failed to read events" 500 rw
      | None => answer (mkReplayResponse published false None)
      end
  end.

Lemma replay_run r rw w req fromT toT cursor text args :
  Method r = "POST" -> DecodeJSONRequest replayRequest_of r = Ok req ->
  replay_checked req = Ok (fromT, toT, cursor) ->
  replay_query req fromT toT cursor (replay_limit (rq_Limit req)) = (text, args) ->
  newReplayHandler pool_events (XAdd s) r rw w =
    match pool_events text args w with
    | (Err _, w1) => (Ok (Error "failed to query events" 500 rw), w1)
    | (Ok rows, w1) =>
        match replay_loop (XAdd s) (replay_limit (rq_Limit req)) (rows_left rows) 0 None w1 with
        | (Ok e, w2) => (Ok (finish rw rows e), w2)
        | (Err e, w2) => (Err e, w2)
        end
    end.
Proof.
  intros Hm Hd Hc Hq. unfold newReplayHandler. rewrite Hm, Hd, Hc, Hq. unfold gbind, catch, gret. simpl.
  destruct (pool_events text args w) as [[rows|e] w1]; [|done].
  destruct (replay_loop _ _ _ _ _ w1) as [[e|e] w2]; [|done]. destruct e; try done. simpl. by case_match.
Qed.

(** What is left of a request for the rows [all] by pages of [limit]: a prefix of
    a page is published, all of it when the answer is 200. *)
Definition page_outcome (limit : nat) (all : list (string * EventRow)) (rw rw' : ResponseWriter) (w w' : W) : Prop :=
  redis_only w w' /\
  exists n, (n <= limit)%nat /\ appended (publications (take n all)) w w' /\
    (response_status rw' ∈ [500; 503] \/
     response_status rw' = 200 /\ take n all = take limit all /\
     rw_body rw' = rw_body rw +:+ page_body (page_response limit all)).

Lemma page_failed limit all rw rw' w w' :
  quiet w w' -> (sent_once w -> sent_once w') -> response_status rw' ∈ [500; 503] -> page_outcome limit all rw rw' w w'.
Proof.
  intros Hq Ho Hs. split; [by apply quiet_redis_only|]. exists 0%nat.
  destruct Hq as (_ & _ & _ & Hr & _). split_and!; [lia|by apply appended_nil|by left].
Qed.

(** The rows of the page that have arrived when the loop ends *)
Lemma arrived limit k (all : list (string * EventRow)) n :
  (n <= length (take k (take (S limit) all)))%nat -> (n <= limit)%nat ->
  take n (take k (take (S limit) all)) = take n all /\
  ((limit < length (take k (take (S limit) all)))%nat -> take k (take (S limit) all) = take (S limit) all).
Proof.
  intros Hn Hl. rewrite !length_take in *. split.
  - rewrite !take_take. f_equal. lia.
  - intros Hk. apply take_ge. rewrite length_take. lia.
Qed.

Lemma page_loop limit k all err rw w r w' :
  rw_wrote rw = None -> (1 <= limit)%nat ->
  (err = None -> take k (take (S limit) all) = take (S limit) all) ->
  replay_loop (XAdd s) (Z.of_nat limit) (map Some (map row_of (take k (take (S limit) all)))) 0 None w = (r, w') ->
  exists e, r = Ok e /\
    page_outcome limit all rw (finish rw (mkReplayRows (map Some (map row_of (take k (take (S limit) all)))) err) e) w w'.
Proof.
  intros Hrw Hl Herr HL. apply replay_loop_spec in HL as (Hro & e & n & -> & Hn & Hnl & Happ & He); [|lia].
  rewrite length_map in Hn. destruct (arrived limit k all n Hn ltac:(lia)) as [Harr Hall].
  exists e. split; [done|]. split; [done|]. exists n. split; [lia|].
  assert (map replay_values (take n (map row_of (take k (take (S limit) all)))) = publications (take n all)) as Hpub.
  { unfold publications. by rewrite firstn_map, map_map, Harr. }
  rewrite Hpub in Happ. split; [done|].
  assert (Hfull : match e with Broke _ _ => True | Exhausted _ _ => err = None | _ => False end ->
    take k (take (S limit) all) = take (S limit) all).
  { destruct e as [| |p' c|p' c]; intros Hend; [done|done| |by apply Herr]. apply Hall. rewrite length_map in He. lia. }
  destruct e as [| |p' c|p' c]; unfold finish; simpl rows_err; cbv iota zeta.
  - done.
  - left. rewrite response_status_Error by done. set_solver.
  - rewrite Hfull in Hn, He by done. rewrite <- (length_map row_of) in Hn. right. rewrite response_status_Encode, rw_body_Encode by done.
    destruct (page_end limit all _ p' c n (Broke p' c) eq_refl Hn ltac:(lia)) as (E1 & _ & E3);
      [intros _; naive_solver lia|done|]. split_and!; [done|apply E3; auto|]. by rewrite (E1 eq_refl).
  - destruct err as [er|]; [left; rewrite response_status_Error by done; set_solver|].
    rewrite Hfull in Hn, He by done. rewrite <- (length_map row_of) in Hn. right. rewrite response_status_Encode, rw_body_Encode by done.
    destruct (page_end limit all _ p' c n (Exhausted p' c) eq_refl Hn ltac:(lia)) as (_ & E2 & E3);
      [done|intros _; naive_solver lia|]. split_and!; [done|apply E3; auto|]. by rewrite (E2 eq_refl).
Qed.

Lemma page_limit_pos req : (1 <= page_limit req)%nat /\ Z.of_nat (page_limit req) = replay_limit (rq_Limit req).
Proof. pose proof (replay_limit_range (rq_Limit req)). unfold page_limit. lia. Qed.

(** An accepted request runs the query it asks for. *)
Lemma replay_plan_run r rw w req q :
  replay_plan r = Some (req, q) ->
  exists text args,
    run_select text args (w_db w) = Ok (take (S (page_limit req)) (selected q (w_db w))) /\
    newReplayHandler pool_events (XAdd s) r rw w =
      match pool_events text args w with
      | (Err _, w1) => (Ok (Error "failed to query events" 500 rw), w1)
      | (Ok rows, w1) =>
          match replay_loop (XAdd s) (Z.of_nat (page_limit req)) (rows_left rows) 0 None w1 with
          | (Ok e, w2) => (Ok (finish rw rows e), w2)
          | (Err e, w2) => (Err e, w2)
          end
      end.
Proof.
  unfold replay_plan, where_asked. destruct (String.eqb_spec (Method r) "POST") as [Hm|]; [|done]. simpl negb. cbv iota.
  destruct (DecodeJSONRequest _ r) as [req'|] eqn:Hd; [|done].
  destruct (replay_checked req') as [[[fromT toT] cursor]|] eqn:Hc; [|done]. intros Hp.
  assert (req' = req) as ->.
  { destruct cursor as [[t id]|]; [destruct (uuid_in id)|]; simpl in Hp; by simplify_eq. }
  destruct (page_limit_pos req) as [Hl1 Hl2].
  pose proof (run_replay_query req fromT toT cursor (replay_limit (rq_Limit req)) (w_db w) (replay_limit_range _)) as Hrun.
  destruct (replay_query _ _ _ _ _) as [text args] eqn:Hq. exists text, args. split.
  - replace (S (page_limit req)) with (Z.to_nat (replay_limit (rq_Limit req) + 1)) by lia.
    destruct cursor as [[t id]|]; [destruct (uuid_in id)|]; simpl in Hp; by simplify_eq.
  - rewrite Hl2. by apply (replay_run r rw w req fromT toT cursor).
Qed.

Lemma replay_refused r rw w :
  rw_wrote rw = None -> replay_plan r = None ->
  exists rw' w', newReplayHandler pool_events (XAdd s) r rw w = (Ok rw', w') /\
    response_status rw' ∈ [400; 405; 413; 500] /\ quiet w w'.
Proof.
  intros Hrw Hp. unfold replay_plan, where_asked in Hp.
  assert (forall (m : M (R:=R) ResponseWriter) rw' w', m w = (Ok rw', w') -> quiet w w' ->
    response_status rw' ∈ [400; 405; 413; 500] -> exists rw' w', m w = (Ok rw', w') /\
    response_status rw' ∈ [400; 405; 413; 500] /\ quiet w w') as Hgo by naive_solver.
  destruct (String.eqb_spec (Method r) "POST") as [Hm|Hm].
  2:{ eapply Hgo; [|reflexivity|]; unfold newReplayHandler.
      - apply String.eqb_neq in Hm. rewrite Hm. done.
      - rewrite response_status_WriteHeader by done. set_solver. }
  simpl negb in Hp. cbv iota in Hp. destruct (DecodeJSONRequest _ r) as [req|e] eqn:Hd.
  2:{ eapply Hgo; [|reflexivity|]; unfold newReplayHandler; [by rewrite Hm, Hd|].
      destruct (IsRequestBodyTooLarge e); rewrite response_status_Error by done; set_solver. }
  destruct (replay_checked req) as [[[fromT toT] cursor]|] eqn:Hc.
  2:{ eapply Hgo; [|reflexivity|]; unfold newReplayHandler; [by rewrite Hm, Hd, Hc|].
      rewrite response_status_Error by done. set_solver. }
  destruct cursor as [[t id]|]; [|done]. destruct (uuid_in id) eqn:Hu; [done|].
  pose proof (run_replay_query req fromT toT (Some (t, id)) (replay_limit (rq_Limit req)) (w_db w) (replay_limit_range _)) as Hrun.
  destruct (replay_query _ _ _ _ _) as [text args] eqn:Hq. rewrite Hu in Hrun.
  rewrite (replay_run r rw w req fromT toT (Some (t, id)) text args Hm Hd Hc Hq).
  destruct (pool_events text args w) as [[rows|e] w1] eqn:HP; apply pool_events_inv in HP as (Hqu & _ & HP).
  { destruct (HP rows eq_refl) as (sel & n & er & Hs & _). by rewrite Hs in Hrun. }
  eexists _, _. split; [done|]. rewrite response_status_Error by done. split; [set_solver|done].
Qed.

Lemma handler_page r rw w :
  rw_wrote rw = None ->
  exists rw' w', newReplayHandler pool_events (XAdd s) r rw w = (Ok rw', w') /\
    match replay_plan r with
    | None => response_status rw' ∈ [400; 405; 413; 500] /\ quiet w w'
    | Some (req, q) => page_outcome (page_limit req) (selected q (w_db w)) rw rw' w w'
    end.
Proof.
  intros Hrw. destruct (replay_plan r) as [[req q]|] eqn:Hp.
  - destruct (replay_plan_run r rw w req q Hp) as (text & args & Hrun & ->).
    destruct (pool_events text args w) as [[rows|e] w1] eqn:HP; apply pool_events_inv in HP as (Hq & Hso & HP).
    2:{ eexists _, _. split; [done|]. apply page_failed; [done..|]. rewrite response_status_Error by done. set_solver. }
    destruct (HP rows eq_refl) as (sel & k & err & Hs & -> & Herr). rewrite Hrun in Hs. simplify_eq/=.
    destruct (replay_loop _ _ _ _ _ w1) as [rl w2] eqn:HL.
    apply (page_loop _ _ _ err rw) in HL as (e & -> & Hro & n & Hn & Happ & Ho); [|done|apply page_limit_pos|done].
    eexists _, _. split; [done|]. split; [etransitivity; [by apply quiet_redis_only|done]|].
    exists n. split_and!; [done| |done]. apply (appended_app [] _ w w1); [|done]. apply appended_nil; [apply Hq|done].
  - by apply replay_refused.
Qed.

(** C19: a replay publishes a page of the events it was asked for.  A request that
    is not acceptable (not POST, a body over 1 MiB or not JSON, times that are
    not RFC 3339, a cursor that is incomplete or not a UUID) is answered 400,
    405, 413 or 500 and publishes nothing.  Otherwise, under every fault of
    PostgreSQL and Redis, and wherever the reading of the rows breaks off, what is
    added to the stream is a prefix of the events in the window that pass the
    filters and come after the cursor, in (created_at, id) order, at most the limit
    (1 to 5000), each once unless the Redis client sends a command again; no table
    changes.
    When the answer is 200 it is the whole page, and the body tells how many,
    whether there are more, and the position of the last one. *)
Theorem replay_page r rw w :
  rw_wrote rw = None ->
  exists rw' w', newReplayHandler pool_events (XAdd s) r rw w = (Ok rw', w') /\
    match replay_plan r with
    | None => response_status rw' ∈ [400; 405; 413; 500] /\ quiet w w'
    | Some (req, q) => page_outcome (page_limit req) (selected q (w_db w)) rw rw' w w'
    end.
Proof. apply handler_page. Qed.

(** ** Following the cursors *)

Definition with_cursor (c : option ReplayCursor) (req : ReplayRequest) : ReplayRequest :=
  mkReplayRequest (rq_From req) (rq_To req) (rq_Source req) (rq_EventType req) (rq_Limit req) c.

(** The rows' times can be written in four-digit years. *)
Definition replayable (db : DB) : Prop :=
  schema_ok db /\ forall id e, events db !! id = Some e -> four_digit_year (ev_created_at e * 1000).

(** The request a client makes with the cursor [c] *)
Definition asks (r : Request) (req : ReplayRequest) (c : option ReplayCursor) : Prop :=
  Method r = "POST" /\ DecodeJSONRequest replayRequest_of r = Ok (with_cursor c req).

(** A client that asks for page after page, each time with the cursor of the
    last answer, until an answer has none. *)
Inductive replay_session (req : ReplayRequest) : option ReplayCursor -> W -> W -> Prop :=
| session_last c r rw' w w' x :
    asks r req c -> newReplayHandler pool_events (XAdd s) r new_writer w = (Ok rw', w') ->
    response_status rw' = 200 -> response_of (rw_body rw') = Some x -> rs_NextCursor x = None ->
    replay_session req c w w'
| session_more c c' r rw' w w1 w' x :
    asks r req c -> newReplayHandler pool_events (XAdd s) r new_writer w = (Ok rw', w1) ->
    response_status rw' = 200 -> response_of (rw_body rw') = Some x -> rs_NextCursor x = Some c' ->
    replay_session req (Some c') w1 w' -> replay_session req c w w'.

(** The cursor of a row is accepted and selects the rows after it. *)
Lemma where_next db req c q x :
  replayable db -> where_asked (with_cursor c req) = Some q -> events db !! x.1 = Some x.2 ->
  where_asked (with_cursor (Some (cursor_of (row_of x))) req) = Some (from_position (position x) q).
Proof.
  intros [Hok Hyear] Hw Hx. destruct (rfc3339nano_plain (ev_created_at x.2 * 1000)) as (Ht & _ & Hne).
  assert (uuid_in x.1 = Some x.1) as Hu by (eapply so_event_ids; [done|]; by eexists).
  assert (TrimSpace x.1 = x.1) as Hti by by eapply uuid_trimmed.
  assert (x.1 <> "") as Hxe by (apply uuid_in_length in Hu; intros E; by rewrite E in Hu).
  unfold where_asked, replay_checked in *. cbn [with_cursor rq_From rq_To rq_Cursor] in *.
  destruct (String.eqb (rq_From req) "" || String.eqb (rq_To req) ""); [done|].
  unfold cursor_of, row_of. cbn [rc_CreatedAt rc_EventID]. rewrite Ht, Hti.
  apply String.eqb_neq in Hne, Hxe. rewrite Hne, Hxe. cbn [orb].
  assert (exists fromT toT cur, Parse_RFC3339 (rq_From req) = Some fromT /\ Parse_RFC3339 (rq_To req) = Some toT /\
    q = where_of (with_cursor c req) fromT toT cur) as (fromT & toT & cur & -> & -> & ->).
  { repeat case_match; simplify_eq/=; eauto 10.
    destruct (uuid_in _) eqn:?; simplify_eq/=. eauto 10. }
  rewrite Parse_rfc3339nano by by eapply Hyear. rewrite Hu. simpl. unfold micros. by rewrite Z.div_mul.
Qed.

(** A page of an accepted request that was answered 200 *)
Lemma page_read limit all rw' w w' :
  (1 <= limit <= 5000)%nat -> Forall (fun x => uuid_in x.1 = Some x.1) all ->
  page_outcome limit all new_writer rw' w w' -> response_status rw' = 200 ->
  redis_only w w' /\ appended (publications (take limit all)) w w' /\
  response_of (rw_body rw') = Some (page_response limit all).
Proof.
  intros Hl Hall (Hro & n & Hn & Happ & [Hs|(_ & Ht & Hb)]) H200; [rewrite H200 in Hs; apply list_elem_of_In in Hs; simpl in Hs; lia|].
  rewrite Ht in Happ. split_and!; [done..|]. rewrite Hb. apply response_of_page_body; unfold page_response.
  - cbn [rs_Published]. unfold int64_max. lia.
  - cbn [rs_NextCursor]. intros c. destruct (limit <? length all)%nat; [|done]. unfold last_cursor.
    destruct (last _) as [row|] eqn:El; [|done]. intros ?; simplify_eq.
    apply last_Some_elem_of in El.
    apply list_elem_of_fmap in El as (x & -> & Hx). apply take_elem in Hx.
    rewrite Forall_forall in Hall. specialize (Hall x Hx).
    unfold cursor_of, row_of. cbn [rc_CreatedAt rc_EventID]. split; [apply rfc3339nano_plain|by apply uuid_clean].
Qed.

Lemma selected_uuids q db : replayable db -> Forall (fun x => uuid_in x.1 = Some x.1) (selected q db).
Proof.
  intros [Hok _]. apply Forall_forall. intros x Hx. apply selected_elem in Hx as (Hx & _).
  eapply so_event_ids; [done|]. by eexists.
Qed.

(** The end of a page is a row, when there are more. *)
Lemma page_split limit (all : list (string * EventRow)) :
  (1 <= limit)%nat -> (limit < length all)%nat ->
  exists l y, take limit all = l ++ [y] /\ all = l ++ y :: drop limit all /\
    last_cursor (map row_of (take limit all)) None = Some (cursor_of (row_of y)).
Proof.
  intros H1 H2. destruct (last (take limit all)) as [y|] eqn:El.
  - pose proof El as El'. apply last_Some in El' as [l Hl]. exists l, y. split_and!; [done| |].
    + rewrite <- (take_drop limit all) at 1. rewrite Hl. by rewrite <- app_assoc.
    + unfold last_cursor. rewrite fmap_last, El. done.
  - apply last_None in El. apply (f_equal length) in El. rewrite length_take in El. simpl in El. lia.
Qed.

Lemma page_last limit all :
  (1 <= limit)%nat -> rs_NextCursor (page_response limit all) = None -> take limit all = all.
Proof.
  intros Hl. unfold page_response. cbn [rs_NextCursor].
  destruct (Nat.ltb_spec limit (length all)) as [Hlt|Hge]; [|intros _; by apply take_ge].
  destruct (page_split limit all Hl Hlt) as (l & y & _ & _ & ->). done.
Qed.

Lemma page_next limit all c :
  (1 <= limit)%nat -> rs_NextCursor (page_response limit all) = Some c ->
  exists l y, take limit all = l ++ [y] /\ all = l ++ y :: drop limit all /\ c = cursor_of (row_of y).
Proof.
  intros Hl. unfold page_response. cbn [rs_NextCursor].
  destruct (Nat.ltb_spec limit (length all)) as [Hlt|Hge]; [|done].
  destruct (page_split limit all Hl Hlt) as (l & y & H1 & H2 & ->). intros ?; simplify_eq. eauto.
Qed.

(** One request of a session *)
Lemma session_page req c r rw' w w' x :
  replayable (w_db w) -> asks r req c -> newReplayHandler pool_events (XAdd s) r new_writer w = (Ok rw', w') ->
  response_status rw' = 200 -> response_of (rw_body rw') = Some x ->
  exists q, where_asked (with_cursor c req) = Some q /\ redis_only w w' /\
    appended (publications (take (page_limit req) (selected q (w_db w)))) w w' /\
    x = page_response (page_limit req) (selected q (w_db w)).
Proof.
  intros Hok [Hm Hd] HH H200 Hx. destruct (handler_page r new_writer w eq_refl) as (rw0 & w0 & HH' & Hcase).
  rewrite HH in HH'. simplify_eq. unfold replay_plan in Hcase. rewrite Hm, Hd in Hcase. simpl in Hcase.
  destruct (where_asked _) as [q|] eqn:Hq; simpl in Hcase.
  2:{ destruct Hcase as [Hs _]. rewrite H200 in Hs. apply list_elem_of_In in Hs. simpl in Hs. lia. }
  exists q. split; [done|]. pose proof (page_limit_pos req) as Hl. pose proof (replay_limit_range (rq_Limit req)).
  change (page_limit (with_cursor c req)) with (page_limit req) in Hcase.
  apply page_read in Hcase as (Hro & Happ & Hr); [|lia|by apply selected_uuids|done].
  rewrite Hr in Hx. by simplify_eq.
Qed.

Lemma session_publishes req c w w' :
  replay_session req c w w' -> replayable (w_db w) ->
  exists q, where_asked (with_cursor c req) = Some q /\ redis_only w w' /\
    appended (publications (selected q (w_db w))) w w'.
Proof.
  induction 1 as [c r rw' w w' x Ha HH H2 Hx Hn|c c' r rw' w w1 w' x Ha HH H2 Hx Hn _ IH]; intros Hok;
    destruct (session_page req c r rw' w _ x Hok Ha HH H2 Hx) as (q & Hq & Hro & Happ & ->); exists q;
    (split; [done|]).
  - apply page_last in Hn; [|apply page_limit_pos]. by rewrite Hn in Happ.
  - apply page_next in Hn as (l & y & Ht & Hall & ->); [|apply page_limit_pos].
    assert (w_db w1 = w_db w) as Hdb by apply Hro. rewrite Hdb in IH.
    destruct (IH Hok) as (q' & Hq' & Hro' & Happ').
    assert (events (w_db w) !! y.1 = Some y.2) as Hy.
    { apply (selected_elem q). rewrite Hall. set_solver. }
    rewrite (where_next _ _ _ _ _ Hok Hq Hy) in Hq'. simplify_eq.
    rewrite (selected_next _ _ _ _ _ Hall) in Happ'. split; [by etransitivity|].
    rewrite Hall. replace (l ++ y :: drop (page_limit req) (selected q (w_db w))) with
      (take (page_limit req) (selected q (w_db w)) ++ drop (page_limit req) (selected q (w_db w))) by
      (rewrite Ht at 1; by rewrite <- app_assoc).
    unfold publications. rewrite map_app. by eapply appended_app.
Qed.

(** C18: paging through a replay is one ordered scan.  A client that follows the
    cursors of the answers until there are no more has published, whatever the
    page size, exactly the events of the window that pass the filters: each
    once (up to four times in a row when the Redis client lost replies and sent a
    command again), in (created_at, id) order, no table changed. *)
Theorem replay_session_exact req w w' :
  replayable (w_db w) -> replay_session req None w w' ->
  exists q, where_asked (with_cursor None req) = Some q /\ w_db w' = w_db w /\
    appended (publications (selected q (w_db w))) w w' /\
    (forall id e, (id, e) ∈ selected q (w_db w) <-> events (w_db w) !! id = Some e /\ window q (id, e)) /\
    NoDup (map fst (selected q (w_db w))) /\ StronglySorted event_le (selected q (w_db w)).
Proof.
  intros Hok HS. destruct (session_publishes _ _ _ _ HS Hok) as (q & Hq & Hro & Happ). exists q.
  split_and!; [done|apply Hro|done| | |apply selected_sorted].
  - intros id e. rewrite selected_elem. cbn [fst snd].
    assert (wh_after q = None) as ->; [|simpl; tauto].
    unfold where_asked, replay_checked in Hq. cbn [with_cursor rq_Cursor] in Hq. repeat case_match; by simplify_eq/=.
  - apply NoDup_fmap_fst; [|apply selected_nodup]. intros id e1 e2 H1 H2.
    apply selected_elem in H1 as (H1 & _), H2 as (H2 & _). simpl in *. rewrite H1 in H2. by simplify_eq.
Qed.

(** ** Sessions end *)

Lemma XAdd_answers v w : w_env w = [] -> v <> ∅ -> exists id w', XAdd s v w = (Ok id, w') /\ w_env w' = [].
Proof.
  intros He Hv. destruct (xadd (w_now w / 1000000) s v (w_redis w)) as [id r'] eqn:E.
  exists id, (with_redis r' w). split; [by apply XAdd_exec|done].
Qed.

Lemma replay_values_nonempty row : replay_values row <> ∅.
Proof.
  destruct row as [[[[id ty] src] p] t]. intros E. apply (f_equal (lookup "event_id")) in E.
  unfold replay_values in E. simpl in E. rewrite lookup_insert, lookup_empty in E. by case_decide.
Qed.

Lemma replay_loop_exec limit rows p cur w :
  w_env w = [] ->
  exists e w', replay_loop (XAdd s) limit (map Some rows) p cur w = (Ok e, w') /\ w_env w' = [] /\
    match e with Broke _ _ | Exhausted _ _ => True | _ => False end.
Proof.
  revert p cur w. induction rows as [|row rows IH]; intros p cur w He; cbn [map replay_loop]; [by eexists _, _|].
  destruct (limit <=? p); [by eexists _, _|].
  destruct (XAdd_answers (replay_values row) w He (replay_values_nonempty row)) as (id & w1 & HX & He1).
  unfold gbind, catch. rewrite HX. by apply IH.
Qed.

Lemma handler_exec r w req q :
  w_env w = [] -> replay_plan r = Some (req, q) ->
  exists rw' w', newReplayHandler pool_events (XAdd s) r new_writer w = (Ok rw', w') /\
    response_status rw' = 200 /\ w_env w' = [].
Proof.
  intros He Hp. destruct (replay_plan_run r new_writer w req q Hp) as (text & args & Hrun & ->).
  assert (pool_events text args w =
    (Ok (mkReplayRows (map Some (map row_of (take (S (page_limit req)) (selected q (w_db w))))) None), w)) as ->.
  { unfold pool_events, pool_rows, next_reply, gbind, gret. rewrite He. cbn [fst snd]. rewrite Hrun. by rewrite map_map. }
  cbn [rows_left]. destruct (replay_loop_exec (Z.of_nat (page_limit req))
    (map row_of (take (S (page_limit req)) (selected q (w_db w)))) 0 None w He) as (e & w' & -> & He' & Hend).
  eexists _, w'. split; [done|]. split; [|done]. destruct e; done.
Qed.

Lemma session_ends req n : forall c q w,
  w_env w = [] -> replayable (w_db w) -> where_asked (with_cursor c req) = Some q ->
  length (selected q (w_db w)) = n -> (exists r, asks r req c) ->
  (forall x, events (w_db w) !! x.1 = Some x.2 -> exists r, asks r req (Some (cursor_of (row_of x)))) ->
  exists w', replay_session req c w w'.
Proof.
  induction n as [n IH] using lt_wf_ind. intros c q w He Hok Hq Hn [r Hr] Hnext.
  assert (replay_plan r = Some (with_cursor c req, q)) as Hp.
  { destruct Hr as [Hm Hd]. unfold replay_plan. rewrite Hm, Hd. simpl. by rewrite Hq. }
  destruct (handler_exec r w _ q He Hp) as (rw' & w1 & HH & H200 & He1).
  destruct (handler_page r new_writer w eq_refl) as (rw0 & w0 & HH' & Hcase). rewrite Hp in Hcase.
  rewrite HH in HH'. simplify_eq. pose proof (page_limit_pos req) as Hl. pose proof (replay_limit_range (rq_Limit req)).
  change (page_limit (with_cursor c req)) with (page_limit req) in Hcase.
  apply page_read in Hcase as (Hro & Happ & Hx); [|lia|by apply selected_uuids|done].
  destruct (rs_NextCursor (page_response (page_limit req) (selected q (w_db w)))) as [c'|] eqn:Hc.
  2:{ exists w0. by eapply session_last. }
  pose proof Hc as Hc'. apply page_next in Hc' as (l & y & Ht & Hall & ->); [|lia].
  assert (w_db w0 = w_db w) as Hdb by apply Hro.
  assert (events (w_db w) !! y.1 = Some y.2) as Hy.
  { apply (selected_elem q). rewrite Hall. set_solver. }
  pose proof (where_next _ _ _ _ _ Hok Hq Hy) as Hq'. pose proof (selected_next _ _ _ _ _ Hall) as Hsel.
  destruct (IH (length (drop (page_limit req) (selected q (w_db w))))) with
    (c := Some (cursor_of (row_of y))) (q := from_position (position y) q) (w := w0) as [w' HS].
  - rewrite length_drop. apply (f_equal length) in Hall. rewrite length_app in Hall. simpl in Hall. lia.
  - done.
  - by rewrite Hdb.
  - done.
  - by rewrite Hdb, Hsel.
  - by apply Hnext.
  - by rewrite Hdb.
  - exists w'. by eapply session_more.
Qed.

(** C31: every replay ends.  Without faults, and if the request is acceptable and
    the client can send it with the cursors of the stored events, following the
    cursors reaches an answer without one: every page with more to come advances
    by at least one event. *)
Theorem replay_session_terminates req q w :
  w_env w = [] -> replayable (w_db w) -> where_asked (with_cursor None req) = Some q ->
  (exists r, asks r req None) ->
  (forall x, events (w_db w) !! x.1 = Some x.2 -> exists r, asks r req (Some (cursor_of (row_of x)))) ->
  exists w', replay_session req None w w'.
Proof. intros. by eapply session_ends. Qed.

End Pages.

(** ** Witnesses: two stored events, pages of one *)

Definition replay_body (cursor : option ReplayCursor) : string :=
  marshal (JObj ([("from", JStr "1970-01-01T00:00:00Z"); ("to", JStr "1970-01-01T00:00:01.5+00:00");
                  ("limit", JNum "1")] ++
                 match cursor with Some c => [("cursor", replayCursor_json c)] | None => [] end)).

Definition replay_post (cursor : option ReplayCursor) : Request := post "/replay" (replay_body cursor) [].
Definition replay_world : World SimRedis := sim_world stored_twice_db empty_redis 5000000000 [] [].
Definition sample_replay : ReplayRequest :=
  mkReplayRequest "1970-01-01T00:00:00Z" "1970-01-01T00:00:01.5+00:00" "" "" 1 None.

Lemma stored_twice_replayable : replayable stored_twice_db.
Proof.
  split; [apply stored_twice_db_ok|]. intros id e He.
  assert (map_Forall (fun _ e => four_digit_year (ev_created_at e * 1000)) (events stored_twice_db)) as Hm.
  { apply (bool_decide_unpack _). vm_compute. exact I. }
  exact (Hm id e He).
Qed.

Lemma replay_page_witness : exists rw' w',
  newReplayHandler pool_events (XAdd "eventrail.events") (replay_post None) new_writer replay_world = (Ok rw', w') /\
  response_status rw' = 200 /\ length (stream (w_redis w') "eventrail.events") = 1%nat /\
  exists req q, replay_plan (replay_post None) = Some (req, q) /\
    page_outcome "eventrail.events" 1 (selected q stored_twice_db) new_writer rw' replay_world w'.
Proof.
  destruct (replay_page "eventrail.events" (replay_post None) new_writer replay_world eq_refl) as (rw' & w' & E & H).
  exists rw', w'. split; [exact E|].
  assert (match newReplayHandler pool_events (XAdd "eventrail.events") (replay_post None) new_writer replay_world with
          | (Ok x, v) => (response_status x, length (stream (w_redis v) "eventrail.events"))
          | (Err _, v) => (0, 0%nat)
          end = (200, 1%nat)) as Hc by (vm_compute; reflexivity).
  rewrite E in Hc. injection Hc as H1 H2. split; [exact H1|]. split; [exact H2|].
  destruct (replay_plan (replay_post None)) as [[req q]|] eqn:Hp; [|vm_compute in Hp; discriminate Hp].
  exists req, q. split; [reflexivity|].
  assert (page_limit req = 1%nat) as Hl; [|rewrite Hl in H; exact H].
  vm_compute in Hp. injection Hp as <- _. reflexivity.
Defined.

Lemma sample_asks x :
  events stored_twice_db !! x.1 = Some x.2 ->
  asks (replay_post (Some (cursor_of (row_of x)))) sample_replay (Some (cursor_of (row_of x))).
Proof.
  intros Hx. apply elem_of_map_to_list in Hx.
  assert (Forall (fun x => DecodeJSONRequest replayRequest_of (replay_post (Some (cursor_of (row_of x)))) =
            Ok (with_cursor (Some (cursor_of (row_of x))) sample_replay)) (map_to_list (events stored_twice_db))) as Hall.
  { replace (map_to_list (events stored_twice_db)) with
      ltac:(let l := eval vm_compute in (map_to_list (events stored_twice_db)) in exact l)
      by (vm_compute; reflexivity).
    repeat constructor; vm_compute; reflexivity. }
  rewrite Forall_forall in Hall. split; [reflexivity|]. destruct x as [id e]. exact (Hall _ Hx).
Qed.

Lemma replay_session_terminates_witness :
  exists w', replay_session "eventrail.events" sample_replay None replay_world w'.
Proof.
  destruct (where_asked (with_cursor None sample_replay)) as [q|] eqn:Hq; [|vm_compute in Hq; discriminate Hq].
  apply (replay_session_terminates "eventrail.events" sample_replay q replay_world).
  - reflexivity.
  - apply stored_twice_replayable.
  - exact Hq.
  - exists (replay_post None). split; [reflexivity|]. vm_compute. reflexivity.
  - intros x Hx. eexists. apply sample_asks. exact Hx.
Defined.

Lemma replay_session_exact_witness : exists q w',
  length (selected q stored_twice_db) = 2%nat /\
  appended "eventrail.events" (publications (selected q stored_twice_db)) replay_world w'.
Proof.
  destruct (where_asked (with_cursor None sample_replay)) as [q|] eqn:Hq; [|vm_compute in Hq; discriminate Hq].
  destruct (session_ends "eventrail.events" sample_replay (length (selected q stored_twice_db)) None q replay_world) as [w' HS].
  - reflexivity.
  - apply stored_twice_replayable.
  - exact Hq.
  - reflexivity.
  - exists (replay_post None). split; [reflexivity|]. vm_compute. reflexivity.
  - intros x Hx. eexists. apply sample_asks. exact Hx.
  - destruct (replay_session_exact "eventrail.events" sample_replay replay_world w' stored_twice_replayable HS)
      as (q' & Hq' & _ & Happ & _).
    exists q', w'. split; [|exact Happ]. vm_compute in Hq'. injection Hq' as <-. vm_compute. reflexivity.
Defined.

End ReplayFacts.
