(* ===== verification/EventExplain.v ===== *)
(** * EventExplain: the evidence for an explanation
    ([internal/httpapi/event_explain.go])

    The snapshot of an event that leaves the program for the AI service: statuses
    and attempts within the bounds the service accepts, and error texts cleared
    of what must not leave. *)

From S2P Require Import Prelude GoStrings GoErrors GoTime Utf8 Json JsonDecode GoHttp Delivery Database.
From S2P Require Import DatabaseFacts RedisServer World WorldFacts Simulation Operations AiTriage HttpApi.
From S2P Require Import OperationalHandlers Samples HttpFacts.
Import Delivery Operations AiTriage HttpApi OperationalHandlers HttpFacts.

Module EventExplain.

Definition maxExplainHistoryItems : nat := 20.
Definition maxExplainAttemptItems : nat := 20.
Definition maxExplainErrorLength : nat := 1000.
Definition defaultExplainDestination : string := "Webhook destination".

(** ** Event ids *)

Definition hex_digit_ci (c : ascii) : bool :=
  is_digit c || (let l := byte_val (lower_ascii c) in ((97 <=? l) && (l <=? 102))%N).

Definition one_of (set : string) (c : ascii) : bool :=
  bool_decide (lower_ascii c ∈ chars set).

(** The bytes [uuidPattern] wants, in order. *)
Definition uuid_shape : list (ascii -> bool) :=
  replicate 8 hex_digit_ci ++ [Ascii.eqb "-"] ++ replicate 4 hex_digit_ci ++ [Ascii.eqb "-"] ++
  [one_of "12345"] ++ replicate 3 hex_digit_ci ++ [Ascii.eqb "-"] ++
  [one_of "89ab"] ++ replicate 3 hex_digit_ci ++ [Ascii.eqb "-"] ++ replicate 12 hex_digit_ci.

Fixpoint matches (shape : list (ascii -> bool)) (l : list ascii) : bool :=
  match shape, l with
  | [], [] => true
  | p :: shape', c :: l' => p c && matches shape' l'
  | _, _ => false
  end.

Definition validEventID (eventID : string) : bool := matches uuid_shape (chars (TrimSpace eventID)).

(** ** Texts *)

(** [strings.ToLower] as far as a search for ASCII words can tell: the letters of
    ASCII, and the two code points outside it whose lower case is in it (U+0130
    to [i], U+212A to [k]). *)
Fixpoint lower_search (l : list ascii) : list ascii :=
  match l with
  | [] => []
  | a :: l1 =>
      match strip_prefix [ascii_of_N 196; ascii_of_N 176] l, l1 with
      | Some _, _ :: l2 => ascii_of_N 105 :: lower_search l2
      | _, _ =>
          match strip_prefix [ascii_of_N 226; ascii_of_N 132; ascii_of_N 170] l, l1 with
          | Some _, _ :: _ :: l3 => ascii_of_N 107 :: lower_search l3
          | _, _ => lower_ascii a :: lower_search l1
          end
      end
  end.
Definition ToLower (s : string) : string := String.string_of_list_ascii (lower_search (chars s)).

Definition contains_any (s : string) (words : list string) : bool := existsb (Contains s) words.

Definition field_words : list string := ["invoice_id"; "amount"; "currency"].
Definition url_words : list string := ["http://"; "https://"].
Definition credential_words : list string := ["authorization"; "token"; "secret"].
Definition internal_words : list string := ["stack trace"; "panic"; "database"; "dsn"].

Definition safeExplainError (attempt : DeliveryAttempt) : option string :=
  match AttemptError attempt with
  | None => None
  | Some err =>
      let message := TrimSpace err in
      if String.eqb message "" then None else
      let lower := ToLower message in
      let cleared :=
        if contains_any lower field_words then Some "Required destination field was missing"
        else if contains_any lower url_words
        then Some "Destination delivery failed before a safe HTTP response was recorded"
        else if contains_any lower credential_words
        then Some "Destination rejected the request with an authentication or authorization error"
        else if contains_any lower internal_words then None
        else Some message in
      match cleared with
      | None => None
      | Some message =>
          let message :=
            if (maxExplainErrorLength <? String.length message)%nat
            then TrimSpace (String.string_of_list_ascii (take maxExplainErrorLength (chars message)))
            else message in
          if String.eqb message "" then None else Some message
      end
  end.

Definition explainAttemptOutcome (attempt : DeliveryAttempt) : string :=
  let by_text :=
    if String.eqb (Outcome attempt) DeliveryOutcomeSucceeded then "success"
    else if negb (String.eqb (Outcome attempt) DeliveryOutcomeFailed) then "unknown"
    else
      let errText := match AttemptError attempt with Some e => ToLower e | None => "" end in
      if Contains errText "permanent" then "permanent_failure"
      else if contains_any errText ["timeout"; "connection"; "no such host"; "deliver webhook request"]
      then "transport_failure"
      else if Contains errText "retryable" then "temporary_failure"
      else "unknown" in
  match ResponseCode attempt with
  | Some code =>
      if (200 <=? code) && (code <=? 299) then "success"
      else if String.eqb (ClassifyHTTPStatus code) FailureRetryable then "temporary_failure"
      else if String.eqb (ClassifyHTTPStatus code) FailurePermanent then "permanent_failure"
      else by_text
  | None => by_text
  end.

(** ** Statuses and times *)

Definition explain_statuses : list string :=
  [StatusStored; StatusPendingPublication; StatusPublished; StatusProcessing; StatusRetrying;
   StatusDeadLettered; StatusRedriven; StatusDelivered; "RECEIVED"].

Definition mapExplainStatus (status : string) : option string :=
  if bool_decide (status ∈ explain_statuses) then Some status else None.

(** [time.Time{}], the first of January of the year 1 *)
Definition zero_time : Z := -62135596800 * ns_per_s.

Definition formatOptionalTime (value : Z) : option string :=
  if value =? zero_time then None else Some (rfc3339nano value).

Definition explainStatusHistoryFromStore (history : list StatusHistoryEntry) : list explainStatusHistory :=
  omap (fun e => status ← mapExplainStatus (Status e);
                 Some (mkExplainStatusHistory status (formatOptionalTime (EntryCreatedAt e)))) history.

Definition explainDeliveryAttemptsFromStore (attempts : list DeliveryAttempt)
    : list explainDeliveryAttempt :=
  imap (fun index a => mkExplainDeliveryAttempt (Z.of_nat index + 1) (ResponseCode a)
                         (explainAttemptOutcome a) (safeExplainError a)
                         (formatOptionalTime (CompletedAt a))) attempts.

Definition statusHistoryContains (history : list StatusHistoryEntry) (status : string) : bool :=
  existsb (fun e => String.eqb (Status e) status) history.

Definition countStatus (history : list StatusHistoryEntry) (status : string) : Z :=
  Z.of_nat (length (filter (fun e => Status e = status) history)).

(** The retry number that the details of one RETRYING entry name. *)
Definition details_retry (details : string) (maxRetry : Z) : Z :=
  match (v ← parse details; m ← members v;
         retry ← int_ptr_field None "retry" m;
         nextRetry ← int_ptr_field None "next_retry" m; Some (retry, nextRetry)) with
  | None => maxRetry
  | Some (retry, nextRetry) =>
      let maxRetry := match nextRetry with Some n => if maxRetry <? n then n else maxRetry | None => maxRetry end in
      match retry with Some n => if maxRetry <? n then n else maxRetry | None => maxRetry end
  end.

Definition retryCountFromHistory (history : list StatusHistoryEntry) : Z :=
  let entries := filter (fun e => Status e = StatusRetrying) history in
  let maxRetry := fold_left (fun m e => details_retry (Details e) m) entries 0 in
  if 0 <? maxRetry then maxRetry else Z.of_nat (length entries).

(** ** Bounds *)

Definition boundExplainAttempts (attempts : list explainDeliveryAttempt) : list explainDeliveryAttempt :=
  if (length attempts <=? maxExplainAttemptItems)%nat then attempts
  else drop (length attempts - maxExplainAttemptItems) attempts.

Definition terminal_marker (e : explainStatusHistory) : bool :=
  bool_decide (xh_Status e ∈ [StatusDeadLettered; StatusRedriven; StatusDelivered]).

(** The first entry and the terminal markers. *)
Definition keep_markers (history : list explainStatusHistory) : gset nat :=
  {[0%nat]} ∪ list_to_set (map fst (filter (fun ie => terminal_marker ie.2 = true) (imap pair history))).

(** [for i := n - 1; i >= 0 && len(keep) < max; i--]: [n] indices are left. *)
Fixpoint keep_recent (n : nat) (keep : gset nat) : gset nat :=
  match n with
  | O => keep
  | S i => if (size keep <? maxExplainHistoryItems)%nat then keep_recent i ({[i]} ∪ keep) else keep
  end.

Definition boundExplainHistory (history : list explainStatusHistory) : list explainStatusHistory :=
  if (length history <=? maxExplainHistoryItems)%nat then history else
  let keep := keep_recent (length history) (keep_markers history) in
  take maxExplainHistoryItems
    (map snd (filter (fun ie => ie.1 ∈ keep) (imap pair history))).

(** ** The snapshot *)

Section Handlers.
Context {SC : Strconv} {PG : Postgres} {R : Type}.
Abbreviation M := (M (R:=R)).

(** [EventExplainReader] *)
Record EventExplainReader := mkEventExplainReader {
  ReadEventStatus : string -> M EventStatus_;
  ReadDLQDetail : string -> M DLQDetail_;
}.

Definition storeReader (s : option Store) : EventExplainReader :=
  mkEventExplainReader (EventStatus s) (DLQDetail s).

Definition explainRequestFromStore (store : EventExplainReader) (eventID : string) : M explainRequest :=
  let! status := ReadEventStatus store eventID in
  let! detail := catch (ReadDLQDetail store eventID) in
  let! dlqDetail := lift_res (match detail with
                              | Ok d => Ok (Some d)
                              | Err e => if negb (errors_Is e ErrDLQNotFound) then Err e else Ok None
                              end) in
  match mapExplainStatus (es_CurrentStatus status) with
  | None => gerr (Sentinel errEventNotReadyForExplanation)
  | Some currentStatus =>
      let history := explainStatusHistoryFromStore (es_History status) in
      let attempts := explainDeliveryAttemptsFromStore (es_DeliveryAttempts status) in
      if is_nil history && is_nil attempts then gerr (Sentinel errEventNotReadyForExplanation) else
      let payload := Payload (es_Event status) in
      let destination := destinationFromEventPayload payload in
      let redriveCount := countStatus (es_History status) StatusRedriven in
      gret (mkExplainRequest (EventType (es_Event status)) (safeMetadataFromEventPayload payload).1
              (Source (es_Event status))
              (if String.eqb destination "" then defaultExplainDestination else destination)
              currentStatus (boundExplainHistory history) (boundExplainAttempts attempts)
              (retryCountFromHistory (es_History status))
              (bool_decide (is_Some dlqDetail) || statusHistoryContains (es_History status) StatusDeadLettered)
              (match dlqDetail with
               | Some d => if (redriveCount =? 0) && bool_decide (is_Some (dr_RedrivenAt (dd_Record d)))
                           then 1 else redriveCount
               | None => redriveCount
               end)
              (String.eqb currentStatus StatusDelivered))
  end.

Definition error_json (code : string) : option json := Some (JObj [("error", JStr code)]).

Definition NewEventExplainHandler (store : EventExplainReader)
    (client : option (explainRequest -> M explainResponse)) : Handler (R:=R) := fun r w =>
  guarded (requirePost r w) (
    match client with
    | None => gret (writeJSON 503 (error_json "EXPLANATION_UNAVAILABLE") w)
    | Some explain =>
        let eventID := TrimByte "/" (TrimSuffix (TrimPrefix (TrimRightByte "/" (Path r)) "/events/") "/explain") in
        if negb (validEventID eventID) then gret (writeJSON 400 (error_json "INVALID_EVENT_ID") w) else
        let! snapshot := catch (explainRequestFromStore store eventID) in
        match snapshot with
        | Err err =>
            gret (if errors_Is err ErrEventNotFound then WriteHeader 404 w
                  else if errors_Is err errEventNotReadyForExplanation
                  then writeJSON 409 (error_json "EVENT_NOT_READY_FOR_EXPLANATION") w
                  else Error "failed to build event explanation snapshot" 500 w)
        | Ok snapshot =>
            let! explanation := catch (explain snapshot) in
            gret (match explanation with
                  | Err err => if errors_Is err ErrAIServiceInvalidResponse
                               then writeJSON 502 (error_json "EXPLANATION_INVALID_RESPONSE") w
                               else writeJSON 503 (error_json "EXPLANATION_UNAVAILABLE") w
                  | Ok explanation => writeJSON 200 (Some (explainResponse_json explanation)) w
                  end)
        end
    end).

End Handlers.
(** ** The bounded history *)

Section Bounds.
Abbreviation H := explainStatusHistory.
Implicit Types h : list H.

Lemma imap_pair_fst {A} (l : list A) : map fst (imap pair l) = seq 0 (length l).
Proof.
  apply list_eq. intros i. rewrite list_lookup_fmap, list_lookup_imap.
  destruct (l !! i) as [x|] eqn:E; simpl.
  - apply lookup_lt_Some in E as Hl. symmetry. apply lookup_seq. lia.
  - apply lookup_ge_None in E. symmetry. apply lookup_seq_ge. lia.
Qed.

Lemma imap_pair_snd {A} (l : list A) : map snd (imap pair l) = l.
Proof.
  apply list_eq. intros i. rewrite list_lookup_fmap, list_lookup_imap. by destruct (l !! i).
Qed.

Lemma imap_pair_elem {A} (l : list A) i x : (i, x) ∈ imap pair l <-> l !! i = Some x.
Proof.
  rewrite list_elem_of_lookup. setoid_rewrite list_lookup_imap. split.
  - intros (j & Hj). destruct (l !! j) eqn:E; naive_solver.
  - intros E. exists i. by rewrite E.
Qed.

Lemma filter_sublist {A} (P : nat * A -> Prop) `{!forall x, Decision (P x)} (l : list A) :
  map snd (filter P (imap pair l)) `sublist_of` l.
Proof. rewrite <- (imap_pair_snd l) at 2. apply (fmap_sublist snd), sublist_filter. Qed.

(** Selecting by a set of indices keeps as many entries as the set has. *)
Lemma select_length {A} (keep : gset nat) (l : list A) :
  (forall i, i ∈ keep -> (i < length l)%nat) ->
  length (filter (fun ie => ie.1 ∈ keep) (imap pair l)) = size keep.
Proof.
  intros Hk. rewrite <- (length_map fst).
  assert (NoDup (map fst (filter (fun ie => ie.1 ∈ keep) (imap pair l)))) as Hnd.
  { eapply sublist_NoDup; [|apply (fmap_sublist fst), sublist_filter]. change (fst <$> imap pair l) with (map fst (imap pair l)).
    rewrite imap_pair_fst. apply NoDup_seq. }
  rewrite <- (size_list_to_set (C:=gset nat)) by done. f_equal. apply set_eq. intros i.
  rewrite elem_of_list_to_set, list_elem_of_fmap. split.
  - intros ([j x] & -> & Hf). by apply list_elem_of_filter in Hf as [? _].
  - intros Hi. destruct (lookup_lt_is_Some_2 l i) as [x Hx]; [by apply Hk|].
    exists (i, x). split; [done|]. apply list_elem_of_filter. split; [done|]. by apply imap_pair_elem.
Qed.

Lemma keep_markers_elem h i :
  i ∈ keep_markers h <-> i = 0%nat \/ exists e, h !! i = Some e /\ terminal_marker e = true.
Proof.
  unfold keep_markers. rewrite elem_of_union, elem_of_singleton, elem_of_list_to_set, list_elem_of_fmap.
  setoid_rewrite list_elem_of_filter. split.
  - intros [?|([j e] & -> & [? He])]; [by left|right]. exists e. split; [by apply imap_pair_elem|done].
  - intros [?|(e & He & ?)]; [by left|right]. exists (i, e). by rewrite imap_pair_elem.
Qed.

(** The indices added are a final segment, and they fill the set up to the
    limit unless they run out. *)
Lemma keep_recent_spec n keep :
  exists j, (j <= n)%nat /\ keep_recent n keep = keep ∪ set_seq j (n - j) /\
    ((size keep <= maxExplainHistoryItems)%nat -> (size (keep_recent n keep) <= maxExplainHistoryItems)%nat) /\
    ((maxExplainHistoryItems <= size (keep_recent n keep))%nat \/ j = 0%nat).
Proof.
  revert keep. induction n as [|i IH]; intros keep; simpl.
  - exists 0%nat. split_and!; [done| |done|by right]. set_solver.
  - destruct (Nat.ltb_spec (size keep) maxExplainHistoryItems) as [Hs|Hs].
    + destruct (IH ({[i]} ∪ keep)) as (j & Hj & -> & H1 & H2). exists j. split_and!; [lia| | |done].
      * apply set_eq. intros x. rewrite !elem_of_union, !elem_of_set_seq, elem_of_singleton. intuition lia.
      * intros _. apply H1. pose proof (size_union_alt {[i]} keep) as Hu. rewrite size_singleton in Hu.
        assert (size (keep ∖ {[i]}) <= size keep)%nat by (apply subseteq_size; set_solver). lia.
    + exists (S i). split_and!; [done| |done|by left]. rewrite Nat.sub_diag. set_solver.
Qed.

(** The entries whose index is selected by [P], in order. *)
Definition selected (P : nat -> H -> Prop) `{!forall i e, Decision (P i e)} h : list H :=
  map snd (filter (fun ie => P ie.1 ie.2) (imap pair h)).

Lemma selected_ext P Q `{!forall i e, Decision (P i e), !forall i e, Decision (Q i e)} h :
  (forall i e, h !! i = Some e -> P i e <-> Q i e) -> selected P h = selected Q h.
Proof.
  intros HPQ. unfold selected. f_equal. apply filter_ext_elem. intros [i e] Hi. by apply HPQ, imap_pair_elem.
Qed.

Definition by_index (keep : gset nat) (i : nat) (_ : H) : Prop := i ∈ keep.
#[global] Instance by_index_dec keep i e : Decision (by_index keep i e).
Proof. unfold by_index. apply _. Defined.

(** The first entry or a terminal marker. *)
Definition marked (i : nat) (e : H) : Prop := i = 0%nat \/ terminal_marker e = true.
#[global] Instance marked_dec i e : Decision (marked i e).
Proof. unfold marked. apply _. Defined.

Lemma boundExplainHistory_sub h :
  (length (boundExplainHistory h) <= 20)%nat /\ boundExplainHistory h `sublist_of` h.
Proof.
  unfold boundExplainHistory. cbv zeta.
  destruct (Nat.leb_spec (length h) maxExplainHistoryItems) as [Hl|Hl]; [done|].
  split; [rewrite length_take; unfold maxExplainHistoryItems; lia|].
  etransitivity; [apply sublist_take|apply filter_sublist].
Qed.

(** The history sent to the AI service has at most 20 entries, in order and
    from the stored history.  A history of at most 20 is sent as it is.  A longer
    one is cut to exactly 20 with the first entry kept; when the first entry and
    the terminal markers are at most 20, what is kept is exactly these and the
    most recent entries from some point on; when they are more, it is the oldest
    20 of these, so that the newest markers and all recent transitions are
    dropped. *)
Theorem boundExplainHistory_spec h :
  let b := boundExplainHistory h in
  (length b <= 20)%nat /\ b `sublist_of` h /\
  ((length h <= 20)%nat -> b = h) /\
  ((20 < length h)%nat -> length b = 20%nat /\ head b = head h /\
     if (size (keep_markers h) <=? 20)%nat
     then exists j, b = selected (fun i e => marked i e \/ (j <= i)%nat) h
     else b = take 20 (selected marked h)).
Proof.
  cbv zeta. destruct (boundExplainHistory_sub h) as [Hb Hsub]. split_and!; [done|done|..]; clear Hb Hsub;
    unfold boundExplainHistory; cbv zeta;
    destruct (Nat.leb_spec (length h) maxExplainHistoryItems) as [Hl|Hl]; unfold maxExplainHistoryItems in Hl;
    [done|lia|lia|]. intros _.
  set (keep := keep_recent _ _). change (map snd _) with (selected (by_index keep) h).
  destruct (keep_recent_spec (length h) (keep_markers h)) as (j & Hj & Hk & H20 & Hfull).
  fold keep in Hk, H20, Hfull. unfold maxExplainHistoryItems in *.
  assert (Hin : forall i, i ∈ keep -> (i < length h)%nat).
  { intros i. rewrite Hk, elem_of_union, keep_markers_elem, elem_of_set_seq.
    intros [[-> |(e & He & _)]|?]; [lia|by apply lookup_lt_Some in He|lia]. }
  assert (Hlen : length (selected (by_index keep) h) = size keep).
  { unfold selected. rewrite length_map. by apply select_length. }
  assert (Hge : (20 <= size keep)%nat).
  { destruct Hfull as [| ->]; [done|]. transitivity (length h); [lia|].
    rewrite <- (size_set_seq (C:=gset nat) 0 (length h)). apply subseteq_size. rewrite Hk. set_solver by lia. }
  split_and!; [rewrite length_take; lia| |].
  - destruct h as [|e h]; [simpl in Hl; lia|]. unfold selected. simpl.
    rewrite filter_cons_True; [done|]. simpl. unfold by_index. rewrite Hk, elem_of_union, keep_markers_elem. auto.
  - destruct (Nat.leb_spec (size (keep_markers h)) 20) as [Hm|Hm].
    + exists j. rewrite take_ge by (rewrite Hlen; by apply H20). apply selected_ext. intros i e He.
      unfold by_index. rewrite Hk, elem_of_union, keep_markers_elem, elem_of_set_seq. apply lookup_lt_Some in He as Hi. unfold marked.
      split; [intros [[?|(e' & ? & ?)]|?]; simplify_eq; auto; right; lia|].
      intros [[?|?]|?]; [auto|left; right; eauto|right; lia].
    + assert (keep = keep_markers h) as ->.
      { unfold keep. destruct (length h) as [|n]; [done|]. simpl.
        destruct (Nat.ltb_spec (size (keep_markers h)) maxExplainHistoryItems); [|done].
        unfold maxExplainHistoryItems in *. lia. }
      f_equal. apply selected_ext. intros i e He. unfold by_index. rewrite keep_markers_elem. unfold marked. naive_solver.
Qed.

End Bounds.
(** ** What leaves with a snapshot

    The specification names every word, text, code and bound itself. *)

(** The words that occur in an error, whatever their case *)
Definition names (err : string) (words : list string) : Prop :=
  exists word, word ∈ words /\ Contains (ToLower (TrimSpace err)) word = true.

(** The text that may leave for a stored error: nothing, one of three fixed texts
    for an error that names a business field, a URL or a credential, nothing for one
    that names an internal detail, and otherwise the beginning of the error, at most
    1000 bytes, never empty. *)
Inductive told_error : option string -> option string -> Prop :=
| told_none : told_error None None
| told_blank err : TrimSpace err = "" -> told_error (Some err) None
| told_field err :
    names err ["invoice_id"; "amount"; "currency"] ->
    told_error (Some err) (Some "Required destination field was missing")
| told_url err :
    ~ names err ["invoice_id"; "amount"; "currency"] -> names err ["http://"; "https://"] ->
    told_error (Some err) (Some "Destination delivery failed before a safe HTTP response was recorded")
| told_credential err :
    ~ names err ["invoice_id"; "amount"; "currency"; "http://"; "https://"] ->
    names err ["authorization"; "token"; "secret"] ->
    told_error (Some err) (Some "Destination rejected the request with an authentication or authorization error")
| told_internal err :
    ~ names err ["invoice_id"; "amount"; "currency"; "http://"; "https://"; "authorization"; "token"; "secret"] ->
    names err ["stack trace"; "panic"; "database"; "dsn"] -> told_error (Some err) None
| told_text err t rest :
    ~ names err ["invoice_id"; "amount"; "currency"; "http://"; "https://"; "authorization"; "token"; "secret";
                 "stack trace"; "panic"; "database"; "dsn"] ->
    TrimSpace err = t +:+ rest -> (1 <= String.length t <= 1000)%nat ->
    ((String.length (TrimSpace err) <= 1000)%nat -> rest = "") -> told_error (Some err) (Some t)
| told_cut err :
    ~ names err ["invoice_id"; "amount"; "currency"; "http://"; "https://"; "authorization"; "token"; "secret";
                 "stack trace"; "panic"; "database"; "dsn"] ->
    TrimSpace (String.string_of_list_ascii (take 1000 (chars (TrimSpace err)))) = "" -> told_error (Some err) None.

(** What is said of an attempt: by its HTTP status, or else by the recorded outcome
    and the words of the error *)
Definition says (a : AttemptRow) (words : list string) : Prop :=
  exists err word, at_error a = Some err /\ word ∈ words /\ Contains (ToLower err) word = true.

Definition outcome_by_text (a : AttemptRow) (o : string) : Prop :=
  let transport := ["timeout"; "connection"; "no such host"; "deliver webhook request"] in
  (at_outcome a = "SUCCESS" -> o = "success") /\
  (at_outcome a <> "SUCCESS" -> at_outcome a <> "FAILED" -> o = "unknown") /\
  (at_outcome a = "FAILED" ->
     (says a ["permanent"] -> o = "permanent_failure") /\
     (~ says a ["permanent"] -> says a transport -> o = "transport_failure") /\
     (~ says a ["permanent"] -> ~ says a transport -> says a ["retryable"] -> o = "temporary_failure") /\
     (~ says a ["permanent"] -> ~ says a transport -> ~ says a ["retryable"] -> o = "unknown")).

Definition told_outcome (a : AttemptRow) (o : string) : Prop :=
  match at_response_code a with
  | Some code =>
      (200 <= code <= 299 -> o = "success") /\
      (code = 408 \/ code = 425 \/ code = 429 \/ 500 <= code <= 599 -> o = "temporary_failure") /\
      (400 <= code <= 499 -> code <> 408 -> code <> 425 -> code <> 429 -> o = "permanent_failure") /\
      (~ 200 <= code <= 299 -> ~ 400 <= code <= 599 -> outcome_by_text a o)
  | None => outcome_by_text a o
  end.

(** Times in UTC; the zero time is left out. *)
Definition told_time (t : Z) (text : option string) : Prop :=
  if t =? -62135596800000000000 then text = None else text = Some (rfc3339nano t).

Definition told_statuses : list string :=
  ["STORED"; "PENDING_PUBLICATION"; "PUBLISHED"; "PROCESSING"; "RETRYING"; "DEAD_LETTERED"; "REDRIVEN"; "DELIVERED";
   "RECEIVED"].

(** The retry numbers that the details of a row name *)
Definition names_retry (details : string) (n : Z) : Prop :=
  exists m p q, (v ← parse details; members v) = Some m /\ int_ptr_field None "retry" m = Some p /\
    int_ptr_field None "next_retry" m = Some q /\ (p = Some n \/ q = Some n).

Definition rows_with (status : string) (rows : list HistoryRow) : list HistoryRow :=
  filter (fun h => h_status h = status) rows.

(** The greatest retry number that a RETRYING row names, if one names a positive
    number, and else the number of RETRYING rows *)
Definition told_retries (rows : list HistoryRow) (c : Z) : Prop :=
  let named n := exists h, h ∈ rows_with "RETRYING" rows /\ names_retry (h_details h) n in
  (0 < c /\ named c /\ forall n, named n -> n <= c) \/
  ((forall n, named n -> n <= 0) /\ c = Z.of_nat (length (rows_with "RETRYING" rows))).

Lemma TrimSpace_prefix m k :
  TrimSpace m = m ->
  exists rest, m = TrimSpace (String.string_of_list_ascii (take k (chars m))) +:+ rest.
Proof.
  intros Hm. destruct (trim_seqs_prefix space_seqs (chars m) k) as [rest Hr].
  { rewrite <- Hm. unfold chars, TrimSpace. rewrite String.list_ascii_of_string_of_list_ascii.
    apply trim_seqs_stable, space_seqs_nonempty. }
  exists (String.string_of_list_ascii rest). unfold TrimSpace.
  rewrite String.list_ascii_of_string_of_list_ascii, <- string_of_list_app, <- Hr.
  symmetry. apply String.string_of_list_ascii_of_string.
Qed.

(** *** The functions meet it *)

Lemma contains_any_names err words : contains_any (ToLower (TrimSpace err)) words = true <-> names err words.
Proof.
  unfold contains_any, names. rewrite existsb_exists. setoid_rewrite list_elem_of_In. naive_solver.
Qed.

Lemma contains_any_none err words : contains_any (ToLower (TrimSpace err)) words = false -> ~ names err words.
Proof. intros Hf Ht%contains_any_names. congruence. Qed.

Lemma safeExplainError_told a : told_error (AttemptError a) (safeExplainError a).
Proof.
  unfold safeExplainError. destruct (AttemptError a) as [err|]; [|constructor]. cbv zeta.
  destruct (String.eqb_spec (TrimSpace err) "") as [|Hne]; [by constructor|].
  destruct (contains_any _ field_words) eqn:Ef.
  { apply contains_any_names in Ef. by constructor. }
  destruct (contains_any _ url_words) eqn:Eu.
  { apply contains_any_names in Eu. apply contains_any_none in Ef. by apply told_url. }
  assert (Efu : contains_any (ToLower (TrimSpace err)) (field_words ++ url_words) = false).
  { unfold contains_any in *. by rewrite existsb_app, Ef, Eu. }
  destruct (contains_any _ credential_words) eqn:Ec.
  { apply contains_any_names in Ec. apply contains_any_none in Efu. by apply told_credential. }
  assert (Efuc : contains_any (ToLower (TrimSpace err)) ((field_words ++ url_words) ++ credential_words) = false).
  { unfold contains_any in *. by rewrite existsb_app, Efu, Ec. }
  destruct (contains_any _ internal_words) eqn:Ei.
  { apply contains_any_names in Ei. apply contains_any_none in Efuc. by apply told_internal. }
  assert (Eall : ~ names err (((field_words ++ url_words) ++ credential_words) ++ internal_words)).
  { apply contains_any_none. unfold contains_any in *. by rewrite existsb_app, Efuc, Ei. }
  destruct (Nat.ltb_spec maxExplainErrorLength (String.length (TrimSpace err))) as [Hl|Hl]; unfold maxExplainErrorLength in *.
  - set (c := TrimSpace (String.string_of_list_ascii _)). destruct (String.eqb_spec c "") as [Hc|Hc]; [by apply told_cut|].
    destruct (TrimSpace_prefix (TrimSpace err) 1000 (TrimSpace_idemp err)) as [rest Hr]. fold c in Hr.
    apply (told_text err c rest); [done|done| |intros; lia]. split; [by destruct c; simpl; [|lia]|].
    unfold c, TrimSpace. rewrite string_of_list_length. etransitivity; [apply trim_seqs_length|].
    rewrite String.list_ascii_of_string_of_list_ascii, length_take. lia.
  - destruct (String.eqb_spec (TrimSpace err) "") as [|_]; [done|].
    apply (told_text err _ ""); [done|by rewrite string_app_nil_r| |done]. split; [by destruct (TrimSpace err); simpl; [|lia]|done].
Qed.

Lemma says_contains a words :
  contains_any (match at_error a with Some e => ToLower e | None => "" end) words = true -> "" ∉ words -> says a words.
Proof.
  unfold contains_any. rewrite existsb_exists. intros (word & Hin & Hc) Hne. apply list_elem_of_In in Hin.
  destruct (at_error a) as [err|] eqn:E; [by exists err, word|]. destruct word; [done|]. done.
Qed.

Lemma says_none a words :
  contains_any (match at_error a with Some e => ToLower e | None => "" end) words = false -> ~ says a words.
Proof.
  intros Hf (err & word & He & Hin & Hc). rewrite He in Hf. apply not_true_iff_false in Hf. apply Hf.
  unfold contains_any. apply existsb_exists. exists word. by rewrite <- list_elem_of_In.
Qed.

Lemma outcome_by_text_told a :
  outcome_by_text a
    (if String.eqb (at_outcome a) DeliveryOutcomeSucceeded then "success"
     else if negb (String.eqb (at_outcome a) DeliveryOutcomeFailed) then "unknown"
     else
       let errText := match at_error a with Some e => ToLower e | None => "" end in
       if Contains errText "permanent" then "permanent_failure"
       else if contains_any errText ["timeout"; "connection"; "no such host"; "deliver webhook request"]
       then "transport_failure"
       else if Contains errText "retryable" then "temporary_failure" else "unknown").
Proof.
  unfold outcome_by_text, DeliveryOutcomeSucceeded, DeliveryOutcomeFailed. cbv zeta. split_and!.
  - by intros ->.
  - intros H1%String.eqb_neq H2%String.eqb_neq. by rewrite H1, H2.
  - intros ->. cbn [String.eqb Ascii.eqb Bool.eqb negb].
    set (text := match at_error a with Some e => ToLower e | None => "" end).
    assert (Hone : forall word, contains_any text [word] = Contains text word).
    { intros word. unfold contains_any. simpl. apply orb_false_r. }
    rewrite <- !Hone.
    destruct (contains_any text ["permanent"]) eqn:E1;
      [apply says_contains in E1; [|set_solver]; naive_solver|apply says_none in E1].
    destruct (contains_any text ["timeout"; _; _; _]) eqn:E2;
      [apply says_contains in E2; [|set_solver]; naive_solver|apply says_none in E2].
    destruct (contains_any text ["retryable"]) eqn:E3;
      [apply says_contains in E3; [|set_solver]; naive_solver|apply says_none in E3; naive_solver].
Qed.

Lemma explainAttemptOutcome_told (a : AttemptRow) n st c :
  told_outcome a (explainAttemptOutcome (mkDeliveryAttempt n (at_outcome a) (at_response_code a) (at_error a) st c)).
Proof.
  pose proof (outcome_by_text_told a) as Ht. unfold told_outcome, explainAttemptOutcome. cbn [ResponseCode Outcome AttemptError].
  cbv zeta in *. set (t := if String.eqb (at_outcome a) _ then _ else _) in *. clearbody t.
  destruct (at_response_code a) as [code|]; [|done].
  destruct (Z.leb_spec 200 code), (Z.leb_spec code 299); cbn [andb]; split_and!; intros; try done; try lia;
    destruct (classify_cases code) as [[-> Hc]|[[-> Hc]|[-> Hc]]]; try done; lia.
Qed.

Lemma formatOptionalTime_told t : told_time t (formatOptionalTime t).
Proof. unfold told_time, formatOptionalTime. change zero_time with (-62135596800000000000). by destruct (t =? _). Qed.

(** A maximum over the numbers that the details name *)
Lemma details_retry_spec d m :
  m <= details_retry d m /\ (forall n, names_retry d n -> n <= details_retry d m) /\
  (details_retry d m = m \/ names_retry d (details_retry d m)).
Proof.
  unfold details_retry, names_retry. destruct (parse d) as [v|]; simpl; [|split_and!; [lia|naive_solver|by left]].
  destruct (members v) as [ms|]; simpl; [|split_and!; [lia|naive_solver|by left]].
  destruct (int_ptr_field None "retry" ms) as [p|] eqn:Ep; simpl; [|split_and!; [lia|naive_solver|by left]].
  destruct (int_ptr_field None "next_retry" ms) as [q|] eqn:Eq; simpl; [|split_and!; [lia|naive_solver|by left]].
  set (m1 := match q with Some n => if m <? n then n else m | None => m end).
  set (m2 := match p with Some n => if m1 <? n then n else m1 | None => m1 end).
  assert (H1 : m <= m1 /\ (forall n, q = Some n -> n <= m1) /\ (m1 = m \/ q = Some m1)).
  { subst m1. destruct q as [n|]; [destruct (Z.ltb_spec m n)|]; split_and!; naive_solver lia. }
  assert (H2 : m1 <= m2 /\ (forall n, p = Some n -> n <= m2) /\ (m2 = m1 \/ p = Some m2)).
  { subst m2. clearbody m1. destruct p as [n|]; [destruct (Z.ltb_spec m1 n)|]; split_and!; naive_solver lia. }
  clearbody m2 m1. destruct H1 as (A1 & A2 & A3), H2 as (B1 & B2 & B3). split_and!; [lia| |].
  - intros n (ms' & p' & q' & ? & ? & ? & [->| ->]); simplify_eq; [by apply B2|]. specialize (A2 n eq_refl). lia.
  - destruct B3 as [->|B3]; [destruct A3 as [->|A3]; [by left|right]|right]; eexists _, _, _; naive_solver.
Qed.

Lemma fold_retry_spec l m :
  let c := fold_left (fun m e => details_retry (Details e) m) l m in
  m <= c /\ (forall e n, e ∈ l -> names_retry (Details e) n -> n <= c) /\
  (c = m \/ exists e, e ∈ l /\ names_retry (Details e) c).
Proof.
  cbv zeta. revert m. induction l as [|e l IH]; intros m; cbn [fold_left].
  { split_and!; [lia|intros e n He; by apply elem_of_nil in He|by left]. }
  destruct (details_retry_spec (Details e) m) as (A1 & A2 & A3), (IH (details_retry (Details e) m)) as (B1 & B2 & B3).
  set (c := fold_left _ l _) in *. split_and!; [lia| |].
  - intros e' n [->|He]%elem_of_cons Hn; [specialize (A2 n Hn); lia|by eapply B2].
  - destruct B3 as [B3|(e' & He & Hn)]; [rewrite B3; destruct A3 as [A3|A3]; [left; congruence|right]|right]; eexists; (split; [|done]); set_solver.
Qed.

Abbreviation entry_of h := (mkStatusHistoryEntry (h_status h) (h_details h) (h_created_at h * 1000)).

Lemma filter_entries st (rows : list HistoryRow) :
  filter (fun e => Status e = st) (map (fun h => entry_of h) rows) = map (fun h => entry_of h) (rows_with st rows).
Proof.
  unfold rows_with. induction rows as [|h rows IH]; [done|]. cbn [map]. rewrite !filter_cons. simpl.
  case_decide; [|done]. cbn [map]. by rewrite IH.
Qed.

Lemma retryCountFromHistory_told rows :
  told_retries rows (retryCountFromHistory (map (fun h => entry_of h) rows)).
Proof.
  unfold retryCountFromHistory, told_retries. cbv zeta. rewrite filter_entries, length_map.
  destruct (fold_retry_spec (map (fun h => entry_of h) (rows_with StatusRetrying rows)) 0) as (A1 & A2 & A3). cbv zeta in *.
  set (c := fold_left _ _ 0) in *.
  assert (Hle : forall n h, h ∈ rows_with StatusRetrying rows -> names_retry (h_details h) n -> n <= c).
  { intros n h Hh Hn. apply (A2 (entry_of h)); [|done]. apply list_elem_of_fmap. eauto. }
  destruct (Z.ltb_spec 0 c) as [Hc|Hc].
  - left. split_and!; [done| |naive_solver]. destruct A3 as [?|(e & He & Hn)]; [lia|].
    apply list_elem_of_fmap in He as (h & -> & Hh). eauto.
  - right. split; [|done]. intros n (h & Hh & Hn). specialize (Hle n h Hh Hn). lia.
Qed.

Section Snapshot.
Context {SC : Strconv} {PG : Postgres} {R : Type}.
Abbreviation M := (M (R:=R)).
Abbreviation W := (World R).
Implicit Types w : W.

Lemma pool_query_ok {A} (q : Z -> DB -> res error A) w a w' :
  pool_query q w = (Ok a, w') -> exists now, q now (w_db w) = Ok a.
Proof. intros H. apply pool_query_inv in H as [(H1 & _) H2]. destruct (H2 a eq_refl) as [now Hq]. eauto. Qed.

Lemma DLQDetail_inv s e w r w' :
  DLQDetail s e w = (r, w') ->
  unchanged w w' /\
  match r with
  | Ok x => exists u d, uuid_in e = Some u /\ dlq_records (w_db w) !! u = Some d /\
      (is_Some (dr_RedrivenAt (dd_Record x)) <-> is_Some (dq_redriven_at d))
  | Err er => errors_Is er ErrDLQNotFound = true ->
      exists u, uuid_in e = Some u /\ (dlq_records (w_db w) !! u = None \/ events (w_db w) !! u = None)
  end.
Proof.
  intros H. split; [pose proof (DLQDetail_unchanged s e w) as Hu; by rewrite H in Hu|].
  unfold DLQDetail, require_pool in H. destruct s as [[[p|]]|]; [|unfold gerr in H; by simplify_eq..].
  apply gbind_inv in H as [(x & w1 & Hq & H)|(er & Hq & ->)]; cycle 1.
  { intros He. exfalso. eapply never_absurd; [exact Hq|exact He|]. apply never_pool_query. unfold cast_uuid. sql_never_all. }
  apply pool_query_ok in Hq as [now Hq]. unfold cast_uuid in Hq.
  destruct (uuid_in e) as [u|] eqn:Hu; simplify_eq/=.
  destruct (dlq_records (w_db w) !! u) as [d|] eqn:Ed, (events (w_db w) !! u) as [ev|] eqn:Ee; simpl in H;
    [|unfold gerr in H; simplify_eq; eauto..].
  destruct r as [x|er].
  - exists u, d. split_and!; [done|done|]. apply gbind_inv_ok in H as (ev' & w2 & _ & H).
    apply gbind_inv_ok in H as (hs & w3 & _ & H). apply gbind_inv_ok in H as (ats & w4 & _ & H).
    unfold gret in H. simplify_eq/=. destruct (dq_redriven_at d); simpl; split; intros []; eauto; done.
  - intros He. exfalso. eapply never_absurd; [exact H|exact He|].
    unfold fetchStatusHistory, fetchDeliveryAttempts, run_query, cast_uuid. never_all; try by apply fetchEvent_never.
    all: sql_never_all.
Qed.

(** *** The parts of a snapshot *)

(** The history that is sent: stored rows with a status the service knows, in order,
    all of them or 20 with the first kept *)
Definition history_told (rows : list HistoryRow) (sent : list explainStatusHistory) : Prop :=
  exists all, Forall2 (fun h x => xh_Status x = h_status h /\ told_time (h_created_at h * 1000) (xh_OccurredAt x))
                (filter (fun h => h_status h ∈ told_statuses) rows) all /\
    sent `sublist_of` all /\ length sent = Nat.min 20 (length all) /\ head sent = head all.

(** The attempts that are sent: the last 20, each with its place among all *)
Definition attempts_told (rows : list AttemptRow) (sent : list explainDeliveryAttempt) : Prop :=
  length sent = Nat.min 20 (length rows) /\
  forall i x, sent !! i = Some x -> exists a,
    let place := (i + (length rows - 20))%nat in
    rows !! place = Some a /\ xa_AttemptNumber x = Z.of_nat place + 1 /\ xa_HTTPStatus x = at_response_code a /\
    told_outcome a (xa_Outcome x) /\ told_error (at_error a) (xa_Error x) /\
    told_time (at_completed_at a * 1000) (xa_OccurredAt x).

Lemma explain_history_told rows :
  history_told rows (boundExplainHistory (explainStatusHistoryFromStore (map (fun h => entry_of h) rows))).
Proof.
  exists (explainStatusHistoryFromStore (map (fun h => entry_of h) rows)).
  destruct (boundExplainHistory_spec (explainStatusHistoryFromStore (map (fun h => entry_of h) rows)))
    as (_ & Hsub & Hle & Hgt). split.
  - clear. unfold explainStatusHistoryFromStore. induction rows as [|h rows IH]; [constructor|]. cbn [map omap list_omap].
    rewrite filter_cons. cbn [Status EntryCreatedAt].
    assert (Hmap : mapExplainStatus (h_status h) = if decide (h_status h ∈ told_statuses) then Some (h_status h) else None).
    { unfold mapExplainStatus. change explain_statuses with told_statuses.
      destruct (decide _); [by rewrite bool_decide_eq_true_2|by rewrite bool_decide_eq_false_2]. }
    rewrite Hmap. destruct (decide (h_status h ∈ told_statuses)); [|done].
    simpl. constructor; [|done]. split; [done|]. apply formatOptionalTime_told.
  - cbv zeta in *. split; [done|]. set (all := explainStatusHistoryFromStore _) in *.
    destruct (decide (length all <= 20)%nat) as [Hl|Hl]; [rewrite Hle by done; split; [lia|done]|].
    destruct Hgt as (-> & -> & _); [lia|]. split; [lia|done].
Qed.

Lemma explain_attempts_told rows :
  attempts_told rows (boundExplainAttempts (explainDeliveryAttemptsFromStore
    (map (fun a => mkDeliveryAttempt (at_attempt_number a) (at_outcome a) (at_response_code a) (at_error a)
                     (at_started_at a * 1000) (at_completed_at a * 1000)) rows))).
Proof.
  set (f := fun a => mkDeliveryAttempt _ _ _ _ _ _). set (all := explainDeliveryAttemptsFromStore _).
  assert (Hlen : length all = length rows).
  { unfold all, explainDeliveryAttemptsFromStore. by rewrite length_imap, length_map. }
  assert (Hsent : boundExplainAttempts all = drop (length rows - 20) all).
  { unfold boundExplainAttempts, maxExplainAttemptItems. rewrite Hlen. destruct (Nat.leb_spec (length rows) 20); [|done].
    by replace (length rows - 20)%nat with 0%nat by lia. }
  rewrite Hsent. split; [rewrite length_drop; lia|]. intros i x Hx. rewrite lookup_drop, Nat.add_comm in Hx.
  unfold all, explainDeliveryAttemptsFromStore in Hx. rewrite list_lookup_imap, list_lookup_fmap in Hx.
  destruct (rows !! (i + (length rows - 20))%nat) as [a|] eqn:Ea; simplify_eq/=. exists a. cbv zeta.
  split_and!; [done|done|done|apply explainAttemptOutcome_told|apply (safeExplainError_told (f a))|apply formatOptionalTime_told].
Qed.

Lemma history_contains_status (rows : list HistoryRow) st :
  statusHistoryContains (map (fun h => entry_of h) rows) st = true <-> exists h, h ∈ rows /\ h_status h = st.
Proof.
  unfold statusHistoryContains. rewrite existsb_exists. split.
  - intros (e & He & Hs). apply in_map_iff in He as (h & <- & Hh). simpl in Hs. rail_bool.
    exists h. by rewrite list_elem_of_In.
  - intros (h & Hh & <-). eexists. split; [apply in_map_iff; exists h; split; [done|by apply list_elem_of_In]|].
    simpl. apply String.eqb_refl.
Qed.

(** C32: What leaves the program when an event is explained.  Building the snapshot
    only reads; it describes the stored event and its newest status, which the
    service knows; it carries at most 20 history entries, stored ones with known
    statuses, and the last attempts, at most 20, each with its place among all, its
    HTTP status, what that means, and a text for its error that is a fixed phrase or
    the beginning of an error that names no URL, credential, business field or
    internal detail, at most 1000 bytes long.  The retry number is the greatest that
    the history names, or the number of retries; the event entered the dead-letter
    queue exactly when it has a record there or its history says so; redrives are
    counted in the history, or once when only the record shows one; and it is
    delivered exactly when its status is DELIVERED. *)
Theorem explain_snapshot s e w q w' :
  explainRequestFromStore (storeReader s) e w = (Ok q, w') ->
  unchanged w w' /\
  exists u row, uuid_in e = Some u /\ events (w_db w) !! u = Some row /\
    xq_EventType q = ev_event_type row /\ xq_Source q = ev_source row /\
    xq_BusinessEventType q = (safeMetadataFromEventPayload (ev_payload row)).1 /\
    (xq_BusinessEventType q = Some "invoice.paid" -> xq_Destination q = "Receipt Service") /\
    (xq_BusinessEventType q <> Some "invoice.paid" -> xq_Destination q = "Webhook destination") /\
    latest_status (w_db w) u = Some (xq_CurrentStatus q) /\ xq_CurrentStatus q ∈ told_statuses /\
    history_told (history_rows u (w_db w)) (xq_StatusHistory q) /\
    attempts_told (attempt_rows u (w_db w)) (xq_DeliveryAttempts q) /\
    told_retries (history_rows u (w_db w)) (xq_RetryCount q) /\
    (xq_EnteredDLQ q = true <-> is_Some (dlq_records (w_db w) !! u) \/
       exists h, h ∈ status_history (w_db w) /\ h_event_id h = u /\ h_status h = "DEAD_LETTERED") /\
    (let redrives := Z.of_nat (length (rows_with "REDRIVEN" (history_rows u (w_db w)))) in
     (redrives <> 0 -> xq_RedriveCount q = redrives) /\
     (redrives = 0 -> (exists d, dlq_records (w_db w) !! u = Some d /\ is_Some (dq_redriven_at d)) -> xq_RedriveCount q = 1) /\
     (redrives = 0 -> (forall d, dlq_records (w_db w) !! u = Some d -> dq_redriven_at d = None) -> xq_RedriveCount q = 0)) /\
    (xq_Delivered q = true <-> xq_CurrentStatus q = "DELIVERED").
Proof.
  intros H. apply gbind_inv_ok in H as (st & w1 & H1 & H).
  pose proof (EventStatus_unchanged s e w) as U1. simpl in H1. rewrite H1 in U1. simpl in U1.
  apply EventStatus_inv in H1 as (_ & u & row & Hu & Hrow & Hev & Hh & Hel & _ & Hcur & Hat).
  unfold gbind at 1, catch in H. simpl in H. destruct (DLQDetail s e w1) as [x w2] eqn:Ed.
  apply DLQDetail_inv in Ed as [U2 Hd]. apply gbind_inv_ok in H as (d & w3 & H3 & H). unfold lift_res in H3.
  assert (Hd' : match d with
                | Some x => exists d, dlq_records (w_db w) !! u = Some d /\
                              (is_Some (dr_RedrivenAt (dd_Record x)) <-> is_Some (dq_redriven_at d))
                | None => dlq_records (w_db w) !! u = None
                end).
  { destruct U1 as [U1 _]. rewrite U1 in Hd. destruct x as [x|er].
    - destruct Hd as (u' & d' & ? & Hd & Hr). simplify_eq. eauto.
    - destruct (errors_Is er ErrDLQNotFound); simplify_eq/=. destruct Hd as (u' & ? & [Hd|?]); [done| |congruence].
      by simplify_eq. }
  assert (w' = w2 /\ unchanged w w2) as [-> Hun]
    by (split; [repeat case_match; unfold gret, gerr in *; by simplify_eq|by etransitivity]).
  destruct (mapExplainStatus _) as [cur|] eqn:Ec; [|done]. cbv zeta in H.
  destruct (_ && _); [done|]. unfold gret in H. simplify_eq.
  unfold mapExplainStatus in Ec. destruct (bool_decide (es_CurrentStatus st ∈ _)) eqn:Hin; [|done].
  injection Ec as <-. apply bool_decide_eq_true in Hin. split; [done|]. exists u, row.
  cbn [xq_EventType xq_Source xq_BusinessEventType xq_Destination xq_CurrentStatus xq_StatusHistory xq_DeliveryAttempts
       xq_RetryCount xq_EnteredDLQ xq_RedriveCount xq_Delivered].
  rewrite Hev, Hh, Hat. cbn [event_metadata EventType Source Payload]. unfold destinationFromEventPayload, countStatus.
  rewrite filter_entries, length_map. change StatusRedriven with "REDRIVEN".
  set (meta := (safeMetadataFromEventPayload (ev_payload row)).1). split_and!; try done.
  - by intros ->.
  - intros Hm. destruct meta as [t|]; [|done]. destruct (String.eqb_spec t "invoice.paid"); [congruence|done].
  - rewrite Hcur in Hin |- *. destruct (latest_status (w_db w) u) as [c|]; [done|].
    by apply list_elem_of_In in Hin; simpl in Hin; decompose [or] Hin.
  - apply explain_history_told.
  - apply explain_attempts_told.
  - apply retryCountFromHistory_told.
  - rewrite orb_true_iff, history_contains_status, bool_decide_eq_true. setoid_rewrite Hel. destruct d as [d|].
    + destruct Hd' as (d' & -> & _). naive_solver.
    + rewrite Hd'. split; [intros [[]|]; [done|naive_solver]|intros [[]|]; [done|naive_solver]].
  - intros Hk%Z.eqb_neq. destruct d; [|done]. by rewrite Hk.
  - intros -> (d' & Hd1 & Hr). destruct d as [d|]; [|congruence]. destruct Hd' as (d2 & Hd2 & Hiff).
    rewrite Hd1 in Hd2. injection Hd2 as ->. simpl. by rewrite bool_decide_eq_true_2 by (by apply Hiff).
  - intros -> Hno. destruct d as [d|]; [|done]. destruct Hd' as (d2 & Hd2 & Hiff). simpl.
    rewrite bool_decide_eq_false_2; [done|]. rewrite Hiff, (Hno _ Hd2). by intros [].
  - apply String.eqb_eq.
Qed.

End Snapshot.

(** ** Runs *)

Lemma explain_snapshot_witness : exists q w',
  explainRequestFromStore (storeReader the_store) stored_id (sim_world dead_db empty_redis 0 [] []) = (Ok q, w') /\
  xq_CurrentStatus q = StatusDeadLettered /\ xq_EnteredDLQ q = true /\
  latest_status dead_db stored_id = Some StatusDeadLettered.
Proof.
  set (w := sim_world _ _ _ _ _).
  assert (E : exists q, (explainRequestFromStore (storeReader the_store) stored_id w).1 = Ok q /\
            xq_CurrentStatus q = StatusDeadLettered /\ xq_EnteredDLQ q = true)
    by (eexists; split; [vm_compute; reflexivity|split; vm_compute; reflexivity]).
  destruct E as (q & E & Hc & Hd). destruct (explainRequestFromStore _ _ w) as [r w'] eqn:Er. simpl in E. subst r.
  exists q, w'. split; [reflexivity|]. split; [exact Hc|]. split; [exact Hd|].
  destruct (explain_snapshot the_store stored_id w q w' Er) as (_ & u & row & Hu & _ & _ & _ & _ & _ & _ & Hl & _).
  assert (u = stored_id) as -> by (vm_compute in Hu; injection Hu as <-; vm_compute; reflexivity).
  rewrite Hc in Hl. exact Hl.
Defined.

End EventExplain.
