(* ===== verification/MockDestination.v ===== *)
(** * MockDestination: the receipt service of the demonstration
    ([cmd/mock-destination/main.go])

    A webhook destination that deduplicates by idempotency key and can be told to
    fail.  Its state is behind a mutex and every handler has one critical section,
    so a handler is one step on the state. *)

From S2P Require Import Prelude GoStrings GoErrors Json JsonDecode GoHttp Simulation HttpApi.
Import HttpApi(WithCORS, allowed_origins).

Module MockDestination.

Definition modeHealthy : string := "healthy".
Definition modeTemporaryFailure : string := "temporary_failure".
Definition modeValidationFailure : string := "validation_failure".

Record receiptServer := mkServer {
  mode : string; failNext : Z; seenKeys : gset string;
  total : Z; successful : Z; duplicates : Z; failed : Z;
}.

Record receiptRequest := mkReceiptRequest { InvoiceID : string; Amount : Z; Currency : string }.
Record modeRequest := mkModeRequest { mr_Mode : string; mr_FailNext : Z }.

Record statsResponse := mkStatsResponse {
  st_Mode : string; RemainingFailures : Z; TotalRequests : Z; SuccessfulReceipts : Z;
  DuplicateRequests : Z; FailedRequests : Z;
}.

Definition newReceiptServer : receiptServer := mkServer modeHealthy 0 ∅ 0 0 0 0.

(** ** Bodies *)

Definition members (v : json) : option (list (string * json)) :=
  match v with JNull => Some [] | JObj m => Some m | _ => None end.

Definition receiptRequest_of (v : json) : option receiptRequest :=
  m ← members v;
  invoice ← string_field "" "invoice_id" m;
  amount ← int_field 0 "amount" m;
  currency ← string_field "" "currency" m;
  Some (mkReceiptRequest invoice amount currency).

Definition modeRequest_of (v : json) : option modeRequest :=
  m ← members v;
  mode ← string_field "" "mode" m;
  fail_next ← int_field 0 "fail_next" m;
  Some (mkModeRequest mode fail_next).

(** [json.NewDecoder(r.Body).Decode(&req)]: the first value of the body. *)
Definition decode_body {SC : Strconv} {A} (of_json : json -> option A) (r : Request) : option A :=
  match decode_next (Sentinel ioEOF) false (chars (Body r)) with
  | Ok (v, _) => of_json v
  | Err _ => None
  end.

Definition statsResponse_json (s : statsResponse) : json :=
  let int z := JNum (Itoa z) in
  JObj [("mode", JStr (st_Mode s)); ("remaining_forced_failures", int (RemainingFailures s));
        ("total_requests", int (TotalRequests s)); ("successful_receipts", int (SuccessfulReceipts s));
        ("duplicate_requests", int (DuplicateRequests s)); ("failed_requests", int (FailedRequests s))].

Definition writeJSON (status : Z) (value : json) (w : ResponseWriter) : ResponseWriter :=
  Encode (Some value) (WriteHeader status (SetHeader "Content-Type" "application/json" w)).

(** A Go map of strings, its keys sorted by the encoder. *)
Definition map_json (l : list (string * json)) : json := JObj (obj_of_list l).

(** ** Operations on the state *)

Definition recordFailure (s : receiptServer) : receiptServer :=
  mkServer (mode s) (failNext s) (seenKeys s) (wrap64 (total s + 1)) (successful s) (duplicates s)
    (wrap64 (failed s + 1)).

Definition applyReceipt (idempotencyKey : string) (s : receiptServer) : Z * bool * receiptServer :=
  let tot := wrap64 (total s + 1) in
  if 0 <? failNext s then
    (500, false, mkServer (mode s) (failNext s - 1) (seenKeys s) tot (successful s) (duplicates s)
                   (wrap64 (failed s + 1)))
  else if String.eqb (mode s) modeTemporaryFailure then
    (500, false, mkServer (mode s) (failNext s) (seenKeys s) tot (successful s) (duplicates s)
                   (wrap64 (failed s + 1)))
  else if String.eqb (mode s) modeValidationFailure then
    (400, false, mkServer (mode s) (failNext s) (seenKeys s) tot (successful s) (duplicates s)
                   (wrap64 (failed s + 1)))
  else if negb (String.eqb idempotencyKey "") && bool_decide (idempotencyKey ∈ seenKeys s) then
    (200, true, mkServer (mode s) (failNext s) (seenKeys s) tot (successful s)
                  (wrap64 (duplicates s + 1)) (failed s))
  else
    let seen := if String.eqb idempotencyKey "" then seenKeys s else {[idempotencyKey]} ∪ seenKeys s in
    (200, false, mkServer (mode s) (failNext s) seen tot (wrap64 (successful s + 1)) (duplicates s) (failed s)).

Definition validateModeRequest (req : modeRequest) : res error unit :=
  if mr_FailNext req <? 0 then Err (ErrorString "fail_next must be nonnegative")
  else if String.eqb (mr_Mode req) modeHealthy || String.eqb (mr_Mode req) modeTemporaryFailure ||
          String.eqb (mr_Mode req) modeValidationFailure
  then Ok tt else Err (ErrorString "unsupported mode").

(** ** Handlers *)

Section Handlers.
Context {SC : Strconv}.

Definition Handler : Type := Request -> ResponseWriter -> receiptServer -> ResponseWriter * receiptServer.

Definition method_not_allowed (allow : string) (w : ResponseWriter) : ResponseWriter :=
  WriteHeader 405 (SetHeader "Allow" allow w).

Definition failed_json (text : string) : json := map_json [("status", JStr "failed"); ("error", JStr text)].

Definition handleReceipts : Handler := fun r w s =>
  if negb (String.eqb (Method r) "POST") then (method_not_allowed "POST" w, s) else
  match decode_body receiptRequest_of r with
  | None => (writeJSON 400 (failed_json "invalid JSON body") w, recordFailure s)
  | Some req =>
      if String.eqb (TrimSpace (InvoiceID req)) ""
      then (writeJSON 400 (failed_json "invoice_id is required") w, recordFailure s) else
      let '(status, duplicate, s') := applyReceipt (TrimSpace (HeaderGet "Idempotency-Key" r)) s in
      (if status =? 200 then
         writeJSON 200 (map_json [("status", JStr "accepted"); ("invoice_id", JStr (InvoiceID req));
                                  ("duplicate", JBool duplicate)]) w
       else if status =? 400 then writeJSON 400 (failed_json "validation failure") w
       else writeJSON 500 (failed_json "temporary failure") w, s')
  end.

Definition handleControlMode : Handler := fun r w s =>
  if negb (String.eqb (Method r) "POST") then (method_not_allowed "POST" w, s) else
  match decode_body modeRequest_of r with
  | None => (writeJSON 400 (failed_json "invalid JSON body") w, s)
  | Some req =>
      match validateModeRequest req with
      | Err e => (writeJSON 400 (failed_json (error_text e)) w, s)
      | Ok _ =>
          (writeJSON 200 (map_json [("status", JStr "updated"); ("mode", JStr (mr_Mode req))]) w,
           mkServer (mr_Mode req) (mr_FailNext req) (seenKeys s) (total s) (successful s) (duplicates s) (failed s))
      end
  end.

Definition handleStats : Handler := fun r w s =>
  if negb (String.eqb (Method r) "GET") then (method_not_allowed "GET" w, s) else
  (writeJSON 200 (statsResponse_json (mkStatsResponse (mode s) (failNext s) (total s) (successful s)
                                        (duplicates s) (failed s))) w, s).

(** The mux: three exact patterns; any other path is not found. *)
Definition routes : Handler := fun r w s =>
  if String.eqb (Path r) "/receipts" then handleReceipts r w s
  else if String.eqb (Path r) "/control/mode" then handleControlMode r w s
  else if String.eqb (Path r) "/stats" then handleStats r w s
  else (Error "404 page not found" 404 w, s).

End Handlers.

Definition dashboardOrigins : list string := ["http://localhost:5173"; "http://127.0.0.1:5173"].

(** What [main] serves on port 8081 *)
Definition mainHandler {SC : Strconv} : Request -> ResponseWriter -> GoM error receiptServer ResponseWriter :=
  WithCORS (fun r w s => let '(w', s') := routes r w s in (Ok w', s')) dashboardOrigins.

(** ** Properties *)

Section Facts.
Context {SC : Strconv}.

(** A request is served: the response and the state. *)
Definition serve (r : Request) (s : receiptServer) : option ResponseWriter * receiptServer :=
  match mainHandler r new_writer s with
  | (Ok w, s') => (Some w, s')
  | (Err _, s') => (None, s')
  end.

(** The state after a sequence of requests. *)
Definition serve_all (rs : list Request) (s : receiptServer) : receiptServer :=
  fold_left (fun s r => (serve r s).2) rs s.

(** Preflights are answered by the CORS wrapper; the routes see a writer without a
    status. *)
Lemma serve_cases r s :
  (String.eqb (Method r) "OPTIONS" = true /\ (serve r s).2 = s /\
   exists w, (serve r s).1 = Some w /\ response_status w <> 200) \/
  exists w, rw_wrote w = None /\ rw_body w = "" /\ serve r s = (Some (routes r w s).1, (routes r w s).2).
Proof.
  unfold serve, mainHandler, WithCORS. cbv zeta. destruct (String.eqb (Method r) "OPTIONS") eqn:E.
  - left. split_and!; [done..|]. eexists. split; [done|]. by repeat case_match.
  - right. set (w := if _ : bool then _ else _). exists w. split_and!; [unfold w; by case_match..|].
    by destruct (routes r w s).
Qed.

(** Every counted request is a success, a duplicate or a failure; [n] bounds the
    counters. *)
Record accounts (n : Z) (s : receiptServer) : Prop := {
  ac_sum : total s = successful s + duplicates s + failed s;
  ac_bounds : 0 <= successful s /\ 0 <= duplicates s /\ 0 <= failed s /\ total s <= n;
  ac_keys : Z.of_nat (size (seenKeys s)) <= successful s;
  ac_mode : mode s ∈ [modeHealthy; modeTemporaryFailure; modeValidationFailure];
  ac_fail : 0 <= failNext s;
}.

Ltac accounts_tac :=
  split; simpl in *; rewrite ?wrap64_id in * by (unfold int64_min, int64_max in *; lia); auto; try lia.

Lemma recordFailure_accounts n s : n < int64_max -> accounts n s -> accounts (n + 1) (recordFailure s).
Proof. intros Hn [H1 (H2 & H3 & H4 & H5) H6 H7 H8]. accounts_tac. Qed.

Lemma applyReceipt_accounts n key s :
  n < int64_max -> accounts n s -> accounts (n + 1) (applyReceipt key s).2.
Proof.
  intros Hn [H1 (H2 & H3 & H4 & H5) H6 H7 H8]. unfold applyReceipt. cbv zeta.
  destruct (Z.ltb_spec 0 (failNext s)); [accounts_tac|].
  destruct (String.eqb (mode s) modeTemporaryFailure); [accounts_tac|].
  destruct (String.eqb (mode s) modeValidationFailure); [accounts_tac|].
  destruct (_ && _); [accounts_tac|]. accounts_tac.
  destruct (String.eqb key ""); [lia|].
  pose proof (size_union_alt {[key]} (seenKeys s)) as Hu. rewrite size_singleton in Hu.
  assert (size (seenKeys s ∖ {[key]}) <= size (seenKeys s))%nat by (apply subseteq_size; set_solver). lia.
Qed.

Lemma handleReceipts_accounts n r w s :
  n < int64_max -> accounts n s -> accounts (n + 1) s -> accounts (n + 1) (handleReceipts r w s).2.
Proof.
  intros Hn Ha Hs. unfold handleReceipts. destruct (negb _); [done|].
  destruct (decode_body _ r) as [req|]; [|by apply recordFailure_accounts].
  destruct (String.eqb _ ""); [by apply recordFailure_accounts|].
  pose proof (applyReceipt_accounts n (TrimSpace (HeaderGet "Idempotency-Key" r)) s Hn Ha) as H.
  by destruct (applyReceipt _ s) as [[st d] s'].
Qed.

Lemma handleControlMode_accounts n r w s : accounts n s -> accounts n (handleControlMode r w s).2.
Proof.
  intros [H1 H2 H3 H4 H5]. unfold handleControlMode. destruct (negb _); [by split|].
  destruct (decode_body _ r) as [req|]; [|by split]. unfold validateModeRequest.
  destruct (Z.ltb_spec (mr_FailNext req) 0); [by split|].
  destruct (_ || _) eqn:Em; [|by split]. split; auto. simpl.
  rewrite !orb_true_iff, !String.eqb_eq in Em. rewrite list_elem_of_In. simpl. intuition.
Qed.

Lemma accounts_mono n s : accounts n s -> accounts (n + 1) s.
Proof. intros [H1 (H2 & H3 & H4 & H5) H6 H7 H8]. split; auto. lia. Qed.

Lemma routes_accounts n r w s : n < int64_max -> accounts n s -> accounts (n + 1) (routes r w s).2.
Proof.
  intros Hn Ha. pose proof (accounts_mono _ _ Ha) as Hs.
  unfold routes. destruct (String.eqb _ "/receipts"); [by apply handleReceipts_accounts|].
  destruct (String.eqb _ "/control/mode"); [by apply handleControlMode_accounts|].
  unfold handleStats. by repeat case_match.
Qed.

Lemma serve_accounts n r s : n < int64_max -> accounts n s -> accounts (n + 1) (serve r s).2.
Proof.
  intros Hn Ha. destruct (serve_cases r s) as [(_ & -> & _)|(w & _ & _ & ->)]; [by apply accounts_mono|].
  by apply routes_accounts.
Qed.

Lemma serve_all_accounts rs n s :
  n + Z.of_nat (length rs) <= int64_max -> accounts n s -> accounts (n + Z.of_nat (length rs)) (serve_all rs s).
Proof.
  revert n s. induction rs as [|r rs IH]; intros n s Hn Ha; simpl; [by rewrite Z.add_0_r|].
  simpl in Hn. replace (n + Z.of_nat (S (length rs))) with (n + 1 + Z.of_nat (length rs)) by lia.
  apply IH; [lia|]. apply serve_accounts; [lia|done].
Qed.

(** The counters of the receipt service add up after any sequence of requests
    (fewer than 2^63): every counted request is exactly one of a success, a
    duplicate or a failure, there is a success for every key seen, no counter is
    negative or exceeds the number of requests, and the mode and the number of
    forced failures are ones the control endpoint admits. *)
Theorem mock_accounting rs :
  Z.of_nat (length rs) <= int64_max -> accounts (Z.of_nat (length rs)) (serve_all rs newReceiptServer).
Proof.
  intros Hn. apply (serve_all_accounts rs 0); [done|]. split; simpl; try done.
  rewrite list_elem_of_In. simpl. auto.
Qed.

(** A receipt request with this key that is accepted in this state. *)
Definition accepts (key : string) (r : Request) (s : receiptServer) : Prop :=
  Path r = "/receipts" /\ TrimSpace (HeaderGet "Idempotency-Key" r) = key /\
  response_status <$> (serve r s).1 = Some 200.

Lemma receipts_keep_keys r w s : seenKeys s ⊆ seenKeys (handleReceipts r w s).2.
Proof.
  unfold handleReceipts. destruct (negb _); [done|]. destruct (decode_body _ r); [|done].
  destruct (String.eqb _ ""); [done|]. unfold applyReceipt. cbv zeta. repeat case_match; simplify_eq/=; set_solver.
Qed.

Lemma routes_keep_keys r w s : seenKeys s ⊆ seenKeys (routes r w s).2.
Proof.
  unfold routes. destruct (String.eqb _ "/receipts"); [apply receipts_keep_keys|].
  unfold handleControlMode, handleStats. by repeat case_match.
Qed.

Lemma serve_keep_keys r s : seenKeys s ⊆ seenKeys (serve r s).2.
Proof. destruct (serve_cases r s) as [(_ & -> & _)|(w & _ & _ & ->)]; [done|apply routes_keep_keys]. Qed.

Lemma serve_all_keep_keys rs s : seenKeys s ⊆ seenKeys (serve_all rs s).
Proof.
  revert s. induction rs as [|r rs IH]; intros s; [done|]. simpl. etransitivity; [apply serve_keep_keys|apply IH].
Qed.

(** An answer is written once. *)
Lemma mock_writeJSON_status code v w : rw_wrote w = None -> response_status (writeJSON code v w) = code.
Proof. destruct w as [h [?|] b]; [done|]. reflexivity. Qed.

(** A receipt request with a key: refused, or the key is new and becomes known, or it
    was known and is a duplicate. *)
Lemma receipt_cases key r s :
  key <> "" -> Path r = "/receipts" -> TrimSpace (HeaderGet "Idempotency-Key" r) = key ->
  (successful (serve r s).2 = successful s /\ response_status <$> (serve r s).1 <> Some 200) \/
  (key ∉ seenKeys s /\ key ∈ seenKeys (serve r s).2) \/
  (key ∈ seenKeys s /\ successful (serve r s).2 = successful s /\
   duplicates (serve r s).2 = wrap64 (duplicates s + 1)).
Proof.
  intros Hk Hp Hh. destruct (serve_cases r s) as [(_ & -> & w & -> & Hw)|(w & Hw & _ & ->)].
  { left. split; [done|]. simpl. congruence. }
  unfold routes. rewrite Hp. simpl. unfold handleReceipts.
  destruct (negb _); [left; split; [done|]; destruct w as [h [?|] b]; naive_solver|].
  destruct (decode_body _ r) as [req|]; [|left; split; [done|]; simpl; by rewrite mock_writeJSON_status].
  destruct (String.eqb _ ""); [left; split; [done|]; simpl; by rewrite mock_writeJSON_status|].
  rewrite Hh. unfold applyReceipt. cbv zeta. rewrite (proj2 (String.eqb_neq _ _) Hk). simpl.
  destruct (0 <? failNext s); [left; split; [done|]; simpl; by rewrite mock_writeJSON_status|].
  destruct (String.eqb (mode s) modeTemporaryFailure); [left; split; [done|]; simpl; by rewrite mock_writeJSON_status|].
  destruct (String.eqb (mode s) modeValidationFailure); [left; split; [done|]; simpl; by rewrite mock_writeJSON_status|].
  right. destruct (bool_decide (key ∈ seenKeys s)) eqn:Ek; simpl; rail_bool; [by right|].
  left. split; [done|]. set_solver.
Qed.

Lemma accepts_cases key r s :
  key <> "" -> accepts key r s ->
  (key ∉ seenKeys s /\ key ∈ seenKeys (serve r s).2) \/
  (key ∈ seenKeys s /\ successful (serve r s).2 = successful s /\
   duplicates (serve r s).2 = wrap64 (duplicates s + 1)).
Proof. intros Hk (Hp & Hh & Hs). by destruct (receipt_cases key r s Hk Hp Hh) as [[_ ?]|?]. Qed.

(** A retried delivery is counted once.  If two requests with the same
    idempotency key are both accepted, in any history of requests between them,
    then the second is counted as a duplicate and adds no receipt. *)
Theorem mock_exactly_once key rs1 r1 rs2 r2 :
  let s1 := serve_all rs1 newReceiptServer in
  let s2 := serve_all rs2 (serve r1 s1).2 in
  key <> "" -> accepts key r1 s1 -> accepts key r2 s2 ->
  successful (serve r2 s2).2 = successful s2 /\
  duplicates (serve r2 s2).2 = wrap64 (duplicates s2 + 1).
Proof.
  cbv zeta. intros Hk H1 H2. apply accepts_cases in H2; [|done]. destruct H2 as [[Hn _]|[_ H2]]; [|done].
  exfalso. apply Hn, serve_all_keep_keys. apply accepts_cases in H1; [|done]. destruct H1 as [[_ ?]|[Hs _]]; [done|].
  by apply serve_keep_keys.
Qed.

End Facts.
(** ** Runs *)

Definition receipt (key : string) : Request :=
  mkRequest "POST" "/receipts" "" [("Idempotency-Key", key)]
    (String.string_of_list_ascii (map (fun c => if Ascii.eqb c "'" then dq else c)
       (chars "{'invoice_id': 'inv-1', 'amount': 5}"))).

Lemma mock_accounting_witness :
  accounts 3 (serve_all [receipt "e1"; receipt "e1"; receipt "e2"] newReceiptServer) /\
  successful (serve_all [receipt "e1"; receipt "e1"; receipt "e2"] newReceiptServer) = 2.
Proof.
  split; [|vm_compute; reflexivity].
  apply (mock_accounting [receipt "e1"; receipt "e1"; receipt "e2"]). vm_compute. discriminate.
Defined.

Lemma mock_exactly_once_witness :
  let s := (serve (receipt "e1") newReceiptServer).2 in
  successful s = 1 /\ successful (serve (receipt "e1") s).2 = 1 /\
  duplicates (serve (receipt "e1") s).2 = 1.
Proof.
  cbv zeta. split; [vm_compute; reflexivity|].
  assert (A1 : accepts "e1" (receipt "e1") newReceiptServer)
    by (split; [reflexivity|split; vm_compute; reflexivity]).
  assert (A2 : accepts "e1" (receipt "e1") (serve (receipt "e1") newReceiptServer).2)
    by (split; [reflexivity|split; vm_compute; reflexivity]).
  destruct (mock_exactly_once "e1" [] (receipt "e1") [] (receipt "e1") ltac:(discriminate) A1 A2) as [H1 H2].
  split; [etransitivity; [exact H1|vm_compute; reflexivity]|etransitivity; [exact H2|vm_compute; reflexivity]].
Defined.

End MockDestination.
