(* ===== verification/Worker.v ===== *)
(** * Worker: the delivery worker ([internal/deliveryworker/worker.go])

    Stream messages are delivered, and the outcome is recorded before the
    message is acknowledged: a success as DELIVERED, a failure as a scheduled
    retry or as a dead letter.  The retry pump puts due retries back on the
    stream. *)

From S2P Require Import Prelude GoStrings GoErrors GoTime Json Delivery Database RedisServer World.
From S2P Require Import Operations.
Import Delivery Operations.

Module Worker.

Definition PendingClaimIdle : Z := 30 * Second.
Definition PendingClaimCount : nat := 10.

(** ** Helpers without effects *)

(** [msg.Values[k].(string)]: values read from Redis are strings. *)
Definition value (k : string) (msg : XMessage) : option string := Values msg !! k.

Definition parseRetry (v : option string) : Z :=
  match v with
  | None => 0
  | Some s => match Atoi s with Some i => i | None => 0 end
  end.

(** [None] is the panic of a shift by a negative count. *)
Definition backoffDelay (base retry : Z) : option Z :=
  match shl64 1 (wrap64 (retry - 1)) with
  | None => None
  | Some mult =>
      let d := wrap64 (mult * base) in
      if 10 * Second <? d then Some (10 * Second) else Some d
  end.

Definition eventIDFromMessage (msg : XMessage) : string :=
  TrimSpace (default "" (value "event_id" msg)).

Definition originalStreamIDFromMessage (msg : XMessage) : string :=
  let streamID := TrimSpace (default "" (value "original_stream_id" msg)) in
  if String.eqb streamID "" then ID msg else streamID.

Definition responseCodeFromError (err : error) : option Z :=
  match errors_As_Failure err with
  | Some (_, code, _) => if negb (code =? 0) then Some code else None
  | None => None
  end.

(** [json.Marshal] of a message's values *)
Definition json_of_fields (values : fields) : json :=
  JObj (obj_of_list (map (fun kv => (kv.1, JStr kv.2)) (map_to_list values))).

(** ** Webhook payloads *)

(** [json.Unmarshal] into [struct { URL string; Data any }]: field names match
    regardless of case, a later member overrides an earlier one, [null] leaves
    the URL as it is, and any other type for it is an error. *)
Fixpoint webhook_fields {SC : Strconv} (m : list (string * json)) (url : string) (data : json)
    : option (string * json) :=
  match m with
  | [] => Some (url, data)
  | (k, v) :: m' =>
      if String.eqb (fold_name k) "url" then
        match v with
        | JStr s => webhook_fields m' s data
        | JNull => webhook_fields m' url data
        | _ => None
        end
      else if String.eqb (fold_name k) "data" then
        match to_any_float v with
        | Some d => webhook_fields m' url d
        | None => None
        end
      else webhook_fields m' url data
  end.

Definition unmarshal_webhook {SC : Strconv} (payload : string) : option (string * json) :=
  match parse payload with
  | Some (JObj m) => webhook_fields m "" JNull
  | Some JNull => Some ("", JNull)
  | _ => None
  end.

(** ** The recorder interface *)

Record Recorder (R : Type) := mkRecorder {
  rec_Processing : ProcessingRecord -> M (R:=R) unit;
  rec_Delivered : DeliveryAttemptRecord -> M (R:=R) unit;
  rec_Retrying : RetryingRecord -> M (R:=R) unit;
  rec_DeadLettered : DeadLetterRecord -> M (R:=R) unit;
}.
Arguments mkRecorder {R}.
Arguments rec_Processing {R}.
Arguments rec_Delivered {R}.
Arguments rec_Retrying {R}.
Arguments rec_DeadLettered {R}.

Definition noopRecorder {R} : Recorder R :=
  mkRecorder (fun _ => gret tt) (fun _ => gret tt) (fun _ => gret tt) (fun _ => gret tt).

(** [operationsStore] as the worker's recorder ([cmd/api/main.go]) *)
Definition storeRecorder {PG : Postgres} {R} (s : option Store) : Recorder R :=
  mkRecorder (RecordProcessing s) (RecordDelivered s) (RecordRetrying s) (RecordDeadLettered s).

Record Config (R : Type) := mkConfig {
  Stream : string; ConsumerGroup : string; Consumer : string; DLQStream : string;
  RetryZSet : string; MaxRetries : Z; BaseBackoff : Z; ConfigRecorder : option (Recorder R);
}.
Arguments mkConfig {R}.
Arguments Stream {R}.
Arguments ConsumerGroup {R}.
Arguments Consumer {R}.
Arguments DLQStream {R}.
Arguments RetryZSet {R}.
Arguments MaxRetries {R}.
Arguments BaseBackoff {R}.
Arguments ConfigRecorder {R}.

Record Worker_ (R : Type) := mkWorker { config : Config R; recorder : Recorder R }.
Arguments mkWorker {R}.
Arguments config {R}.
Arguments recorder {R}.

Definition New {R} (config : Config R) : Worker_ R :=
  mkWorker config (default noopRecorder (ConfigRecorder config)).

Section Worker.
Context {SC : Strconv} {NC : NetClients} {PG : Postgres} {R : Type} `{RedisCmds R}.
Abbreviation M := (M (R:=R)).
Abbreviation Worker_ := (Worker_ R).

(** ** Delivery *)

(** [processMessageResult]: the response code, if there was a response. *)
Definition processWebhookMessageWithResult (msg : XMessage) : M (option Z) :=
  match value "payload" msg with
  | None => gerr (NewPermanentFailure (ErrorString "webhook event missing payload"))
  | Some payloadStr =>
      match unmarshal_webhook payloadStr with
      | None => gerr (NewPermanentFailure (wrapf "invalid webhook payload"
                             (ErrorString (json_error_text payloadStr))))
      | Some (url, data) =>
          if String.eqb url "" then gerr (NewPermanentFailure (ErrorString "webhook url is required"))
          else match new_request_error url with
          | Some e => gerr (NewPermanentFailure (wrapf "create webhook request" e))
          | None =>
              let key := match value "event_id" msg with
                         | Some eventID => if String.eqb eventID "" then None else Some eventID
                         | None => None
                         end in
              let! resp := wrap_err (fun e => NewRetryableFailure (wrapf "deliver webhook request" e))
                             (http_do (mkHttpRequest "POST" url (marshal data) key)) in
              let '(code, status) := resp in
              if 400 <=? code then
                match NewHTTPFailure code status with
                | Some failure => gerr failure
                | None => gret (Some code)
                end
              else gret (Some code)
          end
      end
  end.

Definition processMessageWithResult (msg : XMessage) : M (option Z) :=
  let et := default "" (value "event_type" msg) in
  if String.eqb et "force.fail"
  then gerr (NewRetryableFailure (ErrorString "forced failure for testing"))
  else if String.eqb et "webhook" then processWebhookMessageWithResult msg
  else gret None.

(** The variants that drop the response code. *)
Definition processMessage (msg : XMessage) : M unit :=
  let! _ := processMessageWithResult msg in gret tt.

Definition processWebhookMessage (msg : XMessage) : M unit :=
  let! _ := processWebhookMessageWithResult msg in gret tt.

(** [msg.Values] is a map the functions share: [scheduleRetry] and [moveToDLQ]
    write to it, and code that runs after them sees the new values.  They return
    the message as they leave it. *)

Definition scheduleRetry (retryZSet : string) (msg : XMessage) (nextRetry delay : Z) : M XMessage :=
  let values := <["original_stream_id" := ID msg]> (<["retry" := Itoa nextRetry]> (Values msg)) in
  let! now := time_now in
  let due := (now + delay) / Millisecond in
  let! _ := redis_cmd (fun _ r => (tt, zadd retryZSet due (marshal (json_of_fields values)) r)) in
  gret (mkXMessage (ID msg) values).

Definition moveToDLQ (dlqStream : string) (msg : XMessage) (cause : error) : M XMessage :=
  let! now := time_now in
  let values := <["original_stream_id" := ID msg]>
                  (<["error" := error_text cause]> (<["dlq_at" := rfc3339 now]> (Values msg))) in
  let! _ := XAdd dlqStream values in
  gret (mkXMessage (ID msg) values).

Definition handleDeliveryFailure (msg : XMessage) (cause : error) (retry attemptNumber : Z)
    (startedAt completedAt : Z) (maxRetries baseBackoff : Z)
    (schedule : XMessage -> Z -> Z -> M XMessage) (writeDLQ : XMessage -> error -> M XMessage)
    (ack : string -> M unit) (recordRetrying : RetryingRecord -> M unit)
    (recordDeadLettered : DeadLetterRecord -> M unit) : M unit :=
  let attempt := mkDeliveryAttemptRecord (eventIDFromMessage msg) (ID msg) attemptNumber
                   (responseCodeFromError cause) (Some cause) startedAt completedAt in
  let! msg :=
    match DecideFailureAction cause retry maxRetries with
    | FailureActionRetry =>
        let nextRetry := wrap64 (retry + 1) in
        match backoffDelay baseBackoff nextRetry with
        | None => gerr (Panic "runtime error: negative shift amount")
        | Some delay =>
            let! now := time_now in
            let scheduledAt := now + delay in
            let! msg := wrap_err (wrapf ("schedule retry for message " +:+ ID msg))
                          (schedule msg nextRetry delay) in
            let! _ := wrap_err (wrapf ("record retrying message " +:+ ID msg))
                        (recordRetrying (mkRetryingRecord attempt nextRetry scheduledAt)) in
            gret msg
        end
    | FailureActionDeadLetter =>
        let! msg := wrap_err (wrapf ("write message " +:+ ID msg +:+ " to DLQ")) (writeDLQ msg cause) in
        let! _ := wrap_err (wrapf ("record dead-lettered message " +:+ ID msg))
                    (recordDeadLettered
                       (mkDeadLetterRecord attempt (originalStreamIDFromMessage msg))) in
        gret msg
    end in
  wrap_err (wrapf ("acknowledge message " +:+ ID msg +:+ " after failure handling")) (ack (ID msg)).

Definition acknowledgeDeliveredMessage (msg : XMessage) (record : DeliveryAttemptRecord)
    (recordDelivered : DeliveryAttemptRecord -> M unit) (ack : string -> M unit) : M unit :=
  let! _ := wrap_err (wrapf ("record delivered message " +:+ ID msg)) (recordDelivered record) in
  wrap_err (wrapf ("acknowledge delivered message " +:+ ID msg)) (ack (ID msg)).

(** [w.client.XAck(...)] *)
Definition ack_message (w : Worker_) (messageID : string) : M unit :=
  redis_cmd (fun _ r => (tt, xack (Stream (config w)) (ConsumerGroup (config w)) messageID r)).

(** Errors are logged, not returned; a panic propagates. *)
Definition logged (m : M unit) : M unit :=
  let! r := catch m in
  match r with
  | Err (Panic t) => gerr (Panic t)
  | _ => gret tt
  end.

Definition processStreamMessage (w : Worker_) (msg : XMessage) : M unit :=
  let retry := parseRetry (value "retry" msg) in
  let attemptNumber := wrap64 (retry + 1) in
  let! startedAt := time_now in
  let! recorded := catch (rec_Processing (recorder w)
                            (mkProcessingRecord (eventIDFromMessage msg) (ID msg) retry)) in
  match recorded with
  | Err _ => gret tt
  | Ok _ =>
      let! result := catch (processMessageWithResult msg) in
      let! completedAt := time_now in
      match result with
      | Err cause =>
          logged (handleDeliveryFailure msg cause retry attemptNumber startedAt completedAt
                    (MaxRetries (config w)) (BaseBackoff (config w))
                    (fun msg nextRetry delay => scheduleRetry (RetryZSet (config w)) msg nextRetry delay)
                    (fun msg cause => moveToDLQ (DLQStream (config w)) msg cause)
                    (ack_message w)
                    (rec_Retrying (recorder w)) (rec_DeadLettered (recorder w)))
      | Ok responseCode =>
          logged (acknowledgeDeliveredMessage msg
                    (mkDeliveryAttemptRecord (eventIDFromMessage msg) (ID msg) attemptNumber
                       responseCode None startedAt completedAt)
                    (rec_Delivered (recorder w)) (ack_message w))
      end
  end.

(** ** The stream loop *)

Definition EnsureConsumerGroup (w : Worker_) : M unit :=
  let! r := catch (let! created := redis_cmd (fun _ r =>
                      xgroup_create (Stream (config w)) (ConsumerGroup (config w)) r) in
                   if created : bool then gret tt
                   else gerr (ErrorString "BUSYGROUP Consumer Group name already exists")) in
  match r with
  | Ok _ => gret tt
  | Err e => if Contains (error_text e) "BUSYGROUP" then gret tt else gerr e
  end.

(** [redis.Nil] is an empty list. *)
Definition reclaimPendingMessagesForConsumer (stream group consumer : string) (minIdle : Z)
    (count : nat) : M (list XMessage) :=
  redis_cmd (fun now r => xautoclaim now stream group consumer (minIdle / Millisecond) count r).

Definition reclaimPendingMessages (stream group consumer : string) : M (list XMessage) :=
  reclaimPendingMessagesForConsumer stream group consumer PendingClaimIdle PendingClaimCount.

(** Process messages in order, stopping when the context is done: [false] when
    it stopped. *)
Fixpoint process_all (cancel_at : option Z) (w : Worker_) (msgs : list XMessage) : M bool :=
  match msgs with
  | [] => gret true
  | msg :: rest =>
      let! stop := ctx_done cancel_at in
      if stop : bool then gret false
      else let! _ := processStreamMessage w msg in process_all cancel_at w rest
  end.

(** One round of [runStreamWorker]: [true] to continue with the next.  A read that
    finds nothing blocks until its five seconds are over ([redis.Nil]) or the
    context is done. *)
Definition stream_round (cancel_at : option Z) (w : Worker_) : M bool :=
  let c := config w in
  let! stop := ctx_done cancel_at in
  if stop : bool then gret false else
  let! reclaimed := catch (reclaimPendingMessagesForConsumer (Stream c) (ConsumerGroup c) (Consumer c)
                             PendingClaimIdle PendingClaimCount) in
  let! stop := ctx_done cancel_at in
  if negb (is_ok reclaimed) && stop then gret false else
  let! go := process_all cancel_at w (match reclaimed with Ok ms => ms | Err _ => [] end) in
  if negb go then gret false else
  let! res := catch (redis_cmd (fun now r =>
                       xreadgroup now (Stream c) (ConsumerGroup c) (Consumer c) 10 r)) in
  match res with
  | Err _ =>
      let! stop := ctx_done cancel_at in
      if stop : bool then gret false else waitForContext cancel_at (500 * Millisecond)
  | Ok [] => waitForContext cancel_at (5 * Second)
  | Ok ms => process_all cancel_at w ms
  end.

(** [runStreamWorker] for at most [fuel] rounds: [true] when it returned. *)
Fixpoint runStreamWorker (fuel : nat) (cancel_at : option Z) (w : Worker_) : M bool :=
  match fuel with
  | O => gret false
  | S f => let! go := stream_round cancel_at w in
           if go : bool then runStreamWorker f cancel_at w else gret true
  end.

(** ** The retry pump *)

(** [values] as [go-redis] sends them; [None] when a value has a type it cannot
    encode. *)
Definition redis_args (m : list (string * json)) : option fields :=
  list_to_map <$> mapM (fun kv => pair kv.1 <$> redis_arg kv.2) m.

Definition republishRetryMember (member : string) (publish : list (string * json) -> M unit)
    (remove : string -> M unit) : M unit :=
  match unmarshal_map member with
  | None => gerr (wrapf "decode retry member" (ErrorString (json_error_text member)))
  | Some values =>
      let! _ := wrap_err (wrapf "publish retry member") (publish values) in
      wrap_err (wrapf "remove published retry member") (remove member)
  end.

Definition pump_publish (w : Worker_) (values : list (string * json)) : M unit :=
  match redis_args values with
  | None => gerr (ErrorString "redis: can't marshal value")
  | Some f => let! _ := XAdd (Stream (config w)) f in gret tt
  end.

Definition pump_remove (w : Worker_) (member : string) : M unit :=
  let! removed := redis_cmd (fun _ r => zrem (RetryZSet (config w)) member r) in
  if removed =? 0 then gerr (ErrorString "remove retry member affected 0 rows") else gret tt.

Fixpoint pump_all (cancel_at : option Z) (w : Worker_) (members : list string) : M bool :=
  match members with
  | [] => gret true
  | m :: rest =>
      let! stop := ctx_done cancel_at in
      if stop : bool then gret false
      else let! _ := logged (republishRetryMember m (pump_publish w) (pump_remove w)) in
           pump_all cancel_at w rest
  end.

(** One tick of [retryPump]. *)
Definition pump_tick (cancel_at : option Z) (w : Worker_) : M bool :=
  let! now := time_now in
  let! members := catch (redis_cmd (fun _ r =>
                    (zrangebyscore (RetryZSet (config w)) (now / Millisecond) 50 r, r))) in
  match members with
  | Err _ | Ok [] => let! stop := ctx_done cancel_at in gret (negb stop)
  | Ok ms => pump_all cancel_at w ms
  end.

Definition pump_period : Z := 500 * Millisecond.

(** The [select] on the context and on a ticker whose next tick is due at [next]:
    [None] when the context is done, otherwise the time of the tick after this
    one.  A tick that is late is delivered at once, those missed since are
    dropped.  When both are ready [choice] decides. *)
Definition pump_wait (cancel_at : option Z) (choice : Z -> bool) (next : Z) : M (option Z) := fun w =>
  let fire := Z.max (w_now w) next in
  let tick := (Ok (Some (next + pump_period * (1 + (fire - next) / pump_period))), with_clock fire (w_env w) w) in
  match cancel_at with
  | None => tick
  | Some t =>
      let done := Z.max (w_now w) t in
      if (fire <? done) || ((fire =? done) && choice fire) then tick
      else (Ok None, with_clock done (w_env w) w)
  end.

(** [retryPump] for at most [fuel] ticks: [true] when it returned. *)
Fixpoint retryPump (fuel : nat) (cancel_at : option Z) (choice : Z -> bool) (next : Z) (w : Worker_) : M bool :=
  match fuel with
  | O => gret false
  | S f =>
      let! tick := pump_wait cancel_at choice next in
      match tick with
      | None => gret true
      | Some next' => let! go := pump_tick cancel_at w in
                      if go : bool then retryPump f cancel_at choice next' w else gret true
      end
  end.

End Worker.
End Worker.
