(* ===== verification/WorkerFacts.v ===== *)
(** * WorkerFacts: what the delivery worker guarantees

    Proved against two interfaces: the laws of Redis ([RedisLaws]) and
    [RecorderSpec], what a recorder promises the worker; the operational store
    and the no-op recorder are instances of it. *)

From S2P Require Import Prelude GoStrings GoErrors GoTime Json JsonFacts Delivery Database DatabaseFacts.
From S2P Require Import RedisServer World WorldFacts RedisFacts Simulation Operations Samples Worker.
Import Delivery Operations Worker.

Module WorkerFacts.

(** ** The recorder interface *)

(** The durable effect of each call, as a relation on the tables. *)
Record RecorderEffects := mkEffects {
  eff_processing : ProcessingRecord -> DB -> DB -> Prop;
  eff_delivered : DeliveryAttemptRecord -> DB -> DB -> Prop;
  eff_retrying : RetryingRecord -> DB -> DB -> Prop;
  eff_dead_lettered : DeadLetterRecord -> DB -> DB -> Prop;
}.

Class RecorderSpec {R : Type} (rec : Recorder R) (eff : RecorderEffects) : Prop := {
  spec_processing : forall p, records (rec_Processing rec p) (eff_processing eff p);
  spec_delivered : forall a, records (rec_Delivered rec a) (eff_delivered eff a);
  spec_retrying : forall x, records (rec_Retrying rec x) (eff_retrying eff x);
  spec_dead_lettered : forall x, records (rec_DeadLettered rec x) (eff_dead_lettered eff x);
}.

Definition store_effects {PG : Postgres} : RecorderEffects :=
  mkEffects processed delivered retrying dead_lettered.

Definition no_effects : RecorderEffects :=
  mkEffects (fun _ => eq) (fun _ => eq) (fun _ => eq) (fun _ => eq).

#[global] Instance store_RecorderSpec {PG : Postgres} {R} s : RecorderSpec (storeRecorder (R:=R) s) store_effects.
Proof.
  split; simpl; auto using RecordProcessing_records, RecordDelivered_records, RecordRetrying_records,
    RecordDeadLettered_records.
Qed.

Lemma records_noop {R} : records (R:=R) (gret tt) eq.
Proof.
  intros w r w' Hw H. unfold gret in H. simplify_eq. unfold db_only. split_and!; auto. lia.
Qed.

#[global] Instance noop_RecorderSpec {R} : RecorderSpec (noopRecorder (R:=R)) no_effects.
Proof. split; intros; apply records_noop. Qed.

(** ** Messages *)

Definition msg_retry (msg : XMessage) : Z := parseRetry (value "retry" msg).

Lemma msg_retry_range msg : int64_min <= msg_retry msg <= int64_max.
Proof.
  unfold msg_retry, parseRetry. destruct (value "retry" msg) as [s|]; [|done].
  destruct (Atoi s) eqn:E; [by apply Atoi_range in E|done].
Qed.

Definition retry_values (msg : XMessage) (nextRetry : Z) : fields :=
  <["original_stream_id" := ID msg]> (<["retry" := Itoa nextRetry]> (Values msg)).

(** The sorted-set member of a scheduled retry. *)
Definition retry_member (msg : XMessage) (nextRetry : Z) : string :=
  marshal (json_of_fields (retry_values msg nextRetry)).

Definition dlq_values (msg : XMessage) (cause : error) (now : Z) : fields :=
  <["original_stream_id" := ID msg]>
    (<["error" := error_text cause]> (<["dlq_at" := rfc3339 now]> (Values msg))).

(** The attempt a record describes. *)
Definition attempt_of (msg : XMessage) (a : DeliveryAttemptRecord) : Prop :=
  da_EventID a = eventIDFromMessage msg /\ da_StreamID a = ID msg /\
  da_AttemptNumber a = wrap64 (msg_retry msg + 1).

Definition processing_of (msg : XMessage) : ProcessingRecord :=
  mkProcessingRecord (eventIDFromMessage msg) (ID msg) (msg_retry msg).

Section Facts.
Context {SC : Strconv} {NC : NetClients} {PG : Postgres} {R : Type} `{RedisCmds R, !RedisLaws R}.
Abbreviation M := (M (R:=R)).
Abbreviation W := (World R).
Abbreviation Worker_ := (Worker_ R).
Implicit Types w : W.

(** Only Redis changes (and time passes). *)
Definition redis_frame (w w' : W) : Prop :=
  w_db w' = w_db w /\ w_tx w' = w_tx w /\ w_locked w' = w_locked w /\
  w_http w' = w_http w /\ w_sent w' = w_sent w /\ w_now w <= w_now w'.

Lemma scheduleRetry_inv z msg n d w r w' :
  scheduleRetry z msg n d w = (r, w') ->
  redis_frame w w' /\
  (w_redis w' = w_redis w \/
   zadded z ((w_now w + d) / Millisecond) (retry_member msg n) (w_redis w) (w_redis w')) /\
  (forall m, r = Ok m -> m = mkXMessage (ID msg) (retry_values msg n) /\
     zadded z ((w_now w + d) / Millisecond) (retry_member msg n) (w_redis w) (w_redis w')).
Proof.
  unfold scheduleRetry, time_now. intros Hs. cbv zeta in Hs. unfold gbind at 1 in Hs.
  apply gbind_inv in Hs as [([] & w1 & Hc & Hs)|(e & Hc & ->)];
    apply redis_cmd_inv in Hc as (C1 & C2 & C3 & C4 & C5 & C6 & C7).
  - unfold gret in Hs. simplify_eq. split; [by unfold redis_frame|].
    destruct C7 as [(t & ? & _)|(a & Hc%zadd_repeats & _)]; [done|]. split; [by right|].
    intros m ?. by simplify_eq.
  - split; [by unfold redis_frame|]. split; [|done].
    destruct C7 as [(t & _ & C7)|(a & Hc%zadd_repeats & _)]; [by left|]. by right.
Qed.

Lemma moveToDLQ_inv s msg cause w r w' :
  moveToDLQ s msg cause w = (r, w') ->
  redis_frame w w' /\
  (w_redis w' = w_redis w \/
   exists id, added s (dlq_values msg cause (w_now w)) (w_redis w) id (w_redis w')) /\
  (forall m, r = Ok m -> m = mkXMessage (ID msg) (dlq_values msg cause (w_now w)) /\
     exists id, added s (dlq_values msg cause (w_now w)) (w_redis w) id (w_redis w')).
Proof.
  unfold moveToDLQ, time_now. intros Hs. unfold gbind at 1 in Hs. cbv zeta in Hs.
  apply gbind_inv in Hs as [(id & w1 & Hc & Hs)|(e & Hc & ->)];
    apply XAdd_inv in Hc as (C1 & C2 & C3 & C4 & C5 & C6 & C7).
  - unfold gret in Hs. simplify_eq. split; [by unfold redis_frame|].
    destruct C7 as [(t & ? & _)|(a & Hc & _)]; [done|]. split; [right; by eexists|].
    intros m ?. simplify_eq. split; [done|]. by eexists.
  - split; [by unfold redis_frame|]. split; [|done].
    destruct C7 as [(t & _ & C7)|(a & Hc & _)]; [by left|]. right. by eexists.
Qed.

Lemma ack_message_inv wk id w r w' :
  ack_message wk id w = (r, w') ->
  redis_frame w w' /\
  (w_redis w' = w_redis w \/
   acknowledged (Stream (config wk)) (ConsumerGroup (config wk)) id (w_redis w) (w_redis w')).
Proof.
  intros Hs. apply redis_cmd_inv in Hs as (C1 & C2 & C3 & C4 & C5 & C6 & C7).
  split; [by unfold redis_frame|]. destruct C7 as [(t & _ & C7)|(a & Hc%xack_repeats & _)]; [by left|by right].
Qed.

(** Delivering a message talks to its destination only. *)
Definition http_frame (w w' : W) : Prop :=
  w_db w' = w_db w /\ w_tx w' = w_tx w /\ w_locked w' = w_locked w /\ w_redis w' = w_redis w /\
  w_env w' = w_env w /\ w_now w' = w_now w.

#[global] Instance http_frame_preorder : PreOrder http_frame.
Proof. split; [intros w|intros w1 w2 w3]; unfold http_frame; intuition congruence. Qed.

Lemma http_do_frame q : keeps http_frame (http_do q : M _).
Proof. intros w. unfold http_do. repeat case_match; done. Qed.

Lemma processMessage_frame msg : keeps http_frame (processMessageWithResult msg : M (option Z)).
Proof.
  unfold processMessageWithResult, processWebhookMessageWithResult. keeps_all.
  all: apply http_do_frame.
Qed.

(** What the delivery of a message ends in; it depends on the destination's answers
    only. *)
Definition delivery_result (msg : XMessage) (w : W) : res error (option Z) := (processMessageWithResult msg w).1.

Lemma delivery_result_http msg w1 w2 : w_http w1 = w_http w2 -> delivery_result msg w1 = delivery_result msg w2.
Proof.
  intros Hh. unfold delivery_result, processMessageWithResult, processWebhookMessageWithResult, gbind, wrap_err, http_do.
  cbv beta zeta. destruct (String.eqb _ "force.fail"); [done|]. destruct (String.eqb _ "webhook"); [|done].
  destruct (value "payload" msg) as [p|]; [|done]. destruct (unmarshal_webhook p) as [[url data]|]; [|done].
  destruct (String.eqb url ""); [done|]. destruct (new_request_error url); [done|]. rewrite Hh.
  destruct (http_exchange _ _ _ _) as [[[[code status]|e] sent] unread]; [|done]. simpl.
  destruct (400 <=? code); [|done]. by destruct (NewHTTPFailure code status).
Qed.

(** ** What is durable before a message is acknowledged *)

Section Outcome.
Context (wk : Worker_) (eff : RecorderEffects) `{!RecorderSpec (recorder wk) eff}.
Let c := config wk.

(** The delivery ended in [result]; this outcome is recorded in the tables, and the
    retry or dead letter of a failure is in Redis. *)
Inductive settles (msg : XMessage) (result : res error (option Z)) (db : DB) (r : R) : DB -> R -> Prop :=
| settles_delivered code a db' :
    result = Ok code -> attempt_of msg a -> da_Error a = None -> da_ResponseCode a = code ->
    eff_delivered eff a db db' -> settles msg result db r db' r
| settles_retry cause x due db' r' :
    result = Err cause -> DecideFailureAction cause (msg_retry msg) (MaxRetries c) = FailureActionRetry ->
    attempt_of msg (rt_Attempt x) -> da_Error (rt_Attempt x) = Some cause ->
    rt_NextRetry x = wrap64 (msg_retry msg + 1) -> eff_retrying eff x db db' ->
    zadded (RetryZSet c) due (retry_member msg (wrap64 (msg_retry msg + 1))) r r' ->
    settles msg result db r db' r'
| settles_dead_letter cause x t id db' r' :
    result = Err cause -> DecideFailureAction cause (msg_retry msg) (MaxRetries c) = FailureActionDeadLetter ->
    attempt_of msg (dl_Attempt x) -> da_Error (dl_Attempt x) = Some cause ->
    dl_OriginalStreamID x = originalStreamIDFromMessage (mkXMessage (ID msg) (dlq_values msg cause t)) ->
    eff_dead_lettered eff x db db' -> added (DLQStream c) (dlq_values msg cause t) r id r' ->
    settles msg result db r db' r'.

(** A retry or dead letter may be in Redis that the tables do not know of yet. *)
Inductive staged (msg : XMessage) (r : R) : R -> Prop :=
| staged_none : staged msg r r
| staged_retry cause due r' :
    DecideFailureAction cause (msg_retry msg) (MaxRetries c) = FailureActionRetry ->
    zadded (RetryZSet c) due (retry_member msg (wrap64 (msg_retry msg + 1))) r r' -> staged msg r r'
| staged_dead_letter cause t id r' :
    added (DLQStream c) (dlq_values msg cause t) r id r' -> staged msg r r'.

Definition handled (msg : XMessage) (result : res error (option Z)) (w w' : W) : Prop :=
  (w_db w' = w_db w /\ staged msg (w_redis w) (w_redis w')) \/
  exists r2, settles msg result (w_db w) (w_redis w) (w_db w') r2 /\
    (w_redis w' = r2 \/ acknowledged (Stream c) (ConsumerGroup c) (ID msg) r2 (w_redis w')).

Lemma settled_ack msg result m w0 w1 w f r w' r2 :
  wrap_err f (ack_message wk (ID m)) w1 = (r, w') -> ID m = ID msg ->
  w_db w1 = w_db w -> w_redis w1 = r2 -> w_tx w1 = None -> settles msg result (w_db w0) (w_redis w0) (w_db w) r2 ->
  w_tx w' = None /\ w_now w1 <= w_now w' /\ handled msg result w0 w'.
Proof.
  intros Ha Hm Hdb Hr2 Htx Hs. unfold wrap_err in Ha. destruct (ack_message wk (ID m) w1) as [ra wa] eqn:Ea.
  simplify_eq. apply ack_message_inv in Ea as [(F1 & F2 & F3 & F4 & F5 & F6) Hx].
  split_and!; [congruence|done|]. right. exists (w_redis w1). rewrite F1, Hdb. split; [done|].
  rewrite <- Hm. done.
Qed.

Lemma handleDeliveryFailure_inv msg cause t1 t2 w r w' :
  w_tx w = None ->
  handleDeliveryFailure msg cause (msg_retry msg) (wrap64 (msg_retry msg + 1)) t1 t2
    (MaxRetries c) (BaseBackoff c)
    (fun msg nextRetry delay => scheduleRetry (RetryZSet c) msg nextRetry delay)
    (fun msg cause => moveToDLQ (DLQStream c) msg cause) (ack_message wk)
    (rec_Retrying (recorder wk)) (rec_DeadLettered (recorder wk)) w = (r, w') ->
  w_tx w' = None /\ w_now w <= w_now w' /\ handled msg (Err cause) w w'.
Proof.
  intros Hw Hh. unfold handleDeliveryFailure in Hh. cbv zeta in Hh.
  destruct (DecideFailureAction _ _ _) eqn:Ed.
  - destruct (backoffDelay _ _) as [delay|]; cycle 1.
    { unfold gbind, gerr in Hh. simplify_eq. split_and!; [done|lia|]. left. split; [done|constructor]. }
    rewrite gbind_assoc in Hh. unfold gbind at 1, time_now in Hh. rewrite gbind_assoc in Hh.
    apply gbind_inv in Hh as [(m & w1 & Hs & Hh)|(e & Hs & ->)]; unfold wrap_err in Hs;
      destruct (scheduleRetry _ _ _ _ w) as [rs ws] eqn:Es; simplify_eq/=;
      apply scheduleRetry_inv in Es as ((F1 & F2 & F3 & F4 & F5 & F6) & Hz & Hok); cycle 1.
    { split_and!; [congruence|done|]. left. split; [done|]. destruct Hz as [->|Hz]; [constructor|by eapply staged_retry]. }
    destruct rs as [m'|]; simplify_eq/=. destruct (Hok m eq_refl) as (-> & Hz'). clear Hz Hok.
    rewrite gbind_assoc in Hh. apply gbind_inv in Hh as [([] & w2 & Hr & Hh)|(e & Hr & ->)]; unfold wrap_err in Hr;
      destruct (rec_Retrying _ _ w1) as [rr wr] eqn:Er; simplify_eq/=;
      apply spec_retrying in Er as ((D1 & D2 & D3 & D4 & D5 & D6) & Hd & Hok); try congruence.
    + destruct rr as [[]|]; [|done]. unfold gbind at 1, gret in Hh.
      eapply (settled_ack msg (Err cause)) with (w0 := w) (w := w2) in Hh; [|done..|].
      * destruct Hh as (? & ? & ?). split_and!; [done|lia|done].
      * rewrite <- F1. eapply settles_retry; cycle 5; [by apply Hok|done..].
    + split_and!; [done|lia|]. destruct Hd as [Hd|Hd].
      * left. split; [congruence|]. rewrite D3. by eapply staged_retry.
      * right. exists (w_redis w'). split; [|by left]. rewrite D3, <- F1. eapply settles_retry; cycle 5; [exact Hd|done..].
  - rewrite gbind_assoc in Hh.
    apply gbind_inv in Hh as [(m & w1 & Hs & Hh)|(e & Hs & ->)]; unfold wrap_err in Hs;
      destruct (moveToDLQ _ _ _ w) as [rs ws] eqn:Es; simplify_eq/=;
      apply moveToDLQ_inv in Es as ((F1 & F2 & F3 & F4 & F5 & F6) & Hz & Hok); cycle 1.
    { split_and!; [congruence|done|]. left. split; [done|].
      destruct Hz as [->|(id & Hz)]; [constructor|by eapply staged_dead_letter]. }
    destruct rs as [m'|]; simplify_eq/=. destruct (Hok m eq_refl) as (-> & id & Hz'). clear Hz Hok.
    rewrite gbind_assoc in Hh. apply gbind_inv in Hh as [([] & w2 & Hr & Hh)|(e & Hr & ->)]; unfold wrap_err in Hr;
      destruct (rec_DeadLettered _ _ w1) as [rr wr] eqn:Er; simplify_eq/=;
      apply spec_dead_lettered in Er as ((D1 & D2 & D3 & D4 & D5 & D6) & Hd & Hok); try congruence.
    + destruct rr as [[]|]; [|done]. unfold gbind at 1, gret in Hh.
      eapply (settled_ack msg (Err cause)) with (w0 := w) (w := w2) in Hh; [|done..|].
      * destruct Hh as (? & ? & ?). split_and!; [done|lia|done].
      * rewrite <- F1. eapply settles_dead_letter; cycle 5; [by apply Hok|done..].
    + split_and!; [done|lia|]. destruct Hd as [Hd|Hd].
      * left. split; [congruence|]. rewrite D3. by eapply staged_dead_letter.
      * right. exists (w_redis w'). split; [|by left]. rewrite D3, <- F1. eapply settles_dead_letter; cycle 5; [exact Hd|exact Hz'|done..].
Qed.

Lemma acknowledgeDelivered_inv msg a w r w' :
  w_tx w = None -> attempt_of msg a -> da_Error a = None ->
  acknowledgeDeliveredMessage msg a (rec_Delivered (recorder wk)) (ack_message wk) w = (r, w') ->
  w_tx w' = None /\ w_now w <= w_now w' /\ handled msg (Ok (da_ResponseCode a)) w w'.
Proof.
  intros Hw Ha He Hh. unfold acknowledgeDeliveredMessage in Hh.
  apply gbind_inv in Hh as [([] & w1 & Hr & Hh)|(e & Hr & ->)]; unfold wrap_err in Hr at 1;
    destruct (rec_Delivered _ _ w) as [rr wr] eqn:Er; simplify_eq/=;
    apply spec_delivered in Er as ((D1 & D2 & D3 & D4 & D5 & D6) & Hd & Hok); try done.
  - destruct rr as [[]|]; [|done].
    eapply (settled_ack msg (Ok (da_ResponseCode a))) with (w0 := w) (w := w1) (r2 := w_redis w) in Hh; [|done..|].
    + destruct Hh as (? & ? & ?). split_and!; [done|lia|done].
    + eapply settles_delivered; eauto.
  - split_and!; [done|lia|]. destruct Hd as [Hd|Hd].
    + left. split; [done|]. rewrite D3. constructor.
    + right. exists (w_redis w'). split; [|by left]. rewrite D3. by eapply settles_delivered.
Qed.

(** One message, on every path and under every fault: the processing record
    failed and nothing was attempted, or the message was handled after it. *)
Inductive message_outcome (msg : XMessage) (w w' : W) : Prop :=
| outcome_not_started :
    w_db w' = w_db w \/ eff_processing eff (processing_of msg) (w_db w) (w_db w') ->
    w_redis w' = w_redis w -> w_sent w' = w_sent w -> message_outcome msg w w'
| outcome_staged db1 :
    eff_processing eff (processing_of msg) (w_db w) db1 -> w_db w' = db1 ->
    staged msg (w_redis w) (w_redis w') -> message_outcome msg w w'
| outcome_settled db1 r2 :
    eff_processing eff (processing_of msg) (w_db w) db1 ->
    settles msg (delivery_result msg w) db1 (w_redis w) (w_db w') r2 ->
    (w_redis w' = r2 \/ acknowledged (Stream c) (ConsumerGroup c) (ID msg) r2 (w_redis w')) ->
    message_outcome msg w w'.

Lemma logged_world (m : M unit) w : (logged m w).2 = (m w).2.
Proof.
  unfold logged, gbind, catch. destruct (m w) as [r w']. simpl.
  destruct r as [|[]]; reflexivity.
Qed.

Lemma handled_outcome msg w w1 w2 w' :
  eff_processing eff (processing_of msg) (w_db w) (w_db w1) -> w_redis w1 = w_redis w ->
  w_db w2 = w_db w1 -> w_redis w2 = w_redis w1 -> handled msg (delivery_result msg w) w2 w' -> message_outcome msg w w'.
Proof.
  intros Hp Hr Hd2 Hr2 [[Hd Hst]|(r2 & Hs & Ha)].
  - eapply outcome_staged; [done|congruence|]. congruence.
  - rewrite Hd2, Hr2, Hr in Hs. by eapply outcome_settled.
Qed.

Lemma processStreamMessage_cases msg w r w' :
  w_tx w = None -> processStreamMessage wk msg w = (r, w') ->
  w_tx w' = None /\ w_now w <= w_now w' /\ message_outcome msg w w'.
Proof.
  intros Hw Hp. unfold processStreamMessage, time_now in Hp. cbv zeta in Hp. unfold gbind at 1 in Hp.
  unfold gbind at 1, catch at 1 in Hp. destruct (rec_Processing _ _ w) as [rp w1] eqn:Ep.
  apply spec_processing in Ep as ((D1 & D2 & D3 & D4 & D5 & D6) & Hd & Hok); [|done].
  destruct rp as [[]|e]; cycle 1.
  { unfold gret in Hp. simplify_eq. split_and!; [done..|]. by eapply outcome_not_started. }
  specialize (Hok eq_refl). clear Hd. fold (msg_retry msg) in *.
  unfold gbind at 1, catch at 1 in Hp. pose proof (processMessage_frame msg w1) as Hf.
  assert (Hres : delivery_result msg w1 = delivery_result msg w) by by apply delivery_result_http.
  unfold delivery_result at 1 in Hres. destruct (processMessageWithResult msg w1) as [rr w2]. simpl in Hres. subst rr.
  destruct Hf as (F1 & F2 & F3 & F4 & F5 & F6). simpl in *. unfold gbind at 1 in Hp.
  assert (Hw2 : w_tx w2 = None) by congruence.
  assert (Hh : w_tx w' = None /\ w_now w2 <= w_now w' /\ handled msg (delivery_result msg w) w2 w').
  { destruct (delivery_result msg w) as [code|cause];
      match type of Hp with logged ?m _ = _ => pose proof (logged_world m w2) as Hl; rewrite Hp in Hl;
        destruct (m w2) as [rm wm] eqn:Em end; simpl in Hl; subst wm.
    - by eapply acknowledgeDelivered_inv in Em.
    - by eapply handleDeliveryFailure_inv in Em. }
  destruct Hh as (H1 & H2 & H3). split_and!; [done|lia|]. eapply handled_outcome; [exact Hok|done| | |exact H3]; congruence.
Qed.

(** ** Nothing is lost *)

Lemma staged_grows msg r r' : staged msg r r' -> redis_grows r r'.
Proof. destruct 1; eauto using redis_grows_refl, zadded_grows, added_grows. Qed.

Lemma settles_grows msg result db r db' r' : settles msg result db r db' r' -> redis_grows r r'.
Proof. destruct 1; eauto using redis_grows_refl, zadded_grows, added_grows. Qed.

(** C2: A message is acknowledged only when its outcome is durable.  Whatever
    PostgreSQL, Redis and the destination answer, processing a message leaves no
    transaction open and loses nothing that Redis holds, except that the message
    itself, and it alone, may have been acknowledged.  Then, in the state [r2] that
    the acknowledgement was applied to and that keeps all Redis held, the outcome of
    this delivery was in place: the tables hold the processing record followed by
    the successful attempt when the delivery succeeded, or, when it failed, the
    retry, whose member is in the retry set of [r2], or the dead letter, whose entry
    is in the dead-letter stream of [r2]. *)
Theorem ack_only_when_settled msg w r w' :
  w_tx w = None -> processStreamMessage wk msg w = (r, w') ->
  w_tx w' = None /\
  (redis_grows (w_redis w) (w_redis w') \/
   exists db1 r2, eff_processing eff (processing_of msg) (w_db w) db1 /\
     settles msg (delivery_result msg w) db1 (w_redis w) (w_db w') r2 /\
     redis_grows (w_redis w) r2 /\
     acknowledged (Stream c) (ConsumerGroup c) (ID msg) r2 (w_redis w')).
Proof.
  intros Hw Hp. apply processStreamMessage_cases in Hp as (Htx & _ & Ho); [|done]. split; [done|].
  destruct Ho as [_ -> _|db1 _ _ Hst|db1 r2 Hpr Hs Ha].
  - left. apply redis_grows_refl.
  - left. by eapply staged_grows.
  - destruct Ha as [->|Ha]; [left; by eapply settles_grows|right].
    exists db1, r2. split_and!; [done..|by eapply settles_grows|done].
Qed.

(** C36: Retries are bounded.  Whatever fails, the only member that processing a
    message adds to the retry set is a copy of the message that counts one retry
    more, and only while that count does not exceed [MaxRetries]: a chain of
    retries has at most [MaxRetries] links before the dead letter. *)
Theorem retries_bounded msg w r w' m :
  w_tx w = None -> processStreamMessage wk msg w = (r, w') ->
  MaxRetries c <= int64_max ->
  is_Some (zset (w_redis w') (RetryZSet c) !! m) ->
  is_Some (zset (w_redis w) (RetryZSet c) !! m) \/
  (m = retry_member msg (msg_retry msg + 1) /\ msg_retry msg + 1 <= MaxRetries c).
Proof.
  intros Hw Hp Hmax Hm. pose proof (msg_retry_range msg) as Hmin. apply processStreamMessage_cases in Hp as (_ & _ & Ho); [|done].
  assert (Hadd : forall cause due r2, DecideFailureAction cause (msg_retry msg) (MaxRetries c) = FailureActionRetry ->
    zadded (RetryZSet c) due (retry_member msg (wrap64 (msg_retry msg + 1))) (w_redis w) r2 ->
    is_Some (zset r2 (RetryZSet c) !! m) ->
    is_Some (zset (w_redis w) (RetryZSet c) !! m) \/
    (m = retry_member msg (msg_retry msg + 1) /\ msg_retry msg + 1 <= MaxRetries c)).
  { intros cause due r2 [_ Hlt]%decide_retry_iff Hsc Hz. rewrite wrap64_id in Hsc by lia.
    destruct Hsc as (_ & _ & Hs). rewrite Hs, decide_True in Hz by done. apply lookup_insert_is_Some in Hz as [<-|[_ Hz]]; [right|by left].
    split; [done|lia]. }
  assert (Hack : forall r2, w_redis w' = r2 \/ acknowledged (Stream c) (ConsumerGroup c) (ID msg) r2 (w_redis w') ->
    is_Some (zset r2 (RetryZSet c) !! m)).
  { intros r2 [<-|(_ & Hz & _)]; [done|]. by rewrite Hz in Hm. }
  destruct Ho as [_ Hr _|db1 _ _ Hst|db1 r2 Hpr Hs Ha].
  - left. by rewrite <- Hr.
  - destruct Hst as [|cause due r' Hdec Hsc|cause t id r' Hx]; [by left|by eapply Hadd|].
    left. by rewrite <- (added_zsets _ _ _ _ _ Hx).
  - apply Hack in Ha. destruct Hs as [|cause x due db' r' _ Hdec|cause x t id db' r' _ Hdec _ _ _ _ Hx];
      [by left|by eapply Hadd|]. left. by rewrite <- (added_zsets _ _ _ _ _ Hx).
Qed.

End Outcome.

(** ** Dead letters *)

(** C35: Dead letters are consistent.  With the operational store as recorder and
    under every fault, a dead-letter record that processing a message creates or
    overwrites is OPEN, belongs to the event of the message, counts its attempts,
    and names the message itself as the original stream id (also when the message
    was a retry that carried an older one); and the dead-letter stream holds an
    entry with the same id and the text of the failure that the delivery ended in. *)
Theorem dead_letter_consistent (wk : Worker_) s msg w r w' u d :
  recorder wk = storeRecorder s -> w_tx w = None -> processStreamMessage wk msg w = (r, w') ->
  TrimSpace (ID msg) = ID msg ->
  dlq_records (w_db w') !! u = Some d ->
  dlq_records (w_db w) !! u = Some d \/
  (uuid_in (eventIDFromMessage msg) = Some u /\ dq_status d = DLQStatusOpen /\
   dq_attempt_count d = wrap64 (msg_retry msg + 1) /\ dq_original_stream_id d = ID msg /\
   exists m cause, delivery_result msg w = Err cause /\ m ∈ stream (w_redis w') (DLQStream (config wk)) /\
     Values m !! "original_stream_id" = Some (ID msg) /\ Values m !! "error" = Some (error_text cause) /\
     dq_last_error d = errorString (Some cause)).
Proof.
  intros Hrec Hw Hp Hid Hd.
  assert (Hspec : RecorderSpec (recorder wk) store_effects) by (rewrite Hrec; apply _).
  apply (processStreamMessage_cases wk store_effects) in Hp as (_ & _ & Ho); [|done].
  assert (Hproc : forall p db db', processed p db db' -> dlq_records db' = dlq_records db)
    by (intros p db db' (now & v & j & _ & _ & ->); done).
  destruct Ho as [[Hdb|Hpr] _ _|db1 Hpr Hdb _|db1 r2 Hpr Hs Ha]; [left; congruence|left..|].
  1,2: apply Hproc in Hpr; congruence.
  simpl in Hpr. apply Hproc in Hpr. rewrite <- Hpr.
  inversion Hs as [co a db' _ _ _ _ Hdel|cause x due db' r' _ _ _ _ _ Hret _|cause x t id db' r' Hres _ Hat He Hoid Hdead Hx]; subst.
  - destruct Hdel as (n & v & j & _ & _ & _ & Heq). rewrite Heq in Hd. by left.
  - destruct Hret as (n & v & j & _ & _ & _ & Heq). rewrite Heq in Hd. by left.
  - destruct Hdead as (n & v & j & Hu & _ & _ & Heq). rewrite Heq in Hd. simpl in Hd.
    apply lookup_insert_Some in Hd as [[<- <-]|[_ Hd]]; [right|by left].
    destruct Hat as (Hat1 & Hat2 & Hat3). simpl.
    assert (Ho : originalStreamIDFromMessage (mkXMessage (ID msg) (dlq_values msg cause t)) = ID msg).
    { unfold originalStreamIDFromMessage, value. simpl. unfold dlq_values.
      rewrite lookup_insert_eq. simpl. rewrite Hid. by case_match. }
    split_and!; [congruence|done|done|..].
    + unfold dead_letter_stream_id. rewrite Hoid, Ho, Hid, Hat2. by case_match.
    + exists (mkXMessage id (dlq_values msg cause t)), cause. 
      simpl. unfold dlq_values at 2 3. rewrite lookup_insert_eq, lookup_insert_ne, lookup_insert_eq by done.
      split_and!; [done| |done..|by rewrite He].
      apply added_entry in Hx as (_ & _ & Hin & _). destruct Ha as [-> |(Hst & _)]; [done|]. by rewrite Hst.
Qed.

(** ** The retry pump *)

(** Moving a member back to the stream, on every path. *)
Lemma republish_cases (wk : Worker_) m w r w' :
  let st := Stream (config wk) in let z := RetryZSet (config wk) in
  republishRetryMember m (pump_publish wk) (pump_remove wk) w = (r, w') ->
  redis_frame w w' /\
  ((w_redis w' = w_redis w /\ is_ok r = false) \/
   exists values f id r1, unmarshal_map m = Some values /\ redis_args values = Some f /\
     added st f (w_redis w) id r1 /\
     ((w_redis w' = r1 /\ is_ok r = false) \/
      (removed z m r1 (w_redis w') /\ (r = Ok tt -> is_Some (zset r1 z !! m))))).
Proof.
  intros st z Hp. unfold republishRetryMember in Hp.
  assert (Hrefl : redis_frame w w) by (unfold redis_frame; split_and!; done || lia).
  destruct (unmarshal_map m) as [values|] eqn:Em; [|unfold gerr in Hp; simplify_eq; split; auto].
  unfold pump_publish in Hp. destruct (redis_args values) as [f|] eqn:Ef; cycle 1.
  { unfold gbind, wrap_err, gerr in Hp. simplify_eq/=. split; auto. }
  unfold gbind at 1, wrap_err at 1, gbind at 1 in Hp. destruct (XAdd _ f w) as [rx w1] eqn:Ex.
  apply XAdd_inv in Ex as (X1 & X2 & X3 & X4 & X5 & X6 & X7).
  destruct X7 as [(t & -> & X7)|(id & Hx & X7)]; [simplify_eq/=; split; [done|left; done]|].
  destruct X7 as [->|(t & ->)]; simpl in Hp; cycle 1.
  { simplify_eq. split; [done|]. right. exists values, f, id, (w_redis w'). split_and!; auto. }
  unfold wrap_err, pump_remove, gbind in Hp. destruct (redis_cmd _ w1) as [rz w2] eqn:Ez.
  apply redis_cmd_inv in Ez as (Z1 & Z2 & Z3 & Z4 & Z5 & Z6 & Z7).
  assert (w' = w2) as -> by (destruct rz; repeat case_match; unfold gerr, gret in *; by simplify_eq).
  split; [unfold redis_frame; split_and!; congruence || lia|]. right.
  exists values, f, id, (w_redis w1). split_and!; [done..|].
  destruct Z7 as [(t & -> & Z7)|(n & [Hz Hn]%zrem_repeats & Z7)]; [left; by simplify_eq/=|right].
  split; [done|]. intros ->. destruct Z7 as [->|(t & ->)]; simplify_eq/=.
  destruct (n =? 0) eqn:En; unfold gerr, gret in *; simplify_eq/=. rail_bool. by apply Hn.
Qed.

(** C28: The retry pump loses no retry.  Whatever Redis answers, moving a due
    member back to the stream leaves every other member and everything else in
    Redis in place; the member itself is removed only after an entry with exactly
    its fields has been appended to the stream (more than one when the client had to
    send the command again), a failure in between leaves the member in the set, and
    success is reported only if it was there to be removed. *)
Theorem pump_keeps_retries (wk : Worker_) m w r w' :
  let st := Stream (config wk) in let z := RetryZSet (config wk) in
  republishRetryMember m (pump_publish wk) (pump_remove wk) w = (r, w') ->
  redis_frame w w' /\
  ((w_redis w' = w_redis w /\ is_ok r = false) \/
   exists values f id r1, unmarshal_map m = Some values /\ redis_args values = Some f /\
     added st f (w_redis w) id r1 /\
     ((w_redis w' = r1 /\ is_ok r = false) \/
      (removed z m r1 (w_redis w') /\ (r = Ok tt -> is_Some (zset r1 z !! m))))).
Proof. apply republish_cases. Qed.

Lemma redis_args_strings l : redis_args (string_members l) = Some (list_to_map l).
Proof.
  unfold redis_args. rewrite (proj2 (mapM_Some _ _ l)); [done|].
  induction l as [|[k v] l IH]; constructor; [simpl; by rewrite redis_arg_str|done].
Qed.

Lemma retry_member_decodes msg n :
  int64_min <= n <= int64_max ->
  exists values f, unmarshal_map (retry_member msg n) = Some values /\ redis_args values = Some f /\
    (forall k, ascii_key k -> f !! k = clean <$> retry_values msg n !! k) /\
    (forall id, msg_retry (mkXMessage id f) = n) /\
    ((forall k v, retry_values msg n !! k = Some v -> valid_utf8 k) -> f = clean <$> retry_values msg n).
Proof.
  intros Hn. destruct (unmarshal_marshal_strings (retry_values msg n)) as (l & Hu & Hl & Hall).
  exists (string_members l), (list_to_map l). rewrite redis_args_strings. split_and!; [exact Hu|done|done| |done].
  intros id. unfold msg_retry, value. simpl. rewrite Hl by (by repeat constructor). unfold retry_values.
  rewrite lookup_insert_ne, lookup_insert_eq by done. simpl. rewrite Itoa_valid. simpl. by rewrite Atoi_Itoa.
Qed.

(** A member in the set is moved when nothing fails. *)
Lemma republish_exec (wk : Worker_) m values f w :
  unmarshal_map m = Some values -> redis_args values = Some f -> f <> ∅ -> w_env w = [] ->
  is_Some (zset (w_redis w) (RetryZSet (config wk)) !! m) ->
  exists w', republishRetryMember m (pump_publish wk) (pump_remove wk) w = (Ok tt, w').
Proof.
  intros Hv Hf Hne He Hm. unfold republishRetryMember, pump_publish. rewrite Hv, Hf.
  destruct (xadd (w_now w / 1000000) (Stream (config wk)) f (w_redis w)) as [id r1] eqn:Ex.
  unfold gbind, wrap_err. rewrite (XAdd_exec _ _ _ _ _ He Hne Ex). simpl.
  unfold pump_remove. destruct (zrem (RetryZSet (config wk)) m r1) as [n r2] eqn:Ez.
  rewrite (gbind_ok _ _ _ _ _ (redis_cmd_exec (fun _ => zrem (RetryZSet (config wk)) m) (with_redis r1 w) n r2 He Ez)).
  apply zrem_spec in Ez as (_ & _ & -> & _). rewrite (xadd_zsets _ _ _ _ _ _ Ex), decide_True by done. by eexists.
Qed.

(** C34: What the pump puts back on the stream is what was scheduled.  When
    [scheduleRetry] has reported success, the retry set has a member that is due
    [delay] later, and the pump moves it: without a fault it succeeds, and whenever
    it reports success a new entry is on the stream and the member is gone.  The
    entry counts exactly the retry that was scheduled and names the message it was
    scheduled for; every other field with an ASCII name has the value of the message
    (text that is not UTF-8 replaced), and all fields do when their names are UTF-8. *)
Theorem retry_roundtrip (wk : Worker_) msg n delay w m w1 :
  int64_min <= n <= int64_max -> scheduleRetry (RetryZSet (config wk)) msg n delay w = (Ok m, w1) ->
  exists member f,
    zset (w_redis w1) (RetryZSet (config wk)) !! member = Some ((w_now w + delay) / Millisecond) /\
    (forall w2, w_env w2 = [] -> is_Some (zset (w_redis w2) (RetryZSet (config wk)) !! member) ->
       exists w3, republishRetryMember member (pump_publish wk) (pump_remove wk) w2 = (Ok tt, w3)) /\
    (forall w2 w3, republishRetryMember member (pump_publish wk) (pump_remove wk) w2 = (Ok tt, w3) ->
       zset (w_redis w3) (RetryZSet (config wk)) !! member = None /\
       exists id, id ∉ stream_ids (w_redis w2) (Stream (config wk)) /\ mkXMessage id f ∈ stream (w_redis w3) (Stream (config wk))) /\
    f !! "retry" = Some (Itoa n) /\ parseRetry (f !! "retry") = n /\
    f !! "original_stream_id" = Some (clean (ID msg)) /\
    (forall k, ascii_key k -> k <> "retry" -> k <> "original_stream_id" -> f !! k = clean <$> Values msg !! k) /\
    ((forall k v, Values msg !! k = Some v -> valid_utf8 k) ->
       f = clean <$> <["original_stream_id" := ID msg]> (<["retry" := Itoa n]> (Values msg))).
Proof.
  intros Hn Hs. apply scheduleRetry_inv in Hs as (_ & _ & Hok). destruct (Hok m eq_refl) as [_ Hsc]. clear Hok.
  destruct (retry_member_decodes msg n Hn) as (values & f & Hu & Hf & Hkeys & Hret & Hall).
  assert (Hascii : ascii_key "retry" /\ ascii_key "original_stream_id") by (split; by repeat constructor).
  assert (Hfr : f !! "retry" = Some (Itoa n)).
  { rewrite Hkeys by tauto. unfold retry_values. rewrite lookup_insert_ne, lookup_insert_eq by done. simpl. by rewrite Itoa_valid. }
  exists (retry_member msg n), f. split_and!.
  - by eapply zadded_member.
  - intros w2 He Hm. eapply republish_exec; [done..| |done|done]. intros ->. by rewrite lookup_empty in Hfr.
  - intros w2 w3 Hp. apply republish_cases in Hp as (_ & [[_ ?]|(values' & f' & id & r1 & Hu' & Hf' & Hx & Hr)]); [done|].
    rewrite Hu in Hu'. simplify_eq. apply added_entry in Hx as (_ & Hfr' & Hin & _).
    destruct Hr as [[_ ?]|[(Hss & _ & Hz) _]]; [done|]. split; [by rewrite Hz, decide_True, lookup_delete_eq|].
    exists id. by rewrite Hss.
  - done.
  - specialize (Hret ""). unfold msg_retry, value in Hret. exact Hret.
  - rewrite Hkeys by tauto. unfold retry_values. by rewrite lookup_insert_eq.
  - intros k Hk H1 H2. rewrite Hkeys by done. unfold retry_values. by rewrite !lookup_insert_ne.
  - intros Hv. apply Hall. intros k v. unfold retry_values. rewrite !lookup_insert_Some.
    intros [[<- _]|[_ [[<- _]|[_ Hk]]]]; [vm_compute; done|vm_compute; done|by eapply Hv].
Qed.

(** ** Webhook deliveries *)

(** Every request of a call carries the key of the first, and every POST its body. *)
Lemma exchange_wire made body key req answers :
  rq_idempotency_key req = key -> (rq_method req = "POST" -> rq_body req = body) ->
  exists more, (http_exchange made body req answers).1.2 = req :: more /\
    Forall (fun q => rq_idempotency_key q = key /\ (rq_method q = "POST" -> rq_body q = body)) more.
Proof.
  revert made req. induction answers as [|[t|t|code status loc] rest IH]; intros made req Hk Hb; simpl;
    [by exists []| |by exists []|].
  - destruct (isReplayable req); [|by exists []]. destruct (IH made req Hk Hb) as (more & Hs & Hf).
    destruct (http_exchange made body req rest) as [[r sent] unread]. simpl in *. subst. exists (req :: more). split; [done|by constructor].
  - unfold redirect. destruct (redirectBehavior code body req loc); [|by exists []].
    destruct (String.eqb loc ""); [by exists []|]. destruct (resolve_location (rq_url req) loc) as [url|]; [|by exists []].
    destruct (10 <=? made)%nat; [by exists []|].
    assert (Hr : forall req', redirectBehavior code body req url = Some req' ->
      rq_idempotency_key req' = key /\ (rq_method req' = "POST" -> rq_body req' = body)).
    { intros req'. unfold redirectBehavior. destruct (existsb _ [301; 302; 303]); [intros ?; by simplify_eq/=|].
      destruct (existsb _ _); intros ?; by simplify_eq/=. }
    destruct (redirectBehavior code body req url) as [req'|] eqn:Er; [|by exists []]. destruct (Hr req' eq_refl) as [Hk' Hb'].
    destruct (IH (S made) req' Hk' Hb') as (more & Hs & Hf).
    destruct (http_exchange (S made) body req' rest) as [[r sent] unread]. simpl in *. subst. exists (req' :: more). split; [done|by constructor].
Qed.

(** An answer that is not followed *)
Lemma exchange_direct made body req code status loc rest :
  code ∉ [301; 302; 303; 307; 308] \/ loc = "" ->
  http_exchange made body req (HttpResponse code status loc :: rest) = (Ok (code, status), [req], rest).
Proof.
  intros Hc. simpl. unfold redirect. destruct (redirectBehavior code body req loc) eqn:Er; [|done].
  destruct Hc as [Hc| ->]; [exfalso|done]. unfold redirectBehavior in Er.
  destruct (existsb (Z.eqb code) [301; 302; 303]) eqn:E1; [|destruct (existsb (Z.eqb code) [307; 308]) eqn:E2; [|done]];
    [apply existsb_exists in E1 as (x & Hx & Hxe)|apply existsb_exists in E2 as (x & Hx & Hxe)];
    apply Z.eqb_eq in Hxe; subst x; apply list_elem_of_In in Hx; apply Hc; set_solver.
Qed.

(** What an answered delivery ends in *)
Inductive answered (code : Z) : res error (option Z) -> Prop :=
| answered_delivered : code < 400 \/ 599 < code -> answered code (Ok (Some code))
| answered_retryable text :
    code = 408 \/ code = 425 \/ code = 429 \/ 500 <= code <= 599 ->
    answered code (Err (FailureError "retryable" code (Some (ErrorString text))))
| answered_permanent text :
    400 <= code <= 499 -> code <> 408 -> code <> 425 -> code <> 429 ->
    answered code (Err (FailureError "permanent" code (Some (ErrorString text)))).

Lemma answered_code code status :
  answered code (if 400 <=? code then match NewHTTPFailure code status with Some f => Err f | None => Ok (Some code) end
                 else Ok (Some code)).
Proof.
  unfold NewHTTPFailure. destruct (classify_cases code) as [[-> Hc]|[[-> Hc]|[-> Hc]]]; simpl.
  - destruct (Z.leb_spec 400 code); [by constructor|lia].
  - destruct (Z.leb_spec 400 code); [|lia]. destruct Hc as (? & ? & ? & ?). by apply answered_permanent.
  - destruct (Z.leb_spec 400 code); constructor; lia.
Qed.


(** ** The pump stops *)

(** Its errors are reported and the loop goes on: no call of a tick ends the pump. *)
Lemma republish_logged wk m w : exists w', logged (republishRetryMember m (pump_publish wk) (pump_remove wk)) w = (Ok tt, w').
Proof.
  unfold logged, gbind, catch, republishRetryMember. destruct (unmarshal_map m); [|by eexists].
  unfold gbind, wrap_err. destruct (pump_publish _ _ w) as [[[]|e] w1]; simpl; [|by eexists].
  destruct (pump_remove _ _ w1) as [[[]|e] w2]; simpl; by eexists.
Qed.

Lemma pump_all_returns cancel_at wk ms w : exists b w', pump_all cancel_at wk ms w = (Ok b, w').
Proof.
  revert w. induction ms as [|m ms IH]; intros w; [by eexists _, _|]. cbn [pump_all]. unfold gbind at 1, ctx_done.
  destruct (match cancel_at with Some t => t <=? w_now w | None => false end); [by eexists _, _|].
  unfold gbind. destruct (republish_logged wk m w) as [w1 ->]. apply IH.
Qed.

(** A tick returns, and after the cancellation it is the last. *)
Lemma pump_tick_returns cancel_at wk w : exists b w', pump_tick cancel_at wk w = (Ok b, w') /\
  (forall t, cancel_at = Some t -> t <= w_now w -> b = false).
Proof.
  unfold pump_tick. unfold gbind at 1, time_now, gbind at 1, catch.
  destruct (redis_cmd _ w) as [r w1] eqn:E. apply redis_cmd_inv in E as (_ & _ & _ & _ & _ & Hnow & _).
  destruct r as [[|m ms]|e].
  2:{ destruct (pump_all_returns cancel_at wk (m :: ms) w1) as (b & w' & Hp). exists b, w'. split; [done|].
      intros t -> Ht. cbn [pump_all] in Hp. unfold gbind at 1, ctx_done in Hp.
      assert (t <=? w_now w1 = true) as Hc by lia. rewrite Hc in Hp. unfold gret in Hp. by simplify_eq. }
  all: eexists _, _; split; [reflexivity|]; intros t -> Ht; simpl;
    assert (t <=? w_now w1 = true) as -> by lia; done.
Qed.

Lemma retryPump_returns wk t choice fuel : forall next w,
  1 + Z.max 0 ((t - next) / pump_period + 1) <= Z.of_nat fuel ->
  exists w', retryPump fuel (Some t) choice next wk w = (Ok true, w').
Proof.
  induction fuel as [|f IH]; intros next w Hf; [lia|]. cbn [retryPump]. unfold gbind at 1, pump_wait.
  set (fire := Z.max (w_now w) next). destruct (_ || _) eqn:Ec; [|by eexists]. unfold gbind.
  destruct (pump_tick_returns (Some t) wk (with_clock fire (w_env w) w)) as (b & w1 & -> & Hb).
  destruct b; [|by eexists]. apply IH.
  destruct (Z.le_gt_cases t fire) as [Hle|Hgt]; [by specialize (Hb t eq_refl Hle)|].
  assert (0 < pump_period) as Hp by done. assert (next <= fire) by (subst fire; lia).
  assert (next + pump_period <= next + pump_period * (1 + (fire - next) / pump_period)) as Hn.
  { pose proof (Z.div_pos (fire - next) pump_period). nia. }
  set (next' := next + pump_period * (1 + _)) in *.
  assert ((t - next') / pump_period <= (t - next) / pump_period - 1) as Hq.
  { replace ((t - next) / pump_period - 1) with ((t - next + (-1) * pump_period) / pump_period) by (rewrite Z.div_add; lia).
    apply Z.div_le_mono; lia. }
  pose proof (Z.div_pos (t - next) pump_period). lia.
Qed.

(** The retry pump stops when its context is cancelled.  Whatever Redis
    answers, however long ticks take and whichever branch of the select is taken
    when both are ready, a pump whose context is cancelled at [t] returns after at
    most one tick for every 500 ms until [t], and two more. *)
Theorem retryPump_terminates wk t choice next fuel w :
  1 + Z.max 0 ((t - next) / pump_period + 1) <= Z.of_nat fuel ->
  exists w', retryPump fuel (Some t) choice next wk w = (Ok true, w').
Proof. apply retryPump_returns. Qed.

End Facts.

(** ** The retry delay *)

(** The delay before a retry is [base * 2^(retry - 1)] and at most ten
    seconds, as long as that product fits a duration. *)
Theorem backoffDelay_exponential base retry :
  0 < base -> 1 <= retry <= 63 -> base * 2 ^ (retry - 1) <= int64_max ->
  backoffDelay base retry = Some (Z.min (10 * Second) (base * 2 ^ (retry - 1))).
Proof.
  intros Hb Hr Hm. unfold backoffDelay, shl64.
  pose proof (Z.pow_pos_nonneg 2 (retry - 1) ltac:(lia) ltac:(lia)).
  rewrite (wrap64_id (retry - 1)) by (unfold int64_min, int64_max; lia).
  destruct (Z.ltb_spec (retry - 1) 0); [lia|]. destruct (Z.leb_spec 64 (retry - 1)); [lia|].
  rewrite Z.shiftl_1_l. rewrite (wrap64_id (2 ^ (retry - 1))) by (unfold int64_min in *; nia).
  rewrite wrap64_id by (unfold int64_min in *; nia).
  destruct (Z.ltb_spec (10 * Second) (2 ^ (retry - 1) * base)); f_equal; lia.
Qed.

(** The cap does not hold for every retry count: with the default base of
    500 ms the product overflows at the 36th retry and the delay is negative, so
    the retry is due at once; from the 65th retry on it is zero, and a retry
    count that is not positive panics. *)
Theorem backoffDelay_overflow :
  (exists d, backoffDelay (500 * Millisecond) 36 = Some d /\ d < 0) /\
  (forall base retry, 65 <= retry <= int64_max -> backoffDelay base retry = Some 0) /\
  (forall base retry, int64_min < retry <= 0 -> backoffDelay base retry = None).
Proof.
  split_and!.
  - eexists. split; [vm_compute; reflexivity|]. done.
  - intros base retry Hr. unfold backoffDelay, shl64.
    rewrite (wrap64_id (retry - 1)) by (unfold int64_min, int64_max in *; lia).
    destruct (Z.ltb_spec (retry - 1) 0); [lia|]. destruct (Z.leb_spec 64 (retry - 1)); [|lia]. reflexivity.
  - intros base retry Hr. unfold backoffDelay, shl64.
    rewrite (wrap64_id (retry - 1)) by (unfold int64_min, int64_max in *; lia).
    destruct (Z.ltb_spec (retry - 1) 0); [done|lia].
Qed.

(** ** Runs *)

Definition sample_worker : Worker_ SimRedis :=
  New (mkConfig "events" "workers" "w1" "dlq" "retries" 3 (500 * Millisecond)
         (Some (storeRecorder (Some (mkStore (Some ThePool)))))).

Definition sample_message (event_type retry : string) : XMessage :=
  mkXMessage "1-0" (list_to_map [("event_id", stored_id); ("event_type", event_type); ("retry", retry);
                                 ("payload", "{ }")]).

(** The message has been handed to the group. *)
Definition sample_redis (msg : XMessage) : SimRedis :=
  mkSimRedis {[ "events" := [msg] ]} {[ ("events", "workers") := (∅, {[ID msg]}) ]} ∅.

Definition sample_world (msg : XMessage) (env : list reply) (http : list http_reply) : World SimRedis :=
  sim_world stored_db (sample_redis msg) 0 env http.

(** A message of an unconditional type is delivered and acknowledged. *)
Lemma ack_only_when_settled_witness :
  let msg := sample_message "order.created" "0" in
  let w' := (processStreamMessage sample_worker msg (sample_world msg [] [])).2 in
  pending (w_redis w') "events" "workers" = ∅ /\
  exists db1 r2, processed (processing_of msg) stored_db db1 /\
    settles sample_worker store_effects msg (Ok None) db1 (sample_redis msg) (w_db w') r2 /\
    acknowledged "events" "workers" "1-0" r2 (w_redis w').
Proof.
  cbv zeta. set (msg := sample_message "order.created" "0").
  destruct (processStreamMessage sample_worker msg (sample_world msg [] [])) as [r w'] eqn:E. cbn [fst snd].
  assert (Hp : pending (w_redis (r, w').2) "events" "workers" = ∅) by (rewrite <- E; vm_compute; reflexivity).
  split; [exact Hp|].
  destruct (ack_only_when_settled sample_worker store_effects msg (sample_world msg [] []) r w' eq_refl E)
    as (_ & [(_ & Hg & _)|(db1 & r2 & H1 & H2 & _ & H3)]); [exfalso|exists db1, r2; split; [exact H1|split; [exact H2|exact H3]]].
  destruct (Hg "events" "workers") as (_ & _ & Hpend & _). cbn [snd] in Hp. rewrite Hp in Hpend.
  vm_compute in Hpend. discriminate.
Defined.

Lemma retries_bounded_witness :
  let msg := sample_message "force.fail" "2" in
  let w' := (processStreamMessage sample_worker msg (sample_world msg [] [])).2 in
  zset (w_redis w') "retries" !! retry_member msg 3 = Some 2000 /\ 2 + 1 <= 3.
Proof.
  cbv zeta. set (msg := sample_message "force.fail" "2").
  destruct (processStreamMessage sample_worker msg (sample_world msg [] [])) as [r w'] eqn:E. cbn [fst snd].
  assert (Hz : zset (w_redis (r, w').2) "retries" !! retry_member msg 3 = Some 2000)
    by (rewrite <- E; vm_compute; reflexivity).
  split; [exact Hz|].
  destruct (retries_bounded sample_worker store_effects msg (sample_world msg [] []) r w' (retry_member msg 3)
    eq_refl E) as [[x Hx]|[_ Hle]].
  - vm_compute. discriminate.
  - by eexists.
  - vm_compute in Hx. discriminate.
  - exact Hle.
Defined.

Lemma dead_letter_consistent_witness :
  let msg := sample_message "force.fail" "3" in
  let w' := (processStreamMessage sample_worker msg (sample_world msg [] [])).2 in
  exists d, dlq_records (w_db w') !! stored_id = Some d /\ dq_original_stream_id d = "1-0".
Proof.
  cbv zeta. set (msg := sample_message "force.fail" "3").
  destruct (processStreamMessage sample_worker msg (sample_world msg [] [])) as [r w'] eqn:E. cbn [fst snd].
  assert (Hs : is_Some (dlq_records (w_db (r, w').2) !! stored_id)) by (rewrite <- E; vm_compute; eauto).
  destruct Hs as [d Hd]. exists d. split; [exact Hd|].
  destruct (dead_letter_consistent sample_worker (Some (mkStore (Some ThePool))) msg (sample_world msg [] [])
    r w' stored_id d) as [Hx|Hx]; [reflexivity|reflexivity|exact E|reflexivity|exact Hd| |tauto].
  vm_compute in Hx. discriminate.
Defined.

(** The removal of a republished member fails: the member is still there. *)
Lemma pump_keeps_retries_witness :
  let m := retry_member (sample_message "force.fail" "2") 3 in
  let w := sim_world stored_db (zadd "retries" 5 m empty_redis) 0
             [mkReply NoFault 0; mkReply (FailBefore "conn closed") 0] [] in
  let run := republishRetryMember m (pump_publish sample_worker) (pump_remove sample_worker) w in
  zset (w_redis run.2) "retries" !! m = Some 5 /\ length (stream (w_redis run.2) "events") = 1%nat /\
  redis_frame w run.2.
Proof.
  intros m w run. split; [vm_compute; reflexivity|]. split; [vm_compute; reflexivity|].
  destruct run as [r w'] eqn:E. by apply (pump_keeps_retries sample_worker m w r w') in E as [? _].
Defined.

(** The third retry of a message, scheduled and moved back *)
Lemma retry_roundtrip_witness :
  let msg := sample_message "force.fail" "2" in
  let w := sample_world msg [] [] in
  exists m w1 w2 member id f,
    scheduleRetry "retries" msg 3 Second w = (Ok m, w1) /\
    zset (w_redis w1) "retries" !! member = Some 1000 /\
    republishRetryMember member (pump_publish sample_worker) (pump_remove sample_worker) w1 = (Ok tt, w2) /\
    mkXMessage id f ∈ stream (w_redis w2) "events" /\ f !! "retry" = Some "3" /\ f !! "event_id" = Some stored_id.
Proof.
  intros msg w. destruct (scheduleRetry "retries" msg 3 Second w) as [r w1] eqn:E.
  assert (Hr : (is_ok (r, w1).1, w_env (r, w1).2) = (true, [])) by (rewrite <- E; vm_compute; reflexivity).
  injection Hr as Hr He. destruct r as [m|]; [|discriminate Hr].
  destruct (retry_roundtrip sample_worker msg 3 Second w m w1) as (member & f & H1 & H2 & H3 & H4 & _ & _ & H5 & _).
  - unfold int64_min, int64_max. lia.
  - exact E.
  - destruct (H2 w1 He) as [w2 Hw2]; [eexists; exact H1|]. destruct (H3 w1 w2 Hw2) as (_ & id & _ & Hin).
    exists m, w1, w2, member, id, f. split_and!; [reflexivity|exact H1|exact Hw2|exact Hin|exact H4|].
    rewrite H5; [vm_compute; reflexivity|by repeat constructor|done|done].
Defined.

Definition webhook_message : XMessage :=
  mkXMessage "1-0" (list_to_map [("event_id", stored_id); ("event_type", "webhook");
    ("payload", String.string_of_list_ascii
       (map (fun c => if Ascii.eqb c "'" then dq else c)
          (chars "{'url': 'http://h/x', 'data': [1, null]}")))]).


Lemma backoffDelay_exponential_witness :
  backoffDelay (500 * Millisecond) 3 = Some (Z.min (10 * Second) (500 * Millisecond * 2 ^ 2)).
Proof.
  apply (backoffDelay_exponential (500 * Millisecond) 3); unfold Millisecond, int64_max; lia.
Defined.

(** Two seconds of pumping *)
Lemma retryPump_terminates_witness : exists w',
  retryPump 5 (Some (2 * Second)) (fun _ => true) (500 * Millisecond) sample_worker
    (sim_world stored_db (zadd "retries" 5 (retry_member (sample_message "force.fail" "2") 3) empty_redis) 0 [] [])
  = (Ok true, w').
Proof. apply retryPump_terminates. vm_compute. congruence. Defined.

End WorkerFacts.
