(* ===== verification/System.v ===== *)
(** * System: the pipeline as a whole

    The components run against one database and one Redis: the HTTP API stores
    requests, the outbox runner publishes, the worker reads, reclaims and
    processes messages, the retry pump puts retries back and an operator redrives
    dead letters ([cmd/api/main.go] starts them all).  A step of the system is one
    call of one component, with any answers of the servers and destinations, at
    any time; between steps the environment may change its mind, and other
    publishers may hold row locks.

    The theorem is that no accepted event is lost: in every reachable state every
    stored event is waiting in the outbox, on the stream for the worker group,
    scheduled for a retry, delivered, or dead-lettered. *)

From S2P Require Import Prelude GoStrings GoErrors GoTime Json JsonFacts Delivery Database DatabaseFacts.
From S2P Require Import RedisServer World WorldFacts RedisFacts Simulation Operations Ingestion Samples Outbox.
From S2P Require Import RedisStream Worker WorkerFacts.
Import Operations Ingestion Outbox RedisStream Worker WorkerFacts.

Module System.

Section System.
Context {SC : Strconv} {NC : NetClients} {PG : Postgres} {R : Type} `{RedisCmds R, !RedisLaws R}.
Abbreviation W := (World R).
Implicit Types w : W.

(** The wiring of [main]: the publisher and the redrive endpoint write to the
    worker's stream, the worker records in the operational store. *)
Context (wk : Worker_ R) (pub : Publisher) (store : option Store)
        (Hstream : stream_name pub = Stream (config wk))
        (Hrecorder : recorder wk = storeRecorder store).
Let S := Stream (config wk).
Let G := ConsumerGroup (config wk).
Let Z_ := RetryZSet (config wk).

(** ** Steps *)

Inductive step (w : W) : W -> Prop :=
| step_environment locked now env http w' :
    w_now w <= now ->
    w' = mkWorld (w_db w) None locked (w_uuid w) (w_redis w) now env http (w_sent w) -> step w w'
| step_ingest req key r w' :
    PersistEventWithOutbox req key w = (r, w') -> step w w'
| step_publish pool base max r w' :
    PublishNextOutboxEvent pool (Some (Publish (Some pub))) base max w = (r, w') -> step w w'
| step_group r w' : EnsureConsumerGroup wk w = (r, w') -> step w w'
| step_read n r w' :
    redis_cmd (fun now r => xreadgroup now S G (Consumer (config wk)) n r) w = (r, w') -> step w w'
| step_reclaim idle n r w' :
    reclaimPendingMessagesForConsumer S G (Consumer (config wk)) idle n w = (r, w') -> step w w'
| step_process msg r w' :
    msg ∈ stream (w_redis w) S -> processStreamMessage wk msg w = (r, w') -> step w w'
| step_pump member r w' :
    republishRetryMember member (pump_publish wk) (pump_remove wk) w = (r, w') -> step w w'
| step_redrive e r w' :
    RedriveDLQ store e (Some (XAdd S)) w = (r, w') -> step w w'.

Inductive reachable (w0 : W) : W -> Prop :=
| reachable_start : reachable w0 w0
| reachable_step w w' : reachable w0 w -> step w w' -> reachable w0 w'.

(** ** Where an event can be *)

(** A message of event [u]. *)
Definition msg_event (m : XMessage) (u : string) : Prop :=
  Values m !! "event_id" = Some u /\ uuid_in u = Some u.

Definition queued (db : DB) (u : string) : Prop :=
  exists oid o, outbox db !! oid = Some o /\ ob_event_id o = u /\ ob_status o = "pending".

(** On the stream, and the group is still owed it (or is yet to be created, and
    will then be owed every entry). *)
Definition on_stream (r : R) (u : string) : Prop :=
  exists m, m ∈ stream r S /\ msg_event m u /\ (has_group r S G = true -> ID m ∈ outstanding r S G).

Definition scheduled (r : R) (u : string) : Prop :=
  exists msg n, is_Some (zset r Z_ !! retry_member msg n) /\ int64_min <= n <= int64_max /\ msg_event msg u.

Definition was_delivered (db : DB) (u : string) : Prop :=
  exists h, h ∈ status_history db /\ h_event_id h = u /\ h_status h = StatusDelivered.

Definition dead (db : DB) (u : string) : Prop :=
  exists d, dlq_records db !! u = Some d /\ dq_status d = DLQStatusOpen.

Definition accounted (db : DB) (r : R) (u : string) : Prop :=
  queued db u \/ on_stream r u \/ scheduled r u \/ was_delivered db u \/ dead db u.

(** ** Redis keeps track *)

Lemma msg_event_id m u : msg_event m u -> eventIDFromMessage m = u.
Proof.
  intros [Hv Hu]. unfold eventIDFromMessage, value. rewrite Hv. simpl. by eapply uuid_trimmed.
Qed.

Lemma grows_on_stream r r' u : redis_grows r r' -> on_stream r u -> on_stream r' u.
Proof.
  intros (Hs & Hg & _) (m & Hm & He & Ho). exists m. split_and!; [|done|].
  - destruct (Hs S) as [l ->]. set_solver.
  - destruct (Hg S G) as (-> & Hu & Hp & _). intros Hh. specialize (Ho Hh). unfold outstanding in *.
    rewrite Hp. set_solver.
Qed.

Lemma grows_scheduled r r' u : redis_grows r r' -> scheduled r u -> scheduled r' u.
Proof. intros (_ & _ & Hz) (msg & n & Hm & Hn & He). exists msg, n. auto. Qed.

(** The ids of the stream are distinct, and the group is not set beyond its end. *)
Definition ordered (r : R) : Prop :=
  NoDup (stream_ids r S) /\ (has_group r S G = true -> ahead r S G = false).

(** A new entry on the stream. *)
Lemma added_on_stream v r id r' u :
  added S v r id r' -> ordered r -> v !! "event_id" = Some u -> uuid_in u = Some u -> on_stream r' u.
Proof.
  intros Hx [_ Ha] Hv Hu. pose proof (added_grows _ _ _ _ _ Hx) as (_ & Hg & _). destruct (Hg S G) as (Hh & _).
  apply added_entry in Hx as (_ & _ & Hin & Hun). exists (mkXMessage id v). split_and!; [done|done|].
  intros Hgr. rewrite Hh in Hgr. unfold outstanding. specialize (Hun G Hgr (Ha Hgr)). simpl. set_solver.
Qed.

Lemma added_ordered s v r id r' : added s v r id r' -> ordered r -> ordered r'.
Proof.
  intros Hx [Hn Ha]. split; [by eapply added_ids|]. apply added_grows in Hx as (_ & Hg & _).
  destruct (Hg S G) as (-> & _ & _ & Hh). auto.
Qed.

Lemma zadded_ordered k sc m r r' : zadded k sc m r r' -> ordered r -> ordered r'.
Proof.
  intros (Hs & Hg & _) [Hn Ha]. unfold ordered, stream_ids in *. rewrite Hs. by destruct (Hg S G) as (-> & -> & _).
Qed.

Lemma staged_ordered msg r r' : staged wk msg r r' -> ordered r -> ordered r'.
Proof. destruct 1; eauto using added_ordered, zadded_ordered. Qed.

Lemma settles_ordered msg res db r db' r' : settles wk store_effects msg res db r db' r' -> ordered r -> ordered r'.
Proof. destruct 1; eauto using added_ordered, zadded_ordered. Qed.

(** Two entries of the stream with one id are one entry. *)
Lemma stream_id_inj r m m' :
  NoDup (stream_ids r S) -> m ∈ stream r S -> m' ∈ stream r S -> ID m = ID m' -> m = m'.
Proof.
  unfold stream_ids. generalize (stream r S). intros l. induction l as [|x l IH]; intros Hn Hm Hm' He.
  - by apply not_elem_of_nil in Hm.
  - cbn in Hn. apply NoDup_cons in Hn as [Hx Hn]. apply elem_of_cons in Hm as [->|Hm], Hm' as [->|Hm']; auto;
      exfalso; apply Hx; apply list_elem_of_fmap; [exists m'|exists m]; auto.
Qed.

(** ** The tables keep track *)

Definition db_keeps (db db' : DB) : Prop :=
  (forall u, known db' u -> known db u) /\ (forall u, queued db u -> queued db' u) /\
  (forall u, was_delivered db u -> was_delivered db' u) /\ (forall u, dead db u -> dead db' u).

Lemma db_keeps_refl db : db_keeps db db.
Proof. by split_and!. Qed.

Lemma db_keeps_trans db1 db2 db3 : db_keeps db1 db2 -> db_keeps db2 db3 -> db_keeps db1 db3.
Proof. unfold db_keeps. naive_solver. Qed.

Lemma keeps_history db now u st j : db_keeps db (add_history now u st j db).
Proof.
  split_and!; try done. intros v (h & Hh & H1 & H2). exists h. simpl. split_and!; [set_solver|done..].
Qed.

Lemma keeps_attempt db u a o : db_keeps db (add_attempt u a o db).
Proof. by split_and!. Qed.

Lemma processed_keeps p db db' : processed p db db' -> db_keeps db db'.
Proof. intros (now & u & j & _ & _ & ->). apply keeps_history. Qed.

Lemma settles_keeps msg res db r db' r' : settles wk store_effects msg res db r db' r' -> db_keeps db db'.
Proof.
  destruct 1 as [co a db' _ _ _ _ Hd|cause x due db' r' _ _ _ _ _ Hd _|cause x t id db' r' _ _ _ _ _ Hd _].
  1,2: destruct Hd as (now & u & j & _ & _ & _ & ->); eapply db_keeps_trans; [apply keeps_attempt|apply keeps_history].
  destruct Hd as (n & u & j & _ & _ & _ & ->). eapply db_keeps_trans; [|apply keeps_history].
  split_and!; try done. intros v (d & Hd & Hs). unfold dead. simpl. destruct (decide (v = u)) as [->|Hne].
  - eexists. rewrite lookup_insert_eq. by split.
  - exists d. by rewrite lookup_insert_ne.
Qed.

Lemma accounted_mono db r db' r' u :
  db_keeps db db' -> redis_grows r r' -> accounted db r u -> accounted db' r' u.
Proof.
  intros (_ & Hq & Hd & He) Hr [Ha|[Ha|[Ha|[Ha|Ha]]]].
  - left. auto.
  - right; left. by eapply grows_on_stream.
  - right; right; left. by eapply grows_scheduled.
  - do 3 right; left. auto.
  - do 4 right. auto.
Qed.

(** ** Each component keeps the events accounted for *)

(** The part of the invariant that is about both servers. *)
Definition tracked (db : DB) (r : R) : Prop :=
  ordered r /\ forall u, known db u -> accounted db r u.

Lemma tracked_mono db r db' r' :
  db_keeps db db' -> redis_grows r r' -> (ordered r -> ordered r') ->
  tracked db r -> tracked db' r'.
Proof.
  intros Hdb Hr Hids [Hn Ha]. split; [auto|]. intros u Hu. eapply accounted_mono; [done..|].
  apply Ha. by apply (proj1 Hdb).
Qed.

Lemma ingest_tracked req key hash id db db' r :
  ingested req key hash id db db' -> tracked db r -> tracked db' r.
Proof.
  intros (oid & now & p & j & H1 & H2 & H3 & H4 & H5 & H6 & H7 & ->) [Hn Ha]. split; [done|].
  intros u Hu. destruct (decide (u = id)) as [->|Hne].
  - left. eexists oid, _. simpl. rewrite lookup_insert_eq. by split_and!.
  - assert (Hk : known db u) by (unfold known in *; simpl in Hu; by rewrite lookup_insert_ne in Hu).
    destruct (Ha u Hk) as [(oid' & o & Ho & He & Hs)|[Hx|[Hx|[(h & Hh & He & Hs)|(d & Hd & Hs)]]]].
    + left. exists oid', o. simpl. rewrite lookup_insert_ne; [done|]. intros ->. congruence.
    + by right; left.
    + by right; right; left.
    + do 3 right; left. exists h. simpl. split_and!; [set_solver|done..].
    + do 4 right. by exists d.
Qed.

Lemma published_tracked locked now ev o db db' r r' :
  schema_ok db -> claims locked now db ev o -> published now ev o db db' -> appended S ev r r' ->
  tracked db r -> tracked db' r'.
Proof.
  intros Hok Hc (j & ->) (id & Hx) [Hn Ha].
  destruct (claims_row _ _ _ _ _ Hok Hc) as (Ho & _ & Hue & Hev & _).
  split; [by eapply added_ordered|]. intros u Hu. assert (Hk : known db u) by done.
  destruct (decide (u = oe_EventID ev)) as [->|Hne].
  { right; left. by eapply added_on_stream. }
  destruct (Ha u Hk) as [(oid' & o' & Ho' & He & Hs)|[Hy|[Hy|[(h & Hh & He & Hs)|(d & Hd & Hs)]]]].
  - left. exists oid', o'. simpl. rewrite lookup_insert_ne; [done|]. intros <-. congruence.
  - right; left. eapply grows_on_stream; [eapply added_grows, Hx|done].
  - right; right; left. eapply grows_scheduled; [eapply added_grows, Hx|done].
  - do 3 right; left. exists h. simpl. split_and!; [set_solver|done..].
  - do 4 right. by exists d.
Qed.

Lemma rescheduled_keeps locked base max now err ev o db :
  schema_ok db -> claims locked now db ev o -> db_keeps db (rescheduled base max now err ev o db).
Proof.
  intros Hok Hc. destruct (claims_row _ _ _ _ _ Hok Hc) as (Ho & _). split_and!; try done.
  intros u (oid & a & Ha & He & Hs). unfold queued. simpl.
  destruct (decide (oe_OutboxID ev = oid)) as [<-|Hne].
  - eexists _, _. rewrite lookup_insert_eq. split_and!; [done|simpl; congruence|done].
  - exists oid, a. by rewrite lookup_insert_ne.
Qed.

Lemma appended_grows ev r r' :
  appended S ev r r' -> redis_grows r r' /\ (ordered r -> ordered r').
Proof. intros (id & Hx). split; [eapply added_grows, Hx|by eapply added_ordered]. Qed.

Lemma publish_tracked base max w w' res :
  schema_ok (w_db w) -> round_outcome (appended S) base max w w' res ->
  tracked (w_db w) (w_redis w) -> tracked (w_db w') (w_redis w').
Proof.
  intros Hok Ho Ht.
  assert (Hgrow : forall ev, w_redis w' = w_redis w \/ appended S ev (w_redis w) (w_redis w') ->
    redis_grows (w_redis w) (w_redis w') /\ (ordered (w_redis w) -> ordered (w_redis w'))).
  { intros ev [->|Ha]; [split; [apply redis_grows_refl|done]|by eapply appended_grows]. }
  destruct Ho as [now Hdb Hr _|now ev o Hc Hs Hp|now ev o err e Hc Hs Hd _|e Hdb Hs|now ev o e Hc Hs Hp|now ev o err e Hc Hs Hd].
  - by rewrite Hdb, Hr.
  - by eapply published_tracked.
  - destruct (Hgrow ev Hs). rewrite Hd. eapply tracked_mono; [by eapply rescheduled_keeps|done..].
  - assert (Hg : redis_grows (w_redis w) (w_redis w') /\ (ordered (w_redis w) -> ordered (w_redis w'))).
    { destruct Hs as [Hs|(now & ev & o & _ & Hs)]; [|by eapply appended_grows].
      rewrite Hs. split; [apply redis_grows_refl|done]. }
    destruct Hg. rewrite Hdb. eapply tracked_mono; [apply db_keeps_refl|done..].
  - by eapply published_tracked.
  - destruct (Hgrow ev Hs). rewrite Hd. eapply tracked_mono; [by eapply rescheduled_keeps|done..].
Qed.

(** A settled message has its event delivered, scheduled or dead-lettered. *)
Lemma settles_accounted msg res db r db' r2 u :
  settles wk store_effects msg res db r db' r2 -> msg_event msg u ->
  was_delivered db' u \/ scheduled r2 u \/ dead db' u.
Proof.
  intros Hs Hm. pose proof (msg_event_id _ _ Hm) as Hid. pose proof Hm as [_ Hu].
  destruct Hs as [co a db' _ (Hat & _) _ _ Hd|cause x due db' r' _ _ _ _ _ _ Hz|cause x t id db' r' _ _ (Hat & _) _ _ Hd _].
  - left. destruct Hd as (n & v & j & Hv & _ & _ & ->). rewrite Hat, Hid, Hu in Hv. simplify_eq.
    eexists. simpl. split; [apply elem_of_app; right; by apply list_elem_of_singleton|done].
  - right; left. exists msg, (wrap64 (msg_retry msg + 1)). split_and!; [|apply wrap64_range..|done].
    apply zadded_member in Hz. by eexists.
  - right; right. destruct Hd as (n & v & j & Hv & _ & _ & ->). rewrite Hat, Hid, Hu in Hv. simplify_eq.
    eexists. simpl. rewrite lookup_insert_eq. by split.
Qed.

(** Acknowledging a message leaves every other one owed. *)
Lemma xack_on_stream msg r r' u :
  acknowledged S G (ID msg) r r' -> on_stream r u ->
  on_stream r' u \/ exists m, m ∈ stream r S /\ ID m = ID msg /\ msg_event m u.
Proof.
  intros (Hs & _ & Hh & Hu & Hp) (m & Hm & He & Ho).
  destruct (decide (ID m = ID msg)) as [Heq|Hne]; [right; eauto|left].
  exists m. rewrite Hs, (proj1 (Hh S G)). split_and!; [done|done|]. intros Hg. specialize (Ho Hg). unfold outstanding in *.
  rewrite Hu, Hp, decide_True by done. set_solver.
Qed.

Lemma process_tracked msg w w' :
  msg ∈ stream (w_redis w) S -> message_outcome wk store_effects msg w w' ->
  tracked (w_db w) (w_redis w) -> tracked (w_db w') (w_redis w').
Proof.
  intros Hmsg Ho Ht. destruct Ho as [Hdb Hr _|db1 Hp Hdb Hst|db1 r2 Hp Hs Hack].
  - rewrite Hr. destruct Hdb as [->|Hp]; [done|].
    eapply tracked_mono; [eapply processed_keeps, Hp|apply redis_grows_refl|done|done].
  - rewrite Hdb. eapply tracked_mono; [eapply processed_keeps, Hp|eapply staged_grows, Hst|eapply staged_ordered, Hst|done].
  - assert (Hk : db_keeps (w_db w) (w_db w')).
    { eapply db_keeps_trans; [eapply processed_keeps, Hp|eapply settles_keeps, Hs]. }
    assert (Ht2 : tracked (w_db w') r2).
    { eapply tracked_mono; [done|eapply settles_grows, Hs|eapply settles_ordered, Hs|done]. }
    destruct Hack as [-> |Hack]; [done|]. pose proof Hack as (Hxs & Hxz & Hxg & _).
    destruct Ht2 as [[Hn Hah] Ha].
    split; [unfold ordered, stream_ids; rewrite Hxs; by destruct (Hxg S G) as [-> ->]|].
    assert (Hsch : forall v, scheduled r2 v -> scheduled (w_redis w') v).
    { intros v (m & n & Hz & Hrest). exists m, n. by rewrite Hxz. }
    intros u Hu. destruct (Ha u Hu) as [Hq|[Hq|[Hq|Hq]]]; [by left| |by right; right; left; apply Hsch|by do 3 right].
    apply (xack_on_stream msg _ _ _ Hack) in Hq as [Hq|(m & Hm & Hid & He)]; [by right; left|].
    assert (m = msg) as ->.
    { eapply stream_id_inj; [exact Hn|done| |done]. destruct (settles_grows _ _ _ _ _ _ _ _ Hs) as (Hpre & _).
      destruct (Hpre S) as [l ->]. set_solver. }
    destruct (settles_accounted _ _ _ _ _ _ _ Hs He) as [Hx|[Hx|Hx]];
      [by do 3 right; left|by right; right; left; apply Hsch|by do 4 right].
Qed.

(** The entry the pump republishes for a member belongs to the member's event. *)
Lemma member_event msg n u values f :
  msg_event msg u -> int64_min <= n <= int64_max ->
  unmarshal_map (retry_member msg n) = Some values -> redis_args values = Some f ->
  f !! "event_id" = Some u.
Proof.
  intros [Hv Hu] Hn H1 H2. destruct (retry_member_decodes msg n Hn) as (values' & f' & H3 & H4 & H5 & _).
  rewrite H3 in H1. simplify_eq. rewrite H5 by (by repeat constructor). unfold retry_values.
  rewrite !lookup_insert_ne, Hv by done. simpl. by rewrite uuid_clean.
Qed.

Lemma pump_tracked member w r w' :
  republishRetryMember member (pump_publish wk) (pump_remove wk) w = (r, w') ->
  tracked (w_db w) (w_redis w) -> tracked (w_db w') (w_redis w').
Proof.
  intros Hp Ht. apply republish_cases in Hp as ((Hdb & _) & Hp). rewrite Hdb.
  destruct Hp as [[-> _]|(values & f & id & r1 & Hu & Hf & Hx & Hp)]; [done|].
  assert (Ht1 : tracked (w_db w) r1).
  { eapply tracked_mono; [apply db_keeps_refl|eapply added_grows, Hx|eapply added_ordered, Hx|done]. }
  destruct Hp as [[-> _]|[(Hs & Hg & Hz) _]]; [done|].
  assert (Hst : forall u, on_stream r1 u -> on_stream (w_redis w') u).
  { intros u (m & Hm & He & Ho). exists m. destruct (Hg S G) as (Hh & _ & Hun & Hpe). unfold outstanding in *.
    rewrite Hs, Hh, Hun, Hpe. done. }
  destruct Ht1 as [Hn Ha]. split; [unfold ordered, stream_ids; rewrite Hs; by destruct (Hg S G) as (-> & -> & _)|].
  intros u Hk. destruct (Ha u Hk) as [Hq|[Hq|[Hq|Hq]]]; [by left|by right; left; apply Hst| |by do 3 right].
  destruct Hq as (msg & k & Hm & Hrange & He). destruct (decide (retry_member msg k = member)) as [<-|Hne].
  - right; left. apply Hst. eapply added_on_stream; [exact Hx|apply Ht|by eapply member_event|apply He].
  - right; right; left. exists msg, k. fold Z_ in Hz. rewrite Hz, decide_True by done. by rewrite lookup_delete_ne.
Qed.

Lemma redrive_tracked e w w' res :
  redrive_outcome (fun v r r' => exists id, added S v r id r') e w w' res ->
  tracked (w_db w) (w_redis w) -> tracked (w_db w') (w_redis w').
Proof.
  intros Ho Ht.
  assert (Hdone : forall now u d row, open_record e u d row (w_db w) -> redriven now u d (w_db w) (w_db w') ->
    (exists id, added S (redrive_values (event_metadata u row)) (w_redis w) id (w_redis w')) ->
    tracked (w_db w') (w_redis w')).
  { intros now u d row (Hu & Hd & _ & Hrow) (j & Hdb) (id & Hx). destruct Ht as [Hn Ha].
    split; [by eapply added_ordered|]. intros v Hv.
    assert (Hk : known (w_db w) v) by (by rewrite Hdb in Hv). destruct (decide (v = u)) as [->|Hne].
    - right; left. eapply added_on_stream; [exact Hx|done|done|by eapply uuid_in_canonical].
    - specialize (Ha v Hk). destruct Ha as [Hq|[Hq|[Hq|[(h & Hh & He)|(d' & Hd' & Hs)]]]]; rewrite Hdb.
      + by left.
      + right; left. eapply grows_on_stream; [eapply added_grows, Hx|done].
      + right; right; left. eapply grows_scheduled; [eapply added_grows, Hx|done].
      + do 3 right; left. exists h. simpl. split; [set_solver|done].
      + do 4 right. exists d'. simpl. by rewrite lookup_insert_ne. }
  destruct Ho as [now u d row sid H1 H2 H3|er Hdb Hr|u d row er H1 Hdb (id & Hx)|now u d row er H1 H2 H3];
    [by eapply Hdone|by rewrite Hdb, Hr| |by eapply Hdone].
  rewrite Hdb. eapply tracked_mono; [apply db_keeps_refl|eapply added_grows, Hx|eapply added_ordered, Hx|done].
Qed.

Lemma group_tracked db r b r' :
  xgroup_create S G r = (b, r') -> tracked db r -> tracked db r'.
Proof.
  intros Hx [Hn Ha]. apply xgroup_create_spec in Hx as (Hb & Hs & Hz & Hfalse & _ & Htrue & _).
  destruct b; [|by rewrite Hfalse].
  split; [split; [unfold stream_ids; rewrite Hs; apply Hn|intros _; by apply Htrue]|]. intros u Hu.
  destruct (Ha u Hu) as [Hq|[(m & Hm & He & _)|[(msg & n & Hq)|Hq]]]; [by left| |right; right; left|by do 3 right].
  - right; left. exists m. rewrite Hs. split_and!; [done|done|]. intros _. unfold outstanding.
    rewrite (proj1 (Htrue eq_refl)). apply elem_of_union_l, elem_of_list_to_set, list_elem_of_fmap. eauto.
  - exists msg, n. by rewrite Hz.
Qed.

Lemma read_tracked now c n db r ms r' :
  xreadgroup now S G c n r = (ms, r') -> tracked db r -> tracked db r'.
Proof.
  intros Hx [Hn Ha]. pose proof (xreadgroup_move _ _ _ _ _ _ _ _ Hx) as [Hu Hp].
  apply xreadgroup_frame in Hx as (Hs & Hz & Hh & _).
  split; [unfold ordered, stream_ids; rewrite Hs; by destruct (Hh S G) as [-> ->]|]. intros u Hk.
  destruct (Ha u Hk) as [Hq|[(m & Hm & He & Ho)|[(msg & k & Hq)|Hq]]]; [by left| |right; right; left|by do 3 right].
  - right; left. exists m. rewrite Hs, (proj1 (Hh S G)). split_and!; [done|done|]. intros Hg. specialize (Ho Hg).
    unfold outstanding in *. rewrite Hu, Hp.
    destruct (decide (ID m ∈ (list_to_set (map ID ms) : gset string))); set_solver.
  - exists msg, k. by rewrite Hz.
Qed.

Lemma reclaim_tracked now c idle n db r ms r' :
  xautoclaim now S G c idle n r = (ms, r') -> tracked db r -> tracked db r'.
Proof.
  intros Hx [Hn Ha]. apply xautoclaim_frame in Hx as (Hs & Hz & Hg). destruct (Hg S G) as (Hh & Hah & Hu & Hp).
  split; [unfold ordered, stream_ids; by rewrite Hs, Hh, Hah|]. intros u Hk.
  destruct (Ha u Hk) as [Hq|[(m & Hm & He & Ho)|[(msg & k & Hq)|Hq]]]; [by left| |right; right; left|by do 3 right].
  - right; left. exists m. unfold outstanding in *. by rewrite Hs, Hh, Hu, Hp.
  - exists msg, k. by rewrite Hz.
Qed.

(** ** The invariant *)

Record inv (w : W) : Prop := {
  inv_tx : w_tx w = None;
  inv_schema : schema_ok (w_db w);
  inv_tracked : tracked (w_db w) (w_redis w);
}.

Lemma EnsureConsumerGroup_world w :
  (EnsureConsumerGroup wk w).2 = (redis_cmd (fun _ r => xgroup_create S G r) w).2.
Proof.
  unfold EnsureConsumerGroup, gbind, catch. fold S G. destruct (redis_cmd _ w) as [[[]|e] w1]; simpl;
    repeat case_match; reflexivity.
Qed.

Lemma processStreamMessage_schema msg : keeps (pres schema_ok) (processStreamMessage wk msg).
Proof.
  destruct (Record_schema (R:=R) store) as (P1 & P2 & P3 & P4).
  assert (Hl : forall m : M (R:=R) unit, keeps (pres schema_ok) m -> keeps (pres schema_ok) (logged m)).
  { intros m Hm. unfold logged. keeps_all. }
  unfold processStreamMessage. rewrite Hrecorder. simpl.
  keeps_all.
  - unfold processMessageWithResult, processWebhookMessageWithResult. keeps_all.
  - apply Hl. unfold acknowledgeDeliveredMessage, ack_message. keeps_all.
  - apply Hl. unfold handleDeliveryFailure, scheduleRetry, moveToDLQ, ack_message. keeps_all.
Qed.

(** Every call leaves the tables well formed and no transaction open. *)
Lemma step_schema w w' :
  step w w' -> w_tx w = None -> schema_ok (w_db w) -> w_tx w' = None /\ schema_ok (w_db w').
Proof.
  intros Hs Htx Hok.
  assert (Hcmd : forall A (cmd : Z -> R -> A * R) r, redis_cmd cmd w = (r, w') -> w_tx w' = None /\ schema_ok (w_db w')).
  { intros A cmd r Hc. apply redis_cmd_inv in Hc as (C1 & C2 & _). split; congruence. }
  destruct Hs as [locked now env http w' _ ->|req key r w' Hr|pool base max r w' Hr|r w' Hr|n r w' Hr|idle n r w' Hr
    |msg r w' Hm Hr|member r w' Hr|e r w' Hr].
  - done.
  - apply persist_cases in Hr as ((Htx' & _) & Hd & _); [|done]. split; [done|].
    destruct Hd as [->|(h & i & _ & Hd)]; [done|by eapply ingested_schema].
  - assert (schema_ok (w_db w')) by (eapply keeps_run; [eapply PublishNext_schema, Publish_Broker|exact Hr|done|done]).
    eapply publish_next_cases in Hr as (Htx' & _); [done|apply Publish_Broker|done|done].
  - pose proof (EnsureConsumerGroup_world w) as Hw. rewrite Hr in Hw. simpl in Hw. subst w'.
    eapply Hcmd, surjective_pairing.
  - by eapply Hcmd.
  - by eapply Hcmd.
  - assert (Hspec : RecorderSpec (recorder wk) store_effects) by (rewrite Hrecorder; apply _).
    assert (schema_ok (w_db w')) by (eapply keeps_run; [apply processStreamMessage_schema|exact Hr|done..]).
    apply (processStreamMessage_cases wk store_effects) in Hr as (Htx' & _); [done|done].
  - apply republish_cases in Hr as ((Hdb & Htx' & _) & _). split; congruence.
  - assert (schema_ok (w_db w')).
    { eapply keeps_run; [apply RedriveDLQ_schema; intros v; apply keeps_XAdd|exact Hr|done..]. }
    eapply redrive_cases in Hr as (Htx' & _); [done|apply XAdd_RedriveSender|done].
Qed.

Lemma redis_cmd_tracked {A} (cmd : Z -> R -> A * R) w r w' :
  redis_cmd cmd w = (r, w') ->
  (forall now r a r', tracked (w_db w) r -> cmd now r = (a, r') -> tracked (w_db w) r') ->
  tracked (w_db w) (w_redis w) -> tracked (w_db w') (w_redis w').
Proof.
  intros Hc Hok Ht. apply redis_cmd_inv in Hc as (C1 & _ & _ & _ & _ & _ & C7).
  rewrite C1. destruct C7 as [(t & _ & ->)|(a & Hc & _)]; [done|by eapply repeats_inv].
Qed.

Lemma step_inv w w' : step w w' -> inv w -> inv w'.
Proof.
  intros Hs [Htx Hok Ht]. destruct (step_schema _ _ Hs Htx Hok) as [Htx' Hok']. split; [done|done|].
  destruct Hs as [locked now env http w' _ ->|req key r w' Hr|pool base max r w' Hr|r w' Hr|n r w' Hr|idle n r w' Hr
    |msg r w' Hm Hr|member r w' Hr|e r w' Hr].
  - done.
  - apply persist_cases in Hr as ((_ & _ & Hred & _) & Hd & _); [|done]. rewrite Hred.
    destruct Hd as [->|(h & i & _ & Hd)]; [done|by eapply ingest_tracked].
  - eapply publish_next_cases in Hr as (_ & _ & _ & Ho); [|apply Publish_Broker|done|done].
    rewrite Hstream in Ho. exact (publish_tracked _ _ _ _ _ Hok Ho Ht).
  - pose proof (EnsureConsumerGroup_world w) as Hw. rewrite Hr in Hw. simpl in Hw. subst w'.
    eapply redis_cmd_tracked; [apply surjective_pairing| |done]. intros now r0 a r' Ht0 Hx. exact (group_tracked _ _ _ _ Hx Ht0).
  - eapply redis_cmd_tracked; [exact Hr| |done]. intros now r0 a r' Ht0 Hx. exact (read_tracked _ _ _ _ _ _ _ Hx Ht0).
  - unfold reclaimPendingMessagesForConsumer in Hr. eapply redis_cmd_tracked; [exact Hr| |done].
    intros now r0 a r' Ht0 Hx. exact (reclaim_tracked _ _ _ _ _ _ _ _ Hx Ht0).
  - assert (Hspec : RecorderSpec (recorder wk) store_effects) by (rewrite Hrecorder; apply _).
    apply (processStreamMessage_cases wk store_effects) in Hr as (_ & _ & Ho); [|done]. by eapply process_tracked.
  - by eapply pump_tracked.
  - eapply redrive_cases in Hr as (_ & _ & Ho); [|apply XAdd_RedriveSender|done]. by eapply redrive_tracked.
Qed.

(** No accepted event is lost.  Start from sound tables in which every event is
    accounted for (an empty database is), and let the components take any number of
    steps in any order, with any failures of PostgreSQL, Redis and the destinations:
    every stored event is pending in the outbox, or on the stream for the worker
    group, or scheduled for a retry, or recorded as delivered, or an open dead
    letter; and the tables satisfy the schema with no transaction left open. *)
Theorem no_event_lost w0 w u :
  inv w0 -> reachable w0 w -> known (w_db w) u ->
  schema_ok (w_db w) /\ w_tx w = None /\ accounted (w_db w) (w_redis w) u.
Proof.
  intros Hi Hr Hu. assert (inv w) as [Htx Hok [_ Ha]]; [|by auto].
  clear Hu. induction Hr as [|w w' _ IH Hs]; [done|]. by eapply step_inv.
Qed.

End System.

(** ** A run *)

Definition start : World SimRedis := sim_world empty_db empty_redis 0 [] [].
Definition after_ingest := (PersistEventWithOutbox sample_request "" start).2.
(** The commit of the publishing transaction fails. *)
Definition troubled : World SimRedis :=
  mkWorld (w_db after_ingest) None ∅ (w_uuid after_ingest) (w_redis after_ingest) 1000 commit_lost [] [].
Definition after_publish :=
  (PublishNextOutboxEvent (Some ThePool) (Some (Publish (Some sample_publisher))) Second (60 * Second) troubled).2.

Lemma no_event_lost_witness :
  known (w_db after_publish) stored_id /\
  accounted sample_worker (w_db after_publish) (w_redis after_publish) stored_id.
Proof.
  assert (Hk : known (w_db after_publish) stored_id) by (vm_compute; eauto).
  split; [exact Hk|].
  apply (no_event_lost sample_worker sample_publisher the_store eq_refl eq_refl start after_publish stored_id).
  - split; [reflexivity|apply empty_db_ok|]. split; [split; [apply NoDup_nil_2|done]|]. intros u [x Hx]. discriminate Hx.
  - apply reachable_step with troubled; [apply reachable_step with after_ingest;
      [apply reachable_step with start; [apply reachable_start|]|]|].
    + eapply (step_ingest _ _ _ start sample_request "" (PersistEventWithOutbox sample_request "" start).1).
      apply surjective_pairing.
    + eapply step_environment; [|reflexivity]. vm_compute. discriminate.
    + eapply (step_publish _ _ _ troubled (Some ThePool) Second (60 * Second)). apply surjective_pairing.
  - exact Hk.
Defined.

End System.
