(* ===== verification/Receipts.v ===== *)
(** * Receipts: deliveries and the destination that receives them
    ([internal/deliveryworker/worker.go] with [cmd/mock-destination/main.go])

    The pipeline delivers at least once: a message may be processed again after a
    lost acknowledgement, a retry or a redrive, and one delivery may send several
    requests when the HTTP client follows redirects or repeats a request.  Every request the worker sends
    carries the event's id as idempotency key, and the destination counts a key
    once; together an event is receipted at most once. *)

From S2P Require Import Prelude GoStrings GoErrors GoTime Json JsonFacts Delivery GoHttp Database DatabaseFacts.
From S2P Require Import RedisServer World WorldFacts Simulation Operations Ingestion Samples Outbox.
From S2P Require Import RedisStream MockDestination Worker WorkerFacts System.
Import Delivery Operations Ingestion Outbox RedisStream Worker WorkerFacts System MockDestination.

Module Receipts.

(** ** Calls that send nothing to a destination *)

Section Silent.
Context {PG : Postgres} {R : Type}.
Abbreviation M := (M (R:=R)).
Abbreviation W := (World R).

Definition silent (w w' : W) : Prop := w_sent w' = w_sent w.

#[export] Instance silent_preorder : PreOrder silent.
Proof. split; unfold silent; [done|intros w1 w2 w3]. congruence. Qed.

Lemma silent_external {A} (op : M A) : keeps silent op -> keeps silent (external op).
Proof.
  intros Hop w. destruct (external op w) as [r w'] eqn:E.
  apply external_inv in E as (w1 & Hq & [(t & -> & ->)|[E|(t & -> & ->)]]); simpl;
    (etransitivity; [apply Hq|]); [done|specialize (Hop w1); by rewrite E in Hop|apply Hop].
Qed.

Lemma silent_in_tx {A} (m : M A) : keeps in_tx m -> keeps silent m.
Proof. intros H w. apply (H w). Qed.

Lemma silent_begin : keeps silent begin_tx.
Proof. intros w. destruct (begin_tx w) as [r w'] eqn:E. by apply begin_tx_inv in E as ((_ & _ & _ & _ & ? & _) & _). Qed.

Lemma silent_commit : keeps silent commit_tx.
Proof. apply silent_external. intros w. by destruct (w_tx w). Qed.

Lemma silent_rollback : keeps silent rollback_tx.
Proof.
  intros w. unfold rollback_tx. assert (H : keeps silent (external (fun w : W => (Ok tt, w)))) by by apply silent_external.
  specialize (H w). by destruct (external _ w).
Qed.

Lemma silent_deferred {A} (body : M A) : keeps silent body -> keeps silent (deferred_rollback body).
Proof. intros H. by apply keeps_defer; [apply _| |]. Qed.

Lemma silent_redis {A} (cmd : Z -> R -> A * R) : keeps silent (redis_cmd cmd).
Proof.
  intros w. apply (silent_external (fun w1 => let '(a, r') := run_again (resent w) (cmd _) _ in _)).
  intros w1. by destruct (run_again _ _ _).
Qed.

Lemma silent_XAdd `{RedisCmds R} key values : keeps silent (XAdd key values).
Proof. unfold XAdd. case_decide; [by apply silent_external|apply silent_redis]. Qed.

Lemma silent_time : keeps silent time_now.
Proof. by intros w. Qed.
End Silent.

Create HintDb silence.
#[export] Hint Resolve silent_begin silent_commit silent_rollback silent_redis silent_XAdd silent_time : silence.
#[export] Hint Extern 1 (keeps silent (tx_stmt _)) => apply silent_in_tx, tx_stmt_in_tx : silence.
#[export] Hint Extern 1 (keeps silent (tx_stmt_uuid _)) => apply silent_in_tx, tx_stmt_uuid_in_tx : silence.

Ltac silent_step :=
  match goal with
  | |- keeps silent (deferred_rollback _) => apply silent_deferred
  | |- keeps silent (require_pool _ _) => unfold require_pool
  | |- keeps silent (inTransaction _) => unfold inTransaction
  | |- keeps silent (match ?x with _ => _ end) => destruct x
  | |- keeps silent (gbind _ _) => apply keeps_bind; [apply _| |intros ?]
  | |- keeps silent (gret _) => apply keeps_ret; apply _
  | |- keeps silent (gerr _) => apply keeps_err; apply _
  | |- keeps silent (lift_res _) => apply keeps_lift; apply _
  | |- keeps silent (catch _) => apply keeps_catch
  | |- keeps silent (wrap_err _ _) => apply keeps_wrap
  | |- keeps silent (let _ := _ in _) => cbv zeta
  | |- keeps silent _ => solve [eauto 2 with silence]
  end.
Ltac silent_all := repeat silent_step.

Section Components.
Context {SC : Strconv} {NC : NetClients} {PG : Postgres} {R : Type} `{RedisCmds R}.
Abbreviation M := (M (R:=R)).
Abbreviation W := (World R).

Lemma history_silent e st d : keeps silent (InsertStatusHistory e st d : M unit).
Proof. unfold InsertStatusHistory. silent_all. Qed.

Lemma attempt_silent a o : keeps silent (insertDeliveryAttempt a o : M unit).
Proof. unfold insertDeliveryAttempt. silent_all. Qed.
Hint Resolve history_silent attempt_silent : silence.

Lemma record_silent s :
  (forall p, keeps silent (RecordProcessing s p : M unit)) /\ (forall p, keeps silent (RecordDelivered s p : M unit)) /\
  (forall p, keeps silent (RecordRetrying s p : M unit)) /\ (forall p, keeps silent (RecordDeadLettered s p : M unit)).
Proof.
  split_and!; intros p; unfold RecordProcessing, RecordDelivered, RecordRetrying, RecordDeadLettered; silent_all.
Qed.

Lemma persist_silent req key : keeps silent (PersistEventWithOutbox req key : M PersistResult).
Proof.
  unfold PersistEventWithOutbox, insertEventWithoutKeyWithOutbox, existingEventIDForMatchingRequestHash,
    insertOutboxForEvent, run_query. silent_all.
Qed.

Lemma publish_silent pool pub base max :
  keeps silent (PublishNextOutboxEvent pool (Some (Publish (Some pub))) base max : M PublishOutcome).
Proof.
  unfold PublishNextOutboxEvent, publish_round, claimNextOutboxEvent, markOutboxPublished, rescheduleOutboxAfterFailure, Publish.
  silent_all. intros w. apply silent_in_tx, tx_stmt_in_tx.
Qed.

Lemma group_silent wk : keeps silent (EnsureConsumerGroup wk : M unit).
Proof. unfold EnsureConsumerGroup. silent_all. Qed.

Lemma pump_silent wk m : keeps silent (republishRetryMember m (pump_publish wk) (pump_remove wk) : M unit).
Proof. unfold republishRetryMember, pump_publish, pump_remove. silent_all. Qed.

Lemma redrive_silent s e stream : keeps silent (RedriveDLQ s e (Some (XAdd stream)) : M RedriveResult).
Proof. unfold RedriveDLQ, redrive_mark, fetchEvent, run_query. silent_all. Qed.

(** ** What processing a message sends *)

(** The event id of a message, as the worker reads it for the request *)
Definition event_of (msg : XMessage) : string := default "" (value "event_id" msg).

Definition sends_for (msg : XMessage) (w w' : W) : Prop :=
  exists more, w_sent w' = w_sent w ++ more /\
    (event_of msg <> "" -> Forall (fun q => rq_idempotency_key q = Some (event_of msg)) more).

Lemma processMessage_sends msg w : sends_for msg w (processMessageWithResult msg w).2.
Proof.
  assert (Hnone : sends_for msg w w) by (exists []; by rewrite app_nil_r).
  unfold processMessageWithResult, processWebhookMessageWithResult.
  destruct (String.eqb _ "force.fail"); [done|]. destruct (String.eqb _ "webhook"); [|done].
  destruct (value "payload" msg) as [p|]; [|done]. destruct (unmarshal_webhook p) as [[url data]|]; [|done].
  destruct (String.eqb url ""); [done|]. destruct (new_request_error url); [done|].
  unfold gbind, wrap_err, http_do.
  set (key := match value "event_id" msg with Some _ => _ | None => _ end).
  assert (Hk : event_of msg <> "" -> key = Some (event_of msg)).
  { unfold event_of, key. destruct (value "event_id" msg) as [e|]; simpl; [|done]. by destruct (String.eqb_spec e ""). }
  clearbody key. cbn [rq_body].
  destruct (exchange_wire 1 (marshal data) key (mkHttpRequest "POST" url (marshal data) key) (w_http w) eq_refl (fun _ => eq_refl))
    as (more & Hsent & Hmore).
  destruct (http_exchange _ _ _ _) as [[r sent] unread]. simpl in Hsent. subst sent.
  exists (mkHttpRequest "POST" url (marshal data) key :: more). split.
  - destruct r as [[code status]|e]; simpl; [|done]. destruct (400 <=? code); [|done]. by destruct (NewHTTPFailure code status).
  - intros Hne. rewrite <- (Hk Hne). constructor; [done|]. eapply Forall_impl; [exact Hmore|]. by intros q [-> _].
Qed.

Context (store : option Store) (wk : Worker_ R) (Hrecorder : recorder wk = storeRecorder store).

Lemma process_sends msg w : sends_for msg w (processStreamMessage wk msg w).2.
Proof using Hrecorder.
  destruct (record_silent store) as (P1 & P2 & P3 & P4).
  unfold processStreamMessage. rewrite Hrecorder. simpl. cbv zeta. unfold gbind at 1. simpl.
  unfold gbind at 1, catch at 1. specialize (P1 (mkProcessingRecord (eventIDFromMessage msg) (ID msg) (parseRetry (value "retry" msg))) w).
  destruct (RecordProcessing _ _ w) as [rp w1]. simpl in P1. destruct rp as [[]|e]; cycle 1.
  { exists []. rewrite app_nil_r. by split. }
  unfold gbind at 1, catch at 1. pose proof (processMessage_sends msg w1) as Hp.
  destruct (processMessageWithResult msg w1) as [rd w2]. simpl in Hp. unfold gbind at 1. simpl.
  assert (Hend : forall m : M unit, keeps silent m -> sends_for msg w (m w2).2).
  { intros m Hm. specialize (Hm w2). unfold silent, sends_for in *. rewrite Hm, <- P1. done. }
  destruct rd as [code|cause]; apply Hend.
  - unfold logged, acknowledgeDeliveredMessage, ack_message. silent_all.
  - unfold logged, handleDeliveryFailure, ack_message, scheduleRetry, moveToDLQ. silent_all.
Qed.
End Components.

(** ** Deliveries *)

Section Deliveries.
Context {SC : Strconv} {NC : NetClients} {PG : Postgres} {R : Type} `{RedisCmds R, !RedisLaws R}.
Abbreviation W := (World R).
Context (wk : Worker_ R) (pub : Publisher) (store : option Store) (Hrecorder : recorder wk = storeRecorder store).
Abbreviation step := (System.step wk pub store).
Abbreviation reachable := (System.reachable wk pub store).

(** The requests sent in a run, each with the event of the message it was sent
    for *)
Inductive deliveries (w0 : W) : list (string * http_request) -> W -> Prop :=
| dl_start : deliveries w0 [] w0
| dl_process ds w msg r w' :
    deliveries w0 ds w -> msg ∈ stream (w_redis w) (Stream (config wk)) -> processStreamMessage wk msg w = (r, w') ->
    deliveries w0 (ds ++ map (pair (event_of msg)) (drop (length (w_sent w)) (w_sent w'))) w'
| dl_other ds w w' : deliveries w0 ds w -> step w w' -> silent w w' -> deliveries w0 ds w'.

(** Every run is one. *)
Lemma reachable_deliveries w0 w : reachable w0 w -> exists ds, deliveries w0 ds w.
Proof using Hrecorder.
  intros Hr. induction Hr as [|w w' Hr (ds & Hd) Hs]; [exists []; constructor|].
  assert (Hk : forall A (m : M (R:=R) A) r, keeps silent m -> m w = (r, w') -> exists ds', deliveries w0 ds' w').
  { intros A m r Hm E. exists ds. eapply dl_other; [done..|]. specialize (Hm w). by rewrite E in Hm. }
  destruct Hs as [locked now env http w' Hn ->|req key r w' E|pool base max r w' E|r w' E|n r w' E|idle n r w' E
    |msg r w' Hm E|member r w' E|e r w' E].
  - exists ds. eapply dl_other; [done|by eapply step_environment|done].
  - eapply Hk; [apply persist_silent|done].
  - eapply Hk; [apply publish_silent|done].
  - eapply Hk; [apply group_silent|done].
  - eapply Hk; [apply silent_redis|done].
  - eapply Hk; [apply silent_redis|done].
  - eexists. by eapply dl_process.
  - eapply Hk; [apply pump_silent|done].
  - eapply Hk; [apply redrive_silent|done].
Qed.

Lemma deliveries_sent w0 ds w :
  deliveries w0 ds w -> w_sent w = w_sent w0 ++ map snd ds /\
  forall e rq, (e, rq) ∈ ds -> e <> "" -> rq_idempotency_key rq = Some e.
Proof using Hrecorder.
  induction 1 as [|ds w msg r w' Hd [Hs Hk] Hm E|ds w w' Hd [Hs Hk] Hst Hsi].
  - rewrite app_nil_r. split; [done|]. intros e rq Hin. by apply elem_of_nil in Hin.
  - pose proof (process_sends store wk Hrecorder msg w) as Hp. rewrite E in Hp. simpl in Hp.
    destruct Hp as (more & Hp & Hkey). rewrite Hp, drop_app_length, map_app, map_map, map_id, Hs, (assoc_L (++)). split; [done|].
    intros e rq [Hin|Hin]%elem_of_app Hne; [eauto|]. apply list_elem_of_fmap in Hin as (q & ? & Hq). simplify_eq.
    exact (proj1 (Forall_forall _ _) (Hkey Hne) q Hq).
  - rewrite Hsi. done.
Qed.

(** ** At the destination *)

(** [http.NewRequest] and the header fields of [processWebhookMessageWithResult];
    [path_of] is what [net/url] makes of the URL. *)
Context (path_of : string -> string).

Definition wire (rq : http_request) : Request :=
  mkRequest (rq_method rq) (path_of (rq_url rq)) ""
    (("Content-Type", "application/json") ::
     match rq_idempotency_key rq with Some k => [("Idempotency-Key", k)] | None => [] end) (rq_body rq).

(** Requests in the order they are served, with the event that a delivery is for:
    how many deliveries of [e] are counted as a receipt. *)
Fixpoint receipts (e : string) (served : list (option string * Request)) (s : receiptServer) : nat :=
  match served with
  | [] => 0
  | (tag, r) :: rest =>
      ((if bool_decide (tag = Some e) && negb (successful (serve r s).2 =? successful s)%Z then 1 else 0) +
       receipts e rest (serve r s).2)%nat
  end.

Lemma receipt_path r s : Path r <> "/receipts" -> successful (serve r s).2 = successful s.
Proof.
  intros Hp. destruct (serve_cases r s) as [(_ & -> & _)|(w & _ & _ & ->)]; [done|]. unfold routes.
  rewrite (proj2 (String.eqb_neq _ _) Hp). unfold handleControlMode, handleStats. by repeat case_match.
Qed.

(** A delivery of [e] that is counted makes the key known, and none is when it is. *)
Lemma receipt_counted e r s :
  e <> "" -> TrimSpace (HeaderGet "Idempotency-Key" r) = e -> successful (serve r s).2 <> successful s ->
  e ∉ seenKeys s /\ e ∈ seenKeys (serve r s).2.
Proof.
  intros He Hh Hs. destruct (decide (Path r = "/receipts")) as [Hp|Hp]; [|by rewrite receipt_path in Hs].
  by destruct (receipt_cases e r s He Hp Hh) as [[? _]|[?|(_ & ? & _)]].
Qed.

Lemma receipts_bound e served s :
  e <> "" -> (forall r, (Some e, r) ∈ served -> TrimSpace (HeaderGet "Idempotency-Key" r) = e) ->
  (receipts e served s <= if bool_decide (e ∈ seenKeys s) then 0 else 1)%nat.
Proof.
  intros He. revert s. induction served as [|[tag r] rest IH]; intros s Hall; [simpl; lia|]. simpl.
  pose proof (IH (serve r s).2 ltac:(set_solver)) as Hr. pose proof (serve_keep_keys r s) as Hk.
  assert (Hmono : e ∈ seenKeys s -> e ∈ seenKeys (serve r s).2) by set_solver.
  destruct (bool_decide (tag = Some e) && _) eqn:Ec.
  - apply andb_true_iff in Ec as [->%bool_decide_eq_true Hc]. apply negb_true_iff, Z.eqb_neq in Hc.
    destruct (receipt_counted e r s He (Hall r ltac:(set_solver)) Hc) as [Hn Hi].
    rewrite bool_decide_eq_true_2 in Hr by done. rewrite bool_decide_eq_false_2 by done. lia.
  - destruct (decide (e ∈ seenKeys s)) as [Hi|Hn].
    + rewrite bool_decide_eq_true_2 in Hr by auto. rewrite bool_decide_eq_true_2 by done. lia.
    + rewrite (bool_decide_eq_false_2 (e ∈ seenKeys s)) by done.
      destruct (bool_decide (e ∈ seenKeys (serve r s).2)); lia.
Qed.

(** C3: an event is receipted at most once.  Whatever the pipeline does, with any faults,
    lost replies, retries, redrives and redirects, the receipt service counts at most
    one of all the requests of the deliveries of an event: in whatever order they and any other requests reach
    it, and from whatever state. *)
Theorem receipted_at_most_once w0 ds w served s e :
  deliveries w0 ds w ->
  (forall e r, (Some e, r) ∈ served -> exists rq, (e, rq) ∈ ds /\ r = wire rq) -> uuid_in e = Some e ->
  w_sent w = w_sent w0 ++ map snd ds /\ (receipts e served s <= 1)%nat.
Proof using RedisLaws0 Hrecorder.
  intros Hd Hserved Hu. destruct (deliveries_sent _ _ _ Hd) as [Hs Hk]. split; [done|].
  assert (He : e <> "") by (intros ->; by apply uuid_in_length in Hu).
  etransitivity; [apply receipts_bound; [done|]|by case_bool_decide; lia].
  intros r (rq & Hin & ->)%Hserved. unfold wire, HeaderGet. rewrite (Hk _ _ Hin He). simpl. by eapply uuid_trimmed.
Qed.
End Deliveries.

(** ** A run *)

(** The acknowledgement of a delivered message is lost, and it is delivered again. *)
Definition receipt_message : XMessage :=
  mkXMessage "1-0" (list_to_map [("event_id", stored_id); ("event_type", "webhook");
    ("payload", String.string_of_list_ascii
       (map (fun c => if Ascii.eqb c "'" then dq else c)
          (chars "{'url': 'http://mock:8081/receipts', 'data': {'invoice_id': 'inv-1'}}")))]).

Definition before : World SimRedis :=
  sample_world receipt_message [] [HttpResponse 200 "200 OK" ""; HttpResponse 200 "200 OK" ""].
Definition once : World SimRedis := (processStreamMessage sample_worker receipt_message before).2.
Definition twice : World SimRedis := (processStreamMessage sample_worker receipt_message once).2.

Definition receipt_request : http_request :=
  mkHttpRequest "POST" "http://mock:8081/receipts" (marshal (JObj [("invoice_id", JStr "inv-1")])) (Some stored_id).

Lemma receipted_at_most_once_witness :
  let d := wire (fun _ => "/receipts") receipt_request in
  let served := [(Some stored_id, d); (Some stored_id, d)] in
  w_sent twice = [receipt_request; receipt_request] /\ receipts stored_id served newReceiptServer = 1%nat /\
  (receipts stored_id served newReceiptServer <= 1)%nat.
Proof.
  intros d served. split; [vm_compute; reflexivity|]. split; [vm_compute; reflexivity|].
  pose (ds := [(stored_id, receipt_request); (stored_id, receipt_request)]).
  assert (Hd : deliveries sample_worker sample_publisher the_store before ds twice).
  { change ds with (([] ++ [(stored_id, receipt_request)]) ++ [(stored_id, receipt_request)]).
    refine (dl_process _ _ _ _ _ once receipt_message (processStreamMessage sample_worker receipt_message once).1 twice _ _ _).
    - refine (dl_process _ _ _ _ _ before receipt_message (processStreamMessage sample_worker receipt_message before).1 once _ _ _).
      + apply dl_start.
      + vm_compute. left.
      + apply surjective_pairing.
    - vm_compute. left.
    - apply surjective_pairing. }
  apply (receipted_at_most_once sample_worker sample_publisher the_store eq_refl (fun _ => "/receipts") before ds twice served
    newReceiptServer stored_id Hd); [|vm_compute; reflexivity].
  intros e r Hin. exists receipt_request. unfold served in Hin.
  repeat (apply elem_of_cons in Hin as [?|Hin]; [simplify_eq; split; [left|reflexivity]|]). by apply elem_of_nil in Hin.
Defined.

End Receipts.
