(* ===== verification/Server.v ===== *)
(** * Server: the API process ([cmd/api/main.go])

    The routes and the handlers [main] defines itself, and how it wires the
    components together.  What happens after the start is the subject of the file
    Process. *)

From S2P Require Import Prelude GoStrings GoErrors GoTime Json JsonFacts JsonDecode GoHttp Config Database DatabaseFacts.
From S2P Require Import RedisServer World WorldFacts RedisFacts Simulation Operations Ingestion Samples Outbox RedisStream AiTriage.
From S2P Require Import HttpApi OperationalHandlers HttpFacts EventExplain Replay ReplayFacts Worker.
Import Operations Ingestion Outbox RedisStream AiTriage HttpApi OperationalHandlers HttpFacts EventExplain Replay.

Module Server.

Definition EventStream : string := "eventrail.events".
Definition ConsumerGroup : string := "eventrail.cg".
Definition DLQStream : string := "eventrail.events.dlq".
Definition RetryZSet : string := "eventrail.events.retry".
Definition DefaultOutboxBaseBackoff : Z := 500 * Millisecond.
Definition DefaultOutboxMaxBackoff : Z := 30 * Second.

Definition version : string := "dev".
Definition commit : string := "unknown".
Definition builtAt : string := "unknown".

(** ** Routes *)

(** [path.Clean] of a rooted path: its segments, without empty ones and dots *)
Definition clean_segments (segments : list string) : list string :=
  reverse (fold_left (fun acc seg =>
    if bool_decide (seg ∈ [""; "."]) then acc
    else if String.eqb seg ".." then tl acc else seg :: acc) segments []).

Definition path_Clean (p : string) : string :=
  match clean_segments (Split p "/") with
  | [] => "/"
  | segs => String.concat "" (map (fun seg => "/" +:+ seg) segs)
  end.

(** [cleanPath] of [net/http] *)
Definition cleanPath (p : string) : string :=
  if String.eqb p "" then "/" else
  let p := if String.prefix "/" p then p else "/" +:+ p in
  let np := path_Clean p in
  if HasSuffix p "/" && negb (String.eqb np "/") then np +:+ "/" else np.

(** [pathUnescape] of [net/http]: a part that cannot be decoded is left as it is. *)
Definition pathUnescape (s : string) : string :=
  match path_unescape (chars s) with Some l => String.string_of_list_ascii l | None => s end.

(** A pattern and an escaped path are compared part by part, the parts of the path
    decoded; a pattern that ends in a slash matches the paths below it. *)
Definition pattern_matches (pattern path : string) : bool :=
  let parts := map pathUnescape (Split path "/") in
  let wanted := Split pattern "/" in
  if HasSuffix pattern "/"
  then bool_decide (length wanted <= length parts)%nat &&
       bool_decide (take (length wanted - 1) parts = take (length wanted - 1) wanted)
  else bool_decide (parts = wanted).

(** The text of a URL, and the page [http.Redirect] writes for a GET *)
Class UrlText := { url_text : string -> string -> string; redirect_page : string -> string }.

Section Mux.
Context {SC : Strconv} {PG : Postgres} {R : Type} {UT : UrlText}.

Definition Redirect (url : string) (code : Z) (r : Request) (w : ResponseWriter) : ResponseWriter :=
  let get := String.eqb (Method r) "GET" in
  let plain := bool_decide (rw_header w !! "Content-Type" = None) in
  let w := SetHeader "Location" url w in
  let w := if plain && (get || String.eqb (Method r) "HEAD")
           then SetHeader "Content-Type" "text/html; charset=utf-8" w else w in
  let w := WriteHeader code w in
  if plain && get then Write (redirect_page url) w else w.

(** [http.ServeMux] (of Go 1.22, which [go.mod] asks for): no two patterns of the
    program match the same path, and for every pattern that ends in a slash the one
    without is there too.  The target [*] is refused. *)
Definition ServeMux (routes : list (string * HttpApi.Handler (R:=R))) : HttpApi.Handler (R:=R) := fun r w =>
  if String.eqb (Path r) "*" then gret (WriteHeader 400 (SetHeader "Connection" "close" w)) else
  let escapedPath := EscapedPath r in
  let path := cleanPath escapedPath in
  if negb (String.eqb (Method r) "CONNECT") && negb (String.eqb path escapedPath)
  then gret (Redirect (url_text path (RawQuery r)) 301 r w) else
  match filter (fun ph => pattern_matches ph.1 escapedPath = true) routes with
  | (_, handler) :: _ => handler r w
  | [] => gret (Error "404 page not found" 404 w)
  end.
End Mux.

(** ** GET /events/<id> *)

Record Event := mkEvent {
  ge_ID : string; ge_EventType : string; ge_Source : string; ge_Payload : string; ge_CreatedAt : Z;
}.

(** [None] when the payload is not JSON or the time cannot be printed *)
Definition event_json {LZ : LocalZone} (e : Event) : option json :=
  payload ← raw_json (ge_Payload e);
  created ← json_time (ge_CreatedAt e);
  Some (JObj [("id", JStr (ge_ID e)); ("event_type", JStr (ge_EventType e)); ("source", JStr (ge_Source e));
              ("payload", payload); ("created_at", created)]).

Section Handlers.
Context {SC : Strconv} {LZ : LocalZone} {PG : Postgres} {R : Type} `{RedisCmds R}.
Abbreviation M := (M (R:=R)).
Abbreviation Handler := (HttpApi.Handler (R:=R)).

Definition getEvent : Handler := fun r w =>
  if negb (String.eqb (Method r) "GET") then gret (WriteHeader 405 (SetHeader "Allow" "GET" w)) else
  let id := TrimPrefix (Path r) "/events/" in
  if String.eqb id "" then gret (Error "event id required" 400 w) else
  let! row := catch (pool_query (fun _ db =>
                res_bind (cast_uuid id) (fun u => Ok (pair u <$> events db !! u)))) in
  gret (match row with
        | Ok None => WriteHeader 404 w
        | Err _ => Error "failed to fetch event" 500 w
        | Ok (Some (u, e)) =>
            Encode (event_json (mkEvent u (ev_event_type e) (ev_source e) (ev_payload e) (ev_created_at e * 1000)))
              (SetHeader "Content-Type" "application/json" w)
        end).

(** [/events/]: the path decides who answers. *)
Definition eventsHandler (eventExplainHandler eventStatusHandler : Handler) : Handler := fun r w =>
  if HasSuffix (TrimRightByte "/" (Path r)) "/explain" then eventExplainHandler r w else
  if HasSuffix (TrimRightByte "/" (Path r)) "/status" then eventStatusHandler r w else
  getEvent r w.

(** ** POST /consumer-groups/set-cursor *)

Record SetGroupCursorRequest := mkSetGroupCursorRequest { sg_Group : string; sg_StartID : string }.

Definition setGroupCursorRequest_of (v : json) (_ : list ascii) : option SetGroupCursorRequest :=
  m ← members v;
  group ← string_field "" "group" m;
  startID ← string_field "" "start_id" m;
  Some (mkSetGroupCursorRequest group startID).

Definition setCursor : Handler := fun r w =>
  if negb (String.eqb (Method r) "POST") then gret (WriteHeader 405 w) else
  match DecodeJSONRequest setGroupCursorRequest_of r with
  | Err err => gret (if IsRequestBodyTooLarge err then Error "request body too large" 413 w
                     else Error "invalid JSON body" 400 w)
  | Ok req =>
      let group := TrimSpace (sg_Group req) in
      let group := if String.eqb group "" then ConsumerGroup else group in
      let startID := TrimSpace (sg_StartID req) in
      if String.eqb startID "" then gret (Error "start_id is required" 400 w) else
      let! res := catch (XGroupSetID EventStream group startID) in
      gret (match res with
            | Err _ => Error "failed to set group cursor" 500 w
            | Ok _ => WriteHeader 204 w
            end)
  end.

(** ** The whole server *)

Context {NC : NetClients} {MR : MapRange} {UT : UrlText} `{!AIService R}.

Definition operationsStore : option Store := Some (mkStore (Some ThePool)).

(** [pgPool.Ping], [redisClient.Ping] *)
Definition ping : M unit := external (gret tt).

Definition routes (aiTriageClient : AITriageClient) : list (string * Handler) :=
  let readinessHandler := NewReadinessHandler (Some ping) (Some ping) in
  let dlqHandler := NewDLQHandler operationsStore (Some (XAdd EventStream)) (Some (Triage aiTriageClient)) in
  [("/health/live", NewLivenessHandler);
   ("/health/ready", readinessHandler);
   ("/health", readinessHandler);
   ("/version", NewVersionHandler "eventrail-api" version commit builtAt);
   ("/dlq", dlqHandler);
   ("/dlq/", dlqHandler);
   ("/metrics/summary", NewMetricsSummaryHandler operationsStore);
   ("/events", NewCreateEventHandler PersistEventWithOutbox);
   ("/events/", eventsHandler (NewEventExplainHandler (storeReader operationsStore) (Some (Explain aiTriageClient)))
                  (NewEventStatusHandler operationsStore));
   ("/replay", newReplayHandler pool_events (XAdd EventStream));
   ("/consumer-groups/set-cursor", setCursor)].

Definition dashboardOrigins : list string := ["http://localhost:5173"; "http://127.0.0.1:5173"].

Definition serverHandler (aiTriageClient : AITriageClient) : Handler :=
  WithCORS (ServeMux (routes aiTriageClient)) dashboardOrigins.

(** ** Only POST changes anything *)

(** A handler that answers every request but POST without changing anything *)
Definition read_only (h : Handler) : Prop :=
  forall r rw, Method r <> "POST" -> answers (fun _ => True) (h r rw) /\ keeps unchanged (h r rw).

Lemma refused_post (h : Handler) :
  (forall r rw, Method r <> "POST" -> exists rw', h r rw = gret rw') -> read_only h.
Proof.
  intros Hh r rw Hm. destruct (Hh r rw Hm) as [rw' ->]. split; [by apply answers_ret|]. keeps_all.
Qed.

Lemma requirePost_refuses r rw : Method r <> "POST" -> exists rw', requirePost r rw = Some rw'.
Proof. intros Hm. apply String.eqb_neq in Hm. unfold requirePost. rewrite Hm. by eexists. Qed.

Lemma ping_unchanged : keeps unchanged ping.
Proof. apply unchanged_external. by intros w. Qed.

Lemma dlq_read_only s publish triage : read_only (NewDLQHandler s publish triage).
Proof.
  intros r rw Hm. destruct (requirePost_refuses r rw Hm) as [rw' Hp].
  unfold NewDLQHandler. destruct (String.eqb _ "").
  { split; [|apply dlq_list_unchanged]. unfold handleDLQList, guarded. answers_all; done. }
  destruct (Split _ "/") as [|id [|action [|x l]]]; try (split; [by apply answers_ret|keeps_all]).
  - split; [|apply dlq_detail_unchanged]. unfold handleDLQDetail, guarded. answers_all; done.
  - unfold handleDLQRedrive, handleDLQTriage. rewrite Hp. simpl.
    repeat case_match; (split; [by apply answers_ret|keeps_all]).
Qed.

Lemma readiness_read_only : read_only (NewReadinessHandler (Some ping) (Some ping)).
Proof.
  intros r rw _. unfold NewReadinessHandler, guarded, dependencyStatus. destruct (requireGet r rw).
  { split; [by apply answers_ret|keeps_all]. }
  split; [|keeps_all; apply ping_unchanged].
  intros w. unfold gbind, catch. destruct (ping w) as [x w1]. simpl. destruct (ping w1) as [y w2]. by eexists.
Qed.

Lemma events_read_only explain : read_only (eventsHandler (NewEventExplainHandler (storeReader operationsStore) explain)
                                              (NewEventStatusHandler operationsStore)).
Proof.
  intros r rw Hm. unfold eventsHandler. destruct (HasSuffix _ "/explain").
  { unfold NewEventExplainHandler. destruct (requirePost_refuses r rw Hm) as [rw' ->]. simpl.
    split; [by apply answers_ret|keeps_all]. }
  destruct (HasSuffix _ "/status").
  { split; [|apply status_handler_unchanged]. unfold NewEventStatusHandler, guarded. answers_all; done. }
  unfold getEvent. split; [answers_all; done|keeps_all].
Qed.

Ltac refuse_post := apply refused_post; intros r rw Hm; apply String.eqb_neq in Hm;
  unfold NewCreateEventHandler, requirePost, newReplayHandler, setCursor; rewrite Hm; by eexists.

Lemma routes_read_only c : Forall (fun ph => read_only ph.2) (routes c).
Proof.
  unfold routes. cbv zeta. repeat (apply Forall_cons; split); cbn [snd]; try apply Forall_nil;
    try exact I; try apply dlq_read_only; try apply readiness_read_only; try apply events_read_only; try refuse_post.
  - intros r rw _. unfold NewLivenessHandler, guarded. split; [answers_all; done|keeps_all].
  - intros r rw _. unfold NewVersionHandler, guarded. split; [answers_all; done|keeps_all].
  - intros r rw _. split; [|apply metrics_handler_unchanged]. unfold NewMetricsSummaryHandler, guarded. answers_all; done.
Qed.

Lemma mux_read_only rs : Forall (fun ph => read_only ph.2) rs -> read_only (ServeMux rs).
Proof.
  intros Hall r rw Hm. unfold ServeMux. cbv zeta. destruct (String.eqb (Path r) "*"); [split; [by apply answers_ret|keeps_all]|].
  destruct (_ && _); [split; [by apply answers_ret|keeps_all]|].
  destruct (filter _ rs) as [|[p h] l] eqn:E; [split; [by apply answers_ret|keeps_all]|].
  rewrite Forall_forall in Hall. apply (Hall (p, h)); [|done].
  assert ((p, h) ∈ filter (fun ph => pattern_matches ph.1 (EscapedPath r) = true) rs) as Hin by (rewrite E; left).
  by apply list_elem_of_filter in Hin as [_ ?].
Qed.

(** What a preflight request is answered *)
Definition preflight (origin : string) (rw' : ResponseWriter) : Prop :=
  let allowed := response_header rw' !! "Access-Control-Allow-Origin" in
  (origin ∈ dashboardOrigins /\ response_status rw' = 204 /\ allowed = Some origin) \/
  (origin = "" /\ response_status rw' = 204 /\ allowed = None) \/
  (origin <> "" /\ origin ∉ dashboardOrigins /\ response_status rw' = 403 /\ allowed = None).

(** C22: only POST requests change anything, and browsers of other origins get no
    permission.  For every request to the server that is not a POST, under every
    fault, there is an answer and the tables, the open transaction and Redis are
    as before; an OPTIONS request reaches no handler and is answered 204 with the
    origin allowed for the dashboard, 403 without for every other origin. *)
Theorem server_only_post c r w :
  Method r <> "POST" ->
  exists rw' w', serverHandler c r new_writer w = (Ok rw', w') /\ unchanged w w' /\
    (Method r = "OPTIONS" -> w' = w /\ preflight (TrimSpace (HeaderGet "Origin" r)) rw').
Proof.
  intros Hm. unfold serverHandler, WithCORS. cbv zeta. set (origin := TrimSpace _).
  assert (allowed_origins dashboardOrigins = dashboardOrigins) as -> by (vm_compute; reflexivity).
  destruct (String.eqb_spec (Method r) "OPTIONS") as [Ho|Ho]; cycle 1.
  - set (rw := if bool_decide _ then _ else _).
    destruct (mux_read_only _ (routes_read_only c) r rw Hm) as [Ha Hk].
    destruct (answers_run _ _ w Ha) as (rw' & w' & E & _). specialize (Hk w). rewrite E in Hk.
    exists rw', w'. split_and!; [done..|]. by intros Ho'.
  - eexists _, w. split; [reflexivity|]. split; [reflexivity|]. intros _. split; [done|]. unfold preflight.
    destruct (bool_decide_reflect (origin ∈ dashboardOrigins)) as [Hin|Hin].
    + left. split; [done|]. rewrite andb_false_r. simpl. split; [done|].
      rewrite response_header_WriteHeader by done.
      by rewrite !rw_header_SetHeader, !lookup_insert_ne, lookup_insert_eq by done.
    + right. destruct (String.eqb_spec origin "") as [->|Hne]; simpl; [by left|by right].
Qed.

(** ** What was created can be read *)

Lemma TrimPrefix_app p x : TrimPrefix (p +:+ x) p = x.
Proof.
  unfold TrimPrefix. fold (chars (p +:+ x)) (chars p). rewrite chars_app.
  rewrite (proj2 (strip_prefix_spec _ _ (chars x)) eq_refl). apply String.string_of_list_ascii_of_string.
Qed.

Lemma getEvent_found id e r rw w :
  w_env w = [] -> uuid_in id = Some id -> events (w_db w) !! id = Some e ->
  Method r = "GET" -> Path r = "/events/" +:+ id ->
  getEvent r rw w = (Ok (Encode (event_json (mkEvent id (ev_event_type e) (ev_source e) (ev_payload e)
                                   (ev_created_at e * 1000)))
                           (SetHeader "Content-Type" "application/json" rw)), w).
Proof.
  intros He Hu Hev Hm Hp. unfold getEvent. rewrite Hm, Hp, TrimPrefix_app.
  change (negb (String.eqb "GET" "GET")) with false.
  assert (String.eqb id "" = false) as Hne.
  { apply String.eqb_neq. intros ->. by apply uuid_in_length in Hu. }
  rewrite Hne. cbv beta iota zeta.
  unfold gbind, catch, pool_query. rewrite external_no_env by done. unfold cast_uuid. rewrite Hu. simpl.
  by rewrite Hev.
Qed.

(** C23: an event that was created can be read back.  When POST /events is answered
    201 the body names an id, and a GET of /events/<id> in every later state that
    still has the row and in which PostgreSQL answers is answered with an object of
    exactly five members: that id, the type and the source of the request, the
    payload as PostgreSQL stores it (which can always be printed), and the time in
    the row (when it can be printed, its year being at most 9999). *)
Theorem create_then_get r rw (w : World R) rw1 w1 :
  rw_wrote rw = None -> w_tx w = None ->
  NewCreateEventHandler PersistEventWithOutbox r rw w = (Ok rw1, w1) -> response_status rw1 = 201 ->
  exists req id p e payload, accepted r req /\
    rw_body rw1 = rw_body rw +:+ marshal (JObj [("id", JStr id); ("created", JBool true)]) +:+ newline /\
    events (w_db w1) !! id = Some e /\ jsonb_in (cr_Payload req) = Some p /\ raw_json p = Some payload /\
    forall r2 rw2 (w2 : World R) created, w_env w2 = [] -> events (w_db w2) !! id = Some e ->
      Method r2 = "GET" -> Path r2 = "/events/" +:+ id -> time_json (ev_created_at e * 1000) = Some created ->
      getEvent r2 rw2 w2 =
        (Ok (Write (marshal (JObj [("id", JStr id); ("event_type", JStr (cr_EventType req));
                                   ("source", JStr (cr_Source req)); ("payload", payload);
                                   ("created_at", JStr created)]) +:+ newline)
               (SetHeader "Content-Type" "application/json" rw2)), w2).
Proof.
  intros Hrw Hw HC H201. destruct (create_handler r rw w Hrw Hw) as (rw0 & w0 & HC' & Hcase).
  rewrite HC in HC'. simplify_eq. rewrite H201 in Hcase.
  destruct Hcase as [[Hs _]|(req & body & Hacc & Hb & _ & _ & Ha)];
    [apply list_elem_of_In in Hs; simpl in Hs; lia|].
  inversion Ha as [id hash Hi Hbody| | |]; subst.
  destruct Hi as (oid & now & p & j & Hu & _ & _ & _ & _ & _ & Hp & Hdb). cbn [input_of in_Payload in_EventType in_Source] in *.
  assert (exists payload, raw_json p = Some payload) as [payload Hraw].
  { unfold raw_json. destruct (jsonb_in_json _ _ Hp) as [v ->]. by eexists. }
  eexists req, id, p, _, payload. split_and!; [done|done|rewrite Hdb; apply lookup_insert_eq|done|done|].
  intros r2 rw2 w2 created He Hev Hm Hpath Ht. rewrite (getEvent_found id _ r2 rw2 w2 He Hu Hev Hm Hpath).
  unfold event_json, json_time. cbn [ge_ID ge_EventType ge_Source ge_Payload ge_CreatedAt ev_event_type ev_source ev_payload ev_created_at] in *.
  rewrite Hraw, Ht. reflexivity.
Qed.

(** ** Moving the cursor of a consumer group *)

Section Cursor.
Context `{!RedisLaws R}.

(** What a request to move a cursor asks for *)
Definition asked_group (req : SetGroupCursorRequest) : string :=
  if String.eqb (TrimSpace (sg_Group req)) "" then ConsumerGroup else TrimSpace (sg_Group req).
Definition asked_start (req : SetGroupCursorRequest) : string := TrimSpace (sg_StartID req).

(** Streams, sorted sets, groups and their pending entries are as before. *)
Definition cursor_frame (r r' : R) : Prop :=
  same_streams r r' /\ same_zsets r r' /\
  forall s g, has_group r' s g = has_group r s g /\ pending r' s g = pending r s g.

#[global] Instance cursor_frame_preorder : PreOrder cursor_frame.
Proof.
  split; [intros r; by split_and!|]. intros r1 r2 r3 (S1 & Z1 & G1) (S2 & Z2 & G2). split_and!.
  - intros s. by rewrite S2.
  - intros k. by rewrite Z2.
  - intros s g. destruct (G2 s g) as [-> ->]. apply G1.
Qed.

Lemma setid_cursor_frame key group start (now : Z) (r : R) e r' :
  xgroup_setid key group start r = (e, r') -> cursor_frame r r'.
Proof. intros Hs. pose proof (xgroup_setid_frame _ _ _ _ _ _ Hs) as (F1 & F2 & F3 & _). by split_and!. Qed.

Lemma XGroupSetID_inv key group start (w : World R) x w' :
  XGroupSetID key group start w = (x, w') ->
  w_db w' = w_db w /\ w_tx w' = w_tx w /\ cursor_frame (w_redis w) (w_redis w') /\
  (x = Ok tt -> exists r, cursor_frame (w_redis w) r /\ xgroup_setid key group start r = (None, w_redis w')).
Proof.
  unfold XGroupSetID. intros Hx.
  apply gbind_inv in Hx as [(e & w1 & Hc & Hx)|(e & Hc & ->)];
    apply redis_cmd_inv in Hc as (H1 & H2 & _ & _ & _ & _ & Hc).
  - assert (w' = w1) as -> by (destruct e; unfold gret, gerr in Hx; by simplify_eq).
    destruct Hc as [(t & ? & _)|(a & Hs & [Ha|(t & ?)])]; simplify_eq.
    split_and!; [done|done|by eapply repeats_keeps; [apply _|apply setid_cursor_frame|exact Hs]|].
    intros ->. destruct (repeats_last _ _ _ _ cursor_frame (setid_cursor_frame key group start) Hs) as (now & r1 & Hf & Hl).
    exists r1. split; [done|]. destruct a; unfold gret, gerr in Hx; by simplify_eq.
  - split_and!; try done. destruct Hc as [(t & _ & ->)|(a & Hs & _)]; [by split_and!|].
    eapply repeats_keeps; [apply _|apply setid_cursor_frame|exact Hs].
Qed.

(** What the status of an answer says about the group *)
Definition cursor_answer (r : Request) (w w' : World R) (status : Z) : Prop :=
  status ∈ [400; 405; 413] /\ w' = w \/ status = 500 \/
  status = 204 /\ exists req,
    Method r = "POST" /\ DecodeJSONRequest setGroupCursorRequest_of r = Ok req /\
    forall start, start = asked_start req -> start ∈ ["0"; "0-0"; "$"] ->
      has_group (w_redis w) EventStream (asked_group req) = true /\
      undelivered (w_redis w') EventStream (asked_group req) =
        if decide (start = "$") then ∅ else list_to_set (stream_ids (w_redis w) EventStream).

(** Moving a group's cursor moves that and nothing else.  Under every fault the
    endpoint leaves the tables, all streams and sorted sets, and every pending
    entry as they were; 400, 405 and 413 touch nothing.  After 204 the group
    exists and will be handed, from [0], every entry of the event stream again,
    or from [$] only what is added later. *)
Theorem set_cursor_http r rw (w : World R) :
  rw_wrote rw = None ->
  exists rw' w', setCursor r rw w = (Ok rw', w') /\
    w_db w' = w_db w /\ w_tx w' = w_tx w /\ cursor_frame (w_redis w) (w_redis w') /\
    cursor_answer r w w' (response_status rw').
Proof.
  intros Hrw. unfold setCursor.
  assert (forall rw', response_status rw' ∈ [400; 405; 413] ->
    exists rw0 w', gret rw' w = (Ok (E:=error) rw0, w') /\
    w_db w' = w_db w /\ w_tx w' = w_tx w /\ cursor_frame (w_redis w) (w_redis w') /\
    cursor_answer r w w' (response_status rw0)) as Hno.
  { intros rw' Hs. exists rw', w. split_and!; try done. by left. }
  destruct (String.eqb_spec (Method r) "POST") as [Hm|Hm]; cbv beta iota delta [negb].
  2:{ apply Hno. rewrite response_status_WriteHeader by done. set_solver. }
  destruct (DecodeJSONRequest setGroupCursorRequest_of r) as [req|e] eqn:Hd.
  2:{ apply Hno. destruct (IsRequestBodyTooLarge e); rewrite response_status_Error by done; set_solver. }
  fold (asked_group req) (asked_start req). cbv zeta. destruct (String.eqb (asked_start req) "").
  { apply Hno. rewrite response_status_Error by done. set_solver. }
  unfold gbind, catch. destruct (XGroupSetID _ _ _ w) as [x w'] eqn:Hx.
  apply XGroupSetID_inv in Hx as (H1 & H2 & H3 & H4). eexists _, w'. split; [reflexivity|]. split_and!; try done.
  right. destruct x as [[]|e]; [|left; by rewrite response_status_Error].
  right. split; [by rewrite response_status_WriteHeader|]. exists req. split_and!; [done..|]. intros start -> Hin.
  destruct (H4 eq_refl) as (r1 & (F1 & _ & F3) & Hr). destruct (xgroup_setid_start _ _ _ _ _ _ Hr Hin) as [Hg Hu].
  rewrite <- (proj1 (F3 _ _)). unfold stream_ids in *. rewrite <- F1. split; [by apply Hg|by apply Hu].
Qed.
End Cursor.

(** ** Starting up *)

Record App := mkApp {
  app_worker : Worker.Worker_ R; app_runner : Runner R; app_handler : Handler;
}.

Definition deliveryWorker (cfg : Config.Config) : Worker.Worker_ R :=
  Worker.New (Worker.mkConfig EventStream ConsumerGroup (Config.ConsumerName cfg) DLQStream RetryZSet
                (Config.MaxRetries cfg) (Config.BaseBackoff cfg) (Some (Worker.storeRecorder operationsStore))).

(** [main] up to its goroutines: an error is what [log.Fatalf] prints.  [newPool]
    is [pgxpool.New] and [applyMigrations] is [migrations.Apply] on the pool. *)
Definition start (newPool : string -> res error unit) (applyMigrations : M unit) (env : Config.Env) : M App :=
  let! cfg := wrap_err (wrapf "invalid configuration") (lift_res (Config.Load env)) in
  let! _ := wrap_err (wrapf "failed to connect to postgres") (lift_res (newPool (Config.PostgresDSN cfg))) in
  let! _ := wrap_err (wrapf "failed to apply PostgreSQL migrations") applyMigrations in
  let aiTriageClient := NewAITriageClient (Config.AIServiceURL cfg) (Some (Config.AIServiceTimeout cfg)) in
  let! _ := wrap_err (wrapf "failed to ensure consumer group") (Worker.EnsureConsumerGroup (deliveryWorker cfg)) in
  let! streamPublisher := wrap_err (wrapf "create Redis stream publisher")
                            (lift_res (NewPublisher (Some TheClient) EventStream)) in
  let publishNext := PublishNextOutboxEvent (Some ThePool) (Some (Publish (Some streamPublisher)))
                       DefaultOutboxBaseBackoff DefaultOutboxMaxBackoff in
  let! outboxRunner := wrap_err (wrapf "create outbox runner")
                         (lift_res (NewRunner (Some publishNext) (Config.OutboxPollInterval cfg))) in
  gret (mkApp (deliveryWorker cfg) outboxRunner (serverHandler aiTriageClient)).

Section Startup.
Context `{!RedisLaws R}.

Lemma EnsureConsumerGroup_exec wk (w : World R) :
  w_env w = [] ->
  exists w', Worker.EnsureConsumerGroup wk w = (Ok tt, w') /\ w_db w' = w_db w /\
    same_streams (w_redis w) (w_redis w') /\
    has_group (w_redis w') (Worker.Stream (Worker.config wk)) (Worker.ConsumerGroup (Worker.config wk)) = true.
Proof.
  intros He. unfold Worker.EnsureConsumerGroup, gbind, catch.
  destruct (xgroup_create (Worker.Stream (Worker.config wk)) (Worker.ConsumerGroup (Worker.config wk)) (w_redis w))
    as [created r'] eqn:E.
  erewrite redis_cmd_exec by done.
  apply xgroup_create_spec in E as (Hb & Hs & _ & _ & Hg & _).
  exists (with_redis r' w). split_and!; [|done|done|].
  - destruct created; [reflexivity|]. vm_compute. reflexivity.
  - simpl. rewrite Hg. rewrite bool_decide_eq_true_2 by done. apply orb_true_r.
Qed.

(** The wiring: every component works on one stream, group and retry set. *)
Definition wired (cfg : Config.Config) (app : App) : Prop :=
  Worker.config (app_worker app) = Worker.mkConfig EventStream ConsumerGroup (Config.ConsumerName cfg)
    DLQStream RetryZSet (Config.MaxRetries cfg) (Config.BaseBackoff cfg) (Some (Worker.storeRecorder operationsStore)) /\
  Worker.recorder (app_worker app) = Worker.storeRecorder operationsStore /\
  app_runner app = mkRunner
    (PublishNextOutboxEvent (Some ThePool) (Some (Publish (Some (mkPublisher (Some TheClient) EventStream))))
       DefaultOutboxBaseBackoff DefaultOutboxMaxBackoff) (Config.OutboxPollInterval cfg) /\
  app_handler app = serverHandler (NewAITriageClient (Config.AIServiceURL cfg) (Some (Config.AIServiceTimeout cfg))).

(** The process starts when it is configured.  With servers that answer and
    migrations applied, startup fails exactly when the configuration is rejected
    or the outbox poll interval is not positive (which a value of more than
    9223372036854 ms is, after the overflow); otherwise the consumer group of the
    event stream exists, no table or stream has changed, and publisher, worker,
    redrive and replay are wired to the same stream. *)
Theorem startup newPool applyMigrations env w w1 :
  applyMigrations w = (Ok tt, w1) -> w_env w1 = [] -> (forall dsn, newPool dsn = Ok tt) ->
  match Config.Load env with
  | Err e => start newPool applyMigrations env w = (Err (wrapf "invalid configuration" e), w)
  | Ok cfg =>
      exists w', w_db w' = w_db w1 /\ same_streams (w_redis w1) (w_redis w') /\
        has_group (w_redis w') EventStream ConsumerGroup = true /\
        if 0 <? Config.OutboxPollInterval cfg
        then exists app, start newPool applyMigrations env w = (Ok app, w') /\ wired cfg app
        else start newPool applyMigrations env w =
               (Err (wrapf "create outbox runner" (ErrorString "outbox runner poll interval must be positive")), w')
  end.
Proof.
  intros Hmig He Hpool. unfold start. destruct (Config.Load env) as [cfg|e]; [|reflexivity].
  destruct (EnsureConsumerGroup_exec (deliveryWorker cfg) w1 He) as (w' & HE & Hdb & Hs & Hg).
  exists w'. split_and!; [done..|].
  rewrite (gbind_ok _ _ w cfg w) by done. rewrite (gbind_ok _ _ w tt w) by (unfold wrap_err, lift_res; by rewrite Hpool).
  rewrite (gbind_ok _ _ w tt w1) by (unfold wrap_err; by rewrite Hmig). cbv zeta.
  rewrite (gbind_ok _ _ w1 tt w') by (unfold wrap_err; by rewrite HE).
  rewrite (gbind_ok _ _ w' (mkPublisher (Some TheClient) EventStream) w') by done.
  unfold gbind, wrap_err, lift_res, NewRunner.
  destruct (Z.ltb_spec 0 (Config.OutboxPollInterval cfg)) as [Hp|Hp].
  - assert (Config.OutboxPollInterval cfg <=? 0 = false) as -> by lia. eexists. split; [reflexivity|]. by split_and!.
  - assert (Config.OutboxPollInterval cfg <=? 0 = true) as -> by lia. reflexivity.
Qed.
End Startup.

End Handlers.

(** ** Runs *)

#[global] Instance SimUrlText : UrlText := {
  url_text := fun path query => if String.eqb query "" then path else path +:+ "?" +:+ query;
  redirect_page := fun url => "Moved Permanently: " +:+ url +:+ newline;
}.

Definition get (path : string) (header : list (string * string)) : Request := mkRequest "GET" path "" header "".

Definition sample_client : AITriageClient := NewAITriageClient "http://ai:8090" None.

(** A listing of the dead letters *)
Lemma server_only_post_witness :
  exists rw' w', serverHandler sample_client (get "/dlq" []) new_writer (sim_world dead_db empty_redis 5000000 [] [])
      = (Ok rw', w') /\ response_status rw' = 200 /\ unchanged (sim_world dead_db empty_redis 5000000 [] []) w'.
Proof.
  set (w := sim_world _ _ _ _ _).
  destruct (server_only_post sample_client (get "/dlq" []) w) as (rw' & w' & E & Hu & _); [discriminate|].
  exists rw', w'. split; [exact E|]. split; [|exact Hu].
  assert (match (serverHandler sample_client (get "/dlq" []) new_writer w).1 with
          | Ok x => response_status x | Err _ => 0 end = 200) as Hc by (vm_compute; reflexivity).
  rewrite E in Hc. exact Hc.
Defined.

Lemma create_then_get_witness :
  exists rw1 w1 req id payload created rw2,
    NewCreateEventHandler PersistEventWithOutbox (post "/events" order_body []) new_writer
      (sim_world empty_db empty_redis 0 [] []) = (Ok rw1, w1) /\
    getEvent (get ("/events/" +:+ id) []) new_writer w1 = (Ok rw2, w1) /\ response_status rw2 = 200 /\
    rw_body rw2 = marshal (JObj [("id", JStr id); ("event_type", JStr (cr_EventType req));
                                 ("source", JStr (cr_Source req)); ("payload", payload);
                                 ("created_at", JStr created)]) +:+ newline.
Proof.
  set (w := sim_world _ _ _ _ _). set (r := post _ _ _).
  destruct (NewCreateEventHandler PersistEventWithOutbox r new_writer w) as [[rw1|e] w1] eqn:E;
    [|vm_compute in E; discriminate E].
  assert (match NewCreateEventHandler PersistEventWithOutbox r new_writer w with
          | (Ok x, v) => (response_status x, w_env v, forallb (fun '(_, e) => bool_decide (ev_created_at e = 0)) (map_to_list (events (w_db v))))
          | (Err _, v) => (0, w_env v, false) end = (201, [], true)) as Hc
    by (vm_compute; reflexivity).
  rewrite E in Hc. injection Hc as H201 He Ht. rewrite forallb_forall in Ht.
  destruct (create_then_get r new_writer w rw1 w1 eq_refl eq_refl E H201) as (req & id & p & e & payload & _ & _ & Hev & _ & _ & Hget).
  specialize (Ht (id, e)). apply bool_decide_eq_true in Ht; [|apply list_elem_of_In, elem_of_map_to_list, Hev].
  eexists rw1, w1, req, id, payload, _, _. split; [reflexivity|].
  split; [apply Hget; [exact He|exact Hev|reflexivity|reflexivity|rewrite Ht; vm_compute; reflexivity]|].
  split; reflexivity.
Defined.

Definition cursor_body : string := marshal (JObj [("start_id", JStr " 0 ")]).

Lemma set_cursor_http_witness :
  let red := (xgroup_create EventStream ConsumerGroup (xadd 0 EventStream {["event_id" := stored_id]} empty_redis).2).2 in
  let w := sim_world stored_db red 0 [] [] in
  exists rw' w', setCursor (post "/consumer-groups/set-cursor" cursor_body []) new_writer w = (Ok rw', w') /\
    response_status rw' = 204 /\
    cursor_answer (post "/consumer-groups/set-cursor" cursor_body []) w w' (response_status rw').
Proof.
  cbv zeta. set (w := sim_world _ _ _ _ _). set (r := post _ _ _).
  destruct (set_cursor_http r new_writer w eq_refl) as (rw' & w' & E & _ & _ & _ & Ha).
  exists rw', w'. split; [exact E|]. split; [|exact Ha].
  assert (match (setCursor r new_writer w).1 with
          | Ok x => response_status x | Err _ => 0 end = 204) as Hc by (vm_compute; reflexivity).
  rewrite E in Hc. exact Hc.
Defined.

(** Defaults, and the two required variables *)
Definition sample_env : Config.Env := fun key =>
  if String.eqb key "POSTGRES_DSN" then Some "postgres://localhost/eventrail"
  else if String.eqb key "REDIS_ADDR" then Some "localhost:6379" else None.

Lemma startup_witness :
  exists app w', start (fun _ => Ok tt) (gret tt) sample_env (sim_world stored_db empty_redis 0 [] []) = (Ok app, w') /\
    has_group (w_redis w') EventStream ConsumerGroup = true.
Proof.
  set (w := sim_world _ _ _ _ _).
  pose proof (startup (fun _ => Ok tt) (gret tt) sample_env w w eq_refl eq_refl (fun _ => eq_refl)) as H.
  destruct (Config.Load sample_env) as [cfg|e] eqn:El; [|vm_compute in El; discriminate El].
  destruct H as (w' & _ & _ & Hg & H).
  destruct (0 <? Config.OutboxPollInterval cfg) eqn:Ei; [|vm_compute in El; injection El as <-; discriminate Ei].
  destruct H as (app & E & _). exists app, w'. split; [exact E|exact Hg].
Defined.

End Server.
