(* ===== verification/Process.v ===== *)
(** * Process: the life of an API process ([cmd/api/main.go])

    After its start a process is [main], waiting in a [select], the goroutine of
    the outbox runner, the delivery worker with its stream loop and its retry pump,
    and the HTTP server with the requests it has accepted.  Each is a small state
    machine here, and [act] executes one move of one of them: a round of a loop, an
    accepted or answered request, a signal, a step of the shutdown.  Any number of
    processes share one world, start, and are killed at any time.

    A round and a request are each one move; what happens when the statements of
    requests interleave is the subject of [Interleaving]. *)

From S2P Require Import Prelude GoStrings GoErrors GoTime Json GoHttp Config Database RedisServer World WorldFacts.
From S2P Require Import Simulation Operations Ingestion Samples Outbox RedisStream AiTriage HttpApi OperationalHandlers.
From S2P Require Import HttpFacts EventExplain Replay Worker WorkerFacts System Server.
Import Outbox RedisStream AiTriage HttpApi HttpFacts EventExplain Worker WorkerFacts Server.Server.

Module Process.

(** ** The goroutines *)

Inductive loop := Looping | Stopped.

Inductive pump := Starting | Ticking (next : Z) | PumpStopped.

(** The calls [main] defers, and where it is *)
Inductive deferred := stopSignals | cancelApp | pgPool_Close | redisClient_Close.

Inductive main_pc :=
| Selecting
| ShuttingDown (deadline : Z)
| Cancelling
| Waiting
| Returning (defers : list deferred).

#[global] Instance loop_eq_dec : EqDecision loop.
Proof. solve_decision. Defined.
#[global] Instance pump_eq_dec : EqDecision pump.
Proof. solve_decision. Defined.
#[global] Instance deferred_eq_dec : EqDecision deferred.
Proof. solve_decision. Defined.
#[global] Instance main_pc_eq_dec : EqDecision main_pc.
Proof. solve_decision. Defined.

(** Registered in this order, they run in the opposite one. *)
Definition defers_of_main : list deferred := reverse [stopSignals; cancelApp; pgPool_Close; redisClient_Close].

Section Process.
Context {SC : Strconv} {LZ : LocalZone} {PG : Postgres} {R : Type} `{RedisCmds R}.
Context {NC : NetClients} {MR : MapRange} {UT : UrlText} `{!AIService R}.
Abbreviation M := (M (R:=R)).
Abbreviation W := (World R).
Abbreviation App := (App (R:=R)).

(** [pr_forced]: requests may be left, because [Shutdown] ran into its deadline or
    the listener failed. *)
Record Proc := mkProc {
  pr_app : App;
  pr_main : main_pc;
  pr_cancelled : bool;
  pr_accepting : bool;
  pr_forced : bool;
  pr_requests : gmap nat Request;
  pr_answers : gmap nat (res error ResponseWriter);
  pr_outbox : loop;
  pr_stream : loop;
  pr_pump : pump;
  pr_delivery : loop;
}.

Definition with_main (x : main_pc) (p : Proc) : Proc :=
  mkProc (pr_app p) x (pr_cancelled p) (pr_accepting p) (pr_forced p) (pr_requests p) (pr_answers p)
    (pr_outbox p) (pr_stream p) (pr_pump p) (pr_delivery p).
Definition with_forced (p : Proc) : Proc :=
  mkProc (pr_app p) (pr_main p) (pr_cancelled p) (pr_accepting p) true (pr_requests p) (pr_answers p)
    (pr_outbox p) (pr_stream p) (pr_pump p) (pr_delivery p).
Definition with_accepting (x : bool) (p : Proc) : Proc :=
  mkProc (pr_app p) (pr_main p) (pr_cancelled p) x (pr_forced p) (pr_requests p) (pr_answers p)
    (pr_outbox p) (pr_stream p) (pr_pump p) (pr_delivery p).
Definition with_requests (x : gmap nat Request) (y : gmap nat (res error ResponseWriter)) (p : Proc) : Proc :=
  mkProc (pr_app p) (pr_main p) (pr_cancelled p) (pr_accepting p) (pr_forced p) x y
    (pr_outbox p) (pr_stream p) (pr_pump p) (pr_delivery p).
Definition with_loops (outbox stream : loop) (pump : pump) (delivery : loop) (p : Proc) : Proc :=
  mkProc (pr_app p) (pr_main p) (pr_cancelled p) (pr_accepting p) (pr_forced p) (pr_requests p) (pr_answers p)
    outbox stream pump delivery.

(** [cancelApp(); workers.Wait()] *)
Definition cancel_app (p : Proc) : Proc :=
  mkProc (pr_app p) Waiting true (pr_accepting p) (pr_forced p) (pr_requests p) (pr_answers p)
    (pr_outbox p) (pr_stream p) (pr_pump p) (pr_delivery p).

(** A process whose startup has succeeded: the goroutines are there, the server
    listens, [main] selects. *)
Definition launched (app : App) : Proc :=
  mkProc app Selecting false true false ∅ ∅ Looping Looping Starting Looping.

(** One turn of [retryPump] *)
Definition pump_round (cancel_at : option Z) (choice : Z -> bool) (next : Z) (w : Worker_ R) : M (option Z) :=
  let! tick := pump_wait cancel_at choice next in
  match tick with
  | None => gret None
  | Some next' => let! go := pump_tick cancel_at w in gret (if go : bool then Some next' else None)
  end.

(** ** Moves *)

(** A round may see [main] cancel the context at the instant [cancel]. *)
Inductive label :=
| Accept (id : nat) (r : Request)
| Handle (id : nat)
| OutboxRound (cancel : option Z)
| StreamRound (cancel : option Z)
| PumpStart
| PumpRound (cancel : option Z) (choice : bool)
| WorkerReturns
| Signal
| ListenFails
| ShutdownReturns
| CancelApp
| WaitReturns
| RunDeferred.

(** The instant of the cancellation as the round sees it *)
Definition sees (p : Proc) (cancel : option Z) (w : W) : option (option Z) :=
  match cancel with
  | None => Some (if pr_cancelled p then Some (w_now w) else None)
  | Some t => if bool_decide (pr_main p = Cancelling) && (w_now w <=? t) then Some (Some t) else None
  end.

(** A round of a goroutine: [None] for the process when it panics. *)
Definition round {A} (p : Proc) (cancel : option Z) (body : option Z -> M A) (next : A -> Proc -> Proc) (w : W)
    : option (option Proc * W) :=
  cancel_at ← sees p cancel w;
  let '(r, w') := body cancel_at w in
  p' ← match cancel with
       | None => Some p
       | Some t => if t <=? w_now w' then Some (cancel_app p) else None
       end;
  Some (match r with Ok a => Some (next a p') | Err _ => None end, w').

(** [guard] of a move *)
Definition when {A} (b : bool) (x : A) : option A := if b then Some x else None.

(** [deliveryWorker.Run] returns when the stream loop has returned and the pump has
    sent its result. *)
Definition worker_done (p : Proc) : bool :=
  bool_decide (pr_stream p = Stopped) && bool_decide (pr_pump p = PumpStopped).

(** [workers.Wait] returns when both goroutines are done. *)
Definition workers_done (p : Proc) : bool :=
  bool_decide (pr_outbox p = Stopped) && bool_decide (pr_delivery p = Stopped).

(** [http.Server.Shutdown] stops the listener and waits for the requests, for at
    most five seconds. *)
Definition shutdownTimeout : Z := 5 * Second.

Definition act (l : label) (p : Proc) (w : W) : option (option Proc * W) :=
  let stays (p' : Proc) := (Some p', w) in
  match l with
  | Accept id r =>
      when (pr_accepting p && bool_decide (pr_requests p !! id = None) && bool_decide (pr_answers p !! id = None))
        (stays (with_requests (<[id := r]> (pr_requests p)) (pr_answers p) p))
  | Handle id =>
      r ← pr_requests p !! id;
      let '(answer, w') := app_handler (pr_app p) r new_writer w in
      Some (Some (with_requests (delete id (pr_requests p)) (<[id := answer]> (pr_answers p)) p), w')
  | OutboxRound cancel =>
      _ ← when (bool_decide (pr_outbox p = Looping)) tt;
      round p cancel (fun c => run_round c (app_runner (pr_app p)))
        (fun go p' => with_loops (if go.1 then Looping else Stopped) (pr_stream p') (pr_pump p') (pr_delivery p') p') w
  | StreamRound cancel =>
      _ ← when (bool_decide (pr_stream p = Looping)) tt;
      round p cancel (fun c => stream_round c (app_worker (pr_app p)))
        (fun go p' => with_loops (pr_outbox p') (if go : bool then Looping else Stopped) (pr_pump p') (pr_delivery p') p') w
  | PumpStart =>
      when (bool_decide (pr_pump p = Starting))
        (stays (with_loops (pr_outbox p) (pr_stream p) (Ticking (w_now w + pump_period)) (pr_delivery p) p))
  | PumpRound cancel choice =>
      match pr_pump p with
      | Ticking next =>
          round p cancel (fun c => pump_round c (fun _ => choice) next (app_worker (pr_app p)))
            (fun tick p' => with_loops (pr_outbox p') (pr_stream p')
                              (match tick with Some next' => Ticking next' | None => PumpStopped end) (pr_delivery p') p') w
      | _ => None
      end
  | WorkerReturns =>
      when (bool_decide (pr_delivery p = Looping) && worker_done p)
        (stays (with_loops (pr_outbox p) (pr_stream p) (pr_pump p) Stopped p))
  | Signal =>
      when (bool_decide (pr_main p = Selecting))
        (stays (with_accepting false (with_main (ShuttingDown (w_now w + shutdownTimeout)) p)))
  | ListenFails =>
      when (bool_decide (pr_main p = Selecting)) (stays (with_forced (with_main Cancelling p)))
  | ShutdownReturns =>
      match pr_main p with
      | ShuttingDown deadline =>
          if bool_decide (pr_requests p = ∅) then Some (stays (with_main Cancelling p))
          else when (deadline <=? w_now w) (stays (with_forced (with_main Cancelling p)))
      | _ => None
      end
  | CancelApp => when (bool_decide (pr_main p = Cancelling)) (stays (cancel_app p))
  | WaitReturns =>
      when (bool_decide (pr_main p = Waiting) && workers_done p)
        (stays (with_main (Returning defers_of_main) p))
  | RunDeferred =>
      match pr_main p with
      | Returning (_ :: rest) => Some (stays (with_main (Returning rest) p))
      | _ => None
      end
  end.

(** ** Processes that share the servers *)

Record State := mkState { procs : gmap nat Proc; world : W }.

(** [admitted] restricts the requests that are made. *)
Inductive step (newPool : string -> res error unit) (applyMigrations : M unit) (admitted : Request -> Prop)
    (st : State) : State -> Prop :=
| step_environment locked now env http :
    w_now (world st) <= now ->
    step newPool applyMigrations admitted st
      (mkState (procs st) (mkWorld (w_db (world st)) None locked (w_uuid (world st)) (w_redis (world st)) now env http
                             (w_sent (world st))))
| step_boot i env app w' :
    procs st !! i = None -> Server.Server.start newPool applyMigrations env (world st) = (Ok app, w') ->
    step newPool applyMigrations admitted st (mkState (<[i := launched app]> (procs st)) w')
| step_boot_fails env e w' :
    Server.Server.start newPool applyMigrations env (world st) = (Err e, w') ->
    step newPool applyMigrations admitted st (mkState (procs st) w')
| step_act i p l p' w' :
    procs st !! i = Some p -> (forall id r, l = Accept id r -> admitted r) -> act l p (world st) = Some (p', w') ->
    step newPool applyMigrations admitted st
      (mkState (match p' with Some p' => <[i := p']> (procs st) | None => delete i (procs st) end) w')
| step_gone i : step newPool applyMigrations admitted st (mkState (delete i (procs st)) (world st)).

Inductive reachable newPool applyMigrations admitted (st0 : State) : State -> Prop :=
| reach_start : reachable newPool applyMigrations admitted st0 st0
| reach_step st st' :
    reachable newPool applyMigrations admitted st0 st -> step newPool applyMigrations admitted st st' ->
    reachable newPool applyMigrations admitted st0 st'.

(** A schedule, executed: [None] when one of its moves is not possible. *)
Inductive move :=
| Boot (i : nat) (env : Config.Env)
| Act (i : nat) (l : label)
| Kill (i : nat).

Definition make newPool applyMigrations (m : move) (st : State) : option State :=
  match m with
  | Boot i env =>
      match procs st !! i, Server.Server.start newPool applyMigrations env (world st) with
      | None, (Ok app, w') => Some (mkState (<[i := launched app]> (procs st)) w')
      | _, _ => None
      end
  | Act i l =>
      p ← procs st !! i;
      '(p', w') ← act l p (world st);
      Some (mkState (match p' with Some p' => <[i := p']> (procs st) | None => delete i (procs st) end) w')
  | Kill i => Some (mkState (delete i (procs st)) (world st))
  end.

Fixpoint schedule newPool applyMigrations (ms : list move) (st : State) : option State :=
  match ms with
  | [] => Some st
  | m :: rest => st' ← make newPool applyMigrations m st; schedule newPool applyMigrations rest st'
  end.

Definition admits (admitted : Request -> Prop) (m : move) : Prop :=
  match m with Act _ (Accept _ r) => admitted r | _ => True end.

Lemma make_step newPool applyMigrations admitted m st st' :
  admits admitted m -> make newPool applyMigrations m st = Some st' -> step newPool applyMigrations admitted st st'.
Proof.
  destruct m as [i env|i l|i]; simpl; intros Hadm.
  - destruct (procs st !! i) eqn:Ei; [done|]. destruct (Server.Server.start _ _ _ _) as [[app|e] w'] eqn:Es; [|done].
    intros [= <-]. by eapply step_boot.
  - destruct (procs st !! i) as [p|] eqn:Ei; [|done]. simpl. destruct (act l p (world st)) as [[p' w']|] eqn:Ea; [|done].
    simpl. intros [= <-]. eapply step_act; [done| |done]. by intros id r ->.
  - intros [= <-]. constructor.
Qed.

Lemma schedule_reachable newPool applyMigrations admitted ms : forall st0 st st',
  reachable newPool applyMigrations admitted st0 st -> Forall (admits admitted) ms ->
  schedule newPool applyMigrations ms st = Some st' -> reachable newPool applyMigrations admitted st0 st'.
Proof.
  induction ms as [|m ms IH]; intros st0 st st' Hr Hall; simpl; [by intros [= <-]|].
  apply Forall_cons in Hall as [Hm Hall]. destruct (make _ _ m st) as [st1|] eqn:E; [|done]. simpl.
  apply IH; [|done]. eapply reach_step; [exact Hr|by eapply make_step].
Qed.
End Process.

(** ** A loop goes on until it is told to stop *)

Section Loops.
Context {SC : Strconv} {NC : NetClients} {PG : Postgres} {R : Type} `{RedisCmds R}.
Implicit Types w : World R.

(** A computation whose result, if it has one, satisfies [P] *)
Definition gives {A} (P : A -> Prop) (m : M (R:=R) A) : Prop := forall w a w', m w = (Ok a, w') -> P a.

Lemma gives_ret {A} (P : A -> Prop) a : P a -> gives P (gret a).
Proof. intros Ha w b w' [= <- _]. done. Qed.

Lemma gives_err {A} (P : A -> Prop) e : gives P (gerr e).
Proof. by intros w b w'. Qed.

Lemma gives_bind {A B} (Q : A -> Prop) (P : B -> Prop) (m : M (R:=R) A) (k : A -> M (R:=R) B) :
  gives Q m -> (forall a, Q a -> gives P (k a)) -> gives P (gbind m k).
Proof.
  intros Hm Hk w b w'. unfold gbind. destruct (m w) as [[a|e] w1] eqn:E; [|done]. apply Hk. by eapply Hm.
Qed.

Lemma gives_any {A} (m : M (R:=R) A) : gives (fun _ => True) m.
Proof. done. Qed.

Lemma gives_ctx_done : gives (fun stop => stop = false) (ctx_done (R:=R) None).
Proof. intros w b w' [= <- _]. done. Qed.

Lemma gives_wait d : gives (fun go => go = true) (waitForContext (R:=R) None d).
Proof. intros w b w' [= <- _]. done. Qed.

Lemma run_round_goes_on (r : Runner R) : gives (fun go => go.1 = true) (run_round None r).
Proof.
  unfold run_round. apply (gives_bind _ _ _ _ gives_ctx_done). intros ? ->.
  apply (gives_bind _ _ _ _ (gives_any _)). intros outcome _.
  apply (gives_bind _ _ _ _ gives_ctx_done). intros ? ->.
  assert (Hw : forall es, gives (fun go : bool * list error => go.1 = true)
                 (gbind (waitForContext None (pollInterval r)) (fun go => gret (go, es)))).
  { intros es. apply (gives_bind _ _ _ _ (gives_wait _)). intros ? ->. by apply gives_ret. }
  repeat case_match; auto using gives_err; by apply gives_ret.
Qed.

Lemma process_all_goes_on (wk : Worker_ R) ms : gives (fun go => go = true) (process_all None wk ms).
Proof.
  induction ms as [|m ms IH]; [by apply gives_ret|]. cbn [process_all].
  apply (gives_bind _ _ _ _ gives_ctx_done). intros ? ->. by apply (gives_bind _ _ _ _ (gives_any _)).
Qed.

Lemma stream_round_goes_on (wk : Worker_ R) : gives (fun go => go = true) (stream_round None wk).
Proof.
  unfold stream_round. cbv zeta. apply (gives_bind _ _ _ _ gives_ctx_done). intros ? ->.
  apply (gives_bind _ _ _ _ (gives_any _)). intros reclaimed _.
  apply (gives_bind _ _ _ _ gives_ctx_done). intros ? ->. rewrite andb_false_r.
  apply (gives_bind _ _ _ _ (process_all_goes_on _ _)). intros ? ->. simpl.
  apply (gives_bind _ _ _ _ (gives_any _)). intros [[|m ms]|e] _; [apply gives_wait|apply process_all_goes_on|].
  apply (gives_bind _ _ _ _ gives_ctx_done). intros ? ->. apply gives_wait.
Qed.

Lemma pump_all_goes_on (wk : Worker_ R) ms : gives (fun go => go = true) (pump_all None wk ms).
Proof.
  induction ms as [|m ms IH]; [by apply gives_ret|]. cbn [pump_all].
  apply (gives_bind _ _ _ _ gives_ctx_done). intros ? ->. by apply (gives_bind _ _ _ _ (gives_any _)).
Qed.

Lemma pump_round_goes_on (wk : Worker_ R) choice next : gives (fun tick => is_Some tick) (pump_round None choice next wk).
Proof.
  unfold pump_round. apply (gives_bind (fun tick => is_Some tick)); [by intros w a w' [= <- _]|]. intros _ [next' ->].
  apply (gives_bind (fun go => go = true)); [|intros ? ->; by apply gives_ret].
  unfold pump_tick. apply (gives_bind _ _ _ _ (gives_any _)). intros now _.
  apply (gives_bind _ _ _ _ (gives_any _)).
  assert (Hstop : gives (fun go => go = true) (let! stop := ctx_done (R:=R) None in gret (negb stop))).
  { apply (gives_bind _ _ _ _ gives_ctx_done). intros ? ->. by apply gives_ret. }
  intros [[|m ms]|e] _; [exact Hstop|apply pump_all_goes_on|exact Hstop].
Qed.

(** ** and stops at once when it is *)

Lemma ctx_done_now w : ctx_done (Some (w_now w)) w = (Ok true, w).
Proof. unfold ctx_done. by rewrite Z.leb_refl. Qed.

Lemma run_round_stops (r : Runner R) w : run_round (Some (w_now w)) r w = (Ok (false, []), w).
Proof. unfold run_round, gbind. by rewrite ctx_done_now. Qed.

Lemma stream_round_stops (wk : Worker_ R) w : stream_round (Some (w_now w)) wk w = (Ok false, w).
Proof. unfold stream_round, gbind. cbv zeta. by rewrite ctx_done_now. Qed.

Lemma pump_round_stops (wk : Worker_ R) choice next w :
  exists w', pump_round (Some (w_now w)) choice next wk w = (Ok None, w').
Proof.
  unfold pump_round, pump_wait, gbind. destruct (_ || _); [|by eexists].
  destruct (pump_tick_returns (Some (w_now w)) wk (with_clock (Z.max (w_now w) next) (w_env w) w)) as (b & w' & -> & Hb).
  exists w'. by rewrite (Hb (w_now w)) by (simpl; lia || done).
Qed.

(** [pump_round] is a turn of [retryPump]. *)
Lemma retryPump_rounds fuel c choice next (wk : Worker_ R) w :
  retryPump (S fuel) c choice next wk w =
  gbind (pump_round c choice next wk)
    (fun tick => match tick with None => gret true | Some next' => retryPump fuel c choice next' wk end) w.
Proof.
  cbn [retryPump]. unfold pump_round, gbind. destruct (pump_wait c choice next w) as [[[next'|]|e] w1]; [|done..].
  by destruct (pump_tick c wk w1) as [[[]|e] w2].
Qed.
End Loops.

(** ** The order of a shutdown *)

Section Shutdown.
Context {SC : Strconv} {LZ : LocalZone} {PG : Postgres} {R : Type} `{RedisCmds R}.
Context {NC : NetClients} {MR : MapRange} {UT : UrlText} `{!AIService R}.
Implicit Types (p : Proc (R:=R)) (w : World R).

Definition all_stopped p : Prop :=
  pr_outbox p = Stopped /\ pr_stream p = Stopped /\ pr_pump p = PumpStopped /\ pr_delivery p = Stopped.

(** [main] has called [cancelApp] in its [select]. *)
Definition past_cancel (m : main_pc) : bool := match m with Waiting | Returning _ => true | _ => false end.

Record coherent p : Prop := {
  co_cancelled : pr_cancelled p = past_cancel (pr_main p);
  co_loops : pr_outbox p = Stopped \/ pr_stream p = Stopped \/ pr_pump p = PumpStopped -> pr_cancelled p = true;
  co_delivery : pr_delivery p = Stopped -> pr_stream p = Stopped /\ pr_pump p = PumpStopped;
  co_returning : forall l, pr_main p = Returning l -> all_stopped p /\ l `suffix_of` defers_of_main;
  co_open : pr_forced p = false -> pr_accepting p = bool_decide (pr_main p = Selecting);
  co_clean : pr_forced p = false -> pr_cancelled p = true \/ pr_main p = Cancelling -> pr_requests p = ∅;
}.

Lemma launched_coherent app : coherent (launched app).
Proof. split; simpl; try done; intros; by destruct_or?. Qed.

(** Loops that go on or stop; one stops only when it is cancelled. *)
Lemma loops_coherent p o s u d :
  coherent p -> (forall l, pr_main p <> Returning l) ->
  (o = Stopped \/ s = Stopped \/ u = PumpStopped -> pr_cancelled p = true) ->
  (d = Stopped -> s = Stopped /\ u = PumpStopped) -> coherent (with_loops o s u d p).
Proof. intros [C1 C2 C3 C4 C5 C6] Hr Hs Hd. split; simpl; try done. intros l Hl. by destruct (Hr l). Qed.

Lemma cancel_coherent p : coherent p -> pr_main p = Cancelling -> coherent (cancel_app p).
Proof.
  intros [C1 C2 C3 C4 C5 C6] Hm. split; simpl; try done.
  - intros Hf. rewrite C5 by done. by rewrite Hm.
  - intros Hf _. apply C6; auto.
Qed.

Lemma round_coherent {A} p cancel (body : option Z -> M A) next w p' w' :
  coherent p -> (forall l, pr_main p <> Returning l) ->
  (forall a q, coherent q -> (forall l, pr_main q <> Returning l) -> q = p \/ q = cancel_app p ->
     pr_cancelled q = true \/ (exists w w', body None w = (Ok a, w')) -> coherent (next a q)) ->
  round p cancel body next w = Some (Some p', w') -> coherent p'.
Proof.
  intros Hc Hr Hnext. unfold round, sees. destruct cancel as [t|].
  - destruct (bool_decide_reflect (pr_main p = Cancelling)) as [Hm|]; [|done]. destruct (w_now w <=? t); [|done]. simpl.
    destruct (body (Some t) w) as [[a|e] w1]; destruct (t <=? w_now w1); try done. simpl. intros [= <- <-].
    apply Hnext; [by apply cancel_coherent|done|by right|by left].
  - simpl. destruct (body _ w) as [[a|e] w1] eqn:E; [|done]. intros [= <- <-].
    destruct (pr_cancelled p) eqn:Hk; apply Hnext; auto. right. eauto.
Qed.

Lemma looping_not_returning p :
  coherent p -> pr_outbox p = Looping \/ pr_stream p = Looping \/ pr_pump p <> PumpStopped \/ pr_delivery p = Looping ->
  forall l, pr_main p <> Returning l.
Proof. intros Hc Hl l Hm. destruct (co_returning _ Hc l Hm) as [(? & ? & ? & ?) _]. destruct Hl as [?|[?|[?|?]]]; congruence. Qed.

Lemma rounds_coherent l p w p' w' :
  coherent p -> match l with OutboxRound _ | StreamRound _ | PumpRound _ _ => True | _ => False end ->
  act l p w = Some (Some p', w') -> coherent p'.
Proof.
  intros Hc Hl. destruct l as [| |cancel|cancel| |cancel choice| | | | | | |]; try done; clear Hl; cbn [act]; unfold when, worker_done, workers_done.
  - destruct (bool_decide_reflect (pr_outbox p = Looping)) as [Hl|]; [|done]. simpl.
    apply round_coherent; [done|apply looping_not_returning; auto|]. intros go q Hq Hr _ Hcase.
    apply loops_coherent; [done|done| |apply Hq]. intros Hs. destruct Hcase as [?|(w1 & w2 & E)]; [done|].
    rewrite (run_round_goes_on _ _ _ _ E) in Hs. apply (co_loops _ Hq). naive_solver.
  - destruct (bool_decide_reflect (pr_stream p = Looping)) as [Hl|]; [|done]. simpl.
    apply round_coherent; [done|apply looping_not_returning; auto|]. intros go q Hq Hr Hqp Hcase.
    apply loops_coherent; [done|done| |].
    + intros Hs. destruct Hcase as [?|(w1 & w2 & E)]; [done|].
      rewrite (stream_round_goes_on _ _ _ _ E) in Hs. apply (co_loops _ Hq). naive_solver.
    + intros Hd. destruct (co_delivery _ Hq Hd) as [Hst _]. destruct Hqp as [-> | ->]; simpl in Hst; congruence.
  - destruct (pr_pump p) as [|next|] eqn:Hl; [done| |done].
    apply round_coherent; [done|apply looping_not_returning; [done|]; rewrite Hl; naive_solver|]. intros tick q Hq Hr Hqp Hcase.
    apply loops_coherent; [done|done| |].
    + intros Hs. destruct Hcase as [?|(w1 & w2 & E)]; [done|].
      destruct (pump_round_goes_on _ _ _ _ _ _ E) as [next' ->]. apply (co_loops _ Hq). naive_solver.
    + intros Hd. destruct (co_delivery _ Hq Hd) as [_ Hst]. destruct Hqp as [-> | ->]; simpl in Hst; congruence.
Qed.

(** Decide the guard of a move. *)
Ltac guards :=
  repeat match goal with
    | |- context [bool_decide ?P && _] => destruct (bool_decide_reflect P); simpl; [|done]
    | |- context [if bool_decide ?P then _ else _] => destruct (bool_decide_reflect P); simpl; [|done]
    end.

(** [main] moves on before the cancellation. *)
Ltac main_moves C Hm :=
  split; simpl; try done;
    first [by rewrite C, Hm
          |intros; by rewrite bool_decide_eq_false_2
          |intros _ [Hk|Hk]; [by rewrite C, Hm in Hk|done]].

Lemma act_coherent l p w p' w' : coherent p -> act l p w = Some (Some p', w') -> coherent p'.
Proof.
  intros Hc. pose proof Hc as [C1 C2 C3 C4 C5 C6].
  destruct l as [id r|id|cancel|cancel| |cancel choice| | | | | | |]; try (by apply rounds_coherent); cbn [act]; unfold when, worker_done, workers_done.
  - destruct (pr_accepting p) eqn:Ha; [|done]. simpl. destruct (_ && _); [|done]. intros [= <- <-].
    assert (Hsel : pr_forced p = false -> pr_main p = Selecting).
    { intros Hf. specialize (C5 Hf). symmetry in C5. by apply bool_decide_eq_true in C5. }
    split; simpl; try done; [by rewrite Ha|]. intros Hf Hk. rewrite C1, (Hsel Hf) in Hk. by destruct Hk.
  - destruct (pr_requests p !! id) eqn:E; [|done]. simpl. destruct (app_handler _ _ _ _) as [ans w1]. intros [= <- <-].
    split; simpl; try done. intros Hf Hk. rewrite C6 by done. apply delete_empty.
  - guards. intros [= <- <-]. apply loops_coherent; [done|apply looping_not_returning; [done|]| |].
    + right; right; left. congruence.
    + intros [?|[?|?]]; auto. done.
    + intros Hd. destruct (C3 Hd). congruence.
  - guards. intros [= <- <-]. apply loops_coherent; [done|by apply looping_not_returning; auto|done|done].
  - destruct (bool_decide_reflect (pr_main p = Selecting)) as [Hm|]; [|done]. intros [= <- <-]. main_moves C1 Hm.
  - destruct (bool_decide_reflect (pr_main p = Selecting)) as [Hm|]; [|done]. intros [= <- <-]. main_moves C1 Hm.
  - destruct (pr_main p) as [|d| | |] eqn:Hm; try done. destruct (bool_decide_reflect (pr_requests p = ∅)).
    + intros [= <- <-]. by split.
    + destruct (d <=? w_now w); [|done]. intros [= <- <-]. by split.
  - guards. intros [= <- <-]. by apply cancel_coherent.
  - destruct (bool_decide_reflect (pr_main p = Waiting)) as [Hm|]; [|done]. simpl. guards. intros [= <- <-].
    rewrite Hm in C1. split; simpl; try done.
    + intros l [= <-]. split; [|done]. destruct C3; [done|]. by split_and!.
    + intros Hf. rewrite C5 by done. by rewrite bool_decide_eq_false_2 by congruence.
    + intros Hf _. apply C6; auto.
  - destruct (pr_main p) as [| | | |[|d rest]] eqn:Hm; try done. intros [= <- <-]. split; simpl; try done.
    + intros l [= <-]. destruct (C4 _ eq_refl) as [? Hsuf]. split; [done|]. etransitivity; [|exact Hsuf]. by exists [d].
    + intros Hf _. apply C6; auto.
Qed.

Context (newPool : string -> res error unit) (applyMigrations : M (R:=R) unit) (admitted : Request -> Prop).
Abbreviation reachable := (reachable newPool applyMigrations admitted).
Implicit Types st : State (R:=R).

Lemma reachable_coherent st0 st :
  procs st0 = ∅ -> reachable st0 st -> forall i p, procs st !! i = Some p -> coherent p.
Proof.
  intros H0 Hr. induction Hr as [|st st' _ IH Hst]; [intros i p; by rewrite H0, lookup_empty|].
  destruct Hst as [locked now env http _|i env app w' _ _|env e w' _|i p l [p'|] w' Hi _ Ha|i]; simpl; [done|..].
  - intros j q [[<- <-]|[_ Hj]]%lookup_insert_Some; [apply launched_coherent|eauto].
  - done.
  - intros j q [[<- <-]|[_ Hj]]%lookup_insert_Some; [by eapply act_coherent; eauto|eauto].
  - intros j q [_ Hj]%lookup_delete_Some. eauto.
  - intros j q [_ Hj]%lookup_delete_Some. eauto.
Qed.

(** C25: a process shuts down in order.  In every state that starts, requests,
    rounds, signals, failures and kills can lead to, of every process: a loop has
    stopped only if the application context is cancelled, so as long as the server
    serves the outbox is published, the stream read and retries are pumped; the
    connections are closed only when all loops have stopped and the delivery worker
    has returned, Redis before PostgreSQL; and unless the shutdown ran into its
    deadline or the listener failed, no request is accepted once the signal has
    come and all requests are answered before the context is cancelled. *)
Theorem shutdown_in_order st0 st i p :
  procs st0 = ∅ -> reachable st0 st -> procs st !! i = Some p ->
  (pr_outbox p = Stopped \/ pr_stream p = Stopped \/ pr_pump p = PumpStopped \/ pr_delivery p = Stopped ->
     pr_cancelled p = true) /\
  (forall l, pr_main p = Returning l -> all_stopped p /\ l `suffix_of` [redisClient_Close; pgPool_Close; cancelApp; stopSignals]) /\
  (pr_forced p = false -> (pr_accepting p = true -> pr_main p = Selecting) /\ (pr_cancelled p = true -> pr_requests p = ∅)).
Proof.
  intros H0 Hr Hi. pose proof (reachable_coherent _ _ H0 Hr _ _ Hi) as Hc. split_and!.
  - intros [?|[?|[?|Hd]]]; apply (co_loops _ Hc); auto. destruct (co_delivery _ Hc Hd); auto.
  - exact (co_returning _ Hc).
  - intros Hf. split; [|intros Hk; apply (co_clean _ Hc); auto]. rewrite (co_open _ Hc Hf). by intros ?%bool_decide_eq_true.
Qed.

(** ** A shutdown comes to its end *)

Definition loop_left (x : loop) : nat := match x with Looping => 1 | Stopped => 0 end.
Definition pump_left (x : pump) : nat := match x with Starting => 2 | Ticking _ => 1 | PumpStopped => 0 end.
Definition main_left (m : main_pc) : nat := match m with Returning l => length l | _ => 5 end.

(** What a cancelled process has yet to do *)
Definition steps_left p : nat :=
  main_left (pr_main p) + loop_left (pr_outbox p) + loop_left (pr_stream p) + pump_left (pr_pump p) +
  loop_left (pr_delivery p) + size (pr_requests p).

Definition is_accept (l : label) : bool := match l with Accept _ _ => true | _ => false end.

(** A round of a loop that is cancelled *)
Lemma round_cancelled {A} p cancel (body : option Z -> M (R:=R) A) next w a w1 r :
  pr_cancelled p = true -> coherent p -> body (Some (w_now w)) w = (Ok a, w1) ->
  round p cancel body next w = Some r -> r = (Some (next a p), w1).
Proof.
  intros Hk Hc E. unfold round, sees. destruct cancel as [t|].
  - destruct (bool_decide_reflect (pr_main p = Cancelling)) as [Hm|]; [|done]. rewrite (co_cancelled _ Hc), Hm in Hk. done.
  - rewrite Hk. simpl. rewrite E. simpl. by intros [= <-].
Qed.

Lemma act_decreases l p w (p' : option Proc) w' :
  coherent p -> pr_cancelled p = true -> is_accept l = false -> act l p w = Some (p', w') ->
  exists q, p' = Some q /\ pr_cancelled q = true /\ (steps_left q < steps_left p)%nat.
Proof.
  intros Hc Hk Hl. pose proof (co_cancelled _ Hc) as Hm. rewrite Hk in Hm. unfold steps_left.
  destruct l as [id r|id|cancel|cancel| |cancel choice| | | | | | |]; try done; cbn [act]; unfold when, worker_done, workers_done.
  - destruct (pr_requests p !! id) eqn:E; [|done]. simpl. destruct (app_handler _ _ _ _) as [ans w1]. intros [= <- <-].
    eexists. split_and!; [done|done|]. simpl. rewrite map_size_delete, E.
    assert (size (pr_requests p) <> 0)%nat; [|lia]. intros Hs%map_size_empty_inv. by rewrite Hs in E.
  - destruct (bool_decide_reflect (pr_outbox p = Looping)) as [Ho|]; [|done]. simpl. intros H1.
    eapply round_cancelled in H1; [|done|done|apply run_round_stops]. simplify_eq.
    eexists. split_and!; [done|done|]. simpl. rewrite Ho. simpl. lia.
  - destruct (bool_decide_reflect (pr_stream p = Looping)) as [Ho|]; [|done]. simpl. intros H1.
    eapply round_cancelled in H1; [|done|done|apply stream_round_stops]. simplify_eq.
    eexists. split_and!; [done|done|]. simpl. rewrite Ho. simpl. lia.
  - destruct (bool_decide_reflect (pr_pump p = Starting)) as [Ho|]; [|done]. intros [= <- <-].
    eexists. split_and!; [done|done|]. simpl. rewrite Ho. simpl. lia.
  - destruct (pr_pump p) as [|next|] eqn:Ho; try done. intros H1.
    destruct (pump_round_stops (app_worker (pr_app p)) (fun _ => choice) next w) as (w1 & E).
    eapply round_cancelled in H1; [|done|done|exact E]. simplify_eq.
    eexists. split_and!; [done|done|]. simpl. lia.
  - destruct (bool_decide_reflect (pr_delivery p = Looping)) as [Ho|]; [|done]. destruct (_ && _); [|done]. intros [= <- <-].
    eexists. split_and!; [done|done|]. simpl. rewrite Ho. simpl. lia.
  - destruct (bool_decide_reflect (pr_main p = Selecting)) as [Ho|]; [|done]. by rewrite Ho in Hm.
  - destruct (bool_decide_reflect (pr_main p = Selecting)) as [Ho|]; [|done]. by rewrite Ho in Hm.
  - by destruct (pr_main p).
  - destruct (bool_decide_reflect (pr_main p = Cancelling)) as [Ho|]; [|done]. by rewrite Ho in Hm.
  - destruct (bool_decide_reflect (pr_main p = Waiting)) as [Ho|]; [|done]. destruct (_ && _); [|done]. intros [= <- <-].
    eexists. split_and!; [done|done|]. simpl. rewrite Ho. simpl. lia.
  - destruct (pr_main p) as [| | | |[|d rest]]; try done. intros [= <- <-]. eexists. split_and!; [done|done|]. simpl. lia.
Qed.

(** Unless it has ended, a cancelled process has a move. *)
Lemma cancelled_moves p w :
  coherent p -> pr_cancelled p = true -> pr_main p <> Returning [] -> exists l r, is_accept l = false /\ act l p w = Some r.
Proof.
  intros Hc Hk Hend. pose proof (co_cancelled _ Hc) as Hm. rewrite Hk in Hm.
  destruct (pr_main p) as [| | | |[|d rest]] eqn:Em; try done; [|exists RunDeferred; simpl; rewrite Em; eauto].
  destruct (pr_outbox p) eqn:Eo.
  { exists (OutboxRound None). simpl. rewrite Eo. simpl. unfold round, sees. rewrite Hk. simpl. rewrite run_round_stops. eauto. }
  destruct (pr_stream p) eqn:Es.
  { exists (StreamRound None). simpl. rewrite Es. simpl. unfold round, sees. rewrite Hk. simpl. rewrite stream_round_stops. eauto. }
  destruct (pr_pump p) as [|next|] eqn:Ep.
  { exists PumpStart. simpl. rewrite Ep. simpl. eauto. }
  { exists (PumpRound None true). simpl. rewrite Ep. unfold round, sees. rewrite Hk. simpl.
    destruct (pump_round_stops (app_worker (pr_app p)) (fun _ => true) next w) as (w1 & ->). eauto. }
  destruct (pr_delivery p) eqn:Ed.
  { exists WorkerReturns. simpl. unfold worker_done. rewrite Ed, Es, Ep. simpl. eauto. }
  exists WaitReturns. simpl. unfold workers_done. rewrite Em, Eo, Ed. simpl. eauto.
Qed.

(** A sequence of moves of a process *)
Fixpoint acts (ls : list label) (p : Proc (R:=R)) (w : World R) : option (option Proc * World R) :=
  match ls with
  | [] => Some (Some p, w)
  | l :: rest => match act l p w with
                 | Some (Some p', w') => acts rest p' w'
                 | Some (None, w') => match rest with [] => Some (None, w') | _ => None end
                 | None => None
                 end
  end.

Lemma acts_bounded ls : forall p w (p' : option Proc) w',
  coherent p -> pr_cancelled p = true -> forallb (fun l => negb (is_accept l)) ls = true -> acts ls p w = Some (p', w') ->
  exists q, p' = Some q /\ coherent q /\ pr_cancelled q = true /\ (length ls + steps_left q <= steps_left p)%nat.
Proof.
  induction ls as [|l ls IH]; intros p w p' w' Hc Hk Hl; cbn [acts].
  - intros [= <- <-]. by exists p.
  - simpl in Hl. apply andb_prop in Hl as [Hn Hl]. apply negb_true_iff in Hn.
    destruct (act l p w) as [[o w1]|] eqn:E; [|done].
    destruct (act_decreases _ _ _ _ _ Hc Hk Hn E) as (q & -> & Hkq & Hlt). intros Ha.
    destruct (IH _ _ _ _ (act_coherent _ _ _ _ _ Hc E) Hkq Hl Ha) as (q' & -> & ? & ? & ?).
    exists q'. split_and!; try done. simpl. lia.
Qed.

(** C26: a shutdown comes to its end.  Once [cancelApp] has been called, whatever
    the servers answer or however long they take, a process makes at most ten more
    moves and one for each request in flight before it has ended (new requests of
    connections that are still open, after a failed listener, apart); it never
    panics on the way, and as long as it has not ended it has a next move. *)
Theorem shutdown_terminates st0 st i p :
  procs st0 = ∅ -> reachable st0 st -> procs st !! i = Some p -> pr_cancelled p = true ->
  (steps_left p <= 10 + size (pr_requests p))%nat /\
  forall ls w (p' : option Proc) w',
    forallb (fun l => negb (is_accept l)) ls = true -> acts ls p w = Some (p', w') ->
    (length ls <= steps_left p)%nat /\
    exists q, p' = Some q /\ (pr_main q = Returning [] \/ exists l r, is_accept l = false /\ act l q w' = Some r).
Proof.
  intros H0 Hr Hi Hk. pose proof (reachable_coherent _ _ H0 Hr _ _ Hi) as Hc. split.
  - unfold steps_left. assert (main_left (pr_main p) <= 5)%nat.
    { destruct (pr_main p) as [| | | |l] eqn:Em; simpl; try lia. destruct (co_returning _ Hc l Em) as [_ Hs].
      apply suffix_length in Hs. unfold defers_of_main in Hs. simpl in Hs. lia. }
    assert (loop_left (pr_outbox p) <= 1)%nat by (destruct (pr_outbox p); simpl; lia).
    assert (loop_left (pr_stream p) <= 1)%nat by (destruct (pr_stream p); simpl; lia).
    assert (loop_left (pr_delivery p) <= 1)%nat by (destruct (pr_delivery p); simpl; lia).
    assert (pump_left (pr_pump p) <= 2)%nat by (destruct (pr_pump p); simpl; lia). lia.
  - intros ls w p' w' Hl Ha. destruct (acts_bounded _ _ _ _ _ Hc Hk Hl Ha) as (q & -> & Hcq & Hkq & Hlt).
    split; [lia|]. exists q. split; [done|]. destruct (decide (pr_main q = Returning [])) as [|Hne]; [by left|right].
    by apply cancelled_moves.
Qed.
End Shutdown.

(** ** A run *)

(** A process takes an event, publishes and delivers it and is told to stop. *)
Definition boot_and_serve : list move :=
  [Boot 0 sample_env; Act 0 PumpStart; Act 0 (Accept 7 (post "/events" order_body [])); Act 0 (Handle 7);
   Act 0 (OutboxRound None); Act 0 (StreamRound None); Act 0 Signal; Act 0 ShutdownReturns; Act 0 CancelApp].
Definition wind_down : list label :=
  [StreamRound None; OutboxRound None; PumpRound None false; WorkerReturns; WaitReturns;
   RunDeferred; RunDeferred; RunDeferred; RunDeferred].

Definition nothing_runs : State (R:=SimRedis) := mkState ∅ (sim_world empty_db empty_redis 0 [] []).
Definition served : option State := schedule (fun _ => Ok tt) (gret tt) boot_and_serve nothing_runs.
Definition ended : option State := schedule (fun _ => Ok tt) (gret tt) (boot_and_serve ++ map (Act 0) wind_down) nothing_runs.

Lemma shutdown_in_order_witness :
  exists st p, ended = Some st /\ procs st !! 0%nat = Some p /\ pr_main p = Returning [] /\ pr_forced p = false /\
    all_stopped p /\ pr_requests p = ∅.
Proof.
  assert (match ended with
          | Some st => match procs st !! 0%nat with
                       | Some p => bool_decide (pr_main p = Returning []) && negb (pr_forced p) && pr_cancelled p
                       | None => false end
          | None => false end = true) as Hc by (vm_compute; reflexivity).
  destruct ended as [st|] eqn:E; [|discriminate Hc]. destruct (procs st !! 0%nat) as [p|] eqn:Ep; [|discriminate Hc].
  apply andb_prop in Hc as [Hc Hk]. apply andb_prop in Hc as [Hm Hf]. apply bool_decide_eq_true in Hm. apply negb_true_iff in Hf.
  assert (reachable (fun _ => Ok tt) (gret tt) (fun _ => True) nothing_runs st) as Hr.
  { eapply schedule_reachable; [apply reach_start| |exact E]. repeat constructor. }
  destruct (shutdown_in_order (fun _ => Ok tt) (gret tt) (fun _ => True) nothing_runs st 0 p eq_refl Hr Ep) as (_ & H2 & H3).
  exists st, p. split; [reflexivity|]. split; [exact Ep|]. split; [exact Hm|]. split; [exact Hf|].
  split; [exact (proj1 (H2 [] Hm))|exact (proj2 (H3 Hf) Hk)].
Defined.

Lemma shutdown_terminates_witness :
  exists st p, served = Some st /\ procs st !! 0%nat = Some p /\ pr_cancelled p = true /\
    exists q w', acts wind_down p (world st) = Some (Some q, w') /\ (length wind_down <= steps_left p)%nat.
Proof.
  assert (match served with
          | Some st => match procs st !! 0%nat with
                       | Some p => pr_cancelled p && match acts wind_down p (world st) with Some (Some _, _) => true | _ => false end
                       | None => false end
          | None => false end = true) as Hc by (vm_compute; reflexivity).
  destruct served as [st|] eqn:E; [|discriminate Hc]. destruct (procs st !! 0%nat) as [p|] eqn:Ep; [|discriminate Hc].
  apply andb_prop in Hc as [Hk Ha].
  destruct (acts wind_down p (world st)) as [[[q|] w']|] eqn:Eq; [|discriminate Ha|discriminate Ha].
  assert (reachable (fun _ => Ok tt) (gret tt) (fun _ => True) nothing_runs st) as Hr.
  { eapply schedule_reachable; [apply reach_start| |exact E]. repeat constructor. }
  destruct (shutdown_terminates (fun _ => Ok tt) (gret tt) (fun _ => True) nothing_runs st 0 p eq_refl Hr Ep Hk) as (_ & H2).
  exists st, p. split; [reflexivity|]. split; [exact Ep|]. split; [exact Hk|]. exists q, w'. split; [exact Eq|].
  exact (proj1 (H2 wind_down (world st) (Some q) w' eq_refl Eq)).
Defined.

End Process.
