(* ===== verification/ProcessFacts.v ===== *)
(** * ProcessFacts: what all processes keep

    What [System] shows of single calls of the components is carried to whole
    processes.  [Kept] says what an invariant of the servers has to promise; then
    every round of every loop, every request to the server and every start keeps it,
    and it holds in every state that any number of processes can reach together.
    The instances are that the tables are well formed, and that no event is lost. *)

From S2P Require Import Prelude GoStrings GoErrors GoTime Json GoHttp Config Database DatabaseFacts RedisServer World WorldFacts RedisFacts.
From S2P Require Import Simulation Operations Ingestion Samples Outbox RedisStream AiTriage HttpApi OperationalHandlers.
From S2P Require Import HttpFacts EventExplain Replay ReplayFacts Worker WorkerFacts System Server Process.
Import Operations Ingestion Outbox RedisStream AiTriage HttpApi OperationalHandlers HttpFacts EventExplain Replay.
Import Worker WorkerFacts Server.Server Process.

Module ProcessFacts.

Section Facts.
Context {SC : Strconv} {LZ : LocalZone} {PG : Postgres} {R : Type} `{RedisCmds R, !RedisLaws R}.
Context {NC : NetClients} {MR : MapRange} {UT : UrlText} `{!AIService R}.
Abbreviation M := (M (R:=R)).
Abbreviation W := (World R).
Implicit Types w : W.

(** All processes use one stream, group and retry set, so the invariant is the same
    for the workers of all of them. *)
Definition the_publisher : Publisher := mkPublisher (Some TheClient) EventStream.

(** Any configuration *)
Definition some_config : Config.Config := Config.mkConfig "" "" "" 0 "" 0 0 0.

(** ** What is kept *)

Definition stays (I : W -> Prop) (w w' : W) : Prop := I w -> I w'.

#[global] Instance stays_preorder I : PreOrder (stays I).
Proof. split; unfold stays; [intros w|intros w1 w2 w3]; auto. Qed.

(** [I] is about tables and Redis, and is kept by the calls of [System], by a replay
    and, for the requests that are [ok], by moving a cursor. *)
Class Kept (I : W -> Prop) (ok : Request -> Prop) : Prop := {
  kept_tx : forall w, I w -> w_tx w = None;
  kept_unchanged : forall w w', unchanged w w' -> stays I w w';
  kept_call : forall cfg w w',
    System.System.step (deliveryWorker cfg) the_publisher operationsStore w w' -> stays I w w';
  kept_xadd : forall v, keeps (stays I) (XAdd EventStream v);
  kept_cursor : forall r rw, Path r = "/consumer-groups/set-cursor" -> ok r -> keeps (stays I) (setCursor r rw);
}.

Section Kept.
Context (I : W -> Prop) (ok : Request -> Prop) `{!Kept I ok}.

Lemma keeps_intact {A} (m : M A) : keeps unchanged m -> keeps (stays I) m.
Proof. intros Hm w. apply kept_unchanged, Hm. Qed.

Lemma publish_intact base max :
  keeps (stays I) (PublishNextOutboxEvent (Some ThePool) (Some (Publish (Some the_publisher))) base max : M _).
Proof. intros w. eapply (kept_call some_config), System.System.step_publish, surjective_pairing. Qed.

Lemma persist_intact req key : keeps (stays I) (PersistEventWithOutbox req key : M _).
Proof. intros w. eapply (kept_call some_config), System.System.step_ingest, surjective_pairing. Qed.

Lemma redrive_intact id : keeps (stays I) (RedriveDLQ operationsStore id (Some (XAdd EventStream)) : M _).
Proof. intros w. eapply (kept_call some_config), System.System.step_redrive, surjective_pairing. Qed.

Lemma group_intact cfg : keeps (stays I) (EnsureConsumerGroup (deliveryWorker cfg) : M _).
Proof. intros w. eapply (kept_call cfg), System.System.step_group, surjective_pairing. Qed.

Lemma pump_intact cfg m :
  keeps (stays I) (republishRetryMember m (pump_publish (deliveryWorker cfg)) (pump_remove (deliveryWorker cfg)) : M _).
Proof. intros w. eapply (kept_call cfg), System.System.step_pump, surjective_pairing. Qed.

Lemma time_intact {A} (m : M A) : (forall w, exists r t, m w = (r, with_clock t (w_env w) w)) -> keeps (stays I) m.
Proof. intros Hm. apply keeps_intact. intros w. destruct (Hm w) as (r & t & ->). done. Qed.

Lemma ctx_done_intact c : keeps (stays I) (ctx_done c : M _).
Proof. apply keeps_intact. by intros w. Qed.

Lemma wait_intact c d : keeps (stays I) (waitForContext c d : M _).
Proof. apply time_intact. intros w. unfold waitForContext. repeat case_match; eauto. Qed.

Lemma time_now_intact : keeps (stays I) (time_now : M _).
Proof. apply keeps_intact. by intros w. Qed.

#[local] Hint Resolve publish_intact persist_intact redrive_intact group_intact pump_intact
  ctx_done_intact wait_intact time_now_intact : rail.

(** ** The loops *)

Lemma runner_intact c interval base max :
  keeps (stays I)
    (run_round c (mkRunner (PublishNextOutboxEvent (Some ThePool) (Some (Publish (Some the_publisher))) base max) interval) : M _).
Proof. unfold run_round. keeps_all. Qed.

Lemma pump_round_intact c choice next cfg : keeps (stays I) (pump_round c choice next (deliveryWorker cfg) : M _).
Proof.
  unfold pump_round, pump_tick.
  assert (forall ms, keeps (stays I) (pump_all c (deliveryWorker cfg) ms : M _)) as Hall.
  { induction ms as [|m ms IH]; cbn [pump_all]; [keeps_all|]. unfold logged. keeps_all. }
  keeps_all; try apply Hall.
  - apply time_intact. intros w. unfold pump_wait. repeat case_match; eauto.
  - apply keeps_intact. intros w. destruct (redis_cmd _ w) as [r w'] eqn:E.
    apply redis_cmd_inv in E as (H1 & H2 & _ & _ & _ & _ & [(t & _ & H3)|(y & Hr & _)]); [done|].
    split_and!; [done|done|]. symmetry. revert Hr. apply (repeats_keeps _ eq). by intros n1 r1 a1 r2 [= _ <-].
Qed.

(** *** The stream loop *)

(** A message that was handed out is on the stream and stays there. *)
Definition on_event_stream (m : XMessage) (w : W) : Prop := m ∈ stream (w_redis w) EventStream.

Lemma processed_stays cfg msg m w r w' :
  processStreamMessage (deliveryWorker cfg) msg w = (r, w') -> w_tx w = None -> on_event_stream m w -> on_event_stream m w'.
Proof.
  intros Hp Htx Hm. apply (processStreamMessage_cases (deliveryWorker cfg) store_effects) in Hp as (_ & _ & Ho); [|done].
  assert (Hgrow : forall r', redis_grows (w_redis w) r' -> m ∈ stream r' EventStream).
  { intros r' (Hs & _). destruct (Hs EventStream) as [l ->]. set_solver. }
  unfold on_event_stream. destruct Ho as [_ -> _|db1 _ _ Hst|db1 r2 _ Hse Hack]; [done|by eapply Hgrow, staged_grows|].
  apply settles_grows, Hgrow in Hse. destruct Hack as [->|(Hs & _)]; [done|]. by rewrite Hs.
Qed.

Lemma process_all_intact c cfg ms : forall w, I w -> Forall (fun m => on_event_stream m w) ms ->
  I (process_all c (deliveryWorker cfg) ms w).2.
Proof.
  induction ms as [|m ms IH]; intros w Hw Hms; [done|]. apply Forall_cons in Hms as [Hm Hms]. cbn [process_all].
  unfold gbind at 1, ctx_done. destruct (match c with Some t => t <=? w_now w | None => false end); [done|].
  unfold gbind. destruct (processStreamMessage (deliveryWorker cfg) m w) as [r w1] eqn:E.
  assert (Hw1 : I w1).
  { eapply (kept_call cfg); [|done]. eapply System.System.step_process; [exact Hm|exact E]. }
  destruct r; [|done]. apply IH; [done|]. eapply Forall_impl; [exact Hms|]. intros x Hx. eapply processed_stays; [exact E| |done].
  by apply kept_tx.
Qed.

Lemma read_intact {A} (m : M (list A)) (P : list A -> W -> Prop) (k : res error (list A) -> M bool) w :
  I (m w).2 ->
  (forall ms, (m w).1 = Ok ms -> P ms (m w).2) ->
  (forall r w', I w' -> (forall ms, r = Ok ms -> P ms w') -> I (k r w').2) ->
  I (gbind (catch m) k w).2.
Proof. intros H1 H2 H3. unfold gbind, catch. destruct (m w) as [r w']. simpl in *. by apply H3. Qed.

(** Messages that the server hands out are on the stream. *)
Lemma handed_out (cmd : Z -> R -> list XMessage * R) w :
  (forall now r ms r', cmd now r = (ms, r') ->
     same_streams r r' /\ forall m, m ∈ ms -> m ∈ stream r EventStream) ->
  forall ms, (redis_cmd cmd w).1 = Ok ms -> Forall (fun m => on_event_stream m (redis_cmd cmd w).2) ms.
Proof.
  intros Hcmd ms. destruct (redis_cmd cmd w) as [r w'] eqn:E. simpl. intros ->.
  apply redis_cmd_inv in E as (_ & _ & _ & _ & _ & _ & [(t & ? & _)|(a & Hc & Ha)]); [done|].
  assert (a = ms) as -> by (destruct Ha as [?|(t & ?)]; congruence).
  assert (PreOrder (fun _ _ : R => True)) by (split; red; auto).
  destruct (repeats_last _ _ _ _ (fun _ _ => True) (fun _ _ _ _ _ => Logic.I) Hc) as (now & r1 & _ & Hl).
  apply Hcmd in Hl as [Hs Hin]. apply Forall_forall. intros m Hm. unfold on_event_stream. rewrite Hs. auto.
Qed.

Lemma stream_round_intact c cfg : keeps (stays I) (stream_round c (deliveryWorker cfg) : M _).
Proof.
  intros w Hw. unfold stream_round. cbv zeta. unfold gbind at 1, ctx_done at 1.
  destruct (match c with Some t => t <=? w_now w | None => false end); [done|].
  set (cf := config (deliveryWorker cfg)). change (Stream cf) with EventStream. change (Worker.ConsumerGroup cf) with ConsumerGroup.
  eapply (read_intact _ (fun ms w' => Forall (fun m => on_event_stream m w') ms)).
  { eapply (kept_call cfg); [|exact Hw]. eapply System.System.step_reclaim, surjective_pairing. }
  { unfold reclaimPendingMessagesForConsumer. apply handed_out. intros now r ms r' Hx.
    pose proof (xautoclaim_frame _ _ _ _ _ _ _ _ _ Hx) as (Hs & _). split; [done|]. intros m Hm.
    by apply (xautoclaim_msgs _ _ _ _ _ _ _ _ _ Hx). }
  intros reclaimed w1 Hw1 Hms. unfold gbind at 1, ctx_done at 1.
  destruct (negb (is_ok reclaimed) && _); [done|].
  assert (Hms1 : Forall (fun m => on_event_stream m w1) (match reclaimed with Ok ms => ms | Err _ => [] end)).
  { destruct reclaimed; [by apply Hms|constructor]. }
  pose proof (process_all_intact c cfg _ w1 Hw1 Hms1) as Hw2. unfold gbind at 1.
  destruct (process_all c (deliveryWorker cfg) _ w1) as [[[]|e] w2]; simpl negb; [|done|done]. cbv iota.
  eapply (read_intact _ (fun ms w' => Forall (fun m => on_event_stream m w') ms)).
  { eapply (kept_call cfg); [|exact Hw2]. eapply System.System.step_read, surjective_pairing. }
  { apply handed_out. intros now r ms r' Hx. pose proof (xreadgroup_frame _ _ _ _ _ _ _ _ Hx) as (Hs & _).
    split; [done|]. intros m Hm. by apply (xreadgroup_msgs _ _ _ _ _ _ _ _ Hx). }
  intros [[|m ms]|e] w3 Hw3 Hms3.
  - by apply wait_intact.
  - apply process_all_intact; [done|]. by apply Hms3.
  - assert (keeps (stays I) (let! stop := ctx_done c in
              if stop : bool then gret false else waitForContext c (500 * Millisecond) : M _)) as Hk by keeps_all.
    by apply Hk.
Qed.

(** ** The server *)

Lemma replay_intact r rw : keeps (stays I) (newReplayHandler pool_events (XAdd EventStream) r rw : M _).
Proof.
  assert (Hloop : forall rows limit p cur, keeps (stays I) (replay_loop (XAdd EventStream) limit rows p cur : M _)).
  { induction rows as [|[row|] rows IH]; intros limit p cur; cbn [replay_loop]; keeps_all. apply kept_xadd. }
  assert (Hpool : forall q args, keeps (stays I) (pool_events q args : M _)).
  { intros q args. unfold pool_events. apply keeps_intact. keeps_all. }
  unfold newReplayHandler. keeps_all; auto.
Qed.

Lemma Explain_unchanged c q : keeps unchanged (Explain c q : M explainResponse).
Proof. unfold Explain. keeps_all. intros w. apply ai_do_frame. Qed.
#[local] Hint Resolve EventStatus_unchanged DLQDetail_unchanged Explain_unchanged : rail.

Lemma explain_unchanged c r rw :
  keeps unchanged (NewEventExplainHandler (storeReader operationsStore) (Some (Explain c)) r rw : M _).
Proof.
  unfold NewEventExplainHandler, guarded, explainRequestFromStore, storeReader. cbn [ReadEventStatus ReadDLQDetail].
  keeps_all.
Qed.

Lemma dlq_intact c r rw :
  keeps (stays I) (NewDLQHandler operationsStore (Some (XAdd EventStream)) (Some (Triage c)) r rw : M _).
Proof.
  unfold NewDLQHandler. destruct (String.eqb _ ""); [apply keeps_intact, dlq_list_unchanged|].
  destruct (Split _ "/") as [|id [|action [|x l]]]; try (apply keeps_intact; keeps_all; fail).
  - apply keeps_intact, dlq_detail_unchanged.
  - destruct (String.eqb action "redrive"); [unfold handleDLQRedrive, guarded; keeps_all|].
    destruct (String.eqb action "triage"); [apply keeps_intact, dlq_triage_unchanged|keeps_all].
Qed.

Lemma events_intact c r rw :
  keeps (stays I) (eventsHandler (NewEventExplainHandler (storeReader operationsStore) (Some (Explain c)))
                       (NewEventStatusHandler operationsStore) r rw : M _).
Proof.
  unfold eventsHandler. destruct (HasSuffix _ "/explain"); [apply keeps_intact, explain_unchanged|].
  destruct (HasSuffix _ "/status"); [apply keeps_intact, status_handler_unchanged|].
  apply keeps_intact. unfold getEvent. keeps_all.
Qed.

(** A request that a pattern without a trailing slash matches has its path. *)
Lemma matched_path pattern r :
  HasSuffix pattern "/" = false -> pattern_matches pattern (EscapedPath r) = true -> Path r = pattern.
Proof.
  unfold pattern_matches. intros -> Hp%bool_decide_eq_true. unfold Split in Hp. rewrite map_map in Hp.
  destruct (unescape_segments _ _ _ (Nat.le_refl _) (unescape_EscapedPath r)) as (segs & Hs & Hj).
  assert (map String.string_of_list_ascii segs = map String.string_of_list_ascii (split_list "/" (chars pattern))) as Hm.
  { rewrite <- Hp. clear - Hs. induction Hs as [|x y xs ys Hx _ IH]; [done|]. cbn [map]. rewrite <- IH. f_equal.
    unfold pathUnescape. cbn. unfold chars. by rewrite String.list_ascii_of_string_of_list_ascii, Hx. }
  assert (Inj (=) (=) String.string_of_list_ascii) as Hinj.
  { intros x y E%(f_equal String.list_ascii_of_string). by rewrite !String.list_ascii_of_string_of_list_ascii in E. }
  apply list_fmap_eq_inj in Hm; [|exact Hinj]. rewrite Hm, join_split in Hj.
  apply (f_equal String.string_of_list_ascii) in Hj. by rewrite !String.string_of_list_ascii_of_string in Hj.
Qed.

(** A handler for the paths of a pattern *)
Definition route_intact (ph : string * HttpApi.Handler (R:=R)) : Prop :=
  forall r rw, pattern_matches ph.1 (EscapedPath r) = true -> ok r -> keeps (stays I) (ph.2 r rw).

Lemma routes_intact c : Forall route_intact (routes c).
Proof.
  unfold routes. cbv zeta. repeat (apply Forall_cons; split); [..|apply Forall_nil; exact Logic.I]; intros r rw Hp Hs; cbn [fst snd] in *.
  - apply keeps_intact. unfold NewLivenessHandler, guarded. keeps_all.
  - apply keeps_intact. unfold NewReadinessHandler, guarded, dependencyStatus. keeps_all; apply ping_unchanged.
  - apply keeps_intact. unfold NewReadinessHandler, guarded, dependencyStatus. keeps_all; apply ping_unchanged.
  - apply keeps_intact. unfold NewVersionHandler, guarded. keeps_all.
  - apply dlq_intact.
  - apply dlq_intact.
  - apply keeps_intact, metrics_handler_unchanged.
  - unfold NewCreateEventHandler, guarded. keeps_all.
  - apply events_intact.
  - apply replay_intact.
  - apply kept_cursor; [|done]. by apply matched_path.
Qed.

Lemma server_intact c r : ok r -> keeps (stays I) (serverHandler c r new_writer : M _).
Proof.
  intros Hs. unfold serverHandler, WithCORS. cbv zeta. destruct (String.eqb (Method r) "OPTIONS"); [keeps_all|].
  match goal with |- keeps _ (ServeMux _ _ ?x) => generalize x end. intros rw.
  unfold ServeMux. cbv zeta. destruct (String.eqb (Path r) "*"); [keeps_all|]. destruct (_ && _); [keeps_all|].
  destruct (filter _ (routes c)) as [|[p h] l] eqn:E; [keeps_all|].
  assert ((p, h) ∈ filter (fun ph => pattern_matches ph.1 (EscapedPath r) = true) (routes c)) as Hin by (rewrite E; left).
  apply list_elem_of_filter in Hin as [Hm Hin]. pose proof (routes_intact c) as Hall. rewrite Forall_forall in Hall.
  by apply (Hall (p, h)).
Qed.

(** ** Starting *)

(** The components of a process are those [main] wires together. *)
Definition of_main (app : App (R:=R)) : Prop := exists cfg, wired cfg app /\ app_worker app = deliveryWorker cfg.

Section Start.
Context (newPool : string -> res error unit) (applyMigrations : M unit).

Lemma start_intact env : keeps unchanged applyMigrations ->
  keeps (stays I) (Server.Server.start newPool applyMigrations env : M _).
Proof. intros Hm. unfold Server.Server.start. keeps_all. by apply keeps_intact. Qed.

Lemma start_of_main env w app w' : Server.Server.start newPool applyMigrations env w = (Ok app, w') -> of_main app.
Proof.
  unfold Server.Server.start. intros Hs.
  apply gbind_inv_ok in Hs as (cfg & w1 & _ & Hs). apply gbind_inv_ok in Hs as (_ & w2 & _ & Hs).
  apply gbind_inv_ok in Hs as (_ & w3 & _ & Hs). cbv zeta in Hs. apply gbind_inv_ok in Hs as (_ & w4 & _ & Hs).
  apply gbind_inv_ok in Hs as (pub & w5 & Hp & Hs). apply gbind_inv_ok in Hs as (run & w6 & Hr & Hs).
  apply wrap_err_inv_ok in Hp, Hr. unfold lift_res in *. vm_compute in Hp. unfold NewRunner in Hr.
  unfold gret in Hs. destruct (Config.OutboxPollInterval cfg <=? 0); simplify_eq/=. exists cfg. by repeat split.
Qed.
End Start.

(** ** Moves *)

Lemma round_intact {A} p cancel (body : option Z -> M A) next w r w' :
  (forall c, keeps (stays I) (body c)) -> round p cancel body next w = Some (r, w') -> (stays I) w w'.
Proof.
  intros Hb. unfold round. destruct (sees p cancel w) as [c|]; [|done]. simpl. specialize (Hb c w).
  destruct (body c w) as [x w1]. destruct cancel as [t|]; [destruct (t <=? w_now w1)|]; simpl; try done; by intros [= <- <-].
Qed.

Lemma act_intact l p w r w' :
  of_main (pr_app p) -> (forall id q, pr_requests p !! id = Some q -> ok q) ->
  act l p w = Some (r, w') -> (stays I) w w'.
Proof.
  intros (cfg & (_ & _ & Hrun & Hh) & Hwk) Hreq. unfold act, when.
  assert (Hsame : forall (q q' : option (Proc (R:=R))) (v : W), Some (q, v) = Some (q', w') -> (stays I) v w') by (by intros q q' v [= <- <-]).
  destruct l; try (repeat case_match; try done; by apply Hsame).
  - destruct (pr_requests p !! id) as [q|] eqn:E; [|done]. simpl. rewrite Hh.
    pose proof (server_intact (NewAITriageClient (Config.AIServiceURL cfg) (Some (Config.AIServiceTimeout cfg))) q
                  (Hreq _ _ E) w) as Hk. destruct (serverHandler _ q new_writer w) as [x w1]. by intros [= <- <-].
  - destruct (bool_decide _); [|done]. simpl. apply round_intact. intros c. rewrite Hrun. apply runner_intact.
  - destruct (bool_decide _); [|done]. simpl. apply round_intact. intros c. rewrite Hwk. apply stream_round_intact.
  - destruct (pr_pump p); try done. apply round_intact. intros c. rewrite Hwk. apply pump_round_intact.
Qed.

(** ** All processes together *)

Section Processes.
Context (newPool : string -> res error unit) (applyMigrations : M unit) (Hmigrated : keeps unchanged applyMigrations).
Implicit Types (st : State (R:=R)).

(** What is known of every process *)
Definition admits_all st : Prop :=
  forall i p, procs st !! i = Some p ->
    of_main (pr_app p) /\ forall id q, pr_requests p !! id = Some q -> ok q.

Lemma round_app {A} p cancel (body : option Z -> M A) next w p' w' :
  (forall a q, pr_app (next a q) = pr_app q /\ pr_requests (next a q) = pr_requests q) ->
  round p cancel body next w = Some (Some p', w') -> pr_app p' = pr_app p /\ pr_requests p' = pr_requests p.
Proof.
  intros Hn. unfold round. destruct (sees p cancel w) as [c|]; [|done]. simpl.
  destruct (body c w) as [[a|e] w1]; (destruct cancel as [t|]; [destruct (t <=? w_now w1)|]); simpl; try done;
    intros [= <- <-]; [exact (Hn a (cancel_app p))|apply Hn].
Qed.

Lemma act_app l p w p' w' :
  act l p w = Some (Some p', w') ->
  pr_app p' = pr_app p /\
  forall id q, pr_requests p' !! id = Some q -> pr_requests p !! id = Some q \/ l = Accept id q.
Proof.
  unfold act, when.
  assert (Hno : pr_app p' = pr_app p /\ pr_requests p' = pr_requests p ->
    pr_app p' = pr_app p /\ forall id q, pr_requests p' !! id = Some q -> pr_requests p !! id = Some q \/ l = Accept id q).
  { intros [-> ->]. auto. }
  destruct l; try (repeat case_match; try done; intros [= <- <-]; by apply Hno).
  - destruct (_ && _); [|done]. intros [= <- <-]. split; [done|]. simpl.
    intros j q [[-> ->]|[_ Hj]]%lookup_insert_Some; auto.
  - destruct (pr_requests p !! id); [|done]. simpl. destruct (app_handler _ _ _ _). intros [= <- <-]. split; [done|]. simpl.
    intros j q [_ Hj]%lookup_delete_Some. auto.
  - destruct (bool_decide _); [|done]. simpl. intros Hr. by eapply Hno, round_app, Hr.
  - destruct (bool_decide _); [|done]. simpl. intros Hr. by eapply Hno, round_app, Hr.
  - destruct (pr_pump p); try done. intros Hr. by eapply Hno, round_app, Hr.
Qed.

Lemma step_intact st st' :
  step newPool applyMigrations ok st st' -> admits_all st -> I (world st) -> admits_all st' /\ I (world st').
Proof.
  intros Hst Ha Hw.
  destruct Hst as [locked now env http Hnow|i env app w' Hi Hs|env e w' Hs|i p l p' w' Hi Hl Hact|i]; simpl.
  - split; [done|]. revert Hw. eapply (kept_call some_config), System.System.step_environment; [exact Hnow|done].
  - split.
    + intros j p. simpl. rewrite lookup_insert_Some. intros [[<- <-]|[_ Hj]]; [|eauto].
      split; [by eapply start_of_main|]. intros id q. simpl. by rewrite lookup_empty.
    + pose proof (start_intact newPool applyMigrations env Hmigrated (world st) Hw) as Hk. by rewrite Hs in Hk.
  - split; [done|]. pose proof (start_intact newPool applyMigrations env Hmigrated (world st) Hw) as Hk. by rewrite Hs in Hk.
  - destruct (Ha _ _ Hi) as [Hm Hreq]. split; [|by eapply act_intact].
    destruct p' as [p'|]; intros j q; simpl; [|intros [_ Hj]%lookup_delete_Some; eauto].
    rewrite lookup_insert_Some. intros [[<- <-]|[_ Hj]]; [|eauto].
    destruct (act_app _ _ _ _ _ Hact) as [-> Hr]. split; [done|]. intros id r [?| ->]%Hr; [eauto|]. by eapply Hl.
  - split; [|done]. intros j q. simpl. intros [_ Hj]%lookup_delete_Some. eauto.
Qed.

Lemma reachable_kept st0 st :
  procs st0 = ∅ -> I (world st0) -> reachable newPool applyMigrations ok st0 st -> admits_all st /\ I (world st).
Proof.
  intros H0 Hi Hr. induction Hr as [|st st' _ [IH1 IH2] Hst]; [|by eapply step_intact].
  split; [intros i p; by rewrite H0, lookup_empty|done].
Qed.
End Processes.
End Kept.

(** ** Well-formed tables *)

Definition well_formed (w : W) : Prop := w_tx w = None /\ schema_ok (w_db w).

#[global] Instance well_formed_kept : Kept well_formed (fun _ => True).
Proof.
  assert (Hdb : forall w w', w_db w' = w_db w -> w_tx w' = w_tx w -> stays well_formed w w').
  { intros w w' Hd Ht [? ?]. split; congruence. }
  split.
  - by intros w [? _].
  - intros w w' (? & ? & _). by apply Hdb.
  - intros cfg w w' Hs [Ht Ho]. by eapply (System.System.step_schema (deliveryWorker cfg) the_publisher operationsStore).
  - intros v w. destruct (XAdd EventStream v w) as [r w'] eqn:E. apply XAdd_inv in E as (X1 & X2 & _). by apply Hdb.
  - intros r rw _ _ w. unfold setCursor. destruct (negb _); [done|].
    destruct (DecodeJSONRequest setGroupCursorRequest_of r) as [req|e]; [|done]. cbv zeta.
    destruct (String.eqb (TrimSpace (sg_StartID req)) ""); [done|]. unfold gbind, catch. destruct (XGroupSetID _ _ _ w) as [x w'] eqn:E.
    apply XGroupSetID_inv in E as (X1 & X2 & _). by apply Hdb.
Qed.

(** ** No event is lost *)

(** A request that moves the cursor of the worker group past entries *)
Definition skips_entries (r : Request) : bool :=
  match DecodeJSONRequest setGroupCursorRequest_of r with
  | Ok req => String.eqb (asked_group req) ConsumerGroup && negb (bool_decide (asked_start req ∈ ["0"; "0-0"]))
  | Err _ => false
  end && String.eqb (Path r) "/consumer-groups/set-cursor".

Definition admitted (r : Request) : Prop := skips_entries r = false.

(** All processes use one stream, group and retry set, so this says the same of the
    workers of all of them. *)
Definition lossless (w : W) : Prop := forall cfg, System.System.inv (deliveryWorker cfg) w.

Lemma unchanged_lossless w w' : unchanged w w' -> stays lossless w w'.
Proof. intros (Hd & Ht & Hr) Hs cfg. destruct (Hs cfg) as [I1 I2 I3]. split; by rewrite ?Hd, ?Ht, ?Hr. Qed.

Lemma lossless_any cfg w : System.System.inv (deliveryWorker cfg) w -> lossless w.
Proof. intros [I1 I2 I3] cfg'. by split. Qed.

Lemma XAdd_lossless v : keeps (stays lossless) (XAdd EventStream v : M _).
Proof.
  intros w Hw cfg. destruct (XAdd EventStream v w) as [r w'] eqn:E.
  apply XAdd_inv in E as (X1 & X2 & _ & _ & _ & _ & X7). destruct (Hw cfg) as [I1 I2 I3]. simpl.
  split; [congruence|congruence|]. rewrite X1. destruct X7 as [(t & _ & ->)|(id & X & _)]; [done|].
  apply (System.System.tracked_mono (deliveryWorker cfg) the_publisher operationsStore eq_refl eq_refl (w_db w) (w_redis w));
    [apply System.System.db_keeps_refl|eapply added_grows, X|by eapply (System.System.added_ordered _), X|done].
Qed.

(** Moving the cursor to the beginning hands everything out again. *)
Lemma cursor_tracked cfg group start db r e r' :
  group <> ConsumerGroup \/ start ∈ ["0"; "0-0"] -> System.System.tracked (deliveryWorker cfg) db r ->
  xgroup_setid EventStream group start r = (e, r') -> System.System.tracked (deliveryWorker cfg) db r'.
Proof.
  intros Hok [[Hn Hah] Ha] Hx. pose proof (xgroup_setid_frame _ _ _ _ _ _ Hx) as (F1 & F2 & F3 & F4 & F5 & _).
  assert (Hgroup : r' = r \/ ahead r' EventStream ConsumerGroup = false /\
            undelivered r' EventStream ConsumerGroup = list_to_set (stream_ids r EventStream) \/
          undelivered r' EventStream ConsumerGroup = undelivered r EventStream ConsumerGroup /\
            ahead r' EventStream ConsumerGroup = ahead r EventStream ConsumerGroup).
  { destruct (decide (group = ConsumerGroup)) as [->|Hne]; [|right; right; apply F4; auto].
    destruct Hok as [?|Hin]; [done|]. destruct e as [text|]; [left; by apply F5|right; left].
    destruct (xgroup_setid_start _ _ _ _ _ _ Hx) as [_ Hs]; [set_solver|]. destruct (Hs eq_refl) as [? ->].
    by rewrite decide_False by (intros ->; set_solver). }
  destruct Hgroup as [->|Hgroup]; [by repeat split|]. destruct (F3 EventStream ConsumerGroup) as [Hh Hp].
  cbn -[has_group outstanding ahead] in *. split.
  { split; [unfold stream_ids; by rewrite F1|]. cbn. rewrite Hh. destruct Hgroup as [[? _]|[_ ->]]; auto. }
  intros u Hu. destruct (Ha u Hu) as [Hq|[(m & Hm & He & Hg)|[Hq|Hq]]]; [by left| |right; right; left|by do 3 right].
  - right; left. exists m. cbn -[has_group outstanding] in *. rewrite F1, Hh. split_and!; [done|done|].
    intros Hgr. specialize (Hg Hgr). unfold outstanding in *. rewrite Hp. destruct Hgroup as [[_ ->]|[-> _]]; [|done].
    apply elem_of_union_l, elem_of_list_to_set, list_elem_of_fmap. eauto.
  - destruct Hq as (msg & n & Hz & Hrest). exists msg, n. by rewrite F2.
Qed.

Lemma setCursor_lossless r rw :
  Path r = "/consumer-groups/set-cursor" -> skips_entries r = false -> keeps (stays lossless) (setCursor r rw : M _).
Proof.
  intros Hpath Hskip w Hw. unfold setCursor. destruct (negb _); [done|]. unfold skips_entries in Hskip.
  rewrite Hpath, andb_true_r in Hskip.
  destruct (DecodeJSONRequest setGroupCursorRequest_of r) as [req|e]; [|done].
  fold (asked_group req) (asked_start req). cbv zeta. destruct (String.eqb (asked_start req) ""); [done|].
  assert (Hok : asked_group req <> ConsumerGroup \/ asked_start req ∈ ["0"; "0-0"]).
  { apply andb_false_iff in Hskip as [Hg|Hs]; [left; by apply String.eqb_neq|right].
    by apply negb_false_iff, bool_decide_eq_true in Hs. }
  unfold gbind at 1, catch. unfold XGroupSetID, gbind.
  destruct (redis_cmd _ w) as [x w1] eqn:E. apply redis_cmd_inv in E as (C1 & C2 & _ & _ & _ & _ & C7).
  assert (Hw1 : lossless w1).
  { destruct C7 as [(t & _ & Hr)|(a & Hc & _)].
    - apply (unchanged_lossless w); [by split_and!|done].
    - intros cfg. destruct (Hw cfg) as [I1 I2 I3]. split; [congruence|congruence|]. rewrite C1.
      revert Hc I3. apply repeats_inv. intros _ r1 a1 r2 Ht Hx. by eapply cursor_tracked. }
  destruct x as [[text|]|e]; simpl; exact Hw1.
Qed.

#[global] Instance lossless_kept : Kept lossless admitted.
Proof.
  split.
  - intros w Hw. apply (System.System.inv_tx _ _ (Hw some_config)).
  - apply unchanged_lossless.
  - intros cfg w w' Hst Hw. apply (lossless_any cfg). eapply System.System.step_inv; [..|exact Hst|apply Hw]; done.
  - apply XAdd_lossless.
  - apply setCursor_lossless.
Qed.

(** ** Deployments *)

Section Deployments.
Context (newPool : string -> res error unit) (applyMigrations : M unit) (Hmigrated : keeps unchanged applyMigrations).
Implicit Types (st : State (R:=R)).

(** C27: a deployment stays well formed.  Let any number of API processes start, take
    any requests, run their loops, be told to stop and be killed in any order,
    against servers that fail in any way: in every state that is reached the tables
    satisfy the schema (ids are UUIDs, every outbox row, history row, attempt and
    dead letter belongs to an event, keys are unique), no transaction is left open,
    and every process has the components [main] wires together, in a consistent
    stage of its life. *)
Theorem deployment_well_formed st0 st :
  procs st0 = ∅ -> w_tx (world st0) = None -> schema_ok (w_db (world st0)) ->
  reachable newPool applyMigrations (fun _ => True) st0 st ->
  w_tx (world st) = None /\ schema_ok (w_db (world st)) /\
  forall i p, procs st !! i = Some p -> of_main (pr_app p) /\ coherent p.
Proof.
  intros H0 Ht Hok Hr.
  destruct (reachable_kept well_formed _ newPool applyMigrations Hmigrated st0 st H0 (conj Ht Hok) Hr) as [Ha [Ht' Hok']].
  split_and!; [done|done|]. intros i p Hp. split; [by apply (Ha i p Hp)|]. by eapply reachable_coherent.
Qed.

(** C1: a deployment loses no event.  Under the same conditions, as long as nobody
    moves the cursor of the worker group past entries, every event that was ever
    stored is pending in the outbox, or on the stream for the worker group, or
    scheduled for a retry, or recorded as delivered, or an open dead letter. *)
Theorem deployment_loses_nothing st0 st cfg u :
  procs st0 = ∅ -> System.System.inv (deliveryWorker cfg) (world st0) ->
  reachable newPool applyMigrations admitted st0 st -> known (w_db (world st)) u ->
  System.System.accounted (deliveryWorker cfg) (w_db (world st)) (w_redis (world st)) u.
Proof.
  intros H0 Hi Hr Hu.
  destruct (reachable_kept lossless _ newPool applyMigrations Hmigrated st0 st H0 (lossless_any cfg _ Hi) Hr) as [_ Hw].
  destruct (Hw cfg) as [_ _ [_ Ha]]. auto.
Qed.
End Deployments.
End Facts.

(** ** A run *)

(** The process that stored an event is killed after it published it; another starts. *)
Definition killed_and_replaced : list move :=
  [Boot 0 sample_env; Act 0 (Accept 1 (post "/events" order_body [])); Act 0 (Handle 1); Act 0 (OutboxRound None);
   Kill 0; Boot 1 sample_env].

Lemma deployment_loses_nothing_witness :
  exists st u, schedule (fun _ => Ok tt) (gret tt) killed_and_replaced nothing_runs = Some st /\
    known (w_db (world st)) u /\
    System.System.accounted (deliveryWorker some_config) (w_db (world st)) (w_redis (world st)) u.
Proof.
  assert (match schedule (fun _ => Ok tt) (gret tt) killed_and_replaced nothing_runs with
          | Some st => bool_decide (is_Some (events (w_db (world st)) !! stored_id))
          | None => false end = true) as Hc by (vm_compute; reflexivity).
  destruct (schedule _ _ killed_and_replaced nothing_runs) as [st|] eqn:E; [|discriminate Hc].
  apply bool_decide_eq_true in Hc. exists st, stored_id. split; [reflexivity|]. split; [exact Hc|].
  apply (deployment_loses_nothing (fun _ => Ok tt) (gret tt) (fun w => conj eq_refl (conj eq_refl eq_refl))
           nothing_runs st some_config stored_id eq_refl); [| |exact Hc].
  - split; [reflexivity|apply empty_db_ok|]. split; [split; [apply NoDup_nil_2|done]|]. intros u [x Hx]. discriminate Hx.
  - eapply schedule_reachable; [apply reach_start| |exact E]. repeat constructor.
Defined.

Lemma deployment_well_formed_witness :
  exists st p, schedule (fun _ => Ok tt) (gret tt) killed_and_replaced nothing_runs = Some st /\
    procs st !! 1%nat = Some p /\ coherent p /\ w_tx (world st) = None /\ schema_ok (w_db (world st)).
Proof.
  assert (match schedule (fun _ => Ok tt) (gret tt) killed_and_replaced nothing_runs with
          | Some st => match procs st !! 1%nat with Some _ => true | None => false end
          | None => false end = true) as Hc by (vm_compute; reflexivity).
  destruct (schedule _ _ killed_and_replaced nothing_runs) as [st|] eqn:E; [|discriminate Hc].
  destruct (procs st !! 1%nat) as [p|] eqn:Ep; [|discriminate Hc].
  assert (reachable (fun _ => Ok tt) (gret tt) (fun _ => True) nothing_runs st) as Hr.
  { eapply schedule_reachable; [apply reach_start| |exact E]. repeat constructor. }
  destruct (deployment_well_formed (fun _ => Ok tt) (gret tt) (fun w => conj eq_refl (conj eq_refl eq_refl))
              nothing_runs st eq_refl eq_refl empty_db_ok Hr) as (Ht & Hok & Hp).
  exists st, p. split; [reflexivity|]. split; [exact Ep|]. split; [exact (proj2 (Hp 1%nat p Ep))|]. split; [exact Ht|exact Hok].
Defined.

End ProcessFacts.
