(* ===== verification/TestUtil.v ===== *)
(** * TestUtil: databases for integration tests ([internal/testutil/postgres.go])

    A test gets a schema of its own in a shared PostgreSQL database, with the
    migrations applied, which is dropped when the test ends.  The server's schemas
    are a map from names to their objects; the functions of the extension uuid-ossp
    are in the schema that [uuid_ossp] names, and count besides.  What a text of SQL
    does to the server, for a search path, is a parameter: it may change anything.
    The DDL of the helpers is executed from its text, so that quoting matters.  Calls
    follow a schedule of faults, as in the file World, which also says which session
    of the pool serves each. *)

From S2P Require Import Prelude GoStrings GoErrors Json JsonFacts GoHttp Database RedisServer World Migrations Server.
Import Server.Server.

Module TestUtil.

(** ** Identifiers *)

Definition dquote : ascii := ascii_of_nat 34.
Definition text (l : list ascii) : string := String.string_of_list_ascii l.

Definition double_quotes (l : list ascii) : list ascii :=
  flat_map (fun c => if Ascii.eqb c dquote then [dquote; dquote] else [c]) l.

Definition quotePostgresIdentifier (identifier : string) : string :=
  text (dquote :: double_quotes (chars identifier) ++ [dquote]).

(** How the server reads a quoted identifier, and what follows it: a doubled quote
    stands for one, and names have at most 63 bytes. *)
Fixpoint identifier_body (l : list ascii) : option (list ascii * list ascii) :=
  match l with
  | [] => None
  | c :: rest =>
      if Ascii.eqb c dquote then
        match rest with
        | d :: rest' => if Ascii.eqb d dquote then '(name, after) ← identifier_body rest'; Some (dquote :: name, after)
                        else Some ([], rest)
        | [] => Some ([], [])
        end
      else '(name, after) ← identifier_body rest; Some (c :: name, after)
  end.

Definition NAMEDATALEN : nat := 64.

Definition read_identifier (l : list ascii) : option (string * list ascii) :=
  match l with
  | c :: rest =>
      if negb (Ascii.eqb c dquote) then None else
      '(name, after) ← identifier_body rest;
      if bool_decide (name = []) then None else Some (text (take (NAMEDATALEN - 1) name), after)
  | [] => None
  end.

(** ** Files *)

Inductive node := File (content : string) | Directory.
Record Files := mkFiles { nodes : gmap string node; getwd : res error string }.

Definition fileExists (fs : Files) (path : string) : bool :=
  match nodes fs !! path with Some (File _) => true | _ => false end.
Definition dirExists (fs : Files) (path : string) : bool :=
  match nodes fs !! path with Some Directory => true | _ => false end.

(** [filepath.Join] and [filepath.Dir] of absolute paths *)
Definition filepath_Join (dir name : string) : string := path_Clean (dir +:+ "/" +:+ name).
Definition filepath_Dir (path : string) : string :=
  path_Clean (String.concat "/" (removelast (Split path "/")) +:+ "/").

(** The loop of [findMigrationsDir]: [None] when [fuel] rounds did not suffice,
    [Some None] when there is no such directory. *)
Fixpoint find_loop (fuel : nat) (fs : Files) (dir : string) : option (option string) :=
  match fuel with
  | O => None
  | S f =>
      let goMod := filepath_Join dir "go.mod" in
      let migrationsDir := filepath_Join dir "migrations" in
      if fileExists fs goMod && dirExists fs migrationsDir then Some (Some migrationsDir) else
      let parent := filepath_Dir dir in
      if String.eqb parent dir then Some None else find_loop f fs parent
  end.

(** [filepath.Glob(filepath.Join(dir, "*.sql"))]: the entries of [dir] with this
    suffix.  [pattern_dir] is the result for a directory whose name is itself a
    pattern. *)
Definition has_meta (dir : string) : bool :=
  existsb (fun c => bool_decide (c ∈ map ascii_of_nat [42; 63; 91; 92]%nat)) (chars dir).

Definition glob_sql (pattern_dir : string -> res error (list string)) (fs : Files) (dir : string) : res error (list string) :=
  if has_meta dir then pattern_dir dir else
  let prefix := if String.eqb dir "/" then "/" else dir +:+ "/" in
  Ok (filter (fun p => String.prefix prefix p && HasSuffix p ".sql" && negb (Contains (TrimPrefix p prefix) "/") = true)
        (elements (dom (nodes fs)))).

(** ** The server, and a test *)

(** [t.Fatalf] and [t.Skip] end the test. *)
Inductive stop := Fatal (message : string) | Skipped (message : string).

Section Server.
(** The objects of a schema *)
Context {C : Type}.

(** The schemas, the schema that has the functions of uuid-ossp, and the session
    that has the advisory lock *)
Record Postgres_ := mkPostgres {
  schemas : gmap string C; uuid_ossp : option string; advisory : option nat;
}.
End Server.

Section Testing.
(** An empty schema, and the effect of a text of SQL, for the schemas of a search path *)
Context {C : Type} (empty_schema : C).
Abbreviation Postgres_ := (Postgres_ (C:=C)).
Context (run_sql : list string -> string -> Postgres_ -> res error Postgres_).
Context (pattern_dir : string -> res error (list string)).
(** [pgxpool.ParseConfig] and [pgxpool.NewWithConfig], which [pgxpool.New] calls too *)
Context (ParseConfig : string -> res error unit) (NewWithConfig : res error unit).

(** [t_cleanup] is what [t.Cleanup] has registered: the quoted name and the name of
    the schema to drop. *)
Record TestWorld := mkTestWorld {
  t_pg : Postgres_; t_env : list (fault * nat); t_log : list string;
  t_cleanup : option (string * string); t_admin : bool; t_pool : bool;
}.

Definition with_pg (x : Postgres_) (w : TestWorld) : TestWorld :=
  mkTestWorld x (t_env w) (t_log w) (t_cleanup w) (t_admin w) (t_pool w).
Definition with_cleanup (x : option (string * string)) (w : TestWorld) : TestWorld :=
  mkTestWorld (t_pg w) (t_env w) (t_log w) x (t_admin w) (t_pool w).
Definition with_pools (admin pool : bool) (w : TestWorld) : TestWorld :=
  mkTestWorld (t_pg w) (t_env w) (t_log w) (t_cleanup w) admin pool.
Definition logf (line : string) (w : TestWorld) : TestWorld :=
  mkTestWorld (t_pg w) (t_env w) (t_log w ++ [line]) (t_cleanup w) (t_admin w) (t_pool w).

(** A call, served by a session *)
Definition exec (op : nat -> Postgres_ -> res error Postgres_) : GoM error TestWorld unit := fun w =>
  let '(f, session, w1) := match t_env w with
                           | [] => (NoFault, 0%nat, w)
                           | (f, session) :: rest =>
                               (f, session, mkTestWorld (t_pg w) rest (t_log w) (t_cleanup w) (t_admin w) (t_pool w))
                           end in
  let done := match op session (t_pg w1) with Ok pg => (Ok tt, with_pg pg w1) | Err e => (Err e, w1) end in
  match f with
  | NoFault => done
  | FailBefore t => (Err (ErrorString t), w1)
  | FailAfter t => (Err (ErrorString t), done.2)
  end.

Abbreviation M := (GoM stop TestWorld).

(** [if err != nil { t.Fatalf("...: %v", err) }] *)
Definition or_fatal {A} (message : string) (m : GoM error TestWorld A) : M A := fun w =>
  match m w with
  | (Ok a, w') => (Ok a, w')
  | (Err e, w') => (Err (Fatal (message +:+ ": " +:+ error_text e)), w')
  end.

(** [if err != nil { t.Logf("...: %v", err) }] *)
Definition or_log (message : string) (m : GoM error TestWorld unit) : M unit := fun w =>
  match m w with
  | (Ok _, w') => (Ok tt, w')
  | (Err e, w') => (Ok tt, logf (message +:+ ": " +:+ error_text e) w')
  end.

(** ** Statements *)

(** [pg_advisory_lock] returns once the session has the lock. *)
Definition advisory_lock (session : nat) (pg : Postgres_) : res error Postgres_ :=
  Ok (mkPostgres (schemas pg) (uuid_ossp pg) (Some session)).

(** [pg_advisory_unlock] of a lock that the session does not hold returns false, and
    no error. *)
Definition advisory_unlock (session : nat) (pg : Postgres_) : res error Postgres_ :=
  Ok (if bool_decide (advisory pg = Some session) then mkPostgres (schemas pg) (uuid_ossp pg) None else pg).

Definition in_public (pg : Postgres_) : res error Postgres_ :=
  if bool_decide (is_Some (schemas pg !! "public")) then Ok (mkPostgres (schemas pg) (Some "public") (advisory pg))
  else Err (sql_error "schema public does not exist").

(** [CREATE EXTENSION IF NOT EXISTS "uuid-ossp" WITH SCHEMA public] *)
Definition create_extension (_ : nat) (pg : Postgres_) : res error Postgres_ :=
  match uuid_ossp pg with Some _ => Ok pg | None => in_public pg end.

(** [ALTER EXTENSION "uuid-ossp" SET SCHEMA public] *)
Definition alter_extension (_ : nat) (pg : Postgres_) : res error Postgres_ :=
  match uuid_ossp pg with
  | None => Err (sql_error "extension uuid-ossp does not exist")
  | Some _ => in_public pg
  end.

(** [CREATE SCHEMA ident] and [DROP SCHEMA IF EXISTS ident CASCADE], from their text *)
Definition run_ddl (sql : string) (_ : nat) (pg : Postgres_) : res error Postgres_ :=
  let l := chars sql in
  match strip_prefix (chars "CREATE SCHEMA ") l, strip_prefix (chars "DROP SCHEMA IF EXISTS ") l with
  | Some rest, _ =>
      match read_identifier rest with
      | Some (name, []) =>
          if bool_decide (is_Some (schemas pg !! name)) then Err (sql_error "schema already exists")
          else Ok (mkPostgres (<[name := empty_schema]> (schemas pg)) (uuid_ossp pg) (advisory pg))
      | _ => Err (sql_error "syntax error")
      end
  | None, Some rest =>
      match read_identifier rest with
      | Some (name, after) =>
          if bool_decide (after = chars " CASCADE")
          then Ok (mkPostgres (delete name (schemas pg))
                     (if bool_decide (uuid_ossp pg = Some name) then None else uuid_ossp pg) (advisory pg))
          else Err (sql_error "syntax error")
      | None => Err (sql_error "syntax error")
      end
  | None, None => Err (sql_error "syntax error")
  end.

(** The schema that [SET search_path TO ident, public] puts before [public] *)
Definition search_path (sql : string) : res error string :=
  match rest ← strip_prefix (chars "SET search_path TO ") (chars sql); read_identifier rest with
  | Some (name, after) => if bool_decide (after = chars ", public") then Ok name else Err (sql_error "syntax error")
  | None => Err (sql_error "syntax error")
  end.

(** A statement on the test pool: its connection has run [AfterConnect]. *)
Definition on_test_pool (afterConnect sql : string) (_ : nat) (pg : Postgres_) : res error Postgres_ :=
  res_bind (search_path afterConnect) (fun name => run_sql [name; "public"] sql pg).

(** ** The helpers *)

Definition ensureUUIDExtension : M unit :=
  let! _ := or_fatal "lock uuid extension setup" (exec advisory_lock) in
  defer (or_log "unlock uuid extension setup" (exec advisory_unlock)) (
    let! _ := or_fatal "create uuid-ossp extension" (exec create_extension) in
    or_fatal "move uuid-ossp extension to public schema" (exec alter_extension)).

(** [fmt.Sprintf("%x")] of bytes *)
Definition hex_digit (n : N) : ascii := ascii_of_N (if (n <? 10)%N then 48 + n else 87 + n).
Definition hex_bytes (l : list N) : string := text (flat_map (fun b => [hex_digit (b / 16); hex_digit (b mod 16)]) l).

(** [random] is what [rand.Read] gives, [now] is [time.Now().UnixNano()]. *)
Definition newSafeIntegrationSchemaName (random : res error (list N)) (now : Z) : M string :=
  let! randomBytes := or_fatal "generate schema suffix" (lift_res random) in
  gret ("eventrail_test_" +:+ Itoa now +:+ "_" +:+ hex_bytes randomBytes).

(** A path has fewer directories above it than characters. *)
Definition findMigrationsDir (fs : Files) : M string :=
  let! dir := or_fatal "get working directory" (lift_res (getwd fs)) in
  match find_loop (S (String.length dir)) fs dir with
  | Some (Some migrationsDir) => gret migrationsDir
  | _ => gerr (Fatal "could not find repository root containing go.mod and migrations")
  end.

Definition ReadFile (fs : Files) (path : string) : res error string :=
  match nodes fs !! path with
  | Some (File content) => Ok content
  | Some Directory => Err (ErrorString ("read " +:+ path +:+ ": is a directory"))
  | None => Err (ErrorString ("open " +:+ path +:+ ": no such file or directory"))
  end.

Definition filepath_Base (path : string) : string := List.last (Split path "/") "".

Fixpoint apply_files (fs : Files) (afterConnect : string) (files : list string) : M unit :=
  match files with
  | [] => gret tt
  | file :: rest =>
      let! sql := or_fatal ("read migration " +:+ filepath_Base file) (lift_res (ReadFile fs file)) in
      let! _ := or_fatal ("apply migration " +:+ filepath_Base file) (exec (on_test_pool afterConnect sql)) in
      apply_files fs afterConnect rest
  end.

Definition applyMigrations (fs : Files) (afterConnect : string) : M unit :=
  let! migrationsDir := findMigrationsDir fs in
  let! found := or_fatal "list migrations" (lift_res (glob_sql pattern_dir fs migrationsDir)) in
  let files := merge_sort Migrations.Migrations.string_le found in
  if bool_decide (files = []) then gerr (Fatal ("no migration files found in " +:+ migrationsDir))
  else apply_files fs afterConnect files.

Definition drop_schema (quotedSchemaName : string) : string :=
  "DROP SCHEMA IF EXISTS " +:+ quotedSchemaName +:+ " CASCADE".

(** What runs when the test has ended *)
Definition run_cleanup (w : TestWorld) : TestWorld :=
  match t_cleanup w with
  | None => w
  | Some (quotedSchemaName, schemaName) =>
      let w := with_pools (t_admin w) false w in
      let w := (or_log ("drop test schema " +:+ schemaName) (exec (run_ddl (drop_schema quotedSchemaName))) w).2 in
      with_pools false false w
  end.

(** The pool that is returned is known by what its connections run first. *)
Definition NewPostgresPool (dsn : string) (random : res error (list N)) (now : Z) (fs : Files) : M string :=
  if String.eqb dsn "" then gerr (Skipped "TEST_POSTGRES_DSN is not set; skipping PostgreSQL integration test") else
  let! _ := or_fatal "create admin PostgreSQL pool" (lift_res (res_bind (ParseConfig dsn) (fun _ => NewWithConfig))) in
  let! _ := (fun w => (Ok tt, with_pools true (t_pool w) w)) in
  let! _ := ensureUUIDExtension in
  let! schemaName := newSafeIntegrationSchemaName random now in
  let quotedSchemaName := quotePostgresIdentifier schemaName in
  let! _ := (fun w => match exec (run_ddl ("CREATE SCHEMA " +:+ quotedSchemaName)) w with
                      | (Ok _, w') => (Ok tt, w')
                      | (Err e, w') => (Err (Fatal ("create test schema " +:+ schemaName +:+ ": " +:+ error_text e)),
                                        with_pools false (t_pool w') w')
                      end) in
  let! _ := (fun w => (Ok tt, with_cleanup (Some (quotedSchemaName, schemaName)) w)) in
  let! _ := or_fatal "parse TEST_POSTGRES_DSN" (lift_res (ParseConfig dsn)) in
  let afterConnect := "SET search_path TO " +:+ quotedSchemaName +:+ ", public" in
  let! _ := or_fatal "create test PostgreSQL pool" (lift_res NewWithConfig) in
  let! _ := (fun w => (Ok tt, with_pools (t_admin w) true w)) in
  let! _ := applyMigrations fs afterConnect in
  gret afterConnect.

End Testing.

(** ** Quoting *)

Lemma chars_text l : chars (text l) = l.
Proof. apply String.list_ascii_of_string_of_list_ascii. Qed.

Lemma text_chars s : text (chars s) = s.
Proof. apply String.string_of_list_ascii_of_string. Qed.

Lemma length_chars s : length (chars s) = String.length s.
Proof. induction s as [|c s IH]; [done|]. simpl. by f_equal. Qed.

(** What follows a name does not continue it. *)
Definition ends_name (rest : list ascii) : Prop := head rest <> Some dquote.

Lemma identifier_body_doubled l rest :
  ends_name rest -> identifier_body (double_quotes l ++ dquote :: rest) = Some (l, rest).
Proof.
  intros Hr. induction l as [|c l IH].
  - simpl. destruct rest as [|d rest]; [done|]. destruct (Ascii.eqb_spec d dquote) as [->|]; [by destruct Hr|done].
  - cbn [double_quotes flat_map]. fold (double_quotes l). destruct (Ascii.eqb_spec c dquote) as [->|Hne]; simpl.
    + by rewrite IH.
    + apply Ascii.eqb_neq in Hne. rewrite Hne. by rewrite IH.
Qed.

Lemma read_quoted name rest :
  name <> "" -> (String.length name < NAMEDATALEN)%nat -> ends_name rest ->
  read_identifier (chars (quotePostgresIdentifier name) ++ rest) = Some (name, rest).
Proof.
  intros Hne Hlen Hr. unfold quotePostgresIdentifier. rewrite chars_text. cbn [app read_identifier].
  change (Ascii.eqb dquote dquote) with true. cbn [negb]. rewrite <- (assoc_L (++)). cbn [app].
  rewrite identifier_body_doubled by done. simpl. rewrite bool_decide_eq_false_2.
  - rewrite take_ge; [by rewrite text_chars|]. rewrite length_chars. unfold NAMEDATALEN in Hlen. lia.
  - destruct name; done.
Qed.

(** The statements of the helpers, as the server reads them *)
Section Texts.
Context {C : Type} (empty_schema : C).
Context (name : string) (Hne : name <> "") (Hlen : (String.length name < NAMEDATALEN)%nat).

Lemma create_reads session (pg : Postgres_ (C:=C)) :
  run_ddl empty_schema ("CREATE SCHEMA " +:+ quotePostgresIdentifier name) session pg =
  if bool_decide (is_Some (schemas pg !! name)) then Err (sql_error "schema already exists")
  else Ok (mkPostgres (<[name := empty_schema]> (schemas pg)) (uuid_ossp pg) (advisory pg)).
Proof.
  unfold run_ddl. rewrite chars_app. rewrite (proj2 (strip_prefix_spec _ _ (chars (quotePostgresIdentifier name))) eq_refl).
  rewrite <- (app_nil_r (chars (quotePostgresIdentifier name))). by rewrite read_quoted.
Qed.

Lemma drop_reads session (pg : Postgres_ (C:=C)) :
  run_ddl empty_schema (drop_schema (quotePostgresIdentifier name)) session pg =
  Ok (mkPostgres (delete name (schemas pg)) (if bool_decide (uuid_ossp pg = Some name) then None else uuid_ossp pg)
        (advisory pg)).
Proof.
  unfold run_ddl, drop_schema. rewrite chars_app.
  rewrite (proj2 (strip_prefix_spec (chars "DROP SCHEMA IF EXISTS ") _ (chars (quotePostgresIdentifier name +:+ " CASCADE"))) eq_refl).
  destruct (strip_prefix (chars "CREATE SCHEMA ") _) eqn:E; [apply strip_prefix_spec in E; done|].
  rewrite chars_app. rewrite read_quoted by done. by rewrite bool_decide_eq_true_2.
Qed.

Lemma path_reads : search_path ("SET search_path TO " +:+ quotePostgresIdentifier name +:+ ", public") = Ok name.
Proof.
  unfold search_path. rewrite chars_app.
  rewrite (proj2 (strip_prefix_spec (chars "SET search_path TO ") _ (chars (quotePostgresIdentifier name +:+ ", public"))) eq_refl).
  cbn [option_bind mbind]. rewrite chars_app, read_quoted by done. by rewrite bool_decide_eq_true_2.
Qed.
End Texts.

(** ** Names *)

Lemma fmt_digits_length f n acc : (String.length (fmt_digits f n acc) <= f + String.length acc)%nat.
Proof.
  revert n acc. induction f as [|f IH]; intros n acc; cbn [fmt_digits]; [lia|].
  destruct (n <? 10); [simpl; lia|]. etransitivity; [apply IH|]. simpl. lia.
Qed.

Lemma hex_bytes_length l : String.length (hex_bytes l) = (2 * length l)%nat.
Proof.
  unfold hex_bytes. rewrite <- length_chars, chars_text. induction l as [|x l IH]; [done|]. cbn [flat_map app length]. rewrite IH. lia.
Qed.

(** A name is not empty and is not cut off by the server, and it is not [public]. *)
Definition good_name (name : string) : Prop :=
  name <> "" /\ (String.length name < NAMEDATALEN)%nat /\ name <> "public".

Lemma schema_name_good now bytes :
  length bytes = 8%nat -> good_name ("eventrail_test_" +:+ Itoa now +:+ "_" +:+ hex_bytes bytes).
Proof.
  intros Hl. split; [done|]. split; [|done]. rewrite !string_app_length, hex_bytes_length, Hl.
  assert (String.length (Itoa now) <= 21)%nat.
  { unfold Itoa. destruct (now <? 0); cbn [String.length];
      [pose proof (fmt_digits_length 20 (- now) "")|pose proof (fmt_digits_length 20 now "")]; simpl in *; lia. }
  unfold NAMEDATALEN. simpl. lia.
Qed.

(** ** Tests do not touch each other *)

Section Isolation.
Context {C : Type} (empty_schema : C).
Abbreviation PG := (Postgres_ (C:=C)).
Context (run_sql : list string -> string -> PG -> res error PG).
Context (pattern_dir : string -> res error (list string)) (ParseConfig : string -> res error unit) (NewWithConfig : res error unit).
Abbreviation TW := (TestWorld (C:=C)).
Implicit Types w : TW.

(** The schema is there, and the functions of uuid-ossp are in [public]. *)
Definition ready (name : string) (pg : PG) : Prop := is_Some (schemas pg !! name) /\ uuid_ossp pg = Some "public".

(** A text of SQL that names no schema works in the first schema of the search path,
    if that is there and it does not have to create the extension. *)
Definition confined (sql : string) : Prop :=
  forall name pg pg', ready name pg -> run_sql [name; "public"] sql pg = Ok pg' ->
    ready name pg' /\ forall n, n <> name -> schemas pg' !! n = schemas pg !! n.

(** uuid-ossp stays where it is, or comes to [public]. *)
Definition extension_moves (pg pg' : PG) : Prop := uuid_ossp pg' = uuid_ossp pg \/ uuid_ossp pg' = Some "public".

(** Only the schema [own], if any, changes; faults do not come back. *)
Definition touches (own : option string) (w w' : TW) : Prop :=
  (forall n, Some n <> own -> schemas (t_pg w') !! n = schemas (t_pg w) !! n) /\
  extension_moves (t_pg w) (t_pg w') /\
  t_cleanup w' = t_cleanup w /\ (t_env w = [] -> t_env w' = []).

#[local] Instance touches_preorder own : PreOrder (touches own).
Proof.
  split; [intros w; split_and!; try done; by left|].
  intros w1 w2 w3 (A1 & A2 & A3 & A4) (B1 & B2 & B3 & B4). split_and!; [| |congruence|auto].
  - intros n Hn. by rewrite B1, A1.
  - unfold extension_moves in *. destruct B2 as [->|]; [done|by right].
Qed.

(** The same for statements on the test pool, as long as the schema is ready *)
Definition uses (name : string) (w w' : TW) : Prop :=
  ready name (t_pg w) -> ready name (t_pg w') /\ touches (Some name) w w'.

#[local] Instance uses_preorder name : PreOrder (uses name).
Proof.
  split; [intros w Hr; split; [done|reflexivity]|]. intros w1 w2 w3 H1 H2 Hr. destruct (H1 Hr) as [R1 T1], (H2 R1) as [R2 T2].
  split; [done|by etransitivity].
Qed.

Lemma exec_cases (op : nat -> Postgres_ -> res error Postgres_) w r w' :
  exec op w = (r, w') ->
  t_cleanup w' = t_cleanup w /\
  (t_pg w' = t_pg w /\ is_ok r = false \/ exists session, op session (t_pg w) = Ok (t_pg w')) /\
  (t_env w = [] -> t_env w' = [] /\ match op 0%nat (t_pg w) with Ok pg => r = Ok tt /\ t_pg w' = pg | Err e => r = Err e end).
Proof.
  unfold exec. destruct (t_env w) as [|[f session] rest] eqn:E.
  - destruct (op 0%nat (t_pg w)) as [pg|e] eqn:Eo; intros [= <- <-]; simpl; split_and!; eauto; intros _; (split; [done|]); by rewrite Eo.
  - simpl. destruct (op session (t_pg w)) as [pg|e] eqn:Eo; destruct f; intros [= <- <-]; simpl; split_and!; eauto; done.
Qed.

Lemma exec_touches own op :
  (forall session pg pg', op session pg = Ok pg' ->
     extension_moves pg pg' /\ forall n, Some n <> own -> schemas pg' !! n = schemas pg !! n) ->
  keeps (touches own) (exec op : GoM error TW unit).
Proof.
  intros Hop w. destruct (exec op w) as [r w'] eqn:E. apply exec_cases in E as (E1 & E2 & E3). cbn [snd].
  destruct E2 as [[E2 _]|[session E2]]; [|apply Hop in E2 as [Hm Hs]];
    (split_and!; [..|done|by intros ?; apply E3]); rewrite ?E2; try done. by left.
Qed.

Section Walk.
Context (P : TW -> TW -> Prop) `{!PreOrder P}.

Lemma or_fatal_keeps {A} message (m : GoM error TW A) : keeps P m -> keeps P (or_fatal message m).
Proof. intros Hm w. specialize (Hm w). unfold or_fatal. by destruct (m w) as [[a|e] w']. Qed.

Lemma lift_keeps {A} (r : res error A) : keeps P (lift_res r : GoM error TW A).
Proof. intros w. reflexivity. Qed.
End Walk.

Lemma or_log_keeps own message (m : GoM error TW unit) : keeps (touches own) m -> keeps (touches own) (or_log message m).
Proof. intros Hm w. specialize (Hm w). unfold or_log. by destruct (m w) as [[a|e] w']. Qed.

Lemma extension_touches : keeps (touches None) (ensureUUIDExtension (C:=C)).
Proof.
  assert (Hsame : forall pg : PG, extension_moves pg pg) by (by left).
  assert (Hpub : forall pg pg' : PG, in_public pg = Ok pg' ->
    extension_moves pg pg' /\ forall n, Some n <> None -> schemas pg' !! n = schemas pg !! n).
  { intros pg pg'. unfold in_public. case_bool_decide; [|done]. intros [= <-]. split; [by right|done]. }
  unfold ensureUUIDExtension. apply keeps_bind; [apply _| |intros _].
  { apply or_fatal_keeps, exec_touches. intros session pg pg' [= <-]. split; [by left|done]. }
  apply keeps_defer; [apply _| |apply keeps_bind; [apply _| |intros _]].
  - apply or_log_keeps, exec_touches. intros session pg pg' [= <-]. case_bool_decide; (split; [by left|done]).
  - apply or_fatal_keeps, exec_touches. intros session pg pg' Ho. unfold create_extension in Ho.
    destruct (uuid_ossp pg); [|by apply Hpub]. injection Ho as <-. split; [by left|done].
  - apply or_fatal_keeps, exec_touches. intros session pg pg' Ho. unfold alter_extension in Ho.
    destruct (uuid_ossp pg); [by apply Hpub|done].
Qed.

(** When it succeeds, the extension is in [public]. *)
Lemma extension_placed w w' : ensureUUIDExtension w = (Ok tt, w') -> uuid_ossp (t_pg w') = Some "public".
Proof.
  intros H. unfold ensureUUIDExtension in H. apply gbind_inv_ok in H as (_ & w1 & _ & H). unfold defer in H.
  destruct (gbind _ _ w1) as [r w2] eqn:E. destruct (or_log _ _ w2) as [r3 w3] eqn:E3. simplify_eq.
  apply gbind_inv_ok in E as (_ & wa & _ & E). unfold or_fatal in E. destruct (exec alter_extension wa) as [[[]|e] wb] eqn:Ea; [|done].
  simplify_eq. apply exec_cases in Ea as (_ & [[_ ?]|[session Ea]] & _); [done|].
  assert (Hb : uuid_ossp (t_pg w2) = Some "public").
  { unfold alter_extension, in_public in Ea. destruct (uuid_ossp (t_pg wa)); [|done]. case_bool_decide; [|done].
    by injection Ea as <-. }
  unfold or_log in E3. destruct (exec advisory_unlock w2) as [x wx] eqn:Ex.
  assert (uuid_ossp (t_pg wx) = Some "public").
  { apply exec_cases in Ex as (_ & [[-> _]|[s Ex]] & _); [done|]. unfold advisory_unlock in Ex. injection Ex as <-.
    by case_bool_decide. }
  destruct x; by simplify_eq/=.
Qed.

(** What connections of the test pool run first *)
Definition set_path (name : string) : string := "SET search_path TO " +:+ quotePostgresIdentifier name +:+ ", public".

Lemma on_pool_uses name sql :
  good_name name -> confined sql -> keeps (uses name) (exec (on_test_pool run_sql (set_path name) sql) : GoM error TW unit).
Proof.
  intros (Hne & Hlen & _) Hc w Hr. destruct (exec _ w) as [r w'] eqn:E. apply exec_cases in E as (E1 & E2 & E3). cbn [snd].
  assert (H : ready name (t_pg w') /\ forall n, n <> name -> schemas (t_pg w') !! n = schemas (t_pg w) !! n).
  { destruct E2 as [[-> _]|[session Ho]]; [done|]. unfold on_test_pool, set_path in Ho.
    rewrite (path_reads name Hne Hlen) in Ho. simpl in Ho. by eapply Hc. }
  destruct H as [Hr' Hs]. split; [done|]. split_and!; [|right; apply Hr'|done|by intros ?; apply E3].
  intros n Hn. apply Hs. congruence.
Qed.

(** The texts of the migrations *)
Definition migrations_confined (fs : Files) : Prop :=
  (forall path sql, nodes fs !! path = Some (File sql) -> HasSuffix path ".sql" = true -> confined sql) /\
  (forall dir found, pattern_dir dir = Ok found -> Forall (fun path => HasSuffix path ".sql" = true) found).

Lemma glob_sql_suffix fs dir found :
  migrations_confined fs -> glob_sql pattern_dir fs dir = Ok found -> Forall (fun path => HasSuffix path ".sql" = true) found.
Proof.
  intros [_ Hp]. unfold glob_sql. destruct (has_meta dir); [by apply Hp|]. cbv zeta. intros [= <-].
  apply Forall_forall. intros path [Hf _]%list_elem_of_filter. by apply andb_prop in Hf as [[_ ?]%andb_prop _].
Qed.

Lemma migrations_use name fs : good_name name -> migrations_confined fs ->
  keeps (uses name) (applyMigrations run_sql pattern_dir fs (set_path name)).
Proof.
  intros Hg Hfs. unfold applyMigrations, findMigrationsDir.
  assert (Hfiles : forall files, Forall (fun path => HasSuffix path ".sql" = true) files ->
    keeps (uses name) (apply_files run_sql fs (set_path name) files)).
  { induction files as [|f files IH]; intros Hall; cbn [apply_files]; [apply keeps_ret; apply _|].
    apply Forall_cons in Hall as [Hf Hall]. intros w. unfold gbind at 1, or_fatal at 1, lift_res at 1.
    destruct (ReadFile fs f) as [sql|e] eqn:Er; [|reflexivity].
    assert (Hc : confined sql).
    { unfold ReadFile in Er. destruct (nodes fs !! f) as [[content|]|] eqn:En; simplify_eq. by eapply (proj1 Hfs). }
    revert w. apply keeps_bind; [apply _|by apply or_fatal_keeps, on_pool_uses|intros _; by apply IH]. }
  apply keeps_bind; [apply _| |intros dir].
  - apply keeps_bind; [apply _|by apply or_fatal_keeps, lift_keeps; apply _|intros dir].
    destruct (find_loop _ _ _) as [[d|]|]; [apply keeps_ret|apply keeps_err|apply keeps_err]; apply _.
  - intros w. unfold gbind, or_fatal at 1, lift_res at 1. destruct (glob_sql pattern_dir fs dir) as [found|e] eqn:Eg; [|reflexivity].
    cbv zeta. case_bool_decide; [reflexivity|]. apply Hfiles. rewrite merge_sort_Permutation. by eapply glob_sql_suffix.
Qed.

(** What a call of [NewPostgresPool] has done: nothing that matters, or it has made a
    schema that was not there, and registered to drop it unless the answer to its
    creation was lost. *)
Definition made (name : string) (w w' : TW) : Prop :=
  good_name name /\ schemas (t_pg w) !! name = None /\
  (forall n, n <> name -> schemas (t_pg w') !! n = schemas (t_pg w) !! n).

Lemma NewPostgresPool_cases dsn bytes now fs w (r : res stop string) w' :
  length bytes = 8%nat -> t_cleanup w = None -> migrations_confined fs ->
  NewPostgresPool empty_schema run_sql pattern_dir ParseConfig NewWithConfig dsn (Ok bytes) now fs w = (r, w') ->
  (t_env w = [] -> t_env w' = []) /\ extension_moves (t_pg w) (t_pg w') /\
  ((schemas (t_pg w') = schemas (t_pg w) /\ t_cleanup w' = None /\ is_ok r = false) \/
   exists name, made name w w' /\
     (t_cleanup w' = Some (quotePostgresIdentifier name, name) /\ ready name (t_pg w') /\
        (forall ac, r = Ok ac -> ac = set_path name) \/
      t_cleanup w' = None /\ t_env w <> [] /\ is_ok r = false)).
Proof.
  intros Hb Hc0 Hfs. unfold NewPostgresPool. destruct (String.eqb dsn ""); [by intros [= <- <-]; split_and!; [|left|left]|].
  unfold gbind at 1, or_fatal at 1, lift_res at 1. unfold res_bind.
  destruct (ParseConfig dsn) as [[]|e]; [|by intros [= <- <-]; split_and!; [|left|left]].
  destruct NewWithConfig as [[]|e]; [|by intros [= <- <-]; split_and!; [|left|left]].
  unfold gbind at 1. set (w1 := with_pools true _ w).
  assert (H1 : touches None w w1) by (split_and!; [done|by left|done|done]). clearbody w1.
  unfold gbind at 1. pose proof (extension_touches w1) as H2. pose proof (extension_placed w1) as Hplaced.
  destruct (ensureUUIDExtension w1) as [r2 w2]. cbn [snd] in H2. specialize (Hplaced w2).
  assert (H02 : touches None w w2) by (etransitivity; eauto). clear H1 H2 w1.
  assert (Hsame : schemas (t_pg w2) = schemas (t_pg w)) by (apply map_eq; intros n; by apply H02).
  destruct H02 as (_ & Hx & Hc & He).
  destruct r2 as [[]|e2]; [|intros [= <- <-]; split_and!; [done|done|left; split_and!; [done|congruence|done]]].
  specialize (Hplaced eq_refl).
  unfold gbind at 1, newSafeIntegrationSchemaName, gbind at 1, or_fatal at 1, lift_res at 1.
  set (name := "eventrail_test_" +:+ _). pose proof (schema_name_good now bytes Hb : good_name name) as Hg. clearbody name.
  cbv zeta. unfold gret at 1. unfold gbind at 1.
  destruct (exec _ w2) as [r3 w3] eqn:E3. apply exec_cases in E3 as (C3 & P3 & F3).
  assert (Hmade : forall session, run_ddl empty_schema ("CREATE SCHEMA " +:+ quotePostgresIdentifier name) session (t_pg w2) = Ok (t_pg w3) ->
    made name w w3 /\ ready name (t_pg w3)).
  { intros session Ho. destruct Hg as (Hg1 & Hg2 & Hg3). rewrite (create_reads empty_schema name Hg1 Hg2) in Ho.
    case_bool_decide as Hn; [done|]. injection Ho as Ho. rewrite <- Ho. split.
    - split; [done|]. rewrite <- Hsame. simpl. rewrite <- Ho. simpl.
      split; [by apply eq_None_not_Some|]. intros n Hne. by rewrite lookup_insert_ne.
    - split; [|done]. simpl. rewrite lookup_insert_eq. by eexists. }
  assert (X3 : extension_moves (t_pg w) (t_pg w3)).
  { destruct P3 as [[-> _]|[session Ho]]; [done|]. right. by apply Hmade in Ho as [_ [_ ?]]. }
  destruct r3 as [[]|e3].
  - destruct P3 as [[_ ?]|[session Ho]]; [done|]. apply Hmade in Ho as [Ho Hr3]. unfold gbind at 1.
    set (w4 := with_cleanup _ w3). unfold gbind at 1, or_fatal at 1, lift_res at 1.
    unfold gbind at 1, or_fatal at 1, lift_res at 1. unfold gbind at 1. set (w5 := with_pools _ true w4). fold (set_path name). unfold gbind.
    pose proof (migrations_use name fs Hg Hfs w5 Hr3) as [R6 H6]. destruct (applyMigrations _ _ _ _ w5) as [r6 w6]. cbn [snd] in *.
    destruct H6 as (S6 & _ & C6 & E6).
    assert (Hm6 : made name w w6).
    { destruct Ho as (G & N & O). split_and!; [done|done|]. intros n Hne. rewrite S6 by congruence. by apply O. }
    destruct r6 as [[]|e6]; intros [= <- <-].
    all: split_and!; [intros Hw; apply E6; by apply F3; auto|right; apply R6|].
    all: right; exists name; split; [done|left; split_and!; [done|done|by intros ac [= <-]]].
  - intros [= <- <-]. split_and!; [intros Hw; simpl; by apply F3; auto|done|].
    destruct P3 as [[P3 _]|[session Ho]].
    + left. simpl. rewrite P3. split_and!; [done|congruence|done].
    + right. exists name. split; [by eapply Hmade|]. right. simpl. split_and!; [congruence| |done].
      intros Hw. specialize (F3 (He Hw)) as [_ F3].
      destruct Hg as (Hg1 & Hg2 & _). rewrite (create_reads empty_schema name Hg1 Hg2) in F3, Ho. case_bool_decide; [done|]. by destruct F3.
Qed.

(** The statements of a test *)
Fixpoint run_test (ac : string) (sqls : list string) (w : TW) : TW :=
  match sqls with
  | [] => w
  | sql :: rest => run_test ac rest (exec (on_test_pool run_sql ac sql) w).2
  end.

Lemma run_test_uses name sqls w : good_name name -> Forall confined sqls -> uses name w (run_test (set_path name) sqls w).
Proof.
  intros Hg Hs. revert w. induction Hs as [|sql sqls Hc _ IH]; intros w; [reflexivity|]. cbn [run_test].
  etransitivity; [|apply IH]. by apply on_pool_uses.
Qed.

Lemma cleanup_drops name w :
  good_name name -> t_cleanup w = Some (quotePostgresIdentifier name, name) -> uuid_ossp (t_pg w) = Some "public" ->
  (forall n, n <> name -> schemas (t_pg (run_cleanup empty_schema w)) !! n = schemas (t_pg w) !! n) /\
  uuid_ossp (t_pg (run_cleanup empty_schema w)) = Some "public" /\
  (t_env w = [] -> schemas (t_pg (run_cleanup empty_schema w)) !! name = None).
Proof.
  intros (Hg1 & Hg2 & Hg3) Hc Hx. unfold run_cleanup. rewrite Hc. unfold or_log. set (w0 := with_pools _ _ w).
  destruct (exec _ w0) as [r w1] eqn:E. apply exec_cases in E as (_ & P & F).
  assert (Hfin : forall X : TW, t_pg X = t_pg w1 ->
    (forall n, n <> name -> schemas (t_pg X) !! n = schemas (t_pg w) !! n) /\ uuid_ossp (t_pg X) = Some "public" /\
    (t_env w = [] -> schemas (t_pg X) !! name = None)).
  { intros X ->. assert (Hd : forall session, run_ddl empty_schema (drop_schema (quotePostgresIdentifier name)) session (t_pg w0)
      = Ok (mkPostgres (delete name (schemas (t_pg w))) (Some "public") (advisory (t_pg w)))).
    { intros session. rewrite (drop_reads empty_schema name Hg1 Hg2). simpl. rewrite Hx. rewrite bool_decide_eq_false_2; [done|congruence]. }
    split_and!.
    - intros n Hn. destruct P as [[-> _]|[session Ho]]; [done|]. rewrite Hd in Ho. injection Ho as <-. simpl. by rewrite lookup_delete_ne.
    - destruct P as [[-> _]|[session Ho]]; [done|]. rewrite Hd in Ho. by injection Ho as <-.
    - intros He. specialize (F He) as [_ F]. rewrite Hd in F. destruct F as [_ ->]. apply lookup_delete_eq. }
  destruct r as [[]|e]; by apply Hfin.
Qed.

End Isolation.

(** ** Finding the migrations *)

(** A segment of a clean path *)
Definition segment (x : string) : Prop := (x ∉ [""; "."; ".."]) /\ "/"%char ∉ chars x.

(** The absolute path with these segments *)
Definition path_of (segs : list string) : string := match segs with [] => "/" | _ => String.concat "/" ("" :: segs) end.

Lemma split_none c l : c ∉ l -> split_list c l = [l].
Proof.
  induction l as [|x l IH]; intros Hc; [done|]. cbn [split_list]. apply not_elem_of_cons in Hc as [Hx Hc].
  destruct (Ascii.eqb_spec x c) as [->|]; [done|]. by rewrite IH.
Qed.

Lemma split_app c l l' : c ∉ l -> split_list c (l ++ c :: l') = l :: split_list c l'.
Proof.
  induction l as [|x l IH]; intros Hc; cbn [split_list app]; [by rewrite Ascii.eqb_refl|].
  apply not_elem_of_cons in Hc as [Hx Hc]. destruct (Ascii.eqb_spec x c) as [->|]; [done|]. by rewrite IH.
Qed.

(** Joined pieces are split into the pieces. *)
Lemma split_join x l : Forall (fun y => "/"%char ∉ chars y) (x :: l) -> Split (String.concat "/" (x :: l)) "/" = x :: l.
Proof.
  revert x. induction l as [|y l IH]; intros x [Hx Hl]%Forall_cons; unfold Split.
  - cbn [String.concat]. rewrite split_none by done. simpl. by rewrite text_chars.
  - change (String.concat "/" (x :: y :: l)) with (x +:+ "/" +:+ String.concat "/" (y :: l)).
    rewrite !chars_app. change (chars "/") with ["/"%char]. cbn [app]. rewrite split_app by done.
    specialize (IH y Hl). unfold Split in IH. cbn [map]. rewrite IH. f_equal. apply text_chars.
Qed.

Lemma join_slash x l : String.concat "/" (x :: l) +:+ "/" = String.concat "/" ((x :: l) ++ [""]).
Proof.
  revert x. induction l as [|y l IH]; intros x; [done|].
  change (String.concat "/" (x :: y :: l)) with (x +:+ "/" +:+ String.concat "/" (y :: l)).
  change (String.concat "/" ((x :: y :: l) ++ [""])) with (x +:+ "/" +:+ String.concat "/" ((y :: l) ++ [""])).
  rewrite <- IH. by rewrite !string_app_assoc.
Qed.

Lemma clean_keeps segs acc : Forall segment segs ->
  fold_left (fun acc seg => if bool_decide (seg ∈ [""; "."]) then acc else if String.eqb seg ".." then tl acc else seg :: acc)
    segs acc = reverse segs ++ acc.
Proof.
  revert acc. induction segs as [|x segs IH]; intros acc Hs; [done|]. apply Forall_cons in Hs as [[Hx _] Hs]. cbn [fold_left].
  rewrite bool_decide_eq_false_2 by set_solver. destruct (String.eqb_spec x ".."); [set_solver|].
  rewrite IH by done. rewrite reverse_cons. by rewrite <- (assoc_L (++)).
Qed.

Lemma rooted_join y l :
  String.concat "" (map (fun seg => "/" +:+ seg) (y :: l)) = "/" +:+ String.concat "/" (y :: l).
Proof.
  revert y. induction l as [|z l IH]; intros y; [done|].
  change (String.concat "" (map (fun seg => "/" +:+ seg) (y :: z :: l)))
    with (("/" +:+ y) +:+ "" +:+ String.concat "" (map (fun seg => "/" +:+ seg) (z :: l))).
  rewrite IH, string_app_nil_l, string_app_assoc. done.
Qed.

Lemma Dir_drops segs x : Forall segment (segs ++ [x]) -> filepath_Dir (path_of (segs ++ [x])) = path_of segs.
Proof.
  intros Hs. apply Forall_app in Hs as [Hs Hx].
  assert (Hno : forall l, Forall segment l -> Forall (fun y => "/"%char ∉ chars y) l) by (intros l Hl; eapply Forall_impl; [exact Hl|]; by intros y []).
  unfold filepath_Dir. assert (path_of (segs ++ [x]) = String.concat "/" ("" :: segs ++ [x])) as -> by (by destruct segs).
  rewrite split_join by (constructor; [simpl; set_solver|apply Hno, Forall_app; by split]).
  change ("" :: segs ++ [x]) with (("" :: segs) ++ [x]). rewrite removelast_last, join_slash.
  unfold path_Clean, clean_segments. change (("" :: segs) ++ [""]) with ("" :: segs ++ [""]).
  rewrite split_join by (constructor; [simpl; set_solver|apply Forall_app; split; [by apply Hno|]; repeat constructor; simpl; set_solver]).
  cbn [fold_left]. rewrite fold_left_app, (clean_keeps segs) by done. cbn [fold_left].
  change (bool_decide ("" ∈ [""; "."])) with true. cbv iota. rewrite (right_id_L [] (++)), reverse_involutive.
  destruct segs as [|y segs]; [done|]. apply rooted_join.
Qed.

Lemma Dir_root : filepath_Dir (path_of []) = path_of [].
Proof. vm_compute. reflexivity. Qed.

Lemma path_of_length segs : Forall segment segs -> (length segs <= String.length (path_of segs))%nat.
Proof.
  intros Hs. destruct segs as [|x l]; [simpl; lia|]. unfold path_of.
  change (String.concat "/" ("" :: x :: l)) with ("/" +:+ String.concat "/" (x :: l)). rewrite string_app_length. simpl String.length.
  assert (length (x :: l) <= S (String.length (String.concat "/" (x :: l))))%nat; [|simpl in *; lia]. clear Hs.
  revert x. induction l as [|y l IH]; intros x; [simpl; lia|].
  change (String.concat "/" (x :: y :: l)) with (x +:+ "/" +:+ String.concat "/" (y :: l)). rewrite !string_app_length.
  specialize (IH y). simpl in *. lia.
Qed.

Lemma path_of_inj_parent segs x : Forall segment (segs ++ [x]) -> path_of segs <> path_of (segs ++ [x]).
Proof.
  intros Hs Heq. assert (Hlen : forall l, path_of (l ++ [x]) = String.concat "/" ("" :: l ++ [x])) by (by intros []).
  pose proof (f_equal (fun p => Split p "/") Heq) as Hsp. cbv beta in Hsp. rewrite Hlen in Hsp.
  assert (Hno : forall l, Forall segment l -> Forall (fun y => "/"%char ∉ chars y) ("" :: l)).
  { intros l Hl. constructor; [simpl; set_solver|]. eapply Forall_impl; [exact Hl|]. by intros y []. }
  rewrite split_join in Hsp by (by apply Hno). destruct segs as [|y segs].
  - apply Forall_cons in Hs as [[Hx _] _]. vm_compute in Hsp. injection Hsp as <-. set_solver.
  - unfold path_of in Hsp. apply Forall_app in Hs as [Hs _]. rewrite split_join in Hsp by (by apply Hno).
    apply (f_equal length) in Hsp. simpl in Hsp. rewrite length_app in Hsp. simpl in Hsp. lia.
Qed.

(** A directory that is the root of the repository *)
Definition is_root (fs : Files) (dir : string) : bool :=
  fileExists fs (filepath_Join dir "go.mod") && dirExists fs (filepath_Join dir "migrations").

(** The nearest directory at or above [segs] that is a root *)
Definition nearest (fs : Files) (segs : list string) (found : option string) : Prop :=
  match found with
  | Some d => exists k, (k <= length segs)%nat /\ is_root fs (path_of (take k segs)) = true /\
                d = filepath_Join (path_of (take k segs)) "migrations" /\
                forall j, (k < j <= length segs)%nat -> is_root fs (path_of (take j segs)) = false
  | None => forall j, (j <= length segs)%nat -> is_root fs (path_of (take j segs)) = false
  end.

Lemma nearest_up fs segs x found :
  is_root fs (path_of (segs ++ [x])) = false -> nearest fs segs found -> nearest fs (segs ++ [x]) found.
Proof.
  intros Hno. unfold nearest. rewrite length_app. simpl.
  assert (Htake : forall j, (j <= length segs)%nat -> take j (segs ++ [x]) = take j segs) by (intros; by apply take_app_le).
  assert (Hall : take (length segs + 1) (segs ++ [x]) = segs ++ [x]) by (apply take_ge; rewrite length_app; simpl; lia).
  destruct found as [d|].
  - intros (k & Hk & Hr & -> & Hj). exists k. rewrite Htake by done. split_and!; [lia|done|done|]. intros j Hjk.
    destruct (decide (j = length segs + 1)%nat) as [->|]; [by rewrite Hall|]. rewrite Htake by lia. apply Hj. lia.
  - intros Hj j Hjk. destruct (decide (j = length segs + 1)%nat) as [->|]; [by rewrite Hall|]. rewrite Htake by lia. apply Hj. lia.
Qed.

Lemma find_loop_nearest fs segs : Forall segment segs -> forall fuel, (length segs < fuel)%nat ->
  exists found, find_loop fuel fs (path_of segs) = Some found /\ nearest fs segs found.
Proof.
  induction segs as [|x segs IH] using rev_ind; intros Hs fuel Hf; (destruct fuel as [|fuel]; [lia|]); cbn [find_loop]; cbv zeta.
  - fold (is_root fs (path_of [])). destruct (is_root fs (path_of [])) eqn:Er.
    + eexists. split; [reflexivity|]. exists 0%nat. split_and!; [simpl; lia|done|done|simpl; lia].
    + rewrite Dir_root, String.eqb_refl. exists None. split; [done|]. intros j Hj. simpl in Hj. by replace j with 0%nat by lia.
  - fold (is_root fs (path_of (segs ++ [x]))). rewrite length_app in Hf. simpl in Hf.
    destruct (is_root fs (path_of (segs ++ [x]))) eqn:Er.
    + eexists. split; [reflexivity|]. exists (length (segs ++ [x])). rewrite take_ge by done. split_and!; [done|done|done|lia].
    + rewrite Dir_drops by done. rewrite (proj2 (String.eqb_neq _ _)) by (by apply path_of_inj_parent).
      apply Forall_app in Hs as [Hs _]. destruct (IH Hs fuel) as (found & -> & Hn); [lia|].
      exists found. split; [done|]. by apply nearest_up.
Qed.

(** The search for the migrations ends and finds the nearest root.  From every
    working directory, with any files, the loop that walks up the directories ends
    within as many rounds as the path has characters, and one more; the result is
    the migrations directory of the nearest directory at or above it that has
    go.mod and migrations, and the test fails exactly when there is none. *)
Theorem findMigrationsDir_nearest {C} fs segs (w : TestWorld (C:=C)) :
  getwd fs = Ok (path_of segs) -> Forall segment segs ->
  exists found, find_loop (S (String.length (path_of segs))) fs (path_of segs) = Some found /\ nearest fs segs found /\
    findMigrationsDir fs w =
      (match found with
       | Some d => Ok d
       | None => Err (Fatal "could not find repository root containing go.mod and migrations")
       end, w).
Proof.
  intros Hwd Hs. destruct (find_loop_nearest fs segs Hs (S (String.length (path_of segs)))) as (found & Hf & Hn).
  { pose proof (path_of_length segs Hs). lia. }
  exists found. split_and!; [done|done|]. unfold findMigrationsDir, gbind, or_fatal, lift_res. rewrite Hwd, Hf. by destruct found.
Qed.

(** ** The lock of the extension setup *)

(** The lock is the session's, and each call on the pool may be served by another
    session: the lock is released only if the last call is served by the session of
    the first.  Otherwise it stays, until the pool is closed at the end of the test,
    and nothing is reported. *)
Theorem unlock_needs_its_session {C} (w : TestWorld (C:=C)) a b c d :
  t_env w = [(NoFault, a); (NoFault, b); (NoFault, c); (NoFault, d)] -> is_Some (schemas (t_pg w) !! "public") ->
  exists w', ensureUUIDExtension w = (Ok tt, w') /\ t_log w' = t_log w /\ uuid_ossp (t_pg w') = Some "public" /\
    advisory (t_pg w') = if decide (a = d) then None else Some a.
Proof.
  intros He Hp. unfold ensureUUIDExtension, defer, gbind, or_fatal, or_log, exec. rewrite He. simpl.
  unfold create_extension, alter_extension, in_public. simpl.
  destruct (uuid_ossp (t_pg w)); simpl; rewrite ?(bool_decide_eq_true_2 _ Hp); simpl; rewrite ?(bool_decide_eq_true_2 _ Hp); simpl;
    (eexists; split; [reflexivity|]; simpl; unfold advisory_unlock; simpl); destruct (decide (a = d)) as [->|Hne];
    repeat case_bool_decide; simplify_eq; done.
Qed.

(** ** Runs *)

(** A checkout whose package is two directories below the root *)
Definition checkout : Files :=
  mkFiles (list_to_map [("/src/go.mod", File "module eventrail"); ("/src/migrations", Directory);
                        ("/src/migrations/001_a.sql", File "a"); ("/src/migrations/002_b.sql", File "b");
                        ("/src/migrations/migrate.go", File "package migrations")])
    (Ok "/src/internal/operations").

(** The objects of a schema: the texts that were run.  They run in the first schema of
    the path that exists; the extension is created there if it is not anywhere. *)
Definition sim_run (path : list string) (sql : string) (pg : Postgres_ (C:=list string)) : res error (Postgres_ (C:=list string)) :=
  match filter (fun n => is_Some (schemas pg !! n)) path with
  | [] => Err (sql_error "no schema has been selected to create in")
  | name :: _ =>
      Ok (mkPostgres (alter (fun c => c ++ [sql]) name (schemas pg))
            (match uuid_ossp pg with Some n => Some n | None => Some name end) (advisory pg))
  end.

Lemma sim_run_confined sql : confined sim_run sql.
Proof.
  intros name pg pg' [Hn Hx] H. unfold sim_run in H. rewrite filter_cons_True in H by done. injection H as <-.
  unfold ready. simpl. rewrite Hx, lookup_alter_eq. split; [split; [by apply fmap_is_Some|done]|]. intros n Hne. by rewrite lookup_alter_ne.
Qed.

Definition test_world : TestWorld (C:=list string) :=
  mkTestWorld (mkPostgres {["public" := []]} None None) [] [] None false false.

Lemma findMigrationsDir_nearest_witness :
  exists found, nearest checkout ["src"; "internal"; "operations"] found /\
    findMigrationsDir checkout test_world =
      (match found with
       | Some d => Ok d
       | None => Err (Fatal "could not find repository root containing go.mod and migrations")
       end, test_world) /\ found = Some "/src/migrations".
Proof.
  destruct (findMigrationsDir_nearest checkout ["src"; "internal"; "operations"] test_world eq_refl) as (found & Hf & Hn & He).
  - repeat constructor; vm_compute; set_solver.
  - exists found. split; [exact Hn|]. split; [exact He|]. vm_compute in Hf. injection Hf as <-. reflexivity.
Defined.

Definition made_pool :=
  NewPostgresPool [] sim_run (fun _ => Ok []) (fun _ => Ok tt) (Ok tt) "postgres://localhost/test"
    (Ok [1; 2; 3; 4; 5; 6; 7; 255]%N) 1700000000000000000 checkout test_world.


End TestUtil.
